(** * USBPETKeyboard: matrix-keyboard firmware, scan / debounce / report engine

    Shallow embedding of the three Teensy sketches of the repository
    (the PET driver [USBPETKeyboard.ino], the VICE variant
    [USBPETKeyboardForVICE.ino] and the CBM 64 driver) and the properties
    of their debounce filter, report buffer, special-key handler and
    composition step.

    Conventions.
    - Fixed-width integers are [Z] with the wrap-around written out
      ([int8], [uint8], [int16], [uint32]).  The target is the 8-bit AVR
      of the Teensy++ 2.0, so [int] is 16 bits wide.
    - The global variables of a sketch are the fields of [state]; a function
      of the sketch is a computation [M A = state -> option (A * state)].
    - [None] is undefined behaviour of the C++ program: control reaching the
      closing brace of a [bool] function without a [return], or a read past
      the end of a table.
    - A scan cycle calls debounce for every key of the matrix and the
      table has six entries, so that in almost every cycle some call
      reaches the closing brace.  The properties of whole cycles are
      therefore stated over [Sketch], the same functions with debounce as
      a parameter, at [debounce_or fallback]: debounce with the value of
      such a call given by an arbitrary function of the key and of the
      globals.  They hold for every [fallback], and the cycles of the
      sketch as written that are defined are among them.
    - The USB library object [Keyboard] is modelled by its interface only:
      the arguments last passed to [set_key1] .. [set_key6] and
      [set_modifier], and the list of reports flushed by [send_now].
    - The pins, [delay] and the serial port are modelled the same way, in
      [board]; the functions that touch them are computations [IO A] over
      a board and the globals. *)

From Stdlib Require Import String.
From Stdlib Require Import ZArith List Bool Lia.
From Stdlib Require Import DecimalString.
Import ListNotations.
Local Open Scope Z_scope.


(** ** Machine integers *)

Definition int8 (z : Z) : Z := (z + 128) mod 256 - 128.
Definition uint8 (z : Z) : Z := z mod 256.
Definition int16 (z : Z) : Z := (z + 32768) mod 65536 - 32768.
Definition uint32 (z : Z) : Z := z mod 4294967296.

(** [a | b], [a & ~b] and [a ^ b] on an [int] left operand. *)
Definition bit_or (a b : Z) : Z := int16 (Z.lor a b).
Definition bit_clear (a b : Z) : Z := int16 (Z.land a (Z.lnot b)).
Definition bit_xor (a b : Z) : Z := int16 (Z.lxor a b).

(** ** Arrays *)

Fixpoint upd {A : Type} (i : nat) (v : A) (l : list A) : list A :=
  match l, i with
  | [], _ => []
  | _ :: t, O => v :: t
  | h :: t, S j => h :: upd j v t
  end.

(** [for (i = start; i < start + n; i++) if (p i) { ...; break; }] :
    the index at which the loop is left, if any. *)
Fixpoint find_index (n i : nat) (p : nat -> bool) : option nat :=
  match n with
  | O => None
  | S n' => if p i then Some i else find_index n' (S i) p
  end.

(** ** Key and modifier codes

    The sketches take these names from the Teensy core header
    [keylayouts.h]: a HID usage id tagged with 0xF000 for a key and a
    modifier bit tagged with 0xE000 for a modifier. *)

Definition key (usage : Z) : Z := Z.lor usage 0xF000.
Definition modifierkey (bit : Z) : Z := Z.lor bit 0xE000.

Definition MODIFIERKEY_CTRL := modifierkey 0x01.
Definition MODIFIERKEY_SHIFT := modifierkey 0x02.
Definition MODIFIERKEY_ALT := modifierkey 0x04.
Definition MODIFIERKEY_GUI := modifierkey 0x08.
Definition MODIFIERKEY_LEFT_SHIFT := modifierkey 0x02.
Definition MODIFIERKEY_LEFT_ALT := modifierkey 0x04.
Definition MODIFIERKEY_RIGHT_SHIFT := modifierkey 0x20.
Definition MODIFIERKEY_RIGHT_ALT := modifierkey 0x40.

Definition KEY_A := key 4.
Definition KEY_B := key 5.
Definition KEY_C := key 6.
Definition KEY_D := key 7.
Definition KEY_E := key 8.
Definition KEY_F := key 9.
Definition KEY_G := key 10.
Definition KEY_H := key 11.
Definition KEY_I := key 12.
Definition KEY_J := key 13.
Definition KEY_K := key 14.
Definition KEY_L := key 15.
Definition KEY_M := key 16.
Definition KEY_N := key 17.
Definition KEY_O := key 18.
Definition KEY_P := key 19.
Definition KEY_Q := key 20.
Definition KEY_R := key 21.
Definition KEY_S := key 22.
Definition KEY_T := key 23.
Definition KEY_U := key 24.
Definition KEY_V := key 25.
Definition KEY_W := key 26.
Definition KEY_X := key 27.
Definition KEY_Y := key 28.
Definition KEY_Z := key 29.
Definition KEY_1 := key 30.
Definition KEY_2 := key 31.
Definition KEY_3 := key 32.
Definition KEY_4 := key 33.
Definition KEY_5 := key 34.
Definition KEY_6 := key 35.
Definition KEY_7 := key 36.
Definition KEY_8 := key 37.
Definition KEY_9 := key 38.
Definition KEY_0 := key 39.
Definition KEY_ENTER := key 40.
Definition KEY_ESC := key 41.
Definition KEY_BACKSPACE := key 42.
Definition KEY_TAB := key 43.
Definition KEY_SPACE := key 44.
Definition KEY_MINUS := key 45.
Definition KEY_EQUAL := key 46.
Definition KEY_LEFT_BRACE := key 47.
Definition KEY_RIGHT_BRACE := key 48.
Definition KEY_BACKSLASH := key 49.
Definition KEY_SEMICOLON := key 51.
Definition KEY_QUOTE := key 52.
Definition KEY_TILDE := key 53.
Definition KEY_COMMA := key 54.
Definition KEY_PERIOD := key 55.
Definition KEY_SLASH := key 56.
Definition KEY_CAPS_LOCK := key 57.
Definition KEY_F1 := key 58.
Definition KEY_F2 := key 59.
Definition KEY_F3 := key 60.
Definition KEY_F4 := key 61.
Definition KEY_F5 := key 62.
Definition KEY_F6 := key 63.
Definition KEY_F7 := key 64.
Definition KEY_F8 := key 65.
Definition KEY_F9 := key 66.
Definition KEY_F10 := key 67.
Definition KEY_F11 := key 68.
Definition KEY_F12 := key 69.
Definition KEY_HOME := key 74.
Definition KEY_DELETE := key 76.
Definition KEY_END := key 77.
Definition KEY_RIGHT := key 79.
Definition KEY_LEFT := key 80.
Definition KEY_DOWN := key 81.
Definition KEY_UP := key 82.
Definition KEYPAD_SLASH := key 84.
Definition KEYPAD_ASTERIX := key 85.
Definition KEYPAD_MINUS := key 86.
Definition KEYPAD_PLUS := key 87.
Definition KEYPAD_1 := key 89.
Definition KEYPAD_2 := key 90.
Definition KEYPAD_3 := key 91.
Definition KEYPAD_4 := key 92.
Definition KEYPAD_5 := key 93.
Definition KEYPAD_6 := key 94.
Definition KEYPAD_7 := key 95.
Definition KEYPAD_8 := key 96.
Definition KEYPAD_9 := key 97.
Definition KEYPAD_0 := key 98.
Definition KEYPAD_PERIOD := key 99.

(** Pin levels read by [digitalRead]. *)
Definition LOW : bool := false.
Definition HIGH : bool := true.

(** ** Global state of a sketch *)

(** One HID report as handed to the transport: the modifier argument and
    the six key arguments. *)
Definition report : Type := Z * list Z.

Record state : Type := mkState {
  debounceKeys : list (Z * Z);   (* int8_t debounceKeys[6][2]: keyId, countdown *)
  usbKeys : list Z;              (* int8_t usbKeys[6] *)
  keysUsed : Z;                  (* uint8_t *)
  lShift : bool;
  rShift : bool;
  lArrow : bool;
  rArrow : bool;
  rAlt : bool;                   (* VICE variant *)
  lAlt : bool;                   (* VICE variant *)
  modifiers : Z;                 (* int *)
  keyStateChange : bool;
  previousMillis : Z;            (* VICE variant, unsigned long *)
  altLockActive : bool;          (* VICE variant *)
  kbKeys : list Z;               (* Keyboard: arguments of set_key1..6 *)
  kbModifier : Z;                (* Keyboard: argument of set_modifier *)
  sent : list report;            (* Keyboard: reports flushed by send_now *)
  tones : list (Z * Z * Z);      (* tone(pin, frequency, duration) calls *)
  serial : list string           (* Serial.println lines *)
}.

Definition initial : state :=
  mkState [(0,0);(0,0);(0,0);(0,0);(0,0);(0,0)]
          [-1;-1;-1;-1;-1;-1] 0
          false false false false false false
          0 false 0 false
          [0;0;0;0;0;0] 0 [] [] [].

Definition set_debounceKeys (v : list (Z * Z)) (s : state) : state :=
  mkState v (usbKeys s) (keysUsed s) (lShift s) (rShift s) (lArrow s)
    (rArrow s) (rAlt s) (lAlt s) (modifiers s) (keyStateChange s)
    (previousMillis s) (altLockActive s) (kbKeys s) (kbModifier s) (sent s)
    (tones s) (serial s).
Definition set_usbKeys (v : list Z) (s : state) : state :=
  mkState (debounceKeys s) v (keysUsed s) (lShift s) (rShift s) (lArrow s)
    (rArrow s) (rAlt s) (lAlt s) (modifiers s) (keyStateChange s)
    (previousMillis s) (altLockActive s) (kbKeys s) (kbModifier s) (sent s)
    (tones s) (serial s).
Definition set_keysUsed (v : Z) (s : state) : state :=
  mkState (debounceKeys s) (usbKeys s) v (lShift s) (rShift s) (lArrow s)
    (rArrow s) (rAlt s) (lAlt s) (modifiers s) (keyStateChange s)
    (previousMillis s) (altLockActive s) (kbKeys s) (kbModifier s) (sent s)
    (tones s) (serial s).
Definition set_lShift (v : bool) (s : state) : state :=
  mkState (debounceKeys s) (usbKeys s) (keysUsed s) v (rShift s) (lArrow s)
    (rArrow s) (rAlt s) (lAlt s) (modifiers s) (keyStateChange s)
    (previousMillis s) (altLockActive s) (kbKeys s) (kbModifier s) (sent s)
    (tones s) (serial s).
Definition set_rShift (v : bool) (s : state) : state :=
  mkState (debounceKeys s) (usbKeys s) (keysUsed s) (lShift s) v (lArrow s)
    (rArrow s) (rAlt s) (lAlt s) (modifiers s) (keyStateChange s)
    (previousMillis s) (altLockActive s) (kbKeys s) (kbModifier s) (sent s)
    (tones s) (serial s).
Definition set_lArrow (v : bool) (s : state) : state :=
  mkState (debounceKeys s) (usbKeys s) (keysUsed s) (lShift s) (rShift s) v
    (rArrow s) (rAlt s) (lAlt s) (modifiers s) (keyStateChange s)
    (previousMillis s) (altLockActive s) (kbKeys s) (kbModifier s) (sent s)
    (tones s) (serial s).
Definition set_rArrow (v : bool) (s : state) : state :=
  mkState (debounceKeys s) (usbKeys s) (keysUsed s) (lShift s) (rShift s)
    (lArrow s) v (rAlt s) (lAlt s) (modifiers s) (keyStateChange s)
    (previousMillis s) (altLockActive s) (kbKeys s) (kbModifier s) (sent s)
    (tones s) (serial s).
Definition set_rAlt (v : bool) (s : state) : state :=
  mkState (debounceKeys s) (usbKeys s) (keysUsed s) (lShift s) (rShift s)
    (lArrow s) (rArrow s) v (lAlt s) (modifiers s) (keyStateChange s)
    (previousMillis s) (altLockActive s) (kbKeys s) (kbModifier s) (sent s)
    (tones s) (serial s).
Definition set_lAlt (v : bool) (s : state) : state :=
  mkState (debounceKeys s) (usbKeys s) (keysUsed s) (lShift s) (rShift s)
    (lArrow s) (rArrow s) (rAlt s) v (modifiers s) (keyStateChange s)
    (previousMillis s) (altLockActive s) (kbKeys s) (kbModifier s) (sent s)
    (tones s) (serial s).
Definition set_modifiers (v : Z) (s : state) : state :=
  mkState (debounceKeys s) (usbKeys s) (keysUsed s) (lShift s) (rShift s)
    (lArrow s) (rArrow s) (rAlt s) (lAlt s) v (keyStateChange s)
    (previousMillis s) (altLockActive s) (kbKeys s) (kbModifier s) (sent s)
    (tones s) (serial s).
Definition set_keyStateChange (v : bool) (s : state) : state :=
  mkState (debounceKeys s) (usbKeys s) (keysUsed s) (lShift s) (rShift s)
    (lArrow s) (rArrow s) (rAlt s) (lAlt s) (modifiers s) v
    (previousMillis s) (altLockActive s) (kbKeys s) (kbModifier s) (sent s)
    (tones s) (serial s).
Definition set_previousMillis (v : Z) (s : state) : state :=
  mkState (debounceKeys s) (usbKeys s) (keysUsed s) (lShift s) (rShift s)
    (lArrow s) (rArrow s) (rAlt s) (lAlt s) (modifiers s) (keyStateChange s)
    v (altLockActive s) (kbKeys s) (kbModifier s) (sent s)
    (tones s) (serial s).
Definition set_altLockActive (v : bool) (s : state) : state :=
  mkState (debounceKeys s) (usbKeys s) (keysUsed s) (lShift s) (rShift s)
    (lArrow s) (rArrow s) (rAlt s) (lAlt s) (modifiers s) (keyStateChange s)
    (previousMillis s) v (kbKeys s) (kbModifier s) (sent s)
    (tones s) (serial s).
Definition set_kbKeys (v : list Z) (s : state) : state :=
  mkState (debounceKeys s) (usbKeys s) (keysUsed s) (lShift s) (rShift s)
    (lArrow s) (rArrow s) (rAlt s) (lAlt s) (modifiers s) (keyStateChange s)
    (previousMillis s) (altLockActive s) v (kbModifier s) (sent s)
    (tones s) (serial s).
Definition set_kbModifier (v : Z) (s : state) : state :=
  mkState (debounceKeys s) (usbKeys s) (keysUsed s) (lShift s) (rShift s)
    (lArrow s) (rArrow s) (rAlt s) (lAlt s) (modifiers s) (keyStateChange s)
    (previousMillis s) (altLockActive s) (kbKeys s) v (sent s)
    (tones s) (serial s).
Definition set_sent (v : list report) (s : state) : state :=
  mkState (debounceKeys s) (usbKeys s) (keysUsed s) (lShift s) (rShift s)
    (lArrow s) (rArrow s) (rAlt s) (lAlt s) (modifiers s) (keyStateChange s)
    (previousMillis s) (altLockActive s) (kbKeys s) (kbModifier s) v
    (tones s) (serial s).
Definition set_tones (v : list (Z * Z * Z)) (s : state) : state :=
  mkState (debounceKeys s) (usbKeys s) (keysUsed s) (lShift s) (rShift s)
    (lArrow s) (rArrow s) (rAlt s) (lAlt s) (modifiers s) (keyStateChange s)
    (previousMillis s) (altLockActive s) (kbKeys s) (kbModifier s) (sent s)
    v (serial s).
Definition set_serial (v : list string) (s : state) : state :=
  mkState (debounceKeys s) (usbKeys s) (keysUsed s) (lShift s) (rShift s)
    (lArrow s) (rArrow s) (rAlt s) (lAlt s) (modifiers s) (keyStateChange s)
    (previousMillis s) (altLockActive s) (kbKeys s) (kbModifier s) (sent s)
    (tones s) v.

(** ** The computation monad *)

Definition M (A : Type) : Type := state -> option (A * state).

Definition ret {A : Type} (a : A) : M A := fun s => Some (a, s).
Definition bind {A B : Type} (m : M A) (f : A -> M B) : M B :=
  fun s => match m s with
           | Some (a, s') => f a s'
           | None => None
           end.
Definition undefined {A : Type} : M A := fun _ => None.
Definition get {A : Type} (f : state -> A) : M A := fun s => Some (f s, s).
Definition modify (f : state -> state) : M unit := fun s => Some (tt, f s).

Notation "x <- c1 ;; c2" := (bind c1 (fun x => c2))
  (at level 61, c1 at next level, right associativity).
Notation "c1 ;; c2" := (bind c1 (fun _ => c2))
  (at level 61, right associativity).

(** [table[keyId]]; reading past the end of the table is undefined. *)
Definition index {A : Type} (table : list A) (keyId : Z) : M A :=
  if keyId <? 0 then undefined
  else match nth_error table (Z.to_nat keyId) with
       | Some v => ret v
       | None => undefined
       end.

(** [for (i = 0; i < n; i++) body(i)] *)
Fixpoint for_loop (n : nat) (i : Z) (body : Z -> M unit) : M unit :=
  match n with
  | O => ret tt
  | S n' => body i ;; for_loop n' (i + 1) body
  end.

(** ** The Keyboard object and the other collaborators *)

Definition Keyboard_set_key (slot : nat) (c : Z) : M unit :=
  modify (fun s => set_kbKeys (upd slot c (kbKeys s)) s).
Definition Keyboard_set_key1 := Keyboard_set_key 0.
Definition Keyboard_set_key2 := Keyboard_set_key 1.
Definition Keyboard_set_key3 := Keyboard_set_key 2.
Definition Keyboard_set_key4 := Keyboard_set_key 3.
Definition Keyboard_set_key5 := Keyboard_set_key 4.
Definition Keyboard_set_key6 := Keyboard_set_key 5.
Definition Keyboard_set_modifier (m : Z) : M unit :=
  modify (set_kbModifier m).
Definition Keyboard_send_now : M unit :=
  modify (fun s => set_sent (sent s ++ [(kbModifier s, kbKeys s)]) s).

(** The [switch (keyNum + 1)] that ends [setKey] and [checkRelease]. *)
Definition set_key_switch (n : nat) (c : Z) : M unit :=
  match n with
  | 1%nat => Keyboard_set_key1 c
  | 2%nat => Keyboard_set_key2 c
  | 3%nat => Keyboard_set_key3 c
  | 4%nat => Keyboard_set_key4 c
  | 5%nat => Keyboard_set_key5 c
  | 6%nat => Keyboard_set_key6 c
  | _ => ret tt
  end.

Definition tone (pin frequency duration : Z) : M unit :=
  modify (fun s => set_tones (tones s ++ [(pin, frequency, duration)]) s).
Definition Serial_println (line : string) : M unit :=
  modify (fun s => set_serial (serial s ++ [line]) s).

(** ** debounce

    The function is the same text in the three sketches. *)

Definition DEBOUNCE_DELAY : Z := 2.

(** First loop: look for the entry that tracks [keyId]. *)
Fixpoint debounce_tracked (n i : nat) (keyId : Z) (dk : list (Z * Z))
  : option (bool * list (Z * Z)) :=
  match n with
  | O => None
  | S n' =>
    let '(k, c) := nth i dk (0, 0) in
    if k =? keyId then
      if negb (c =? 1) then Some (true, upd i (k, int8 (c - 1)) dk)
      else if c =? 1 then Some (false, upd i (k, 0) dk)
      else if c =? 0 then Some (true, upd i (k, int8 DEBOUNCE_DELAY) dk)
      else debounce_tracked n' (S i) keyId dk
    else debounce_tracked n' (S i) keyId dk
  end.

(** Second loop: take the first entry whose countdown is 0. *)
Fixpoint debounce_new (n i : nat) (keyId : Z) (dk : list (Z * Z))
  : option (bool * list (Z * Z)) :=
  match n with
  | O => None
  | S n' =>
    let '(_, c) := nth i dk (0, 0) in
    if c =? 0 then Some (true, upd i (int8 keyId, int8 DEBOUNCE_DELAY) dk)
    else debounce_new n' (S i) keyId dk
  end.

(** The two loops in sequence on the table.  [None]: neither loop executed
    a [return], control reaches the end of the function. *)
Definition debounce_table (keyId : Z) (dk : list (Z * Z))
  : option (bool * list (Z * Z)) :=
  match debounce_tracked 6 0 keyId dk with
  | Some r => Some r
  | None => debounce_new 6 0 keyId dk
  end.

Definition debounce (keyId : Z) : M bool :=
  fun s => match debounce_table keyId (debounceKeys s) with
           | Some (suppress, dk) => Some (suppress, set_debounceKeys dk s)
           | None => None
           end.

(** ** switch statements

    A [case] block is its label, its statements and whether it ends in
    [break].  The statements receive the local [isSpecial] and either
    execute a [return] or run to the end of the block. *)

Inductive ctl : Type :=
| Returned (v : bool)
| Next (isSpecial : bool).

Record case_block : Type := Case {
  label : Z;
  body : Z -> bool -> bool -> M ctl;
  has_break : bool
}.

(** Statement sequencing inside a function body: what follows a statement
    runs only if the statement did not return. *)
Definition then_ (m : M ctl) (k : bool -> M ctl) : M ctl :=
  r <- m ;;
  match r with
  | Returned v => ret (Returned v)
  | Next isSpecial => k isSpecial
  end.

(** Execution from the first statement of a block: a block without [break]
    continues into the block that follows it. *)
Fixpoint run_cases (cs : list case_block) (keyId : Z) (level : bool)
  (isSpecial : bool) : M ctl :=
  match cs with
  | [] => ret (Next isSpecial)
  | c :: rest =>
    then_ (body c keyId level isSpecial)
          (fun isSpecial' =>
             if has_break c then ret (Next isSpecial')
             else run_cases rest keyId level isSpecial')
  end.

(** Jump to the first label equal to the scrutinee; no [default]. *)
Fixpoint switch (cs : list case_block) (keyId : Z) (level : bool)
  (isSpecial : bool) : M ctl :=
  match cs with
  | [] => ret (Next isSpecial)
  | c :: rest =>
    if label c =? keyId then run_cases cs keyId level isSpecial
    else switch rest keyId level isSpecial
  end.

(** [if (debounce(keyId)) return true;] *)
Definition return_if_debounce (keyId : Z) (isSpecial : bool) : M ctl :=
  d <- debounce keyId ;;
  if d then ret (Returned true) else ret (Next isSpecial).

(** ** The code shared by the PET driver and its VICE variant

    [checkRelease], [setKey], the control-key case, the two cursor cases and
    the scan loops are the same text in USBPETKeyboard.ino and in
    USBPETKeyboardForVICE.ino; the sketches differ in their tables. *)

Module Engine.
Section Tables.

Variable KEY_CODES : list Z.
Variable KEY_CODES_SHIFT_NEEDED : list bool.

Definition checkRelease (keyId : Z) : M unit :=
  d <- debounce keyId ;;
  if d then ret tt else
  keys <- get usbKeys ;;
  match find_index 6 0 (fun keyNum => nth keyNum keys 0 =? keyId) with
  | None => ret tt
  | Some keyNum =>
    modify (set_usbKeys (upd keyNum (-1) keys)) ;;
    modify (fun s => set_keysUsed (uint8 (keysUsed s - 1)) s) ;;
    need <- index KEY_CODES_SHIFT_NEEDED keyId ;;
    (if need : bool
     then modify (fun s => set_modifiers (bit_clear (modifiers s) MODIFIERKEY_SHIFT) s)
     else ret tt) ;;
    modify (set_keyStateChange true) ;;
    set_key_switch (keyNum + 1) 0
  end.

Definition setKey (keyId keyCode : Z) : M bool :=
  used <- get keysUsed ;;
  if used =? 6 then ret false else
  d <- debounce keyId ;;
  if d then ret false else
  keys <- get usbKeys ;;
  match find_index 6 0 (fun keyNum => nth keyNum keys 0 =? keyId) with
  | Some _ => ret true
  | None =>
    match find_index 6 0 (fun keyNum => nth keyNum keys 0 =? -1) with
    | None => ret false
    | Some keyNum =>
      modify (set_usbKeys (upd keyNum (int8 keyId) keys)) ;;
      modify (fun s => set_keysUsed (uint8 (keysUsed s + 1)) s) ;;
      need <- index KEY_CODES_SHIFT_NEEDED keyId ;;
      (if need : bool
       then modify (fun s => set_modifiers (bit_or (modifiers s) MODIFIERKEY_SHIFT) s)
       else ret tt) ;;
      modify (set_keyStateChange true) ;;
      code <- index KEY_CODES keyId ;;
      let keyToSet := if negb (keyCode =? 0) then keyCode else code in
      set_key_switch (keyNum + 1) keyToSet ;;
      ret true
    end
  end.

(** Control: case 72 of the PET driver, case 76 of the VICE variant. *)
Definition case_control (keyId : Z) (level : bool) (isSpecial : bool) : M ctl :=
  then_ (if Bool.eqb level LOW
         then then_ (return_if_debounce keyId isSpecial) (fun isSpecial =>
              modify (fun s => set_modifiers (bit_or (modifiers s) MODIFIERKEY_CTRL) s) ;;
              modify (set_keyStateChange true) ;;
              ret (Next isSpecial))
         else then_ (return_if_debounce keyId isSpecial) (fun isSpecial =>
              modify (fun s => set_modifiers (bit_clear (modifiers s) MODIFIERKEY_CTRL) s) ;;
              modify (set_keyStateChange true) ;;
              ret (Next isSpecial))) (fun _ =>
  ret (Next true)).

(** Horizontal CRSR, case 7. *)
Definition case_7 (keyId : Z) (level : bool) (isSpecial : bool) : M ctl :=
  (if Bool.eqb level LOW
   then l <- get lShift ;;
        r <- get rShift ;;
        (if l || r then setKey keyId KEY_LEFT else setKey keyId KEY_RIGHT) ;;
        modify (set_rArrow true)
   else checkRelease keyId ;;
        modify (set_rArrow false)) ;;
  ret (Next true).

(** Vertical CRSR, case 14. *)
Definition case_14 (keyId : Z) (level : bool) (isSpecial : bool) : M ctl :=
  (if Bool.eqb level LOW
   then l <- get lShift ;;
        r <- get rShift ;;
        (if l || r then setKey keyId KEY_UP else setKey keyId KEY_DOWN) ;;
        modify (set_lArrow true)
   else checkRelease keyId ;;
        modify (set_lArrow false)) ;;
  ret (Next true).

Variable cases : list case_block.

Definition parseSpecial (keyId : Z) (level : bool) : M bool :=
  r <- switch cases keyId level false ;;
  match r with
  | Returned v => ret v
  | Next isSpecial => ret isSpecial
  end.

Variable DRIVE_COUNT SENSE_COUNT : nat.

Definition getKeyId (i j : Z) : Z := uint8 (i * Z.of_nat SENSE_COUNT + j).

(** One iteration of the inner scan loop.  [sense i j] is the level read on
    sense line [j] while drive line [i] is low; the two [digitalRead] calls
    of the iteration see the same level. *)
Definition scanKey (sense : Z -> Z -> bool) (i j : Z) : M unit :=
  let keyId := getKeyId i j in
  special <- parseSpecial keyId (sense i j) ;;
  if negb special then
    if Bool.eqb (sense i j) LOW then setKey keyId 0 ;; ret tt
    else checkRelease keyId
  else ret tt.

Definition detectKeys (sense : Z -> Z -> bool) : M unit :=
  for_loop DRIVE_COUNT 0 (fun i =>
    for_loop SENSE_COUNT 0 (fun j => scanKey sense i j)).

End Tables.
End Engine.

(** ** The PET driver, USBPETKeyboard.ino *)

Module PET.

Definition DRIVE_COUNT : nat := 10.
Definition SENSE_COUNT : nat := 8.

Definition KEY_CODES : list Z :=
  [ KEY_1; KEY_3; KEY_5; KEY_7; KEY_9; KEY_MINUS; KEY_0; KEY_0;
    KEY_QUOTE; KEY_4; KEY_QUOTE; KEY_BACKSLASH; KEY_0; KEY_0; KEY_0; KEY_BACKSPACE;
    KEY_Q; KEY_E; KEY_T; KEY_U; KEY_O; KEY_TAB; KEYPAD_7; KEYPAD_9;
    KEY_W; KEY_R; KEY_Y; KEY_I; KEY_P; KEY_0; KEYPAD_8; KEYPAD_SLASH;
    KEY_A; KEY_D; KEY_G; KEY_J; KEY_L; KEY_0; KEYPAD_4; KEYPAD_6;
    KEY_S; KEY_F; KEY_H; KEY_K; KEY_SEMICOLON; KEY_0; KEYPAD_5; KEYPAD_ASTERIX;
    KEY_Z; KEY_C; KEY_B; KEY_M; KEY_SEMICOLON; KEY_ENTER; KEYPAD_1; KEYPAD_3;
    KEY_X; KEY_V; KEY_N; KEY_COMMA; KEY_SLASH; KEY_0; KEYPAD_2; KEYPAD_PLUS;
    KEY_0; KEY_2; KEY_RIGHT_BRACE; KEY_0; KEY_PERIOD; KEY_0; KEYPAD_0; KEYPAD_MINUS;
    KEY_0; KEY_LEFT_BRACE; KEY_SPACE; KEY_COMMA; KEY_ESC; KEY_0; KEYPAD_PERIOD; KEY_EQUAL ].

Definition KEY_CODES_SHIFT_NEEDED : list bool :=
  map (fun b => negb (b =? 0))
  [ 1;1;1;1;1;0;0;0;
    1;1;0;0;1;0;0;0;
    0;0;0;0;0;0;0;0;
    0;0;0;0;0;0;0;0;
    0;0;0;0;0;0;0;0;
    0;0;0;0;1;0;0;0;
    0;0;0;0;0;0;0;0;
    0;0;0;0;1;0;0;0;
    0;1;0;0;1;0;0;0;
    0;0;0;1;0;0;0;0 ].

Definition checkRelease : Z -> M unit :=
  Engine.checkRelease KEY_CODES_SHIFT_NEEDED.
Definition setKey : Z -> Z -> M bool :=
  Engine.setKey KEY_CODES KEY_CODES_SHIFT_NEEDED.

(** Left shift *)
Definition case_64 (keyId : Z) (level : bool) (isSpecial : bool) : M ctl :=
  l <- get lShift ;;
  then_ (if Bool.eqb level LOW && Bool.eqb l false
         then then_ (return_if_debounce keyId isSpecial) (fun isSpecial =>
              modify (set_lShift true) ;;
              modify (set_keyStateChange true) ;;
              ret (Next isSpecial))
         else ret (Next isSpecial)) (fun isSpecial =>
  l <- get lShift ;;
  then_ (if Bool.eqb level HIGH && Bool.eqb l true
         then then_ (return_if_debounce keyId isSpecial) (fun isSpecial =>
              modify (set_lShift false) ;;
              modify (set_keyStateChange true) ;;
              ret (Next isSpecial))
         else ret (Next isSpecial)) (fun _ =>
  ret (Next true))).

(** Right shift *)
Definition case_69 (keyId : Z) (level : bool) (isSpecial : bool) : M ctl :=
  r <- get rShift ;;
  then_ (if Bool.eqb level LOW && Bool.eqb r false
         then then_ (return_if_debounce keyId isSpecial) (fun isSpecial =>
              modify (set_rShift true) ;;
              modify (set_keyStateChange true) ;;
              ret (Next isSpecial))
         else ret (Next isSpecial)) (fun isSpecial =>
  r <- get rShift ;;
  then_ (if Bool.eqb level HIGH && Bool.eqb r true
         then then_ (return_if_debounce keyId isSpecial) (fun isSpecial =>
              modify (set_rShift false) ;;
              modify (set_keyStateChange true) ;;
              ret (Next isSpecial))
         else ret (Next isSpecial)) (fun _ =>
  ret (Next true))).

Definition cases : list case_block :=
  [ Case 64 case_64 true;
    Case 69 case_69 true;
    Case 72 Engine.case_control true;
    Case 7 (Engine.case_7 KEY_CODES KEY_CODES_SHIFT_NEEDED) true;
    Case 14 (Engine.case_14 KEY_CODES KEY_CODES_SHIFT_NEEDED) true ].

Definition parseSpecial : Z -> bool -> M bool := Engine.parseSpecial cases.

Definition getKeyId : Z -> Z -> Z := Engine.getKeyId SENSE_COUNT.

Definition detectKeys : (Z -> Z -> bool) -> M unit :=
  Engine.detectKeys KEY_CODES KEY_CODES_SHIFT_NEEDED cases DRIVE_COUNT SENSE_COUNT.

(** The [if (keyStateChange) { ... }] statement of [loop]. *)
Definition sendUpdate : M unit :=
  changed <- get keyStateChange ;;
  if changed : bool then
    la <- get lArrow ;; ra <- get rArrow ;;
    ls <- get lShift ;; rs <- get rShift ;;
    (if negb (la || ra) && (ls || rs)
     then modify (fun s => set_modifiers (bit_or (modifiers s) MODIFIERKEY_SHIFT) s)
     else ret tt) ;;
    modify (set_keyStateChange false) ;;
    m <- get modifiers ;;
    Keyboard_set_modifier m ;;
    Keyboard_send_now ;;
    modify (fun s => set_modifiers (bit_clear (modifiers s) MODIFIERKEY_SHIFT) s)
  else ret tt.

Definition loop (sense : Z -> Z -> bool) : M unit :=
  detectKeys sense ;;
  sendUpdate.

End PET.

(** ** The VICE variant, USBPETKeyboardForVICE.ino *)

Module VICE.

Definition DRIVE_COUNT : nat := 10.
Definition SENSE_COUNT : nat := 8.

Definition speakerPin : Z := 26.
Definition interval : Z := 1250.

Definition KEY_CODES : list Z :=
  [ KEY_F1; KEY_F3; KEY_F5; KEY_F7; KEY_F9; KEY_MINUS; KEY_HOME; KEY_0;
    KEY_F2; KEY_F4; KEY_F6; KEY_F8; KEY_F10; KEY_0; KEY_0; KEY_BACKSPACE;
    KEY_Q; KEY_E; KEY_T; KEY_U; KEY_O; KEY_BACKSLASH; KEY_7; KEY_9;
    KEY_W; KEY_R; KEY_Y; KEY_I; KEY_P; KEY_0; KEY_8; KEYPAD_SLASH;
    KEY_A; KEY_D; KEY_G; KEY_J; KEY_L; KEY_0; KEY_4; KEY_6;
    KEY_S; KEY_F; KEY_H; KEY_K; KEY_F11; KEY_0; KEY_5; KEYPAD_ASTERIX;
    KEY_Z; KEY_C; KEY_B; KEY_M; KEY_SEMICOLON; KEY_ENTER; KEY_1; KEY_3;
    KEY_X; KEY_V; KEY_N; KEY_F12; KEY_SLASH; KEY_0; KEY_2; KEYPAD_PLUS;
    KEY_0; KEY_ESC; KEY_RIGHT_BRACE; KEY_0; KEY_PERIOD; KEY_0; KEY_0; KEY_TILDE;
    KEY_TAB; KEY_LEFT_BRACE; KEY_SPACE; KEY_COMMA; KEY_0; KEY_0; KEY_QUOTE; KEY_EQUAL ].

Definition KEY_CODES_SHIFT_NEEDED : list bool :=
  map (fun b => negb (b =? 0))
  [ 0;0;0;0;0;0;0;0;
    0;0;0;0;0;0;0;0;
    0;0;0;0;0;0;0;0;
    0;0;0;0;0;0;0;0;
    0;0;0;0;0;0;0;0;
    0;0;0;0;0;0;0;0;
    0;0;0;0;0;0;0;0;
    0;0;0;0;0;0;0;0;
    0;0;0;0;0;0;0;0;
    0;0;0;0;0;0;0;0 ].

Definition checkRelease : Z -> M unit :=
  Engine.checkRelease KEY_CODES_SHIFT_NEEDED.
Definition setKey : Z -> Z -> M bool :=
  Engine.setKey KEY_CODES KEY_CODES_SHIFT_NEEDED.

(** Left shift *)
Definition case_64 (keyId : Z) (level : bool) (isSpecial : bool) : M ctl :=
  l <- get lShift ;;
  then_ (if Bool.eqb level LOW && Bool.eqb l false
         then then_ (return_if_debounce keyId isSpecial) (fun isSpecial =>
              modify (set_lShift true) ;;
              modify (set_keyStateChange true) ;;
              r <- get rShift ;;
              (if r : bool then modify (set_rAlt true) else ret tt) ;;
              ret (Next isSpecial))
         else ret (Next isSpecial)) (fun isSpecial =>
  l <- get lShift ;;
  then_ (if Bool.eqb level HIGH && Bool.eqb l true
         then then_ (return_if_debounce keyId isSpecial) (fun isSpecial =>
              modify (set_lShift false) ;;
              modify (set_keyStateChange true) ;;
              ret (Next isSpecial))
         else ret (Next isSpecial)) (fun _ =>
  ret (Next true))).

(** Right shift *)
Definition case_69 (keyId : Z) (level : bool) (isSpecial : bool) : M ctl :=
  r <- get rShift ;;
  then_ (if Bool.eqb level LOW && Bool.eqb r false
         then then_ (return_if_debounce keyId isSpecial) (fun isSpecial =>
              modify (set_rShift true) ;;
              modify (set_keyStateChange true) ;;
              l <- get lShift ;;
              (if l : bool then modify (set_lAlt true) else ret tt) ;;
              ret (Next isSpecial))
         else ret (Next isSpecial)) (fun isSpecial =>
  r <- get rShift ;;
  then_ (if Bool.eqb level HIGH && Bool.eqb r true
         then then_ (return_if_debounce keyId isSpecial) (fun isSpecial =>
              modify (set_rShift false) ;;
              modify (set_keyStateChange true) ;;
              ret (Next isSpecial))
         else ret (Next isSpecial)) (fun _ =>
  ret (Next true))).

Definition cases : list case_block :=
  [ Case 64 case_64 true;
    Case 69 case_69 true;
    Case 76 Engine.case_control true;
    Case 7 (Engine.case_7 KEY_CODES KEY_CODES_SHIFT_NEEDED) true;
    Case 14 (Engine.case_14 KEY_CODES KEY_CODES_SHIFT_NEEDED) true ].

Definition parseSpecial : Z -> bool -> M bool := Engine.parseSpecial cases.

Definition getKeyId : Z -> Z -> Z := Engine.getKeyId SENSE_COUNT.

Definition detectKeys : (Z -> Z -> bool) -> M unit :=
  Engine.detectKeys KEY_CODES KEY_CODES_SHIFT_NEEDED cases DRIVE_COUNT SENSE_COUNT.

(** The [if (keyStateChange) { ... }] statement of [loop]. *)
Definition sendUpdate : M unit :=
  changed <- get keyStateChange ;;
  if changed : bool then
    la <- get lArrow ;; ra <- get rArrow ;;
    ls <- get lShift ;; rs <- get rShift ;;
    (if negb (la || ra) && (ls || rs)
     then if rs
          then modify (fun s => set_modifiers (bit_or (modifiers s) MODIFIERKEY_RIGHT_SHIFT) s)
          else modify (fun s => set_modifiers (bit_or (modifiers s) MODIFIERKEY_LEFT_SHIFT) s)
     else ret tt) ;;
    lalt <- get lAlt ;;
    (if lalt : bool
     then modify (fun s => set_modifiers (bit_xor (modifiers s) MODIFIERKEY_LEFT_ALT) s) ;;
          modify (set_lAlt false) ;;
          modify (fun s => set_altLockActive (negb (altLockActive s)) s)
     else ret tt) ;;
    ralt <- get rAlt ;;
    (if ralt : bool
     then modify (fun s => set_modifiers (bit_or (modifiers s) MODIFIERKEY_RIGHT_ALT) s) ;;
          tone speakerPin 400 50 ;;
          modify (set_rAlt false)
     else ret tt) ;;
    modify (set_keyStateChange false) ;;
    m <- get modifiers ;;
    Keyboard_set_modifier m ;;
    Keyboard_send_now ;;
    modify (fun s => set_modifiers (bit_clear (modifiers s) MODIFIERKEY_RIGHT_SHIFT) s) ;;
    modify (fun s => set_modifiers (bit_clear (modifiers s) MODIFIERKEY_LEFT_SHIFT) s) ;;
    modify (fun s => set_modifiers (bit_clear (modifiers s) MODIFIERKEY_RIGHT_ALT) s)
  else ret tt.

(** The alt-lock heartbeat at the end of [loop]; [currentMillis] is the
    value returned by [millis()]. *)
Definition heartbeat (currentMillis : Z) : M unit :=
  active <- get altLockActive ;;
  previous <- get previousMillis ;;
  if active && (interval <=? uint32 (currentMillis - previous))
  then modify (set_previousMillis currentMillis) ;;
       tone speakerPin 220 32
  else ret tt.

Definition loop (sense : Z -> Z -> bool) (currentMillis : Z) : M unit :=
  detectKeys sense ;;
  sendUpdate ;;
  heartbeat currentMillis.

End VICE.

(** ** The CBM 64 driver *)

Module CBM64.

Definition DRIVE_COUNT : nat := 9.
Definition SENSE_COUNT : nat := 9.

Definition KEY_CODES : list Z :=
  [ KEY_1; KEY_3; KEY_5; KEY_7; KEY_9; KEYPAD_PLUS; KEY_LEFT_BRACE; KEY_DELETE; KEY_0;
    KEY_ESC; KEY_W; KEY_R; KEY_Y; KEY_I; KEY_P; KEYPAD_ASTERIX; KEY_ENTER; KEY_0;
    MODIFIERKEY_CTRL; KEY_A; KEY_D; KEY_G; KEY_J; KEY_L; KEY_SEMICOLON; 0x50; KEY_0;
    KEY_CAPS_LOCK; MODIFIERKEY_SHIFT; KEY_X; KEY_V; KEY_N; KEY_COMMA; KEY_SLASH; 0x52; KEY_0;
    KEY_SPACE; KEY_Z; KEY_C; KEY_B; KEY_M; KEY_PERIOD; MODIFIERKEY_RIGHT_SHIFT; KEY_F1; KEY_0;
    MODIFIERKEY_GUI; KEY_S; KEY_F; KEY_H; KEY_K; KEY_SEMICOLON; KEY_EQUAL; KEY_F3; KEY_0;
    KEY_Q; KEY_E; KEY_T; KEY_U; KEY_O; KEY_2; KEY_BACKSLASH; KEY_F5; KEY_0;
    KEY_2; KEY_4; KEY_6; KEY_8; KEY_0; KEY_MINUS; KEY_HOME; KEY_F7; KEY_0;
    KEY_TAB; KEY_0; KEY_0; KEY_0; KEY_0; KEY_0; KEY_0; KEY_0; KEY_0 ].

(** 1: apply shift, 0: don't apply, -1: ignore shift *)
Definition KEY_CODES_SHIFT_NEEDED : list Z :=
  [ 0;0;0;0;0;0;1;0;0;
    0;0;0;0;0;0;1;0;0;
    0;0;0;0;0;0;0;0;0;
    0;0;0;0;0;0;0;0;0;
    0;0;0;0;0;0;0;0;0;
    0;0;0;0;0;0;0;0;0;
    0;0;0;0;0;1;0;0;0;
    0;0;0;0;0;0;0;0;0;
    0;0;0;0;0;0;0;0;0 ].

Definition checkRelease (keyId : Z) : M unit :=
  d <- debounce keyId ;;
  if d then ret tt else
  keys <- get usbKeys ;;
  match find_index 6 0 (fun keyNum => nth keyNum keys 0 =? keyId) with
  | None => ret tt
  | Some keyNum =>
    modify (set_usbKeys (upd keyNum (-1) keys)) ;;
    modify (fun s => set_keysUsed (uint8 (keysUsed s - 1)) s) ;;
    need <- index KEY_CODES_SHIFT_NEEDED keyId ;;
    (if need =? 1
     then modify (fun s => set_modifiers (bit_clear (modifiers s) MODIFIERKEY_SHIFT) s)
     else ret tt) ;;
    modify (set_keyStateChange true) ;;
    set_key_switch (keyNum + 1) 0
  end.

Definition setKey (keyId keyCode : Z) : M bool :=
  used <- get keysUsed ;;
  if used =? 6 then ret false else
  d <- debounce keyId ;;
  if d then ret false else
  keys <- get usbKeys ;;
  match find_index 6 0 (fun keyNum => nth keyNum keys 0 =? keyId) with
  | Some _ => ret true
  | None =>
    match find_index 6 0 (fun keyNum => nth keyNum keys 0 =? -1) with
    | None => ret false
    | Some keyNum =>
      modify (set_usbKeys (upd keyNum (int8 keyId) keys)) ;;
      modify (fun s => set_keysUsed (uint8 (keysUsed s + 1)) s) ;;
      need <- index KEY_CODES_SHIFT_NEEDED keyId ;;
      (if need =? 1
       then modify (fun s => set_modifiers (bit_or (modifiers s) MODIFIERKEY_SHIFT) s)
       else if need =? -1
       then Serial_println "ignore shift key" ;;
            modify (fun s => set_modifiers (bit_clear (modifiers s) MODIFIERKEY_SHIFT) s)
       else ret tt) ;;
      modify (set_keyStateChange true) ;;
      code <- index KEY_CODES keyId ;;
      let keyToSet := if negb (keyCode =? 0) then keyCode else code in
      set_key_switch (keyNum + 1) keyToSet ;;
      ret true
    end
  end.

(** pound symbol *)
Definition case_6 (keyId : Z) (level : bool) (isSpecial : bool) : M ctl :=
  (if Bool.eqb level LOW
   then Serial_println "parseSpecial> £" ;;
        l <- get lShift ;;
        r <- get rShift ;;
        (if l || r then setKey keyId 0 else setKey keyId KEY_LEFT_BRACE) ;;
        ret tt
   else checkRelease keyId) ;;
  ret (Next true).

(** INST DEL *)
Definition case_7 (keyId : Z) (level : bool) (isSpecial : bool) : M ctl :=
  (if Bool.eqb level LOW
   then Serial_println "parseSpecial> inst del" ;;
        l <- get lShift ;;
        r <- get rShift ;;
        (if l || r then setKey keyId KEY_DELETE else setKey keyId KEY_BACKSPACE) ;;
        ret tt
   else checkRelease keyId) ;;
  ret (Next true).

(** Left shift *)
Definition case_28 (keyId : Z) (level : bool) (isSpecial : bool) : M ctl :=
  l <- get lShift ;;
  then_ (if Bool.eqb level LOW && Bool.eqb l false
         then Serial_println "parseSpecial> LSHIFT pressed (inactive)" ;;
              then_ (return_if_debounce keyId isSpecial) (fun isSpecial =>
              modify (set_lShift true) ;;
              modify (set_keyStateChange true) ;;
              ret (Next isSpecial))
         else ret (Next isSpecial)) (fun isSpecial =>
  l <- get lShift ;;
  then_ (if Bool.eqb level HIGH && Bool.eqb l true
         then then_ (return_if_debounce keyId isSpecial) (fun isSpecial =>
              modify (set_lShift false) ;;
              modify (set_keyStateChange true) ;;
              ret (Next isSpecial))
         else ret (Next isSpecial)) (fun _ =>
  ret (Next true))).

(** Right shift *)
Definition case_42 (keyId : Z) (level : bool) (isSpecial : bool) : M ctl :=
  r <- get rShift ;;
  then_ (if Bool.eqb level LOW && Bool.eqb r false
         then Serial_println "parseSpecial> RSHIFT pressed (inactive)" ;;
              then_ (return_if_debounce keyId isSpecial) (fun isSpecial =>
              modify (set_rShift true) ;;
              modify (set_keyStateChange true) ;;
              ret (Next isSpecial))
         else ret (Next isSpecial)) (fun isSpecial =>
  r <- get rShift ;;
  then_ (if Bool.eqb level HIGH && Bool.eqb r true
         then then_ (return_if_debounce keyId isSpecial) (fun isSpecial =>
              modify (set_rShift false) ;;
              modify (set_keyStateChange true) ;;
              ret (Next isSpecial))
         else ret (Next isSpecial)) (fun _ =>
  ret (Next true))).

(** A level-triggered modifier key: Control (case 18), run stop as Alt
    (case 27) and the commodore key as GUI (case 45) are the same statements
    up to the console line and the modifier. *)
Definition modifier_case (line : string) (modifier : Z)
  (keyId : Z) (level : bool) (isSpecial : bool) : M ctl :=
  then_ (if Bool.eqb level LOW
         then Serial_println line ;;
              then_ (return_if_debounce keyId isSpecial) (fun isSpecial =>
              modify (fun s => set_modifiers (bit_or (modifiers s) modifier) s) ;;
              modify (set_keyStateChange true) ;;
              ret (Next isSpecial))
         else then_ (return_if_debounce keyId isSpecial) (fun isSpecial =>
              modify (fun s => set_modifiers (bit_clear (modifiers s) modifier) s) ;;
              modify (set_keyStateChange true) ;;
              ret (Next isSpecial))) (fun _ =>
  ret (Next true)).

Definition case_18 := modifier_case "parseSpecial> CTRL pressed" MODIFIERKEY_CTRL.
Definition case_27 := modifier_case "parseSpecial> run stop pressed" MODIFIERKEY_ALT.
Definition case_45 := modifier_case "parseSpecial> CBM pressed" MODIFIERKEY_GUI.

(** Horizontal CRSR *)
Definition case_25 (keyId : Z) (level : bool) (isSpecial : bool) : M ctl :=
  (if Bool.eqb level LOW
   then Serial_println "parseSpecial> Cursor right/left pressed" ;;
        l <- get lShift ;;
        r <- get rShift ;;
        (if l || r then setKey keyId KEY_LEFT else setKey keyId KEY_RIGHT) ;;
        modify (set_rArrow true)
   else checkRelease keyId ;;
        modify (set_rArrow false)) ;;
  ret (Next true).

(** Vertical CRSR *)
Definition case_34 (keyId : Z) (level : bool) (isSpecial : bool) : M ctl :=
  (if Bool.eqb level LOW
   then Serial_println "parseSpecial> Cursor up/down pressed" ;;
        l <- get lShift ;;
        r <- get rShift ;;
        (if l || r then setKey keyId KEY_UP else setKey keyId KEY_DOWN) ;;
        modify (set_lArrow true)
   else checkRelease keyId ;;
        modify (set_lArrow false)) ;;
  ret (Next true).

(** colon *)
Definition case_50 (keyId : Z) (level : bool) (isSpecial : bool) : M ctl :=
  (if Bool.eqb level LOW
   then Serial_println "parseSpecial> :" ;;
        l <- get lShift ;;
        r <- get rShift ;;
        (if l || r
         then setKey keyId KEY_LEFT_BRACE
         else modify (fun s => set_modifiers (bit_or (modifiers s) MODIFIERKEY_SHIFT) s) ;;
              setKey keyId KEY_SEMICOLON) ;;
        ret tt
   else modify (fun s => set_modifiers (bit_clear (modifiers s) MODIFIERKEY_SHIFT) s) ;;
        checkRelease keyId) ;;
  ret (Next true).

(** pointer up (becomes backslash); the block has no [break] *)
Definition case_60 (keyId : Z) (level : bool) (isSpecial : bool) : M ctl :=
  (if Bool.eqb level LOW
   then Serial_println "parseSpecial> pointer up" ;;
        setKey keyId KEY_BACKSLASH ;;
        ret tt
   else checkRelease keyId) ;;
  ret (Next true).

(** clr home (becomes home, and end when shifted) *)
Definition case_69 (keyId : Z) (level : bool) (isSpecial : bool) : M ctl :=
  (if Bool.eqb level LOW
   then Serial_println "parseSpecial> clr home" ;;
        l <- get lShift ;;
        r <- get rShift ;;
        (if l || r then setKey keyId KEY_END else setKey keyId KEY_HOME) ;;
        ret tt
   else checkRelease keyId) ;;
  ret (Next true).

(** restore *)
Definition case_80 (keyId : Z) (level : bool) (isSpecial : bool) : M ctl :=
  (if Bool.eqb level LOW
   then Serial_println "parseSpecial> restore" ;;
        setKey keyId KEY_TAB ;;
        ret tt
   else checkRelease keyId) ;;
  ret (Next true).

Definition cases : list case_block :=
  [ Case 6 case_6 true;
    Case 7 case_7 true;
    Case 28 case_28 true;
    Case 42 case_42 true;
    Case 18 case_18 true;
    Case 25 case_25 true;
    Case 27 case_27 true;
    Case 34 case_34 true;
    Case 45 case_45 true;
    Case 50 case_50 true;
    Case 60 case_60 false;
    Case 69 case_69 true;
    Case 80 case_80 true ].

Definition parseSpecial (keyId : Z) (level : bool) : M bool :=
  r <- switch cases keyId level false ;;
  match r with
  | Returned v => ret v
  | Next isSpecial => ret isSpecial
  end.

Definition getKeyId (i j : Z) : Z := uint8 (i * Z.of_nat SENSE_COUNT + j).

Definition scanKey (sense : Z -> Z -> bool) (i j : Z) : M unit :=
  let keyId := getKeyId i j in
  special <- parseSpecial keyId (sense i j) ;;
  if negb special then
    if Bool.eqb (sense i j) LOW then setKey keyId 0 ;; ret tt
    else checkRelease keyId
  else ret tt.

Definition detectKeys (sense : Z -> Z -> bool) : M unit :=
  for_loop DRIVE_COUNT 0 (fun i =>
    for_loop SENSE_COUNT 0 (fun j => scanKey sense i j)).

Definition sendUpdate : M unit :=
  changed <- get keyStateChange ;;
  if changed : bool then
    la <- get lArrow ;; ra <- get rArrow ;;
    ls <- get lShift ;; rs <- get rShift ;;
    (if negb (la || ra) && (ls || rs)
     then modify (fun s => set_modifiers (bit_or (modifiers s) MODIFIERKEY_SHIFT) s)
     else ret tt) ;;
    modify (set_keyStateChange false) ;;
    m <- get modifiers ;;
    Keyboard_set_modifier m ;;
    Keyboard_send_now ;;
    modify (fun s => set_modifiers (bit_clear (modifiers s) MODIFIERKEY_SHIFT) s)
  else ret tt.

Definition loop (sense : Z -> Z -> bool) : M unit :=
  detectKeys sense ;;
  sendUpdate.

End CBM64.

(** ** The sketches over their debounce function

    Almost every scan cycle calls debounce for more keys than the table
    has entries, so that some call reaches the end of the function.  The
    compiled function then hands back whatever the return register holds;
    the two loops have written nothing by then.  [debounce_or fallback] is
    debounce with that value given by [fallback], a function of the key
    and of the globals (a sweep calls debounce at most once for a key).

    [Sketch] repeats the functions of the PET driver and of the VICE
    variant that call debounce, with debounce as a parameter: at
    [debounce] they are the functions of [Engine], [PET] and [VICE], and
    at [debounce_or fallback] every scan cycle has a result. *)

Definition debounce_or (fallback : Z -> state -> bool) (keyId : Z) : M bool :=
  fun s => match debounce_table keyId (debounceKeys s) with
           | Some (suppress, dk) => Some (suppress, set_debounceKeys dk s)
           | None => Some (fallback keyId s, s)
           end.

Module Sketch.
Section Debounce.

Variable debounce : Z -> M bool.

(** [if (debounce(keyId)) return true;] *)
Definition return_if_debounce (keyId : Z) (isSpecial : bool) : M ctl :=
  d <- debounce keyId ;;
  if d then ret (Returned true) else ret (Next isSpecial).

Section Tables.

Variable KEY_CODES : list Z.
Variable KEY_CODES_SHIFT_NEEDED : list bool.

Definition checkRelease (keyId : Z) : M unit :=
  d <- debounce keyId ;;
  if d then ret tt else
  keys <- get usbKeys ;;
  match find_index 6 0 (fun keyNum => nth keyNum keys 0 =? keyId) with
  | None => ret tt
  | Some keyNum =>
    modify (set_usbKeys (upd keyNum (-1) keys)) ;;
    modify (fun s => set_keysUsed (uint8 (keysUsed s - 1)) s) ;;
    need <- index KEY_CODES_SHIFT_NEEDED keyId ;;
    (if need : bool
     then modify (fun s => set_modifiers (bit_clear (modifiers s) MODIFIERKEY_SHIFT) s)
     else ret tt) ;;
    modify (set_keyStateChange true) ;;
    set_key_switch (keyNum + 1) 0
  end.

Definition setKey (keyId keyCode : Z) : M bool :=
  used <- get keysUsed ;;
  if used =? 6 then ret false else
  d <- debounce keyId ;;
  if d then ret false else
  keys <- get usbKeys ;;
  match find_index 6 0 (fun keyNum => nth keyNum keys 0 =? keyId) with
  | Some _ => ret true
  | None =>
    match find_index 6 0 (fun keyNum => nth keyNum keys 0 =? -1) with
    | None => ret false
    | Some keyNum =>
      modify (set_usbKeys (upd keyNum (int8 keyId) keys)) ;;
      modify (fun s => set_keysUsed (uint8 (keysUsed s + 1)) s) ;;
      need <- index KEY_CODES_SHIFT_NEEDED keyId ;;
      (if need : bool
       then modify (fun s => set_modifiers (bit_or (modifiers s) MODIFIERKEY_SHIFT) s)
       else ret tt) ;;
      modify (set_keyStateChange true) ;;
      code <- index KEY_CODES keyId ;;
      let keyToSet := if negb (keyCode =? 0) then keyCode else code in
      set_key_switch (keyNum + 1) keyToSet ;;
      ret true
    end
  end.

(** Control: case 72 of the PET driver, case 76 of the VICE variant. *)
Definition case_control (keyId : Z) (level : bool) (isSpecial : bool) : M ctl :=
  then_ (if Bool.eqb level LOW
         then then_ (return_if_debounce keyId isSpecial) (fun isSpecial =>
              modify (fun s => set_modifiers (bit_or (modifiers s) MODIFIERKEY_CTRL) s) ;;
              modify (set_keyStateChange true) ;;
              ret (Next isSpecial))
         else then_ (return_if_debounce keyId isSpecial) (fun isSpecial =>
              modify (fun s => set_modifiers (bit_clear (modifiers s) MODIFIERKEY_CTRL) s) ;;
              modify (set_keyStateChange true) ;;
              ret (Next isSpecial))) (fun _ =>
  ret (Next true)).

(** Horizontal CRSR, case 7. *)
Definition case_7 (keyId : Z) (level : bool) (isSpecial : bool) : M ctl :=
  (if Bool.eqb level LOW
   then l <- get lShift ;;
        r <- get rShift ;;
        (if l || r then setKey keyId KEY_LEFT else setKey keyId KEY_RIGHT) ;;
        modify (set_rArrow true)
   else checkRelease keyId ;;
        modify (set_rArrow false)) ;;
  ret (Next true).

(** Vertical CRSR, case 14. *)
Definition case_14 (keyId : Z) (level : bool) (isSpecial : bool) : M ctl :=
  (if Bool.eqb level LOW
   then l <- get lShift ;;
        r <- get rShift ;;
        (if l || r then setKey keyId KEY_UP else setKey keyId KEY_DOWN) ;;
        modify (set_lArrow true)
   else checkRelease keyId ;;
        modify (set_lArrow false)) ;;
  ret (Next true).

Variable cases : list case_block.

Definition parseSpecial (keyId : Z) (level : bool) : M bool :=
  r <- switch cases keyId level false ;;
  match r with
  | Returned v => ret v
  | Next isSpecial => ret isSpecial
  end.

Variable DRIVE_COUNT SENSE_COUNT : nat.

Definition scanKey (sense : Z -> Z -> bool) (i j : Z) : M unit :=
  let keyId := Engine.getKeyId SENSE_COUNT i j in
  special <- parseSpecial keyId (sense i j) ;;
  if negb special then
    if Bool.eqb (sense i j) LOW then setKey keyId 0 ;; ret tt
    else checkRelease keyId
  else ret tt.

Definition detectKeys (sense : Z -> Z -> bool) : M unit :=
  for_loop DRIVE_COUNT 0 (fun i =>
    for_loop SENSE_COUNT 0 (fun j => scanKey sense i j)).

End Tables.

(** *** USBPETKeyboard.ino *)

(** Left shift *)
Definition PET_case_64 (keyId : Z) (level : bool) (isSpecial : bool) : M ctl :=
  l <- get lShift ;;
  then_ (if Bool.eqb level LOW && Bool.eqb l false
         then then_ (return_if_debounce keyId isSpecial) (fun isSpecial =>
              modify (set_lShift true) ;;
              modify (set_keyStateChange true) ;;
              ret (Next isSpecial))
         else ret (Next isSpecial)) (fun isSpecial =>
  l <- get lShift ;;
  then_ (if Bool.eqb level HIGH && Bool.eqb l true
         then then_ (return_if_debounce keyId isSpecial) (fun isSpecial =>
              modify (set_lShift false) ;;
              modify (set_keyStateChange true) ;;
              ret (Next isSpecial))
         else ret (Next isSpecial)) (fun _ =>
  ret (Next true))).

(** Right shift *)
Definition PET_case_69 (keyId : Z) (level : bool) (isSpecial : bool) : M ctl :=
  r <- get rShift ;;
  then_ (if Bool.eqb level LOW && Bool.eqb r false
         then then_ (return_if_debounce keyId isSpecial) (fun isSpecial =>
              modify (set_rShift true) ;;
              modify (set_keyStateChange true) ;;
              ret (Next isSpecial))
         else ret (Next isSpecial)) (fun isSpecial =>
  r <- get rShift ;;
  then_ (if Bool.eqb level HIGH && Bool.eqb r true
         then then_ (return_if_debounce keyId isSpecial) (fun isSpecial =>
              modify (set_rShift false) ;;
              modify (set_keyStateChange true) ;;
              ret (Next isSpecial))
         else ret (Next isSpecial)) (fun _ =>
  ret (Next true))).

Definition PET_cases : list case_block :=
  [ Case 64 PET_case_64 true;
    Case 69 PET_case_69 true;
    Case 72 case_control true;
    Case 7 (case_7 PET.KEY_CODES PET.KEY_CODES_SHIFT_NEEDED) true;
    Case 14 (case_14 PET.KEY_CODES PET.KEY_CODES_SHIFT_NEEDED) true ].

Definition PET_checkRelease : Z -> M unit :=
  checkRelease PET.KEY_CODES_SHIFT_NEEDED.
Definition PET_setKey : Z -> Z -> M bool :=
  setKey PET.KEY_CODES PET.KEY_CODES_SHIFT_NEEDED.
Definition PET_parseSpecial : Z -> bool -> M bool := parseSpecial PET_cases.
Definition PET_scanKey : (Z -> Z -> bool) -> Z -> Z -> M unit :=
  scanKey PET.KEY_CODES PET.KEY_CODES_SHIFT_NEEDED PET_cases PET.SENSE_COUNT.
Definition PET_detectKeys : (Z -> Z -> bool) -> M unit :=
  detectKeys PET.KEY_CODES PET.KEY_CODES_SHIFT_NEEDED PET_cases
    PET.DRIVE_COUNT PET.SENSE_COUNT.

Definition PET_loop (sense : Z -> Z -> bool) : M unit :=
  PET_detectKeys sense ;;
  PET.sendUpdate.

(** *** USBPETKeyboardForVICE.ino *)

(** Left shift *)
Definition VICE_case_64 (keyId : Z) (level : bool) (isSpecial : bool) : M ctl :=
  l <- get lShift ;;
  then_ (if Bool.eqb level LOW && Bool.eqb l false
         then then_ (return_if_debounce keyId isSpecial) (fun isSpecial =>
              modify (set_lShift true) ;;
              modify (set_keyStateChange true) ;;
              r <- get rShift ;;
              (if r : bool then modify (set_rAlt true) else ret tt) ;;
              ret (Next isSpecial))
         else ret (Next isSpecial)) (fun isSpecial =>
  l <- get lShift ;;
  then_ (if Bool.eqb level HIGH && Bool.eqb l true
         then then_ (return_if_debounce keyId isSpecial) (fun isSpecial =>
              modify (set_lShift false) ;;
              modify (set_keyStateChange true) ;;
              ret (Next isSpecial))
         else ret (Next isSpecial)) (fun _ =>
  ret (Next true))).

(** Right shift *)
Definition VICE_case_69 (keyId : Z) (level : bool) (isSpecial : bool) : M ctl :=
  r <- get rShift ;;
  then_ (if Bool.eqb level LOW && Bool.eqb r false
         then then_ (return_if_debounce keyId isSpecial) (fun isSpecial =>
              modify (set_rShift true) ;;
              modify (set_keyStateChange true) ;;
              l <- get lShift ;;
              (if l : bool then modify (set_lAlt true) else ret tt) ;;
              ret (Next isSpecial))
         else ret (Next isSpecial)) (fun isSpecial =>
  r <- get rShift ;;
  then_ (if Bool.eqb level HIGH && Bool.eqb r true
         then then_ (return_if_debounce keyId isSpecial) (fun isSpecial =>
              modify (set_rShift false) ;;
              modify (set_keyStateChange true) ;;
              ret (Next isSpecial))
         else ret (Next isSpecial)) (fun _ =>
  ret (Next true))).

Definition VICE_cases : list case_block :=
  [ Case 64 VICE_case_64 true;
    Case 69 VICE_case_69 true;
    Case 76 case_control true;
    Case 7 (case_7 VICE.KEY_CODES VICE.KEY_CODES_SHIFT_NEEDED) true;
    Case 14 (case_14 VICE.KEY_CODES VICE.KEY_CODES_SHIFT_NEEDED) true ].

Definition VICE_checkRelease : Z -> M unit :=
  checkRelease VICE.KEY_CODES_SHIFT_NEEDED.
Definition VICE_setKey : Z -> Z -> M bool :=
  setKey VICE.KEY_CODES VICE.KEY_CODES_SHIFT_NEEDED.
Definition VICE_parseSpecial : Z -> bool -> M bool := parseSpecial VICE_cases.
Definition VICE_scanKey : (Z -> Z -> bool) -> Z -> Z -> M unit :=
  scanKey VICE.KEY_CODES VICE.KEY_CODES_SHIFT_NEEDED VICE_cases VICE.SENSE_COUNT.
Definition VICE_detectKeys : (Z -> Z -> bool) -> M unit :=
  detectKeys VICE.KEY_CODES VICE.KEY_CODES_SHIFT_NEEDED VICE_cases
    VICE.DRIVE_COUNT VICE.SENSE_COUNT.

Definition VICE_loop (sense : Z -> Z -> bool) (currentMillis : Z) : M unit :=
  VICE_detectKeys sense ;;
  VICE.sendUpdate ;;
  VICE.heartbeat currentMillis.

End Debounce.
End Sketch.

(** ** Vocabulary of the properties *)

(** *** Predicates on states *)

(** Number of occupied slots of [usbKeys]: the entries other than -1. *)
Definition occupied (keys : list Z) : Z :=
  Z.of_nat (length (filter (fun k => negb (k =? -1)) keys)).

(** No key id sits in two slots. *)
Definition distinct_slots (keys : list Z) : Prop :=
  forall i j : nat, (i < 6)%nat -> (j < 6)%nat ->
    nth i keys 0 = nth j keys 0 -> nth i keys 0 <> -1 -> i = j.

(** The key ids of the debounce table are [int8_t] values. *)
Definition table_ok (dk : list (Z * Z)) : Prop :=
  length dk = 6%nat /\ Forall (fun e => -128 <= fst e <= 127) dk.

(** The report buffer is consistent: [keysUsed] counts the occupied slots,
    no key id is held twice, and the six pending key codes are there. *)
Definition buffer_ok (s : state) : Prop :=
  table_ok (debounceKeys s) /\
  length (usbKeys s) = 6%nat /\
  keysUsed s = occupied (usbKeys s) /\
  distinct_slots (usbKeys s) /\
  length (kbKeys s) = 6%nat.

(** A computation keeps a property of the state whenever it is defined. *)
Definition keeps {A : Type} (P : state -> Prop) (m : M A) : Prop :=
  forall s a s', P s -> m s = Some (a, s') -> P s'.

(** debounce admits the next call for the key. *)
Definition admits (keyId : Z) (s : state) : Prop :=
  exists s1, debounce keyId s = Some (false, s1).

(** The PET driver with no key held and no modifier pending; with key 0
    alone held and reported. *)
Definition no_key_held (s : state) : Prop :=
  usbKeys s = [-1; -1; -1; -1; -1; -1] /\ keysUsed s = 0 /\
  kbKeys s = [0; 0; 0; 0; 0; 0] /\ modifiers s = 0 /\
  lShift s = false /\ rShift s = false.

Definition key0_held (s : state) : Prop :=
  usbKeys s = [0; -1; -1; -1; -1; -1] /\ keysUsed s = 1 /\
  kbKeys s = [KEY_1; 0; 0; 0; 0; 0] /\ modifiers s = 0 /\
  lShift s = false /\ rShift s = false.

(** Bits of the modifier byte. *)
Definition LEFT_ALT_BIT : Z := 2.
Definition RIGHT_ALT_BIT : Z := 6.

(** *** The effect of setKey, checkRelease and the composition step *)

(** The state after [setKey] has allocated [slot] for [keyId]: the
    statements from [usbKeys[keyNum] = keyId] to the [switch]. *)
Definition install (slot : nat) (keyId keyToSet : Z) (need : bool)
  (s : state) : state :=
  set_kbKeys (upd slot keyToSet (kbKeys s))
    (set_keyStateChange true
      (set_modifiers
         (if need then bit_or (modifiers s) MODIFIERKEY_SHIFT else modifiers s)
         (set_keysUsed (uint8 (keysUsed s + 1))
            (set_usbKeys (upd slot (int8 keyId) (usbKeys s)) s)))).

(** The state after [checkRelease] has freed [slot]. *)
Definition release (slot : nat) (need : bool) (s : state) : state :=
  set_kbKeys (upd slot 0 (kbKeys s))
    (set_keyStateChange true
      (set_modifiers
         (if need then bit_clear (modifiers s) MODIFIERKEY_SHIFT else modifiers s)
         (set_keysUsed (uint8 (keysUsed s - 1))
            (set_usbKeys (upd slot (-1) (usbKeys s)) s)))).

(** The modifier argument of the report the PET driver composes in state
    [s]: the deferred rule ORs Shift in when a Shift latch is held and no
    cursor flag is set. *)
Definition pet_report_modifiers (s : state) : Z :=
  if negb (lArrow s || rArrow s) && (lShift s || rShift s)
  then bit_or (modifiers s) MODIFIERKEY_SHIFT
  else modifiers s.

(** The state after the body of [if (keyStateChange)] of the PET driver. *)
Definition pet_composed (s : state) : state :=
  let m := pet_report_modifiers s in
  set_modifiers (bit_clear m MODIFIERKEY_SHIFT)
    (set_sent (sent s ++ [(m, kbKeys s)])
      (set_kbModifier m
        (set_keyStateChange false
          (set_modifiers m s)))).

(** The modifier argument of the report the VICE variant composes in state
    [s]: the deferred Shift rule, then the alt-lock toggle, then the
    one-shot right Alt. *)
Definition vice_report_modifiers (s : state) : Z :=
  let m1 := if negb (lArrow s || rArrow s) && (lShift s || rShift s)
            then if rShift s
                 then bit_or (modifiers s) MODIFIERKEY_RIGHT_SHIFT
                 else bit_or (modifiers s) MODIFIERKEY_LEFT_SHIFT
            else modifiers s in
  let m2 := if lAlt s then bit_xor m1 MODIFIERKEY_LEFT_ALT else m1 in
  if rAlt s then bit_or m2 MODIFIERKEY_RIGHT_ALT else m2.

(** The state after the body of [if (keyStateChange)] of the VICE variant. *)
Definition vice_composed (s : state) : state :=
  let m := vice_report_modifiers s in
  set_modifiers
    (bit_clear (bit_clear (bit_clear m MODIFIERKEY_RIGHT_SHIFT)
                  MODIFIERKEY_LEFT_SHIFT) MODIFIERKEY_RIGHT_ALT)
    (set_sent (sent s ++ [(m, kbKeys s)])
      (set_kbModifier m
        (set_keyStateChange false
          (set_rAlt false
            (set_tones (if rAlt s
                        then tones s ++ [(VICE.speakerPin, 400, 50)]
                        else tones s)
              (set_altLockActive (if lAlt s then negb (altLockActive s)
                                  else altLockActive s)
                (set_lAlt false
                  (set_modifiers m s)))))))).

(** The part of the state the Shift cases share between the PET driver and
    the VICE variant. *)
Definition shift_machine (r : option (bool * state))
  : option (bool * (bool * bool * bool * list (Z * Z))) :=
  match r with
  | Some (v, s) => Some (v, (lShift s, rShift s, keyStateChange s, debounceKeys s))
  | None => None
  end.

(** *** Runs and reachable states *)

(** The state after a computation, its result dropped. *)
Definition exec {A : Type} (m : M A) (s : state) : option state :=
  match m s with
  | Some (_, s') => Some s'
  | None => None
  end.

(** [n] consecutive calls of the same computation. *)
Fixpoint repeat_exec {A : Type} (n : nat) (m : M A) (s : state) : option state :=
  match n with
  | O => Some s
  | S n' => match exec m s with
            | Some s' => repeat_exec n' m s'
            | None => None
            end
  end.

(** A sequence of steps, each defined on the state the one before left. *)
Fixpoint run_all (ms : list (state -> option state)) (s : state) : option state :=
  match ms with
  | [] => Some s
  | m :: rest => match m s with
                 | Some s' => run_all rest s'
                 | None => None
                 end
  end.

(** The entry points of the PET sketch, with arguments of their C types. *)
Inductive pet_call : Type :=
| CallDebounce (keyId : Z)
| CallSetKey (keyId keyCode : Z)
| CallCheckRelease (keyId : Z)
| CallParseSpecial (keyId : Z) (level : bool)
| CallSendUpdate.

Definition call_ok (c : pet_call) : Prop :=
  match c with
  | CallDebounce k | CallCheckRelease k | CallParseSpecial k _ => 0 <= k <= 255
  | CallSetKey k code => 0 <= k <= 255 /\ 0 <= code <= 65535
  | CallSendUpdate => True
  end.

Definition run_call (c : pet_call) : state -> option state :=
  match c with
  | CallDebounce k => exec (debounce k)
  | CallSetKey k code => exec (PET.setKey k code)
  | CallCheckRelease k => exec (PET.checkRelease k)
  | CallParseSpecial k level => exec (PET.parseSpecial k level)
  | CallSendUpdate => exec PET.sendUpdate
  end.

Definition run_calls (cs : list pet_call) : state -> option state :=
  run_all (map run_call cs).

(** States of the PET sketch reachable from power-up by defined calls. *)
Inductive reachable : state -> Prop :=
| reachable_initial : reachable initial
| reachable_call (s s' : state) (c : pet_call) :
    reachable s -> call_ok c -> run_call c s = Some s' -> reachable s'.

(** The state a call sequence leads to from power-up. *)
Definition after (cs : list pet_call) : state :=
  match run_calls cs initial with
  | Some s => s
  | None => initial
  end.

(** Consecutive scan cycles of the PET driver, one sense reading each. *)
Definition pet_cycles (senses : list (Z -> Z -> bool)) : state -> option state :=
  run_all (map (fun sense => exec (PET.loop sense)) senses).

(** *** Sense readings *)

(** Every key pressed; every key pressed but right shift; only the key at
    drive 0 / sense 0 pressed. *)
Definition all_low : Z -> Z -> bool := fun _ _ => LOW.
Definition all_low_but_rshift : Z -> Z -> bool :=
  fun i j => if (i =? 8) && (j =? 5) then HIGH else LOW.
Definition key0_low : Z -> Z -> bool :=
  fun i j => if (i =? 0) && (j =? 0) then LOW else HIGH.

(** *** Example runs of the PET driver *)

(** A key read pressed until setKey has been called three times for it. *)
Definition press (k : Z) : list pet_call :=
  [CallSetKey k 0; CallSetKey k 0; CallSetKey k 0].

(** Key 5 read pressed twice: the next setKey call for it is admitted. *)
Definition pressing5_calls : list pet_call := [CallSetKey 5 0; CallSetKey 5 0].
Definition pressing5 : state := after pressing5_calls.

(** Key 5 held alone. *)
Definition held5 : state := after (press 5).

(** Key 5 held, its debounce entry taken over by key 9, and two release
    readings of key 5 already counted: the next release is admitted. *)
Definition releasing5_calls : list pet_call :=
  press 5 ++ [CallDebounce 9; CallCheckRelease 5; CallCheckRelease 5].
Definition releasing5 : state := after releasing5_calls.

(** Keys 1 to 6 held: the report buffer is full. *)
Definition six_presses : list pet_call :=
  press 1 ++ press 2 ++ press 3 ++ press 4 ++ press 5 ++ press 6.
Definition six_held : state := after six_presses.

(** Keys 1 to 5 and the horizontal cursor key held: the buffer is full and
    the cursor key was installed without Shift. *)
Definition cursor_held_calls : list pet_call :=
  press 1 ++ press 2 ++ press 3 ++ press 4 ++ press 5 ++
  [CallParseSpecial 7 LOW; CallParseSpecial 7 LOW; CallParseSpecial 7 LOW].
Definition cursor_held : state := after cursor_held_calls.

(** The state three scan cycles after [cursor_held], right shift pressed
    one cycle after the other keys: left shift is latched, and the next
    cycle latches right shift. *)
Definition shifted_cursor : state :=
  match pet_cycles [all_low_but_rshift; all_low; all_low] cursor_held with
  | Some s => s
  | None => initial
  end.

(** Left shift latched and the horizontal cursor key read pressed twice:
    the next reading of the cursor key is admitted. *)
Definition shift_then_cursor_calls : list pet_call :=
  [CallParseSpecial 64 LOW; CallParseSpecial 64 LOW; CallParseSpecial 64 LOW;
   CallParseSpecial 7 LOW; CallParseSpecial 7 LOW].
Definition shift_then_cursor : state := after shift_then_cursor_calls.

(** Power-up followed by 255 suppressed setKey(0, 0) calls: the countdown
    of key 0 has wrapped round to 1.  Then the admitted press, its report,
    and 255 suppressed checkRelease(0) calls. *)
Definition press_ready : state :=
  match repeat_exec 255 (PET.setKey 0 0) initial with
  | Some s => s
  | None => initial
  end.

Definition release_ready : state :=
  match run_calls [CallSetKey 0 0; CallSendUpdate] press_ready with
  | Some s => match repeat_exec 255 (PET.checkRelease 0) s with
              | Some s' => s'
              | None => initial
              end
  | None => initial
  end.

(** *** Example runs of the VICE variant *)

(** Keys 1 to 6 held. *)
Definition vice_six_held : state :=
  fold_left (fun s k => match repeat_exec 3 (VICE.setKey k 0) s with
                        | Some s' => s'
                        | None => s
                        end) [1; 2; 3; 4; 5; 6] initial.

(** From power-up: left shift latched and reported, then right shift read
    pressed twice; and the same with the two keys exchanged. *)
Definition vice_left_then_right : list (state -> option state) :=
  [ exec (VICE.parseSpecial 64 LOW); exec (VICE.parseSpecial 64 LOW);
    exec (VICE.parseSpecial 64 LOW); exec VICE.sendUpdate;
    exec (VICE.parseSpecial 69 LOW); exec (VICE.parseSpecial 69 LOW) ].

Definition vice_right_then_left : list (state -> option state) :=
  [ exec (VICE.parseSpecial 69 LOW); exec (VICE.parseSpecial 69 LOW);
    exec (VICE.parseSpecial 69 LOW); exec VICE.sendUpdate;
    exec (VICE.parseSpecial 64 LOW); exec (VICE.parseSpecial 64 LOW) ].

(** Left shift held, right shift about to be admitted; and the converse. *)
Definition left_held_right_due : state :=
  match run_all vice_left_then_right initial with
  | Some s => s
  | None => initial
  end.

Definition right_held_left_due : state :=
  match run_all vice_right_then_left initial with
  | Some s => s
  | None => initial
  end.

(** *** The debounce table *)

(** Entry [i] is the first of the six entries whose key id is [keyId]: the
    entry the first loop of debounce stops at. *)
Definition tracked_at (keyId : Z) (dk : list (Z * Z)) (i : nat) : Prop :=
  (i < 6)%nat /\ fst (nth i dk (0, 0)) = keyId /\
  forall j, (j < i)%nat -> fst (nth j dk (0, 0)) <> keyId.

(** No entry has key id [keyId]. *)
Definition untracked (keyId : Z) (dk : list (Z * Z)) : Prop :=
  forall i, (i < 6)%nat -> fst (nth i dk (0, 0)) <> keyId.

(** Entry [i] is the first whose countdown is 0: the entry the second loop
    of debounce stops at. *)
Definition idle_at (dk : list (Z * Z)) (i : nat) : Prop :=
  (i < 6)%nat /\ snd (nth i dk (0, 0)) = 0 /\
  forall j, (j < i)%nat -> snd (nth j dk (0, 0)) <> 0.

(** No entry has countdown 0. *)
Definition no_idle (dk : list (Z * Z)) : Prop :=
  forall i, (i < 6)%nat -> snd (nth i dk (0, 0)) <> 0.

(** What one call does to the countdown of the entry that tracks the key:
    the result of the call and the countdown it leaves. *)
Definition countdown_step (c : Z) : bool * Z :=
  if c =? 1 then (false, 0) else (true, int8 (c - 1)).

Fixpoint countdown_steps (n : nat) (c : Z) : list bool * Z :=
  match n with
  | O => ([], c)
  | S n' => let '(d, c1) := countdown_step c in
            let '(ds, c2) := countdown_steps n' c1 in
            (d :: ds, c2)
  end.

(** [n] consecutive calls of debounce for one key: their results in order
    and the table they leave. *)
Fixpoint debounce_calls (n : nat) (keyId : Z) (dk : list (Z * Z))
  : option (list bool * list (Z * Z)) :=
  match n with
  | O => Some ([], dk)
  | S n' =>
    match debounce_table keyId dk with
    | Some (d, dk1) =>
      match debounce_calls n' keyId dk1 with
      | Some (ds, dk2) => Some (d :: ds, dk2)
      | None => None
      end
    | None => None
    end
  end.

(** *** The report buffer and the pending key codes *)

(** Slot [n] of the report buffer of the PET driver is free with pending
    key code 0, or holds a key id of the matrix with a pending key code
    other than 0. *)
Definition slot_ok (s : state) (n : nat) : Prop :=
  (nth n (usbKeys s) 0 = -1 /\ nth n (kbKeys s) 0 = 0) \/
  (0 <= nth n (usbKeys s) 0 < 80 /\ nth n (kbKeys s) 0 <> 0).

Definition slots_ok (s : state) : Prop :=
  forall n, (n < 6)%nat -> slot_ok s n.

(** Slot [slot] is the first free slot of [usbKeys]: the slot the second
    loop of setKey stops at. *)
Definition first_free (keys : list Z) (slot : nat) : Prop :=
  (slot < 6)%nat /\ nth slot keys 0 = -1 /\
  forall j, (j < slot)%nat -> nth j keys 0 <> -1.

(** The key code setKey hands to the Keyboard object. *)
Definition pet_key_code (keyId keyCode : Z) : Z :=
  if keyCode =? 0 then nth (Z.to_nat keyId) PET.KEY_CODES 0 else keyCode.

Definition pet_shift_needed (keyId : Z) : bool :=
  nth (Z.to_nat keyId) PET.KEY_CODES_SHIFT_NEEDED false.

(** *** Results of the case blocks *)

(** Every defined result of a computation satisfies [Q]. *)
Definition yields {A : Type} (Q : A -> Prop) (m : M A) : Prop :=
  forall s a s', m s = Some (a, s') -> Q a.

(** A statement that executes [return true] or runs to its end; a case
    block that executes [return true] or ends with [isSpecial] set. *)
Definition passing (r : ctl) : Prop :=
  r = Returned true \/ exists isSpecial, r = Next isSpecial.
Definition taken (r : ctl) : Prop :=
  r = Returned true \/ r = Next true.

(** The case labels of the three sketches. *)
Definition pet_special_keys : list Z := [64; 69; 72; 7; 14].
Definition vice_special_keys : list Z := [64; 69; 76; 7; 14].
Definition cbm64_special_keys : list Z :=
  [6; 7; 28; 42; 18; 25; 27; 34; 45; 50; 60; 69; 80].

(** A call whose result is discarded: [f(x);] as a statement. *)
Definition exec_unit {A : Type} (m : M A) : M unit := m ;; ret tt.

(** Bits of the modifier byte set by Control and by Shift. *)
Definition CTRL_BIT : Z := 0.
Definition SHIFT_BIT : Z := 1.

(** The level at which a key is read pressed, as a latch value. *)
Definition pressed (level : bool) : bool := Bool.eqb level LOW.

(** Bits of the modifier byte the VICE variant uses for the two Shift
    keys. *)
Definition LEFT_SHIFT_BIT : Z := 1.
Definition RIGHT_SHIFT_BIT : Z := 5.

(** ** The board: pins, delay and the serial port

    The Arduino calls of [setup], of the scan loop and of
    [printKeyPosition] are modelled by their interface, like the Keyboard
    object: a board records the mode last given to each pin by [pinMode],
    the level last written to each pin by [digitalWrite], the time spent
    in [delay] and the rate given to [Serial.begin].  The keyboard matrix
    is outside the program: [digitalRead] is a function [read] of the
    levels last written and of the pin that is read. *)

Inductive pin_mode : Type := INPUT | OUTPUT | INPUT_PULLUP.

Record board : Type := mkBoard {
  pin_modes : list (option pin_mode);
  pin_levels : list (option bool);
  waited : Z;
  baud : option Z
}.

(** The Teensy++ 2.0 has pins 0 to 45. *)
Definition CORE_NUM_TOTAL_PINS : nat := 46.

Definition power_up_board : board :=
  mkBoard (repeat None CORE_NUM_TOTAL_PINS) (repeat None CORE_NUM_TOTAL_PINS)
          0 None.

Definition set_pin_modes (v : list (option pin_mode)) (b : board) : board :=
  mkBoard v (pin_levels b) (waited b) (baud b).
Definition set_pin_levels (v : list (option bool)) (b : board) : board :=
  mkBoard (pin_modes b) v (waited b) (baud b).
Definition set_waited (v : Z) (b : board) : board :=
  mkBoard (pin_modes b) (pin_levels b) v (baud b).
Definition set_baud (v : option Z) (b : board) : board :=
  mkBoard (pin_modes b) (pin_levels b) (waited b) v.

(** A function of a sketch that touches the board. *)
Definition IO (A : Type) : Type := board * state -> option (A * (board * state)).

Definition io_ret {A : Type} (a : A) : IO A := fun w => Some (a, w).
Definition io_bind {A B : Type} (m : IO A) (f : A -> IO B) : IO B :=
  fun w => match m w with
           | Some (a, w') => f a w'
           | None => None
           end.

(** A function that touches the globals only, called from one that touches
    the board. *)
Definition lift {A : Type} (m : M A) : IO A :=
  fun w => match m (snd w) with
           | Some (a, s') => Some (a, (fst w, s'))
           | None => None
           end.

Definition on_board (f : board -> board) : IO unit :=
  fun w => Some (tt, (f (fst w), snd w)).

Declare Scope io_scope.
Delimit Scope io_scope with io.
Notation "x <- c1 ;; c2" := (io_bind c1 (fun x => c2))
  (at level 61, c1 at next level, right associativity) : io_scope.
Notation "c1 ;; c2" := (io_bind c1 (fun _ => c2))
  (at level 61, right associativity) : io_scope.

Fixpoint io_for_loop (n : nat) (i : Z) (body : Z -> IO unit) : IO unit :=
  match n with
  | O => io_ret tt
  | S n' => io_bind (body i) (fun _ => io_for_loop n' (i + 1) body)
  end.

Definition pinMode (pin : Z) (mode : pin_mode) : IO unit :=
  on_board (fun b =>
    set_pin_modes (upd (Z.to_nat pin) (Some mode) (pin_modes b)) b).
Definition digitalWrite (pin : Z) (level : bool) : IO unit :=
  on_board (fun b =>
    set_pin_levels (upd (Z.to_nat pin) (Some level) (pin_levels b)) b).
Definition delay (ms : Z) : IO unit :=
  on_board (fun b => set_waited (waited b + ms) b).
Definition Serial_begin (rate : Z) : IO unit :=
  on_board (set_baud (Some rate)).

(** [Serial.print (a); ...; Serial.println (z);] : the pieces of one line
    of the console. *)
Definition Serial_print_line (pieces : list string) : M unit :=
  Serial_println (String.concat "" pieces).

(** [Serial.print] of a number that is not negative. *)
Definition decimal (z : Z) : string := NilZero.string_of_int (Z.to_int z).

Module Board.
Section Matrix.

Local Open Scope io_scope.

(** The level of a pin, given the levels last written to the pins. *)
Variable read : list (option bool) -> Z -> bool.

Definition digitalRead (pin : Z) : IO bool :=
  fun w => Some (read (pin_levels (fst w)) pin, w).

Variable DRIVE_PINS SENSE_PINS : list Z.
Variable DRIVE_COUNT SENSE_COUNT : nat.

(** The two loops of [setup]. *)
Definition setup_pins : IO unit :=
  io_for_loop DRIVE_COUNT 0 (fun i =>
    pin <- lift (index DRIVE_PINS i) ;;
    pinMode pin OUTPUT ;;
    digitalWrite pin HIGH) ;;
  io_for_loop SENSE_COUNT 0 (fun j =>
    pin <- lift (index SENSE_PINS j) ;;
    pinMode pin INPUT_PULLUP).

Variable getKeyId : Z -> Z -> Z.
Variable parseSpecial : Z -> bool -> M bool.
Variable setKey : Z -> Z -> M bool.
Variable checkRelease : Z -> M unit.

(** The body of the inner loop of [detectKeys]. *)
Definition scanKey (i j : Z) : IO unit :=
  let keyId := getKeyId i j in
  pin <- lift (index SENSE_PINS j) ;;
  level <- digitalRead pin ;;
  special <- lift (parseSpecial keyId level) ;;
  if negb special then
    pin' <- lift (index SENSE_PINS j) ;;
    level' <- digitalRead pin' ;;
    if Bool.eqb level' LOW then lift (setKey keyId 0) ;; io_ret tt
    else lift (checkRelease keyId)
  else io_ret tt.

Definition detectKeys : IO unit :=
  io_for_loop DRIVE_COUNT 0 (fun i =>
    drive <- lift (index DRIVE_PINS i) ;;
    digitalWrite drive LOW ;;
    io_for_loop SENSE_COUNT 0 (fun j => scanKey i j) ;;
    drive' <- lift (index DRIVE_PINS i) ;;
    digitalWrite drive' HIGH).

End Matrix.
End Board.

(** *** The PET driver on the board *)

Module PETBoard.

Import Ascii.
Local Open Scope io_scope.

Definition DRIVE_PINS : list Z := [9; 8; 7; 6; 5; 4; 3; 2; 1; 0].
Definition SENSE_PINS : list Z := [17; 16; 15; 14; 13; 12; 11; 10].

Definition setup : IO unit :=
  Board.setup_pins DRIVE_PINS SENSE_PINS PET.DRIVE_COUNT PET.SENSE_COUNT.

Definition detectKeys (read : list (option bool) -> Z -> bool) : IO unit :=
  Board.detectKeys read DRIVE_PINS SENSE_PINS PET.DRIVE_COUNT PET.SENSE_COUNT
    PET.getKeyId PET.parseSpecial PET.setKey PET.checkRelease.

Definition loop (read : list (option bool) -> Z -> bool) : IO unit :=
  detectKeys read ;;
  lift PET.sendUpdate.

(** The [switch (j)] of [printKeyPosition]; [out] starts as the character
    of code 1. *)
Definition sense_letter (j : Z) : ascii :=
  match j with
  | 0 => "A"
  | 1 => "B"
  | 2 => "C"
  | 3 => "D"
  | 4 => "E"
  | 5 => "F"
  | 6 => "G"
  | 7 => "H"
  | _ => Ascii.ascii_of_nat 1
  end%char.

Definition key_line (i j : Z) : list string :=
  [ "i: "; decimal (int16 (i + 1)); " ,k: "; String (sense_letter j) "";
    " ,keyId: "; decimal (PET.getKeyId i j) ]%string.

Definition printKeyPosition (read : list (option bool) -> Z -> bool)
  : IO unit :=
  io_for_loop PET.DRIVE_COUNT 0 (fun i =>
    drive <- lift (index DRIVE_PINS i) ;;
    digitalWrite drive LOW ;;
    delay 10 ;;
    io_for_loop PET.SENSE_COUNT 0 (fun j =>
      pin <- lift (index SENSE_PINS j) ;;
      level <- Board.digitalRead read pin ;;
      if Bool.eqb level LOW
      then lift (Serial_print_line (key_line i j))
      else io_ret tt) ;;
    drive' <- lift (index DRIVE_PINS i) ;;
    digitalWrite drive' HIGH).

End PETBoard.

(** *** The VICE variant and the CBM 64 driver on the board *)

Module VICEBoard.

Local Open Scope io_scope.

Definition DRIVE_PINS : list Z := [9; 8; 7; 6; 5; 4; 3; 2; 1; 0].
Definition SENSE_PINS : list Z := [17; 16; 15; 14; 13; 12; 11; 10].

Definition setup : IO unit :=
  Board.setup_pins DRIVE_PINS SENSE_PINS VICE.DRIVE_COUNT VICE.SENSE_COUNT ;;
  Serial_begin 9600 ;;
  lift (Serial_println "Setup Complete").

End VICEBoard.

Module CBM64Board.

Local Open Scope io_scope.

(** The analog pins A0 to A7 of the Teensy++ 2.0 are the pins 38 to 45.
    The arrays are declared with one entry more than they have
    initialisers; the last entry is 0. *)
Definition DRIVE_PINS : list Z := [10; 11; 12; 13; 14; 15; 16; 17; 9; 0].
Definition SENSE_PINS : list Z := [38; 39; 40; 41; 42; 43; 44; 45; 18; 0].

Definition setup : IO unit :=
  Board.setup_pins DRIVE_PINS SENSE_PINS CBM64.DRIVE_COUNT CBM64.SENSE_COUNT ;;
  Serial_begin 9600 ;;
  lift (Serial_println "Setup Complete").

End CBM64Board.

(** *** Vocabulary of the board properties *)

(** Every one of the first [n] pins of [pins] was last written HIGH. *)
Definition lines_high (pins : list Z) (n : nat) (b : board) : Prop :=
  forall i, (i < n)%nat ->
    nth (Z.to_nat (nth i pins 0)) (pin_levels b) None = Some HIGH.

(** The levels of the pins while drive line [i] is selected. *)
Definition selected (pins : list Z) (i : Z) (b : board)
  : list (option bool) :=
  upd (Z.to_nat (nth (Z.to_nat i) pins 0)) (Some LOW) (pin_levels b).

(** The level the scan reads for the key at drive line [i] and sense line
    [j], from a board whose drive lines are all HIGH. *)
Definition matrix_reading (read : list (option bool) -> Z -> bool)
  (b : board) (i j : Z) : bool :=
  read (selected PETBoard.DRIVE_PINS i b)
       (nth (Z.to_nat j) PETBoard.SENSE_PINS 0).

(** The console lines of one [printKeyPosition] sweep: one line for each
    key read LOW, drive line by drive line. *)
Definition row_lines (read : list (option bool) -> Z -> bool) (b : board)
  (i : nat) : list string :=
  flat_map (fun j =>
              if Bool.eqb (matrix_reading read b (Z.of_nat i) (Z.of_nat j)) LOW
              then [String.concat "" (PETBoard.key_line (Z.of_nat i) (Z.of_nat j))]
              else [])
           (seq 0 PET.SENSE_COUNT).

Definition key_lines (read : list (option bool) -> Z -> bool) (b : board)
  : list string :=
  flat_map (row_lines read b) (seq 0 PET.DRIVE_COUNT).

(** The board setup leaves from power-up. *)
Definition board_after_setup : board :=
  match PETBoard.setup (power_up_board, initial) with
  | Some (_, (b, _)) => b
  | None => power_up_board
  end.

(** A keyboard with every key pressed; with the key at drive line 0 and
    sense line 0 (pins 9 and 17) pressed alone. *)
Definition read_all_low : list (option bool) -> Z -> bool :=
  fun _ _ => LOW.
Definition read_key0 : list (option bool) -> Z -> bool :=
  fun levels pin =>
    match nth 9 levels None with
    | Some false => negb (pin =? 17)
    | _ => HIGH
    end.

(** The mode and the level of pin [p] as the board records them. *)
Definition mode_of (b : board) (p : Z) : option pin_mode :=
  nth (Z.to_nat p) (pin_modes b) None.
Definition level_of (b : board) (p : Z) : option bool :=
  nth (Z.to_nat p) (pin_levels b) None.

(** Board [b'] is board [b] with the [drive] pins made outputs at HIGH,
    the [sense] pins made inputs with pull-up, and every other pin, the
    time waited and the serial rate as they were. *)
Definition configured (drive sense : list Z) (b b' : board) : Prop :=
  (forall p, In p drive ->
     mode_of b' p = Some OUTPUT /\ level_of b' p = Some HIGH) /\
  (forall p, In p sense ->
     mode_of b' p = Some INPUT_PULLUP /\ level_of b' p = level_of b p) /\
  (forall p, 0 <= p -> ~ In p drive -> ~ In p sense ->
     mode_of b' p = mode_of b p /\ level_of b' p = level_of b p) /\
  waited b' = waited b.

(** A board with all its pins. *)
Definition board_ok (b : board) : Prop :=
  length (pin_modes b) = CORE_NUM_TOTAL_PINS /\
  length (pin_levels b) = CORE_NUM_TOTAL_PINS.

(** *** Vocabulary of the scan cycle *)

(** A computation with a result in every state. *)
Definition total {A : Type} (m : M A) : Prop :=
  forall s, exists a s', m s = Some (a, s').

(** Every result of [m] is a result of [m']. *)
Definition refines {A : Type} (m m' : M A) : Prop :=
  forall s r, m s = Some r -> m' s = Some r.

(** The part of a sweep before the key at drive [i] / sense [j] is
    scanned, and the part after it. *)
Definition scans_before (scan : Z -> Z -> M unit) (SC : nat) (i j : nat)
  : M unit :=
  for_loop i 0 (fun i' => for_loop SC 0 (fun j' => scan i' j')) ;;
  for_loop j 0 (fun j' => scan (Z.of_nat i) j').

Definition scans_after (scan : Z -> Z -> M unit) (DC SC : nat) (i j : nat)
  : M unit :=
  for_loop (SC - S j) (Z.of_nat j + 1) (fun j' => scan (Z.of_nat i) j') ;;
  for_loop (DC - S i) (Z.of_nat i + 1)
    (fun i' => for_loop SC 0 (fun j' => scan i' j')).

(** No key pressed. *)
Definition all_high : Z -> Z -> bool := fun _ _ => HIGH.

(** Only the key at drive 0 / sense 6 pressed. *)
Definition key6_low : Z -> Z -> bool :=
  fun i j => if (i =? 0) && (j =? 6) then LOW else HIGH.

(** Values for a call of debounce that reaches the end of the function. *)
Definition suppressing : Z -> state -> bool := fun _ _ => true.
Definition admitting : Z -> state -> bool := fun _ _ => false.

(** *** The cursor keys of the PET driver

    The horizontal CRSR key is key 7, at drive 0 / sense 7; the vertical
    one is key 14, at drive 1 / sense 6.  Their case blocks differ in the
    two key codes and in the flag they write. *)
Definition cursor_key (vertical : bool) : Z := if vertical then 14 else 7.
Definition cursor_drive (vertical : bool) : nat := if vertical then 1%nat else 0%nat.
Definition cursor_sense (vertical : bool) : nat := if vertical then 6%nat else 7%nat.
Definition cursor_code (vertical shifted : bool) : Z :=
  if vertical then (if shifted then KEY_UP else KEY_DOWN)
  else (if shifted then KEY_LEFT else KEY_RIGHT).
Definition cursor_flag (vertical : bool) (s : state) : bool :=
  if vertical then lArrow s else rArrow s.
Definition set_cursor_flag (vertical : bool) (v : bool) (s : state) : state :=
  if vertical then set_lArrow v s else set_rArrow v s.

(** *** The alt lock of the VICE variant in a scan cycle

    Left shift is key 64, at drive 8 / sense 0, and right shift is key 69,
    at drive 8 / sense 5: in a sweep left shift is scanned first.  [s] is
    the state at the start of the sweep and [s1] the state at its end. *)

(** Right shift is read pressed and latched in the sweep, with the left
    latch held. *)
Definition right_after_left (sense : Z -> Z -> bool) (s s1 : state) : Prop :=
  sense 8 5 = LOW /\ rShift s = false /\ rShift s1 = true /\ lShift s1 = true.

(** Left shift is read pressed and latched in the sweep, with the right
    latch held since before the sweep. *)
Definition left_after_right (sense : Z -> Z -> bool) (s s1 : state) : Prop :=
  sense 8 0 = LOW /\ lShift s = false /\ rShift s = true /\ lShift s1 = true.

(** Between two cycles nothing is armed, no change is pending and the
    right Alt bit is clear: the state at power-up, and after every cycle
    that starts in such a state. *)
Definition alt_quiet (s : state) : Prop :=
  lAlt s = false /\ rAlt s = false /\ keyStateChange s = false /\
  Z.testbit (modifiers s) RIGHT_ALT_BIT = false.

(** Left shift alone pressed; both Shift keys pressed. *)
Definition left_shift_low : Z -> Z -> bool :=
  fun i j => if (i =? 8) && (j =? 0) then LOW else HIGH.
Definition both_shifts_low : Z -> Z -> bool :=
  fun i j => if (i =? 8) && ((j =? 0) || (j =? 5)) then LOW else HIGH.

(** The VICE variant one cycle after power-up, left shift read pressed in
    that cycle and the call of debounce for it, which reaches the end of
    the function, handing back false. *)
Definition vice_left_shift_held : state :=
  match Sketch.VICE_loop (debounce_or admitting) left_shift_low 0 initial with
  | Some (_, s) => s
  | None => initial
  end.

(** The horizontal cursor key and left shift pressed. *)
Definition cursor_and_left_shift_low : Z -> Z -> bool :=
  fun i j => if (i =? 0) && (j =? 7) || (i =? 8) && (j =? 0) then LOW else HIGH.

(** Slot [slot] is the first slot of [usbKeys] that holds [keyId]: the
    slot the loop of checkRelease stops at. *)
Definition held_at (keys : list Z) (keyId : Z) (slot : nat) : Prop :=
  (slot < 6)%nat /\ nth slot keys 0 = keyId /\
  forall j, (j < slot)%nat -> nth j keys 0 <> keyId.

(** The CBM 64 driver after one call of debounce for the pointer-up key
    from power-up: the countdown of the key is 2. *)
Definition cbm64_pointer_up_armed : state :=
  match debounce 60 initial with
  | Some (_, s) => s
  | None => initial
  end.

(** The pointer-up key installed from [cbm64_pointer_up_armed], its
    debounce entry taken over by key 9, and one release reading of the
    key already counted: the next release reading is admitted. *)
Definition cbm64_pointer_up_held : state :=
  match run_all [ exec (CBM64.parseSpecial 60 LOW); exec (debounce 9);
                  exec (CBM64.parseSpecial 60 HIGH) ] cbm64_pointer_up_armed with
  | Some s => s
  | None => initial
  end.

(** * Properties *)

(** ** Arrays and search loops *)

Lemma upd_length {A : Type} (i : nat) (v : A) (l : list A) :
  length (upd i v l) = length l.
Proof.
  revert i; induction l as [|h t IH]; intros [|i]; simpl; auto.
Qed.

Lemma nth_upd_same {A : Type} (i : nat) (v d : A) (l : list A) :
  (i < length l)%nat -> nth i (upd i v l) d = v.
Proof.
  revert i; induction l as [|h t IH]; intros [|i] H; simpl in *; try lia; auto.
  apply IH; lia.
Qed.

Lemma nth_upd_other {A : Type} (i j : nat) (v d : A) (l : list A) :
  i <> j -> nth j (upd i v l) d = nth j l d.
Proof.
  revert i j; induction l as [|h t IH]; intros [|i] [|j] H; simpl; auto.
  congruence.
Qed.

Lemma find_index_Some (n i j : nat) (p : nat -> bool) :
  find_index n i p = Some j ->
  (i <= j < i + n)%nat /\ p j = true /\
  forall k, (i <= k < j)%nat -> p k = false.
Proof.
  revert i; induction n as [|n IH]; intros i H; simpl in H; [discriminate|].
  destruct (p i) eqn:Hp.
  - inversion H; subst. repeat split; try lia; auto.
  - apply IH in H. destruct H as (Hr & Hj & Hk).
    repeat split; try lia; auto.
    intros k Hk'. destruct (Nat.eq_dec k i); [subst; auto | apply Hk; lia].
Qed.

Lemma find_index_None (n i : nat) (p : nat -> bool) :
  find_index n i p = None -> forall k, (i <= k < i + n)%nat -> p k = false.
Proof.
  revert i; induction n as [|n IH]; intros i H k Hk; simpl in H; [lia|].
  destruct (p i) eqn:Hp; [discriminate|].
  destruct (Nat.eq_dec k i); [subst; auto | apply (IH _ H); lia].
Qed.

(** ** debounce: the two loops as searches *)

Lemma debounce_tracked_spec (n i0 : nat) (keyId : Z) (dk : list (Z * Z)) :
  debounce_tracked n i0 keyId dk =
  match find_index n i0 (fun i => fst (nth i dk (0, 0)) =? keyId) with
  | Some i =>
    let k := fst (nth i dk (0, 0)) in
    let c := snd (nth i dk (0, 0)) in
    if c =? 1 then Some (false, upd i (k, 0) dk)
    else Some (true, upd i (k, int8 (c - 1)) dk)
  | None => None
  end.
Proof.
  revert i0; induction n as [|n IH]; intros i0; simpl; auto.
  destruct (nth i0 dk (0, 0)) as [k c] eqn:E; simpl.
  destruct (k =? keyId); auto.
  cbv zeta. rewrite E; simpl.
  destruct (c =? 1); reflexivity.
Qed.

Lemma debounce_new_spec (n i0 : nat) (keyId : Z) (dk : list (Z * Z)) :
  debounce_new n i0 keyId dk =
  match find_index n i0 (fun i => snd (nth i dk (0, 0)) =? 0) with
  | Some i => Some (true, upd i (int8 keyId, int8 DEBOUNCE_DELAY) dk)
  | None => None
  end.
Proof.
  revert i0; induction n as [|n IH]; intros i0; simpl; auto.
  destruct (nth i0 dk (0, 0)) as [k c] eqn:E; simpl.
  destruct (c =? 0); auto.
Qed.

(** The countdown protocol on the entry that tracks the key, for any
    table: the first call arms, calls above 1 count down, the call that
    finds 1 admits, and the call that finds 0 counts down to -1. *)

Lemma debounce_arms_untracked (keyId : Z) (dk : list (Z * Z)) (i : nat) :
  find_index 6 0 (fun j => fst (nth j dk (0, 0)) =? keyId) = None ->
  find_index 6 0 (fun j => snd (nth j dk (0, 0)) =? 0) = Some i ->
  debounce_table keyId dk = Some (true, upd i (int8 keyId, DEBOUNCE_DELAY) dk).
Proof.
  intros H1 H2. unfold debounce_table.
  rewrite debounce_tracked_spec, H1, debounce_new_spec, H2. reflexivity.
Qed.

Lemma debounce_counts_down (keyId : Z) (dk : list (Z * Z)) (i : nat) :
  find_index 6 0 (fun j => fst (nth j dk (0, 0)) =? keyId) = Some i ->
  snd (nth i dk (0, 0)) <> 1 ->
  debounce_table keyId dk =
  Some (true, upd i (fst (nth i dk (0, 0)), int8 (snd (nth i dk (0, 0)) - 1)) dk).
Proof.
  intros H1 H2. unfold debounce_table.
  rewrite debounce_tracked_spec, H1. simpl.
  destruct (Z.eqb_spec (snd (nth i dk (0, 0))) 1); [contradiction | reflexivity].
Qed.

Lemma debounce_admits_at_one (keyId : Z) (dk : list (Z * Z)) (i : nat) :
  find_index 6 0 (fun j => fst (nth j dk (0, 0)) =? keyId) = Some i ->
  snd (nth i dk (0, 0)) = 1 ->
  debounce_table keyId dk = Some (false, upd i (fst (nth i dk (0, 0)), 0) dk).
Proof.
  intros H1 H2. unfold debounce_table.
  rewrite debounce_tracked_spec, H1. simpl. rewrite H2. reflexivity.
Qed.

Lemma debounce_idle_counts_down (keyId : Z) (dk : list (Z * Z)) (i : nat) :
  find_index 6 0 (fun j => fst (nth j dk (0, 0)) =? keyId) = Some i ->
  snd (nth i dk (0, 0)) = 0 ->
  debounce_table keyId dk = Some (true, upd i (fst (nth i dk (0, 0)), -1) dk).
Proof.
  intros H1 H2. rewrite (debounce_counts_down keyId dk i H1) by lia.
  rewrite H2. reflexivity.
Qed.

(** No tracked entry and no idle entry: neither loop returns. *)
Lemma debounce_full_table (keyId : Z) (dk : list (Z * Z)) :
  find_index 6 0 (fun j => fst (nth j dk (0, 0)) =? keyId) = None ->
  find_index 6 0 (fun j => snd (nth j dk (0, 0)) =? 0) = None ->
  debounce_table keyId dk = None.
Proof.
  intros H1 H2. unfold debounce_table.
  rewrite debounce_tracked_spec, H1, debounce_new_spec, H2. reflexivity.
Qed.

(** Whatever the table, the call admits only at countdown 1, and then the
    key id is one of the stored [int8_t] values. *)
Lemma debounce_table_admits (keyId : Z) (dk dk' : list (Z * Z)) :
  debounce_table keyId dk = Some (false, dk') ->
  exists i, (i < 6)%nat /\ fst (nth i dk (0, 0)) = keyId /\
            snd (nth i dk (0, 0)) = 1 /\ dk' = upd i (keyId, 0) dk.
Proof.
  unfold debounce_table. rewrite debounce_tracked_spec, debounce_new_spec.
  destruct (find_index 6 0 (fun i => fst (nth i dk (0, 0)) =? keyId)) as [i|] eqn:E.
  - apply find_index_Some in E. destruct E as (Hi & Hk & _).
    apply Z.eqb_eq in Hk. simpl.
    destruct (Z.eqb_spec (snd (nth i dk (0, 0))) 1) as [Hc|Hc]; intros H;
      inversion H; subst.
    exists i. repeat split; auto; lia.
  - destruct (find_index 6 0 (fun i => snd (nth i dk (0, 0)) =? 0)); discriminate.
Qed.

(** C1.  The countdown protocol of debounce, evaluated for key 5 from the
    power-up table: the first call arms the countdown at DEBOUNCE_DELAY and
    suppresses, the second counts down to 1 and suppresses, the third finds
    1, admits and leaves the entry idle.  The fourth call, on the matched
    idle entry, does not re-arm the entry at DEBOUNCE_DELAY: it counts down
    to -1 and suppresses.  Key 0, tracked idle by the power-up table itself,
    is counted down to -1 by its first call. *)
Theorem debounce_matched_idle_entry_not_rearmed :
  let rest := [(0, 0); (0, 0); (0, 0); (0, 0); (0, 0)] in
  debounce_table 5 ((0, 0) :: rest) = Some (true, (5, DEBOUNCE_DELAY) :: rest) /\
  debounce_table 5 ((5, 2) :: rest) = Some (true, (5, 1) :: rest) /\
  debounce_table 5 ((5, 1) :: rest) = Some (false, (5, 0) :: rest) /\
  debounce_table 5 ((5, 0) :: rest) = Some (true, (5, -1) :: rest) /\
  debounce_table 5 ((5, 0) :: rest) <> Some (true, (5, DEBOUNCE_DELAY) :: rest) /\
  debounce_table 0 (debounceKeys initial) = Some (true, (0, -1) :: rest).
Proof.
  cbv zeta. repeat split; try reflexivity. discriminate.
Qed.

(** C4.  From power-up, debounce calls for keys 0 to 5 leave every entry of
    the table with a non-zero countdown; the call for a seventh key then
    matches no entry, finds no idle entry, and reaches the end of the
    function without executing a return: no value is defined. *)
Theorem debounce_seventh_key_no_return :
  let full := set_debounceKeys
                [(0, -1); (1, 2); (2, 2); (3, 2); (4, 2); (5, 2)] initial in
  run_calls [CallDebounce 0; CallDebounce 1; CallDebounce 2;
             CallDebounce 3; CallDebounce 4; CallDebounce 5] initial = Some full /\
  debounce 6 full = None.
Proof.
  cbv zeta. split; reflexivity.
Qed.

(** ** Properties kept by the computations *)

Ltac unfold_m := unfold bind, ret, get, modify, undefined, exec in *.

Lemma keeps_ret {A : Type} (P : state -> Prop) (a : A) : keeps P (ret a).
Proof. intros s a' s' HP H; inversion H; subst; auto. Qed.

Lemma keeps_get {A : Type} (P : state -> Prop) (f : state -> A) :
  keeps P (get f).
Proof. intros s a' s' HP H; inversion H; subst; auto. Qed.

Lemma keeps_undefined {A : Type} (P : state -> Prop) :
  keeps P (@undefined A).
Proof. intros s a' s' HP H; discriminate. Qed.

Lemma keeps_modify (P : state -> Prop) (f : state -> state) :
  (forall s, P s -> P (f s)) -> keeps P (modify f).
Proof. intros Hf s a' s' HP H; inversion H; subst; auto. Qed.

Lemma keeps_bind {A B : Type} (P : state -> Prop) (m : M A) (f : A -> M B) :
  keeps P m -> (forall a, keeps P (f a)) -> keeps P (bind m f).
Proof.
  intros Hm Hf s b s' HP H. unfold bind in H.
  destruct (m s) as [[a s1]|] eqn:E; [|discriminate].
  eapply Hf; [eapply Hm; eauto | exact H].
Qed.

Lemma keeps_if {A : Type} (P : state -> Prop) (b : bool) (m1 m2 : M A) :
  keeps P m1 -> keeps P m2 -> keeps P (if b then m1 else m2).
Proof. destruct b; auto. Qed.

Lemma keeps_then_ (P : state -> Prop) (m : M ctl) (k : bool -> M ctl) :
  keeps P m -> (forall b, keeps P (k b)) -> keeps P (then_ m k).
Proof.
  intros Hm Hk. unfold then_. apply keeps_bind; auto.
  intros [v|b]; auto using keeps_ret.
Qed.

Lemma keeps_index {A : Type} (P : state -> Prop) (t : list A) (k : Z) :
  keeps P (index t k).
Proof.
  unfold index. destruct (k <? 0); [apply keeps_undefined|].
  destruct (nth_error t (Z.to_nat k)); [apply keeps_ret | apply keeps_undefined].
Qed.

Lemma keeps_for_loop (P : state -> Prop) (n : nat) (i : Z) (body : Z -> M unit) :
  (forall j, i <= j < i + Z.of_nat n -> keeps P (body j)) ->
  keeps P (for_loop n i body).
Proof.
  revert i; induction n as [|n IH]; intros i H; simpl.
  - apply keeps_ret.
  - apply keeps_bind; [apply H; lia|]. intros _. apply IH. intros; apply H; lia.
Qed.

(** In a loop, a property established by iteration [j0] and kept by the
    later iterations holds at the end. *)
Lemma for_loop_establishes (P : state -> Prop) (n : nat) (i j0 : Z)
  (body : Z -> M unit) :
  i <= j0 < i + Z.of_nat n ->
  (forall s a s', body j0 s = Some (a, s') -> P s') ->
  (forall j, j0 < j < i + Z.of_nat n -> keeps P (body j)) ->
  forall s a s', for_loop n i body s = Some (a, s') -> P s'.
Proof.
  revert i; induction n as [|n IH]; intros i Hr H0 Hk s a s' H; [lia|].
  simpl in H. unfold bind in H.
  destruct (body i s) as [[[] s1]|] eqn:E; [|discriminate].
  destruct (Z.eq_dec i j0) as [->|Hne].
  - apply H0 in E. revert E H. apply keeps_for_loop. intros; apply Hk; lia.
  - eapply (IH (i + 1)); eauto; try lia. intros; apply Hk; lia.
Qed.

Lemma keeps_run_cases (P : state -> Prop) (cs : list case_block)
  (keyId : Z) (level isSpecial : bool) :
  (forall c b, In c cs -> keeps P (body c keyId level b)) ->
  keeps P (run_cases cs keyId level isSpecial).
Proof.
  revert isSpecial; induction cs as [|c rest IH]; intros b H; simpl.
  - apply keeps_ret.
  - apply keeps_then_; [apply H; simpl; auto|].
    intros b'. apply keeps_if; [apply keeps_ret|]. apply IH.
    intros; apply H; simpl; auto.
Qed.

(** When every block ends in [break], only the block of the matching label
    runs. *)
Lemma keeps_switch (P : state -> Prop) (cs : list case_block)
  (keyId : Z) (level isSpecial : bool) :
  (forall c, In c cs -> has_break c = true) ->
  (forall c b, In c cs -> label c = keyId -> keeps P (body c keyId level b)) ->
  keeps P (switch cs keyId level isSpecial).
Proof.
  induction cs as [|c rest IH]; intros Hb H; simpl.
  - apply keeps_ret.
  - destruct (Z.eqb_spec (label c) keyId) as [E|E].
    + apply keeps_then_; [apply H; simpl; auto|].
      intros b'. rewrite (Hb c) by (simpl; auto). apply keeps_ret.
    + apply IH; intros; [apply Hb | apply H]; simpl; auto.
Qed.

(** A property that does not read the debounce table is kept by debounce. *)
Lemma keeps_debounce_frame (P : state -> Prop) (keyId : Z) :
  (forall s v, P s -> P (set_debounceKeys v s)) -> keeps P (debounce keyId).
Proof.
  intros Hf s r s' HP H. unfold debounce in H.
  destruct (debounce_table keyId (debounceKeys s)) as [[d dk]|]; [|discriminate].
  inversion H; subst; auto.
Qed.

(** Properties kept by debounce that do not read the fields written by
    setKey and checkRelease are kept by them and by the case blocks. *)
Section Frame.

Variable P : state -> Prop.
Variable keyId : Z.
Hypothesis P_debounce : keeps P (debounce keyId).
Hypothesis P_usbKeys : forall s v, P s -> P (set_usbKeys v s).
Hypothesis P_keysUsed : forall s v, P s -> P (set_keysUsed v s).
Hypothesis P_or_shift : forall s,
  P s -> P (set_modifiers (bit_or (modifiers s) MODIFIERKEY_SHIFT) s).
Hypothesis P_clear_shift : forall s,
  P s -> P (set_modifiers (bit_clear (modifiers s) MODIFIERKEY_SHIFT) s).
Hypothesis P_or_ctrl : forall s,
  P s -> P (set_modifiers (bit_or (modifiers s) MODIFIERKEY_CTRL) s).
Hypothesis P_clear_ctrl : forall s,
  P s -> P (set_modifiers (bit_clear (modifiers s) MODIFIERKEY_CTRL) s).
Hypothesis P_keyStateChange : forall s v, P s -> P (set_keyStateChange v s).
Hypothesis P_kbKeys : forall s v, P s -> P (set_kbKeys v s).

Lemma keeps_return_if_debounce (b : bool) :
  keeps P (return_if_debounce keyId b).
Proof.
  unfold return_if_debounce. apply keeps_bind; [apply P_debounce|].
  intros d; apply keeps_if; apply keeps_ret.
Qed.

Lemma keeps_set_key_switch (n : nat) (c : Z) : keeps P (set_key_switch n c).
Proof.
  unfold set_key_switch.
  do 7 (destruct n as [|n]; [first [apply keeps_ret | apply keeps_modify; auto]|]).
  apply keeps_ret.
Qed.

Lemma keeps_checkRelease (S : list bool) :
  keeps P (Engine.checkRelease S keyId).
Proof.
  unfold Engine.checkRelease.
  apply keeps_bind; [apply P_debounce|]. intros d.
  apply keeps_if; [apply keeps_ret|].
  apply keeps_bind; [apply keeps_get|]. intros keys.
  destruct (find_index 6 0 _); [|apply keeps_ret].
  repeat (apply keeps_bind; [| intros ?]);
    try (apply keeps_modify; auto); try apply keeps_index;
    try apply keeps_set_key_switch.
  apply keeps_if; [apply keeps_modify; auto | apply keeps_ret].
Qed.

Lemma keeps_setKey (K : list Z) (S : list bool) (keyCode : Z) :
  keeps P (Engine.setKey K S keyId keyCode).
Proof.
  unfold Engine.setKey.
  apply keeps_bind; [apply keeps_get|]. intros used.
  apply keeps_if; [apply keeps_ret|].
  apply keeps_bind; [apply P_debounce|]. intros d.
  apply keeps_if; [apply keeps_ret|].
  apply keeps_bind; [apply keeps_get|]. intros keys.
  destruct (find_index 6 0 _); [apply keeps_ret|].
  destruct (find_index 6 0 _); [|apply keeps_ret].
  repeat (apply keeps_bind; [| intros ?]);
    try (apply keeps_modify; auto); try apply keeps_index;
    try apply keeps_set_key_switch; try apply keeps_ret.
  apply keeps_if; [apply keeps_modify; auto | apply keeps_ret].
Qed.

Lemma keeps_case_control (level b : bool) :
  keeps P (Engine.case_control keyId level b).
Proof.
  unfold Engine.case_control.
  apply keeps_then_; [|intros; apply keeps_ret].
  apply keeps_if; (apply keeps_then_; [apply keeps_return_if_debounce|]);
    intros b'; repeat (apply keeps_bind; [| intros ?]);
    try (apply keeps_modify; auto); apply keeps_ret.
Qed.

End Frame.

(** The blocks that call setKey and checkRelease, and the scan of one key,
    keep what those calls keep. *)
Section Blocks.

Variable P : state -> Prop.
Variable K : list Z.
Variable S : list bool.
Variable keyId : Z.
Hypothesis P_setKey : forall c, keeps P (Engine.setKey K S keyId c).
Hypothesis P_checkRelease : keeps P (Engine.checkRelease S keyId).

Lemma keeps_case_7 (level b : bool) :
  (forall s v, P s -> P (set_rArrow v s)) ->
  keeps P (Engine.case_7 K S keyId level b).
Proof.
  intros Hr. unfold Engine.case_7.
  apply keeps_bind; [|intros; apply keeps_ret].
  apply keeps_if.
  - apply keeps_bind; [apply keeps_get|]. intros l.
    apply keeps_bind; [apply keeps_get|]. intros r.
    apply keeps_bind; [apply keeps_if; apply P_setKey|].
    intros _. apply keeps_modify; auto.
  - apply keeps_bind; [apply P_checkRelease|].
    intros _. apply keeps_modify; auto.
Qed.

Lemma keeps_case_14 (level b : bool) :
  (forall s v, P s -> P (set_lArrow v s)) ->
  keeps P (Engine.case_14 K S keyId level b).
Proof.
  intros Hr. unfold Engine.case_14.
  apply keeps_bind; [|intros; apply keeps_ret].
  apply keeps_if.
  - apply keeps_bind; [apply keeps_get|]. intros l.
    apply keeps_bind; [apply keeps_get|]. intros r.
    apply keeps_bind; [apply keeps_if; apply P_setKey|].
    intros _. apply keeps_modify; auto.
  - apply keeps_bind; [apply P_checkRelease|].
    intros _. apply keeps_modify; auto.
Qed.

End Blocks.

(** The scan of one key keeps what its three callees keep. *)
Lemma keeps_scanKey (P : state -> Prop) (K : list Z) (S : list bool)
  (keyId : Z) (cases : list case_block) (SC : nat)
  (sense : Z -> Z -> bool) (i j : Z) :
  Engine.getKeyId SC i j = keyId ->
  keeps P (Engine.setKey K S keyId 0) ->
  keeps P (Engine.checkRelease S keyId) ->
  (forall level, keeps P (Engine.parseSpecial cases keyId level)) ->
  keeps P (Engine.scanKey K S cases SC sense i j).
Proof.
  intros Hk Hs Hc Hp. unfold Engine.scanKey. rewrite Hk.
  apply keeps_bind; [apply Hp|]. intros special.
  apply keeps_if; [|apply keeps_ret].
  apply keeps_if; [|apply Hc].
  apply keeps_bind; [apply Hs | intros; apply keeps_ret].
Qed.

(** ** setKey and checkRelease without the monad *)

Arguments find_index : simpl never.

Lemma set_key_switch_eq (slot : nat) (c : Z) (s : state) :
  (slot < 6)%nat ->
  set_key_switch (slot + 1) c s = Some (tt, set_kbKeys (upd slot c (kbKeys s)) s).
Proof.
  intros H. do 6 (destruct slot as [|slot]; [reflexivity|]). lia.
Qed.

Lemma setKey_eq (K : list Z) (S : list bool) (keyId keyCode : Z) (s : state) :
  Engine.setKey K S keyId keyCode s =
  if keysUsed s =? 6 then Some (false, s) else
  match debounce_table keyId (debounceKeys s) with
  | None => None
  | Some (true, dk) => Some (false, set_debounceKeys dk s)
  | Some (false, dk) =>
    let s1 := set_debounceKeys dk s in
    match find_index 6 0 (fun n => nth n (usbKeys s) 0 =? keyId) with
    | Some _ => Some (true, s1)
    | None =>
      match find_index 6 0 (fun n => nth n (usbKeys s) 0 =? -1) with
      | None => Some (false, s1)
      | Some slot =>
        if keyId <? 0 then None else
        match nth_error S (Z.to_nat keyId), nth_error K (Z.to_nat keyId) with
        | Some need, Some code =>
          Some (true, install slot keyId
                        (if negb (keyCode =? 0) then keyCode else code) need s1)
        | _, _ => None
        end
      end
    end
  end.
Proof.
  unfold Engine.setKey, debounce, index. unfold_m.
  destruct (keysUsed s =? 6); auto.
  destruct (debounce_table keyId (debounceKeys s)) as [[[|] dk]|]; auto.
  simpl.
  destruct (find_index 6 0 (fun n => nth n (usbKeys s) 0 =? keyId)); auto.
  destruct (find_index 6 0 (fun n => nth n (usbKeys s) 0 =? -1)) as [slot|] eqn:E; auto.
  apply find_index_Some in E. destruct E as (Hslot & _).
  destruct (keyId <? 0); auto.
  destruct (nth_error S (Z.to_nat keyId)) as [need|]; auto.
  destruct (nth_error K (Z.to_nat keyId)) as [code|];
    [|destruct need; reflexivity].
  destruct need; cbv beta; rewrite set_key_switch_eq by lia; reflexivity.
Qed.

Lemma checkRelease_eq (S : list bool) (keyId : Z) (s : state) :
  Engine.checkRelease S keyId s =
  match debounce_table keyId (debounceKeys s) with
  | None => None
  | Some (true, dk) => Some (tt, set_debounceKeys dk s)
  | Some (false, dk) =>
    let s1 := set_debounceKeys dk s in
    match find_index 6 0 (fun n => nth n (usbKeys s) 0 =? keyId) with
    | None => Some (tt, s1)
    | Some slot =>
      if keyId <? 0 then None else
      match nth_error S (Z.to_nat keyId) with
      | Some need => Some (tt, release slot need s1)
      | None => None
      end
    end
  end.
Proof.
  unfold Engine.checkRelease, debounce, index. unfold_m.
  destruct (debounce_table keyId (debounceKeys s)) as [[[|] dk]|]; auto.
  simpl.
  destruct (find_index 6 0 (fun n => nth n (usbKeys s) 0 =? keyId)) as [slot|] eqn:E; auto.
  apply find_index_Some in E. destruct E as (Hslot & _).
  destruct (keyId <? 0); auto.
  destruct (nth_error S (Z.to_nat keyId)) as [need|]; auto.
  destruct need; cbv beta; rewrite set_key_switch_eq by lia; reflexivity.
Qed.

(** ** The occupied-slot count *)

Lemma occupied_bounds (keys : list Z) :
  0 <= occupied keys <= Z.of_nat (length keys).
Proof.
  unfold occupied. split; [lia|].
  apply inj_le. induction keys as [|h t IH]; simpl; auto.
  destruct (negb (h =? -1)); simpl; lia.
Qed.

Lemma filter_upd_length (f : Z -> bool) (keys : list Z) (i : nat) (v : Z) :
  (i < length keys)%nat ->
  (length (filter f (upd i v keys)) + (if f (nth i keys 0%Z) then 1 else 0) =
   length (filter f keys) + (if f v then 1 else 0))%nat.
Proof.
  revert i; induction keys as [|h t IH]; intros [|i] H; simpl in *; try lia.
  - destruct (f h), (f v); simpl; lia.
  - specialize (IH i ltac:(lia)). destruct (f h); simpl; lia.
Qed.

Lemma occupied_upd (keys : list Z) (i : nat) (v : Z) :
  (i < length keys)%nat ->
  occupied (upd i v keys) =
  occupied keys - (if nth i keys 0 =? -1 then 0 else 1)
                + (if v =? -1 then 0 else 1).
Proof.
  intros H. unfold occupied.
  pose proof (filter_upd_length (fun k => negb (k =? -1)) keys i v H) as E.
  cbv beta in E.
  destruct (nth i keys 0 =? -1), (v =? -1); simpl in E; lia.
Qed.

Lemma int8_range (z : Z) : -128 <= int8 z <= 127.
Proof. unfold int8. pose proof (Z.mod_pos_bound (z + 128) 256). lia. Qed.

Lemma int8_small (z : Z) : -128 <= z <= 127 -> int8 z = z.
Proof. intros H. unfold int8. rewrite Z.mod_small; lia. Qed.

Lemma Forall_upd {A : Type} (Q : A -> Prop) (i : nat) (v : A) (l : list A) :
  Forall Q l -> Q v -> Forall Q (upd i v l).
Proof.
  intros H Hv. revert i; induction H as [|h t Hh Ht IH]; intros [|i]; simpl;
    constructor; auto.
Qed.

Lemma Forall_nth_default {A : Type} (Q : A -> Prop) (l : list A) (d : A) (i : nat) :
  Forall Q l -> Q d -> Q (nth i l d).
Proof.
  intros H Hd. revert i; induction H as [|h t Hh Ht IH]; intros [|i]; simpl; auto.
Qed.

(** ** The report buffer stays consistent *)

Lemma debounce_table_ok (keyId : Z) (dk dk' : list (Z * Z)) (d : bool) :
  table_ok dk -> debounce_table keyId dk = Some (d, dk') -> table_ok dk'.
Proof.
  intros [Hlen Hall] H. unfold debounce_table in H.
  rewrite debounce_tracked_spec, debounce_new_spec in H.
  assert (Hnth : forall i, -128 <= fst (nth i dk (0, 0)) <= 127).
  { intros i. apply (Forall_nth_default (fun e => -128 <= fst e <= 127));
      simpl; auto; lia. }
  destruct (find_index 6 0 (fun i => fst (nth i dk (0, 0)) =? keyId)) as [i|].
  - cbv zeta in H.
    destruct (snd (nth i dk (0, 0)) =? 1); inversion H; subst;
      (split; [rewrite upd_length; auto | apply Forall_upd; simpl; auto]).
  - destruct (find_index 6 0 (fun i => snd (nth i dk (0, 0)) =? 0)) as [i|];
      inversion H; subst.
    split; [rewrite upd_length; auto | apply Forall_upd; simpl; auto].
    apply int8_range.
Qed.

Lemma debounce_admits_int8 (keyId : Z) (dk dk' : list (Z * Z)) :
  table_ok dk -> debounce_table keyId dk = Some (false, dk') ->
  -128 <= keyId <= 127.
Proof.
  intros [_ Hall] H. apply debounce_table_admits in H.
  destruct H as (i & _ & Hk & _). rewrite <- Hk.
  apply (Forall_nth_default (fun e => -128 <= fst e <= 127)); simpl; auto; lia.
Qed.

Lemma buffer_ok_debounce (keyId : Z) : keeps buffer_ok (debounce keyId).
Proof.
  intros s d s' (Ht & Hrest) H. unfold debounce in H.
  destruct (debounce_table keyId (debounceKeys s)) as [[d' dk]|] eqn:E;
    [|discriminate].
  inversion H; subst. split; [|exact Hrest].
  simpl. eapply debounce_table_ok; eauto.
Qed.

Lemma buffer_ok_install (s : state) (dk : list (Z * Z)) (slot : nat)
  (keyId keyToSet : Z) (need : bool) :
  buffer_ok s -> table_ok dk -> 0 <= keyId <= 127 ->
  keysUsed s <> 6 ->
  find_index 6 0 (fun n => nth n (usbKeys s) 0 =? keyId) = None ->
  find_index 6 0 (fun n => nth n (usbKeys s) 0 =? -1) = Some slot ->
  buffer_ok (install slot keyId keyToSet need (set_debounceKeys dk s)) /\
  keysUsed s < 6 /\
  keysUsed (install slot keyId keyToSet need (set_debounceKeys dk s)) = keysUsed s + 1.
Proof.
  intros (Ht & Hlen & Hused & Hdist & Hkb) Hdk Hk Hn6 Hheld Hfree.
  apply find_index_Some in Hfree. destruct Hfree as (Hslot & Hv & _).
  apply Z.eqb_eq in Hv.
  pose proof (find_index_None _ _ _ Hheld) as Hnot.
  pose proof (occupied_bounds (usbKeys s)) as Hb. rewrite Hlen in Hb.
  assert (Hocc : occupied (upd slot (int8 keyId) (usbKeys s)) = occupied (usbKeys s) + 1).
  { rewrite occupied_upd by lia. rewrite Hv. simpl.
    rewrite int8_small by lia.
    destruct (Z.eqb_spec keyId (-1)); lia. }
  assert (Hlt : occupied (upd slot (int8 keyId) (usbKeys s)) <= 6).
  { pose proof (occupied_bounds (upd slot (int8 keyId) (usbKeys s))) as Hb'.
    rewrite upd_length, Hlen in Hb'. lia. }
  assert (Hdist' : distinct_slots (upd slot (int8 keyId) (usbKeys s))).
  { intros i j Hi Hj Heq Hne.
    destruct (Nat.eq_dec i slot) as [->|Hi'];
      destruct (Nat.eq_dec j slot) as [->|Hj']; auto.
    + rewrite nth_upd_same in Heq by lia.
      rewrite nth_upd_other in Heq by auto.
      rewrite int8_small in Heq by lia.
      specialize (Hnot j ltac:(lia)). simpl in Hnot.
      apply Z.eqb_neq in Hnot. congruence.
    + rewrite (nth_upd_same slot) in Heq by lia.
      rewrite nth_upd_other in Heq by auto.
      rewrite int8_small in Heq by lia.
      specialize (Hnot i ltac:(lia)). simpl in Hnot.
      apply Z.eqb_neq in Hnot. congruence.
    + rewrite !nth_upd_other in Heq by auto.
      rewrite nth_upd_other in Hne by auto. auto. }
  assert (Hu : uint8 (keysUsed s + 1) = keysUsed s + 1).
  { unfold uint8. rewrite Z.mod_small; lia. }
  unfold install, buffer_ok; simpl.
  split; [split; [exact Hdk | split; [| split; [| split; [exact Hdist' |]]]]
         | split].
  - rewrite upd_length; auto.
  - rewrite Hu, Hocc, Hused. reflexivity.
  - rewrite upd_length; auto.
  - lia.
  - exact Hu.
Qed.

Lemma buffer_ok_release (s : state) (dk : list (Z * Z)) (slot : nat)
  (keyId : Z) (need : bool) :
  buffer_ok s -> table_ok dk -> 0 <= keyId ->
  find_index 6 0 (fun n => nth n (usbKeys s) 0 =? keyId) = Some slot ->
  buffer_ok (release slot need (set_debounceKeys dk s)) /\
  0 < keysUsed s /\
  keysUsed (release slot need (set_debounceKeys dk s)) = keysUsed s - 1.
Proof.
  intros (Ht & Hlen & Hused & Hdist & Hkb) Hdk Hk Hheld.
  apply find_index_Some in Hheld. destruct Hheld as (Hslot & Hv & _).
  apply Z.eqb_eq in Hv.
  pose proof (occupied_bounds (usbKeys s)) as Hb. rewrite Hlen in Hb.
  assert (Hocc : occupied (upd slot (-1) (usbKeys s)) = occupied (usbKeys s) - 1).
  { rewrite occupied_upd by lia. rewrite Hv. simpl.
    destruct (Z.eqb_spec keyId (-1)); lia. }
  assert (Hdist' : distinct_slots (upd slot (-1) (usbKeys s))).
  { intros i j Hi Hj Heq Hne.
    destruct (Nat.eq_dec i slot) as [->|Hi'].
    + rewrite nth_upd_same in Hne by lia. congruence.
    + destruct (Nat.eq_dec j slot) as [->|Hj'].
      * rewrite nth_upd_same in Heq by lia.
        rewrite nth_upd_other in Hne by auto.
        rewrite nth_upd_other in Heq by auto. congruence.
      * rewrite !nth_upd_other in Heq by auto.
        rewrite nth_upd_other in Hne by auto. auto. }
  pose proof (occupied_bounds (upd slot (-1) (usbKeys s))) as Hb'.
  assert (Hu : uint8 (keysUsed s - 1) = keysUsed s - 1).
  { unfold uint8. rewrite Z.mod_small; lia. }
  unfold release, buffer_ok; simpl.
  split; [split; [exact Hdk | split; [| split; [| split; [exact Hdist' |]]]]
         | split].
  - rewrite upd_length; auto.
  - rewrite Hu, Hocc, Hused. reflexivity.
  - rewrite upd_length; auto.
  - lia.
  - exact Hu.
Qed.

(** setKey keeps the buffer consistent and changes the counter only by an
    increment from below 6. *)
Lemma setKey_counter (K : list Z) (S : list bool) (keyId keyCode : Z)
  (s s' : state) (r : bool) :
  0 <= keyId <= 255 -> buffer_ok s ->
  Engine.setKey K S keyId keyCode s = Some (r, s') ->
  buffer_ok s' /\
  (keysUsed s' = keysUsed s \/
   (keysUsed s < 6 /\ keysUsed s' = keysUsed s + 1)).
Proof.
  intros Hk Hok H. rewrite setKey_eq in H.
  destruct (keysUsed s =? 6) eqn:E6; [inversion H; subst; auto|].
  apply Z.eqb_neq in E6.
  destruct (debounce_table keyId (debounceKeys s)) as [[d dk]|] eqn:Ed;
    [|discriminate].
  assert (Hdk : table_ok dk) by (eapply debounce_table_ok; eauto; apply Hok).
  assert (Hs1 : buffer_ok (set_debounceKeys dk s)).
  { destruct Hok as (? & ?). split; auto. }
  destruct d; [inversion H; subst; auto|].
  cbv zeta in H.
  destruct (find_index 6 0 (fun n => nth n (usbKeys s) 0 =? keyId)) eqn:Eh;
    [inversion H; subst; auto|].
  destruct (find_index 6 0 (fun n => nth n (usbKeys s) 0 =? -1)) as [slot|] eqn:Ef;
    [|inversion H; subst; auto].
  destruct (keyId <? 0); [discriminate|].
  destruct (nth_error S (Z.to_nat keyId)) as [need|]; [|discriminate].
  destruct (nth_error K (Z.to_nat keyId)) as [code|]; [|discriminate].
  inversion H; subst.
  assert (Hr : 0 <= keyId <= 127).
  { apply debounce_admits_int8 in Ed; [lia | apply Hok]. }
  destruct (buffer_ok_install s dk slot keyId
              (if negb (keyCode =? 0) then keyCode else code) need)
    as (H1 & H2 & H3); auto.
Qed.

(** checkRelease keeps the buffer consistent and changes the counter only
    by a decrement from above 0. *)
Lemma checkRelease_counter (S : list bool) (keyId : Z) (s s' : state) (u : unit) :
  0 <= keyId <= 255 -> buffer_ok s ->
  Engine.checkRelease S keyId s = Some (u, s') ->
  buffer_ok s' /\
  (keysUsed s' = keysUsed s \/
   (0 < keysUsed s /\ keysUsed s' = keysUsed s - 1)).
Proof.
  intros Hk Hok H. rewrite checkRelease_eq in H.
  destruct (debounce_table keyId (debounceKeys s)) as [[d dk]|] eqn:Ed;
    [|discriminate].
  assert (Hdk : table_ok dk) by (eapply debounce_table_ok; eauto; apply Hok).
  assert (Hs1 : buffer_ok (set_debounceKeys dk s)).
  { destruct Hok as (? & ?). split; auto. }
  destruct d; [inversion H; subst; auto|].
  cbv zeta in H.
  destruct (find_index 6 0 (fun n => nth n (usbKeys s) 0 =? keyId)) as [slot|] eqn:Eh;
    [|inversion H; subst; auto].
  destruct (keyId <? 0); [discriminate|].
  destruct (nth_error S (Z.to_nat keyId)) as [need|]; [|discriminate].
  inversion H; subst.
  destruct (buffer_ok_release s dk slot keyId need) as (H1 & H2 & H3);
    auto; lia.
Qed.

Lemma buffer_ok_setKey (K : list Z) (S : list bool) (keyId keyCode : Z) :
  0 <= keyId <= 255 -> keeps buffer_ok (Engine.setKey K S keyId keyCode).
Proof.
  intros Hk s r s' Hok H. eapply setKey_counter; eauto.
Qed.

Lemma buffer_ok_checkRelease (S : list bool) (keyId : Z) :
  0 <= keyId <= 255 -> keeps buffer_ok (Engine.checkRelease S keyId).
Proof.
  intros Hk s r s' Hok H. eapply checkRelease_counter; eauto.
Qed.

(** ** The special-key handler and the composition step of the PET driver *)

Ltac keeps_straight :=
  repeat first
    [ apply keeps_ret
    | apply keeps_get
    | apply keeps_modify; let HP := fresh in intros ? HP; exact HP
    | apply keeps_if
    | apply keeps_bind; [| intros ?] ].

Lemma keeps_PET_case_64 (P : state -> Prop) (keyId : Z) (level b : bool) :
  keeps P (debounce keyId) ->
  (forall s v, P s -> P (set_lShift v s)) ->
  (forall s v, P s -> P (set_keyStateChange v s)) ->
  keeps P (PET.case_64 keyId level b).
Proof.
  intros Hd Hl Hc. unfold PET.case_64.
  apply keeps_bind; [apply keeps_get|]. intros l.
  apply keeps_then_.
  { apply keeps_if; [|apply keeps_ret].
    apply keeps_then_; [apply keeps_return_if_debounce; auto|]. intros b'.
    repeat (apply keeps_bind; [apply keeps_modify; auto | intros ?]).
    apply keeps_ret. }
  intros b1. apply keeps_bind; [apply keeps_get|]. intros l'.
  apply keeps_then_; [|intros; apply keeps_ret].
  apply keeps_if; [|apply keeps_ret].
  apply keeps_then_; [apply keeps_return_if_debounce; auto|]. intros b'.
  repeat (apply keeps_bind; [apply keeps_modify; auto | intros ?]).
  apply keeps_ret.
Qed.

Lemma keeps_PET_case_69 (P : state -> Prop) (keyId : Z) (level b : bool) :
  keeps P (debounce keyId) ->
  (forall s v, P s -> P (set_rShift v s)) ->
  (forall s v, P s -> P (set_keyStateChange v s)) ->
  keeps P (PET.case_69 keyId level b).
Proof.
  intros Hd Hl Hc. unfold PET.case_69.
  apply keeps_bind; [apply keeps_get|]. intros l.
  apply keeps_then_.
  { apply keeps_if; [|apply keeps_ret].
    apply keeps_then_; [apply keeps_return_if_debounce; auto|]. intros b'.
    repeat (apply keeps_bind; [apply keeps_modify; auto | intros ?]).
    apply keeps_ret. }
  intros b1. apply keeps_bind; [apply keeps_get|]. intros l'.
  apply keeps_then_; [|intros; apply keeps_ret].
  apply keeps_if; [|apply keeps_ret].
  apply keeps_then_; [apply keeps_return_if_debounce; auto|]. intros b'.
  repeat (apply keeps_bind; [apply keeps_modify; auto | intros ?]).
  apply keeps_ret.
Qed.

Lemma keeps_PET_parseSpecial (P : state -> Prop) (keyId : Z) (level : bool) :
  keeps P (debounce keyId) ->
  (forall c, keeps P (PET.setKey keyId c)) ->
  keeps P (PET.checkRelease keyId) ->
  (forall s v, P s -> P (set_lShift v s)) ->
  (forall s v, P s -> P (set_rShift v s)) ->
  (keyId = 14 -> forall s v, P s -> P (set_lArrow v s)) ->
  (keyId = 7 -> forall s v, P s -> P (set_rArrow v s)) ->
  (forall s, P s -> P (set_modifiers (bit_or (modifiers s) MODIFIERKEY_CTRL) s)) ->
  (forall s, P s -> P (set_modifiers (bit_clear (modifiers s) MODIFIERKEY_CTRL) s)) ->
  (forall s v, P s -> P (set_keyStateChange v s)) ->
  keeps P (PET.parseSpecial keyId level).
Proof.
  intros Hd Hs Hc Hl Hr Hla Hra Hm Hm' Hk.
  unfold PET.parseSpecial, Engine.parseSpecial.
  apply keeps_bind; [|intros [v|b]; apply keeps_ret].
  apply keeps_switch.
  - intros c Hin. simpl in Hin.
    repeat (destruct Hin as [<-|Hin]; [reflexivity|]). contradiction.
  - intros c b Hin Hlab. simpl in Hin.
    repeat (destruct Hin as [<-|Hin]; [simpl in Hlab |]); try contradiction;
      simpl.
    + apply keeps_PET_case_64; auto.
    + apply keeps_PET_case_69; auto.
    + apply keeps_case_control; auto.
    + apply keeps_case_7; auto.
    + apply keeps_case_14; auto.
Qed.

Lemma buffer_ok_parseSpecial (keyId : Z) (level : bool) :
  0 <= keyId <= 255 -> keeps buffer_ok (PET.parseSpecial keyId level).
Proof.
  intros Hk. apply keeps_PET_parseSpecial;
    try (intros; assumption); try (intros ? ? ? HP; exact HP);
    try (intros ? HP; exact HP).
  - apply buffer_ok_debounce.
  - intros c. apply buffer_ok_setKey; auto.
  - apply buffer_ok_checkRelease; auto.
Qed.

Lemma buffer_ok_sendUpdate : keeps buffer_ok PET.sendUpdate.
Proof.
  unfold PET.sendUpdate, Keyboard_set_modifier, Keyboard_send_now.
  keeps_straight.
Qed.

Lemma buffer_ok_initial : buffer_ok initial.
Proof.
  unfold buffer_ok, table_ok; simpl. repeat split; auto.
  - repeat constructor; simpl; lia.
  - intros i j Hi Hj _ Hne. exfalso. apply Hne.
    do 6 (destruct i as [|i]; [reflexivity|]). lia.
Qed.

Lemma keeps_exec {A : Type} (P : state -> Prop) (m : M A) (s s' : state) :
  keeps P m -> P s -> exec m s = Some s' -> P s'.
Proof.
  intros Hk HP H. unfold exec in H.
  destruct (m s) as [[a s1]|] eqn:E; [|discriminate].
  inversion H; subst. eapply Hk; eauto.
Qed.

Lemma buffer_ok_call (c : pet_call) (s s' : state) :
  call_ok c -> buffer_ok s -> run_call c s = Some s' -> buffer_ok s'.
Proof.
  destruct c as [k|k code|k|k level|]; simpl; intros Hc Hok H.
  - eapply keeps_exec; eauto. apply buffer_ok_debounce.
  - eapply keeps_exec; eauto. apply buffer_ok_setKey; lia.
  - eapply keeps_exec; eauto. apply buffer_ok_checkRelease; lia.
  - eapply keeps_exec; eauto. apply buffer_ok_parseSpecial; lia.
  - eapply keeps_exec; eauto. apply buffer_ok_sendUpdate.
Qed.

Lemma reachable_buffer_ok (s : state) : reachable s -> buffer_ok s.
Proof.
  induction 1 as [|s s' c Hr IH Hc Hrun]; [apply buffer_ok_initial|].
  eapply buffer_ok_call; eauto.
Qed.

Lemma reachable_run_calls (cs : list pet_call) (s s' : state) :
  reachable s -> Forall call_ok cs -> run_calls cs s = Some s' -> reachable s'.
Proof.
  unfold run_calls. revert s; induction cs as [|c cs IH]; intros s Hr Hok H;
    simpl in H.
  - inversion H; subst; auto.
  - inversion Hok; subst.
    destruct (run_call c s) as [s1|] eqn:E; [|discriminate].
    apply (IH s1); auto. eapply reachable_call; eauto.
Qed.

(** ** The report buffer of the PET driver *)

Lemma reachable_after (cs : list pet_call) :
  Forall call_ok cs -> reachable (after cs).
Proof.
  intros Hok. unfold after.
  destruct (run_calls cs initial) as [s|] eqn:E; [|apply reachable_initial].
  eapply reachable_run_calls; eauto. apply reachable_initial.
Qed.

Lemma press_ok (k : Z) : 0 <= k <= 255 -> Forall call_ok (press k).
Proof. intros H. unfold press. repeat constructor; simpl; lia. Qed.

Lemma reachable_held5 : reachable held5.
Proof. apply reachable_after, press_ok; lia. Qed.

Lemma reachable_six_held : reachable six_held.
Proof.
  apply reachable_after. unfold six_presses.
  repeat (apply Forall_app; split); apply press_ok; lia.
Qed.

Lemma reachable_pressing5 : reachable pressing5.
Proof.
  apply reachable_after. unfold pressing5_calls.
  repeat constructor; simpl; lia.
Qed.

Lemma reachable_releasing5 : reachable releasing5.
Proof.
  apply reachable_after. unfold releasing5_calls.
  apply Forall_app; split; [apply press_ok; lia|].
  repeat constructor; simpl; lia.
Qed.

(** C3.  In every reachable state of the PET driver at most 6 slots of
    usbKeys are occupied and keysUsed is their number; a call of setKey
    while keysUsed is 6 returns false and leaves the whole state (slots,
    keysUsed, modifiers, pending key codes) as it was. *)
Theorem pet_setKey_rejects_when_full (s : state) (Hr : reachable s) :
  occupied (usbKeys s) <= 6 /\
  keysUsed s = occupied (usbKeys s) /\
  forall keyId keyCode : Z,
    keysUsed s = 6 -> PET.setKey keyId keyCode s = Some (false, s).
Proof.
  destruct (reachable_buffer_ok s Hr) as (_ & Hlen & Hused & _).
  pose proof (occupied_bounds (usbKeys s)) as Hb. rewrite Hlen in Hb.
  repeat split; auto; try lia.
  intros keyId keyCode H6. unfold PET.setKey. rewrite setKey_eq.
  rewrite H6. reflexivity.
Qed.

Lemma pet_setKey_rejects_when_full_witness :
  occupied (usbKeys six_held) = 6 /\
  PET.setKey 9 0 six_held = Some (false, six_held).
Proof.
  split; [reflexivity|].
  apply (pet_setKey_rejects_when_full six_held reachable_six_held).
  reflexivity.
Defined.

(** C10.  From power-up, every sequence of calls of the PET driver keeps
    keysUsed equal to the number of usbKeys slots other than -1; setKey
    changes keysUsed only by an increment taken below 6, and checkRelease
    only by a decrement taken above 0. *)
Theorem pet_keysUsed_counts_occupied (s : state) (Hr : reachable s) :
  keysUsed s = occupied (usbKeys s) /\
  0 <= keysUsed s <= 6 /\
  (forall (keyId keyCode : Z) (r : bool) (s' : state),
      0 <= keyId <= 255 ->
      PET.setKey keyId keyCode s = Some (r, s') ->
      keysUsed s' = occupied (usbKeys s') /\
      (keysUsed s' = keysUsed s \/
       (keysUsed s < 6 /\ keysUsed s' = keysUsed s + 1))) /\
  (forall (keyId : Z) (s' : state),
      0 <= keyId <= 255 ->
      PET.checkRelease keyId s = Some (tt, s') ->
      keysUsed s' = occupied (usbKeys s') /\
      (keysUsed s' = keysUsed s \/
       (0 < keysUsed s /\ keysUsed s' = keysUsed s - 1))).
Proof.
  pose proof (reachable_buffer_ok s Hr) as Hok.
  destruct (reachable_buffer_ok s Hr) as (Ht & Hlen & Hused & Hd).
  pose proof (occupied_bounds (usbKeys s)) as Hb. rewrite Hlen in Hb.
  split; [auto|]. split; [lia|]. split.
  - intros keyId keyCode r s' Hk H.
    destruct (setKey_counter _ _ _ _ _ _ _ Hk Hok H) as ((_ & _ & Hu & _) & Hc).
    auto.
  - intros keyId s' Hk H.
    destruct (checkRelease_counter _ _ _ _ _ Hk Hok H) as ((_ & _ & Hu & _) & Hc).
    auto.
Qed.

Lemma pet_keysUsed_counts_occupied_witness :
  (exists s', PET.setKey 5 0 pressing5 = Some (true, s') /\
              keysUsed pressing5 < 6 /\ keysUsed s' = keysUsed pressing5 + 1) /\
  (exists s', PET.checkRelease 5 releasing5 = Some (tt, s') /\
              0 < keysUsed releasing5 /\ keysUsed s' = keysUsed releasing5 - 1).
Proof.
  split.
  - destruct (pet_keysUsed_counts_occupied pressing5 reachable_pressing5)
      as (_ & _ & Hset & _).
    destruct (PET.setKey 5 0 pressing5) as [[r s']|] eqn:E;
      [|vm_compute in E; discriminate].
    destruct (Hset 5 0 r s' ltac:(lia) E) as (_ & Hc).
    assert (Hv : r = true /\ keysUsed s' = 1)
      by (vm_compute in E; inversion E; split; reflexivity).
    destruct Hv as (-> & Hv). exists s'. split; [reflexivity|].
    destruct Hc as [Hc|Hc]; [|exact Hc].
    exfalso. rewrite Hv in Hc. vm_compute in Hc. discriminate.
  - destruct (pet_keysUsed_counts_occupied releasing5 reachable_releasing5)
      as (_ & _ & _ & Hrel).
    destruct (PET.checkRelease 5 releasing5) as [[[] s']|] eqn:E;
      [|vm_compute in E; discriminate].
    destruct (Hrel 5 s' ltac:(lia) E) as (_ & Hc).
    assert (Hv : keysUsed s' = 0)
      by (vm_compute in E; inversion E; reflexivity).
    exists s'. split; [reflexivity|].
    destruct Hc as [Hc|Hc]; [|exact Hc].
    exfalso. rewrite Hv in Hc. vm_compute in Hc. discriminate.
Defined.

Lemma held_slot_found (keys : list Z) (keyId : Z) :
  length keys = 6%nat -> In keyId keys ->
  exists i, find_index 6 0 (fun n => nth n keys 0 =? keyId) = Some i.
Proof.
  intros Hlen Hin.
  destruct (find_index 6 0 (fun n => nth n keys 0 =? keyId)) as [i|] eqn:E;
    [eauto|].
  exfalso. apply (In_nth _ _ 0) in Hin. destruct Hin as (n & Hn & Hv).
  pose proof (find_index_None _ _ _ E n ltac:(lia)) as Hf. simpl in Hf.
  apply Z.eqb_neq in Hf. contradiction.
Qed.

(** C8, as the code has it.  For a key id that already occupies a slot, in
    a reachable state with fewer than 6 occupied slots, setKey is the
    debounce gate and nothing else: it returns false when debounce
    suppresses the call and true when debounce admits it, and is undefined
    when debounce is.  In both defined cases usbKeys, keysUsed, modifiers,
    keyStateChange and the pending key codes are unchanged, no second slot
    is allocated, and the key id sits in one slot only. *)
Theorem pet_setKey_held_key (s : state) (keyId keyCode : Z)
  (Hr : reachable s) (Hk : 0 <= keyId <= 255)
  (Hheld : In keyId (usbKeys s)) (Hfree : occupied (usbKeys s) < 6) :
  PET.setKey keyId keyCode s = (d <- debounce keyId ;; ret (negb d)) s /\
  (forall (r : bool) (s' : state),
      PET.setKey keyId keyCode s = Some (r, s') ->
      usbKeys s' = usbKeys s /\ keysUsed s' = keysUsed s /\
      modifiers s' = modifiers s /\ keyStateChange s' = keyStateChange s /\
      kbKeys s' = kbKeys s) /\
  (forall i j : nat, (i < 6)%nat -> (j < 6)%nat ->
      nth i (usbKeys s) 0 = keyId -> nth j (usbKeys s) 0 = keyId -> i = j).
Proof.
  destruct (reachable_buffer_ok s Hr) as (_ & Hlen & Hused & Hdist & _).
  destruct (held_slot_found _ _ Hlen Hheld) as (slot & Hslot).
  assert (E : PET.setKey keyId keyCode s = (d <- debounce keyId ;; ret (negb d)) s).
  { unfold PET.setKey. rewrite setKey_eq. unfold debounce. unfold_m.
    destruct (Z.eqb_spec (keysUsed s) 6); [lia|].
    destruct (debounce_table keyId (debounceKeys s)) as [[[|] dk]|]; auto.
    cbv zeta. rewrite Hslot. reflexivity. }
  split; [exact E|]. split.
  - intros r s' H. rewrite E in H. unfold debounce in H. unfold_m.
    destruct (debounce_table keyId (debounceKeys s)) as [[d dk]|];
      [|discriminate].
    inversion H; subst. simpl. auto.
  - intros i j Hi Hj Hvi Hvj. apply Hdist; auto; lia.
Qed.

Lemma pet_setKey_held_key_witness :
  PET.setKey 5 0 held5 = (d <- debounce 5 ;; ret (negb d)) held5.
Proof.
  apply (pet_setKey_held_key held5 5 0 reachable_held5).
  - lia.
  - simpl. auto.
  - reflexivity.
Defined.

(** C8 as stated fails: key 5 occupies slot 1 of a reachable state with one
    occupied slot, and setKey(5, 0) returns false, because the debounce
    gate in front of the slot search suppresses the call. *)
Lemma pet_setKey_held_key_returns_false :
  reachable held5 /\ In 5 (usbKeys held5) /\ occupied (usbKeys held5) < 6 /\
  option_map fst (PET.setKey 5 0 held5) = Some false.
Proof.
  split; [exact reachable_held5|]. split; [simpl; auto|].
  split; reflexivity.
Qed.

(** ** The scan cycle *)

Lemma PET_sendUpdate_eq (s : state) :
  PET.sendUpdate s = Some (tt, if keyStateChange s then pet_composed s else s).
Proof.
  unfold PET.sendUpdate, pet_composed, pet_report_modifiers,
    Keyboard_set_modifier, Keyboard_send_now.
  unfold_m. destruct s as [? ? ? ls rs la ra ? ? ? ksc ? ? ? ? ? ? ?]; simpl.
  destruct ksc; [|reflexivity].
  destruct la, ra, ls, rs; reflexivity.
Qed.

Lemma keeps_detectKeys (P : state -> Prop) (K : list Z) (S : list bool)
  (cases : list case_block) (DC SC : nat) (sense : Z -> Z -> bool) :
  (forall i j, 0 <= i < Z.of_nat DC -> 0 <= j < Z.of_nat SC ->
               keeps P (Engine.scanKey K S cases SC sense i j)) ->
  keeps P (Engine.detectKeys K S cases DC SC sense).
Proof.
  intros H. unfold Engine.detectKeys.
  apply keeps_for_loop. intros i Hi.
  apply keeps_for_loop. intros j Hj. apply H; lia.
Qed.

(** Properties that read none of the variables written during the sweep of
    the PET driver, the cursor flags apart. *)
Section PETFrame.

Variable P : state -> Prop.
Hypothesis P_debounceKeys : forall s v, P s -> P (set_debounceKeys v s).
Hypothesis P_usbKeys : forall s v, P s -> P (set_usbKeys v s).
Hypothesis P_keysUsed : forall s v, P s -> P (set_keysUsed v s).
Hypothesis P_or_shift : forall s,
  P s -> P (set_modifiers (bit_or (modifiers s) MODIFIERKEY_SHIFT) s).
Hypothesis P_clear_shift : forall s,
  P s -> P (set_modifiers (bit_clear (modifiers s) MODIFIERKEY_SHIFT) s).
Hypothesis P_or_ctrl : forall s,
  P s -> P (set_modifiers (bit_or (modifiers s) MODIFIERKEY_CTRL) s).
Hypothesis P_clear_ctrl : forall s,
  P s -> P (set_modifiers (bit_clear (modifiers s) MODIFIERKEY_CTRL) s).
Hypothesis P_keyStateChange : forall s v, P s -> P (set_keyStateChange v s).
Hypothesis P_kbKeys : forall s v, P s -> P (set_kbKeys v s).
Hypothesis P_lShift : forall s v, P s -> P (set_lShift v s).
Hypothesis P_rShift : forall s v, P s -> P (set_rShift v s).

Lemma keeps_PET_scanKey (sense : Z -> Z -> bool) (i j : Z) :
  (PET.getKeyId i j = 14 -> forall s v, P s -> P (set_lArrow v s)) ->
  (PET.getKeyId i j = 7 -> forall s v, P s -> P (set_rArrow v s)) ->
  keeps P (Engine.scanKey PET.KEY_CODES PET.KEY_CODES_SHIFT_NEEDED PET.cases
             PET.SENSE_COUNT sense i j).
Proof.
  intros Hl Hr.
  assert (Hd : keeps P (debounce (PET.getKeyId i j)))
    by (apply keeps_debounce_frame; auto).
  assert (Hs : forall c, keeps P (PET.setKey (PET.getKeyId i j) c))
    by (intros c; apply keeps_setKey; auto).
  assert (Hc : keeps P (PET.checkRelease (PET.getKeyId i j)))
    by (apply keeps_checkRelease; auto).
  apply keeps_scanKey with (keyId := PET.getKeyId i j); auto.
  intros level. apply keeps_PET_parseSpecial; auto.
Qed.

End PETFrame.

Lemma PET_detectKeys_sent (sense : Z -> Z -> bool) (s s1 : state) :
  PET.detectKeys sense s = Some (tt, s1) -> sent s1 = sent s.
Proof.
  intros H.
  apply (keeps_detectKeys (fun st => sent st = sent s) PET.KEY_CODES
           PET.KEY_CODES_SHIFT_NEEDED PET.cases PET.DRIVE_COUNT PET.SENSE_COUNT
           sense) with (s := s) (a := tt); auto.
  intros i j _ _. apply keeps_PET_scanKey; intros; assumption.
Qed.

Lemma keeps_VICE_case_64 (P : state -> Prop) (keyId : Z) (level b : bool) :
  keeps P (debounce keyId) ->
  (forall s v, P s -> P (set_lShift v s)) ->
  (forall s v, P s -> P (set_rAlt v s)) ->
  (forall s v, P s -> P (set_keyStateChange v s)) ->
  keeps P (VICE.case_64 keyId level b).
Proof.
  intros Hd Hl Ha Hc. unfold VICE.case_64.
  apply keeps_bind; [apply keeps_get|]. intros l.
  apply keeps_then_.
  { apply keeps_if; [|apply keeps_ret].
    apply keeps_then_; [apply keeps_return_if_debounce; auto|]. intros b'.
    repeat (apply keeps_bind; [apply keeps_modify; auto | intros ?]).
    apply keeps_bind; [apply keeps_get|]. intros r.
    apply keeps_bind; [|intros; apply keeps_ret].
    apply keeps_if; [apply keeps_modify; auto | apply keeps_ret]. }
  intros b1. apply keeps_bind; [apply keeps_get|]. intros l'.
  apply keeps_then_; [|intros; apply keeps_ret].
  apply keeps_if; [|apply keeps_ret].
  apply keeps_then_; [apply keeps_return_if_debounce; auto|]. intros b'.
  repeat (apply keeps_bind; [apply keeps_modify; auto | intros ?]).
  apply keeps_ret.
Qed.

Lemma keeps_VICE_case_69 (P : state -> Prop) (keyId : Z) (level b : bool) :
  keeps P (debounce keyId) ->
  (forall s v, P s -> P (set_rShift v s)) ->
  (forall s v, P s -> P (set_lAlt v s)) ->
  (forall s v, P s -> P (set_keyStateChange v s)) ->
  keeps P (VICE.case_69 keyId level b).
Proof.
  intros Hd Hl Ha Hc. unfold VICE.case_69.
  apply keeps_bind; [apply keeps_get|]. intros l.
  apply keeps_then_.
  { apply keeps_if; [|apply keeps_ret].
    apply keeps_then_; [apply keeps_return_if_debounce; auto|]. intros b'.
    repeat (apply keeps_bind; [apply keeps_modify; auto | intros ?]).
    apply keeps_bind; [apply keeps_get|]. intros r.
    apply keeps_bind; [|intros; apply keeps_ret].
    apply keeps_if; [apply keeps_modify; auto | apply keeps_ret]. }
  intros b1. apply keeps_bind; [apply keeps_get|]. intros l'.
  apply keeps_then_; [|intros; apply keeps_ret].
  apply keeps_if; [|apply keeps_ret].
  apply keeps_then_; [apply keeps_return_if_debounce; auto|]. intros b'.
  repeat (apply keeps_bind; [apply keeps_modify; auto | intros ?]).
  apply keeps_ret.
Qed.

Lemma VICE_detectKeys_sent (sense : Z -> Z -> bool) (s s1 : state) :
  VICE.detectKeys sense s = Some (tt, s1) -> sent s1 = sent s.
Proof.
  intros H.
  apply (keeps_detectKeys (fun st => sent st = sent s) VICE.KEY_CODES
           VICE.KEY_CODES_SHIFT_NEEDED VICE.cases VICE.DRIVE_COUNT
           VICE.SENSE_COUNT sense) with (s := s) (a := tt); auto.
  intros i j _ _.
  set (k := Engine.getKeyId VICE.SENSE_COUNT i j).
  assert (Hd : keeps (fun st => sent st = sent s) (debounce k))
    by (apply keeps_debounce_frame; intros; assumption).
  assert (Hs : forall c, keeps (fun st => sent st = sent s) (VICE.setKey k c))
    by (intros c; apply keeps_setKey; intros; assumption).
  assert (Hc : keeps (fun st => sent st = sent s) (VICE.checkRelease k))
    by (apply keeps_checkRelease; intros; assumption).
  apply keeps_scanKey with (keyId := k); auto.
  intros level. unfold Engine.parseSpecial.
  apply keeps_bind; [|intros [v|b]; apply keeps_ret].
  apply keeps_switch.
  - intros c Hin. simpl in Hin.
    repeat (destruct Hin as [<-|Hin]; [reflexivity|]). contradiction.
  - intros c b Hin Hlab. simpl in Hin.
    repeat (destruct Hin as [<-|Hin]; [simpl in Hlab |]); try contradiction;
      simpl.
    + apply keeps_VICE_case_64; auto; intros; assumption.
    + apply keeps_VICE_case_69; auto; intros; assumption.
    + apply keeps_case_control; auto; intros; assumption.
    + apply keeps_case_7; auto; intros; assumption.
    + apply keeps_case_14; auto; intros; assumption.
Qed.

(** The composition step of the VICE variant appends one report when the
    change flag is set and none otherwise, and clears the flag. *)
Lemma VICE_sendUpdate_sent (s : state) :
  exists s', VICE.sendUpdate s = Some (tt, s') /\
    keyStateChange s' = false /\
    (if keyStateChange s
     then exists r, sent s' = sent s ++ [r]
     else sent s' = sent s).
Proof.
  unfold VICE.sendUpdate, Keyboard_set_modifier, Keyboard_send_now, tone.
  unfold_m. destruct s as [? ? ? ls rs la ra ralt lalt ? ksc ? ? ? ? ? ? ?]; simpl.
  destruct ksc; [|eexists; repeat split; reflexivity].
  destruct la, ra, ls, rs, lalt, ralt; simpl;
    eexists; (split; [reflexivity|]); simpl; (split; [reflexivity|]);
    eexists; reflexivity.
Qed.

Lemma VICE_heartbeat_sent (now : Z) (s s' : state) :
  VICE.heartbeat now s = Some (tt, s') ->
  sent s' = sent s /\ keyStateChange s' = keyStateChange s.
Proof.
  unfold VICE.heartbeat, tone. unfold_m.
  destruct (altLockActive s && (VICE.interval <=? uint32 (now - previousMillis s)));
    intros H; inversion H; subst; simpl; auto.
Qed.

(** A defined scan cycle of the PET driver is a sequence of defined calls:
    the reachable states are closed under scan cycles. *)
Lemma reachable_loop (sense : Z -> Z -> bool) (s s' : state) :
  reachable s -> PET.loop sense s = Some (tt, s') -> reachable s'.
Proof.
  intros Hr H. revert Hr H. apply keeps_bind.
  - apply keeps_detectKeys. intros i j _ _.
    assert (Hk : 0 <= Engine.getKeyId PET.SENSE_COUNT i j <= 255).
    { unfold Engine.getKeyId, uint8.
      pose proof (Z.mod_pos_bound (i * Z.of_nat PET.SENSE_COUNT + j) 256). lia. }
    apply keeps_scanKey with (keyId := Engine.getKeyId PET.SENSE_COUNT i j); auto.
    + intros st r st' Hst E.
      apply (reachable_call st st'
               (CallSetKey (Engine.getKeyId PET.SENSE_COUNT i j) 0) Hst);
        [simpl; lia|].
      simpl. unfold exec, PET.setKey. rewrite E. reflexivity.
    + intros st u st' Hst E.
      apply (reachable_call st st'
               (CallCheckRelease (Engine.getKeyId PET.SENSE_COUNT i j)) Hst);
        [simpl; lia|].
      simpl. unfold exec, PET.checkRelease. rewrite E. reflexivity.
    + intros level st r st' Hst E.
      apply (reachable_call st st'
               (CallParseSpecial (Engine.getKeyId PET.SENSE_COUNT i j) level) Hst);
        [simpl; lia|].
      simpl. unfold exec, PET.parseSpecial. rewrite E. reflexivity.
  - intros _ st u st' Hst E.
    apply (reachable_call st st' CallSendUpdate Hst); [exact I|].
    simpl. unfold exec. rewrite E. reflexivity.
Qed.

(** A scan cycle of the PET driver and of the VICE variant in which every
    debounce call returns: the sweep itself transmits nothing; the cycle
    transmits exactly one report when keyStateChange is set at the end of
    the sweep and none otherwise, and leaves keyStateChange cleared. *)
Lemma defined_loop_sends_at_most_once :
  (forall (sense : Z -> Z -> bool) (s s' : state),
      PET.loop sense s = Some (tt, s') ->
      exists s1, PET.detectKeys sense s = Some (tt, s1) /\
        sent s1 = sent s /\ keyStateChange s' = false /\
        (if keyStateChange s1
         then exists r, sent s' = sent s ++ [r]
         else sent s' = sent s)) /\
  (forall (sense : Z -> Z -> bool) (currentMillis : Z) (s s' : state),
      VICE.loop sense currentMillis s = Some (tt, s') ->
      exists s1, VICE.detectKeys sense s = Some (tt, s1) /\
        sent s1 = sent s /\ keyStateChange s' = false /\
        (if keyStateChange s1
         then exists r, sent s' = sent s ++ [r]
         else sent s' = sent s)).
Proof.
  split.
  - intros sense s s' H. unfold PET.loop, bind in H.
    destruct (PET.detectKeys sense s) as [[[] s1]|] eqn:E; [|discriminate].
    rewrite PET_sendUpdate_eq in H. inversion H; subst; clear H.
    pose proof (PET_detectKeys_sent _ _ _ E) as Hs.
    exists s1. split; [reflexivity|]. split; [exact Hs|].
    destruct (keyStateChange s1) eqn:Ec.
    + split; [reflexivity|]. rewrite <- Hs. eexists; reflexivity.
    + split; [exact Ec | exact Hs].
  - intros sense now s s' H. unfold VICE.loop, bind in H.
    destruct (VICE.detectKeys sense s) as [[[] s1]|] eqn:E; [|discriminate].
    pose proof (VICE_detectKeys_sent _ _ _ E) as Hs.
    destruct (VICE_sendUpdate_sent s1) as (s2 & H2 & Hc & Hsent).
    rewrite H2 in H. apply VICE_heartbeat_sent in H. destruct H as (H3 & H4).
    exists s1. split; [reflexivity|]. split; [exact Hs|].
    split; [congruence|].
    rewrite H3, <- Hs. exact Hsent.
Qed.


(** ** Cursor keys and the deferred Shift rule *)

Lemma PET_getKeyId_small (i j : Z) :
  0 <= i < 10 -> 0 <= j < 8 -> PET.getKeyId i j = i * 8 + j.
Proof.
  intros Hi Hj. unfold PET.getKeyId, Engine.getKeyId, PET.SENSE_COUNT, uint8.
  rewrite Z.mod_small; lia.
Qed.

(** The switch on key 7 and on key 14 runs the cursor block alone. *)
Lemma PET_parseSpecial_7 (level : bool) (s : state) :
  PET.parseSpecial 7 level s =
  (r <- Engine.case_7 PET.KEY_CODES PET.KEY_CODES_SHIFT_NEEDED 7 level false ;;
   match r with Returned v => ret v | Next b => ret b end) s.
Proof.
  unfold PET.parseSpecial, Engine.parseSpecial, bind.
  change (switch PET.cases 7 level false s)
    with (then_ (Engine.case_7 PET.KEY_CODES PET.KEY_CODES_SHIFT_NEEDED 7 level false)
                (fun b => ret (Next b)) s).
  unfold then_, bind.
  destruct (Engine.case_7 _ _ 7 level false s) as [[[v|b] s1]|]; reflexivity.
Qed.

Lemma PET_parseSpecial_14 (level : bool) (s : state) :
  PET.parseSpecial 14 level s =
  (r <- Engine.case_14 PET.KEY_CODES PET.KEY_CODES_SHIFT_NEEDED 14 level false ;;
   match r with Returned v => ret v | Next b => ret b end) s.
Proof.
  unfold PET.parseSpecial, Engine.parseSpecial, bind.
  change (switch PET.cases 14 level false s)
    with (then_ (Engine.case_14 PET.KEY_CODES PET.KEY_CODES_SHIFT_NEEDED 14 level false)
                (fun b => ret (Next b)) s).
  unfold then_, bind.
  destruct (Engine.case_14 _ _ 14 level false s) as [[[v|b] s1]|]; reflexivity.
Qed.

(** A cursor key read pressed: the override code depends on the Shift
    latches, the cursor flag is set whatever setKey answers. *)
Lemma PET_parseSpecial_7_pressed (s : state) :
  PET.parseSpecial 7 LOW s =
  ((if lShift s || rShift s then PET.setKey 7 KEY_LEFT else PET.setKey 7 KEY_RIGHT) ;;
   modify (set_rArrow true) ;; ret true) s.
Proof.
  rewrite PET_parseSpecial_7. unfold Engine.case_7, PET.setKey. unfold_m. simpl.
  destruct (lShift s || rShift s);
    match goal with |- context [Engine.setKey ?K ?S ?k ?c s] =>
      destruct (Engine.setKey K S k c s) as [[r s1]|] end; reflexivity.
Qed.

Lemma PET_parseSpecial_14_pressed (s : state) :
  PET.parseSpecial 14 LOW s =
  ((if lShift s || rShift s then PET.setKey 14 KEY_UP else PET.setKey 14 KEY_DOWN) ;;
   modify (set_lArrow true) ;; ret true) s.
Proof.
  rewrite PET_parseSpecial_14. unfold Engine.case_14, PET.setKey. unfold_m. simpl.
  destruct (lShift s || rShift s);
    match goal with |- context [Engine.setKey ?K ?S ?k ?c s] =>
      destruct (Engine.setKey K S k c s) as [[r s1]|] end; reflexivity.
Qed.

Lemma PET_scanKey_7_pressed (sense : Z -> Z -> bool) (s s' : state) (u : unit) :
  sense 0 7 = LOW ->
  Engine.scanKey PET.KEY_CODES PET.KEY_CODES_SHIFT_NEEDED PET.cases
    PET.SENSE_COUNT sense 0 7 s = Some (u, s') ->
  rArrow s' = true.
Proof.
  intros Hl H. unfold Engine.scanKey in H. rewrite Hl in H.
  change (Engine.getKeyId PET.SENSE_COUNT 0 7) with 7 in H.
  change (Engine.parseSpecial PET.cases 7 LOW) with (PET.parseSpecial 7 LOW) in H.
  unfold bind in H. rewrite PET_parseSpecial_7_pressed in H. unfold_m.
  destruct (lShift s || rShift s);
    match type of H with context [PET.setKey ?k ?c s] =>
      destruct (PET.setKey k c s) as [[r s1]|] end;
    simpl in H; inversion H; reflexivity.
Qed.

Lemma PET_scanKey_14_pressed (sense : Z -> Z -> bool) (s s' : state) (u : unit) :
  sense 1 6 = LOW ->
  Engine.scanKey PET.KEY_CODES PET.KEY_CODES_SHIFT_NEEDED PET.cases
    PET.SENSE_COUNT sense 1 6 s = Some (u, s') ->
  lArrow s' = true.
Proof.
  intros Hl H. unfold Engine.scanKey in H. rewrite Hl in H.
  change (Engine.getKeyId PET.SENSE_COUNT 1 6) with 14 in H.
  change (Engine.parseSpecial PET.cases 14 LOW) with (PET.parseSpecial 14 LOW) in H.
  unfold bind in H. rewrite PET_parseSpecial_14_pressed in H. unfold_m.
  destruct (lShift s || rShift s);
    match type of H with context [PET.setKey ?k ?c s] =>
      destruct (PET.setKey k c s) as [[r s1]|] end;
    simpl in H; inversion H; reflexivity.
Qed.

(** A cursor key read pressed during the sweep leaves its flag set at the
    end of the sweep: no later key of the sweep writes the flag. *)
Lemma PET_detectKeys_rArrow (sense : Z -> Z -> bool) (s s1 : state) :
  sense 0 7 = LOW -> PET.detectKeys sense s = Some (tt, s1) -> rArrow s1 = true.
Proof.
  intros Hl H. unfold PET.detectKeys, Engine.detectKeys in H.
  revert H.
  apply (for_loop_establishes (fun st => rArrow st = true) PET.DRIVE_COUNT 0 0);
    [unfold PET.DRIVE_COUNT; lia | |].
  - apply (for_loop_establishes (fun st => rArrow st = true) PET.SENSE_COUNT 0 7);
      [unfold PET.SENSE_COUNT; lia | |].
    + intros st u st'. apply PET_scanKey_7_pressed; auto.
    + unfold PET.SENSE_COUNT. intros; lia.
  - unfold PET.DRIVE_COUNT. intros i Hi. apply keeps_for_loop.
    unfold PET.SENSE_COUNT. intros j Hj.
    apply keeps_PET_scanKey; try (intros; assumption).
    rewrite PET_getKeyId_small by lia. intros; lia.
Qed.

Lemma PET_detectKeys_lArrow (sense : Z -> Z -> bool) (s s1 : state) :
  sense 1 6 = LOW -> PET.detectKeys sense s = Some (tt, s1) -> lArrow s1 = true.
Proof.
  intros Hl H. unfold PET.detectKeys, Engine.detectKeys in H.
  revert H.
  apply (for_loop_establishes (fun st => lArrow st = true) PET.DRIVE_COUNT 0 1);
    [unfold PET.DRIVE_COUNT; lia | |].
  - apply (for_loop_establishes (fun st => lArrow st = true) PET.SENSE_COUNT 0 6);
      [unfold PET.SENSE_COUNT; lia | |].
    + intros st u st'. apply PET_scanKey_14_pressed; auto.
    + unfold PET.SENSE_COUNT. intros j Hj.
      apply keeps_PET_scanKey; try (intros; assumption).
      rewrite PET_getKeyId_small by lia. intros; lia.
  - unfold PET.DRIVE_COUNT. intros i Hi. apply keeps_for_loop.
    unfold PET.SENSE_COUNT. intros j Hj.
    apply keeps_PET_scanKey; try (intros; assumption).
    rewrite PET_getKeyId_small by lia. intros; lia.
Qed.

(** When setKey allocates a slot for a key that was not held, the override
    code is among the pending key codes. *)
Lemma PET_setKey_installs (s s' : state) (keyId code : Z) :
  buffer_ok s -> ~ In keyId (usbKeys s) -> code <> 0 ->
  PET.setKey keyId code s = Some (true, s') ->
  In code (kbKeys s') /\ In keyId (usbKeys s').
Proof.
  intros (Ht & Hlen & _ & _ & Hkb) Hnot Hcode H.
  unfold PET.setKey in H. rewrite setKey_eq in H.
  destruct (keysUsed s =? 6); [discriminate|].
  destruct (debounce_table keyId (debounceKeys s)) as [[d dk]|] eqn:Ed;
    [|discriminate].
  destruct d; [discriminate|]. cbv zeta in H.
  assert (Hr : -128 <= keyId <= 127) by (eapply debounce_admits_int8; eauto).
  destruct (find_index 6 0 (fun n => nth n (usbKeys s) 0 =? keyId)) as [i|] eqn:Eh.
  { exfalso. apply find_index_Some in Eh. destruct Eh as (Hi & Hv & _).
    apply Z.eqb_eq in Hv. apply Hnot. rewrite <- Hv. apply nth_In. lia. }
  destruct (find_index 6 0 (fun n => nth n (usbKeys s) 0 =? -1)) as [slot|] eqn:Ef;
    [|discriminate].
  apply find_index_Some in Ef. destruct Ef as (Hslot & _).
  destruct (keyId <? 0); [discriminate|].
  destruct (nth_error PET.KEY_CODES_SHIFT_NEEDED (Z.to_nat keyId)); [|discriminate].
  destruct (nth_error PET.KEY_CODES (Z.to_nat keyId)); [|discriminate].
  inversion H; subst. unfold install; simpl.
  destruct (Z.eqb_spec code 0); [contradiction|]. simpl. split.
  - rewrite <- (nth_upd_same slot code 0 (kbKeys s)) at 1 by lia.
    apply nth_In. rewrite upd_length. lia.
  - rewrite <- (int8_small keyId) at 1 by lia.
    rewrite <- (nth_upd_same slot (int8 keyId) 0 (usbKeys s)) at 1 by lia.
    apply nth_In. rewrite upd_length. lia.
Qed.

Lemma reachable_shift_then_cursor : reachable shift_then_cursor.
Proof.
  apply reachable_after. unfold shift_then_cursor_calls.
  repeat constructor; simpl; lia.
Qed.


(** ** The key at drive 0 / sense 0 *)

Lemma bind_None {A B : Type} (m : M A) (f : A -> M B) (s : state) :
  m s = None -> bind m f s = None.
Proof. intros H. unfold bind. rewrite H. reflexivity. Qed.

Lemma bind_Some {A B : Type} (m : M A) (f : A -> M B) (s s' : state) (a : A) :
  m s = Some (a, s') -> bind m f s = f a s'.
Proof. intros H. unfold bind. rewrite H. reflexivity. Qed.

(** The scan of an ordinary key while the buffer is not full calls debounce
    whatever the level read: through setKey when low, through checkRelease
    when high. *)
Lemma PET_scanKey_suppressed (sense : Z -> Z -> bool) (i j : Z) (s : state)
  (dk : list (Z * Z)) :
  (forall level, PET.parseSpecial (PET.getKeyId i j) level s = Some (false, s)) ->
  keysUsed s <> 6 ->
  debounce_table (PET.getKeyId i j) (debounceKeys s) = Some (true, dk) ->
  Engine.scanKey PET.KEY_CODES PET.KEY_CODES_SHIFT_NEEDED PET.cases
    PET.SENSE_COUNT sense i j s = Some (tt, set_debounceKeys dk s).
Proof.
  intros Hp H6 Hd. unfold Engine.scanKey.
  rewrite (bind_Some _ _ _ _ _ (Hp (sense i j))).
  destruct (sense i j); unfold LOW; cbn [negb Bool.eqb].
  - change (Engine.getKeyId PET.SENSE_COUNT i j) with (PET.getKeyId i j).
    rewrite checkRelease_eq, Hd. reflexivity.
  - unfold bind. change (Engine.getKeyId PET.SENSE_COUNT i j) with (PET.getKeyId i j).
    rewrite setKey_eq, Hd.
    destruct (Z.eqb_spec (keysUsed s) 6); [contradiction | reflexivity].
Qed.

Lemma PET_scanKey_undefined (sense : Z -> Z -> bool) (i j : Z) (s : state) :
  (forall level, PET.parseSpecial (PET.getKeyId i j) level s = Some (false, s)) ->
  keysUsed s <> 6 ->
  debounce_table (PET.getKeyId i j) (debounceKeys s) = None ->
  Engine.scanKey PET.KEY_CODES PET.KEY_CODES_SHIFT_NEEDED PET.cases
    PET.SENSE_COUNT sense i j s = None.
Proof.
  intros Hp H6 Hd. unfold Engine.scanKey.
  rewrite (bind_Some _ _ _ _ _ (Hp (sense i j))).
  destruct (sense i j); unfold LOW; cbn [negb Bool.eqb].
  - change (Engine.getKeyId PET.SENSE_COUNT i j) with (PET.getKeyId i j).
    rewrite checkRelease_eq, Hd. reflexivity.
  - unfold bind. change (Engine.getKeyId PET.SENSE_COUNT i j) with (PET.getKeyId i j).
    rewrite setKey_eq, Hd.
    destruct (Z.eqb_spec (keysUsed s) 6); [contradiction | reflexivity].
Qed.

(** From power-up the first scan cycle of the PET driver is undefined
    whatever the keys read: keys 0 to 5 use up the six debounce entries and
    the debounce call for key 6 reaches the end of the function. *)
Lemma PET_first_cycle_undefined (sense : Z -> Z -> bool) :
  PET.loop sense initial = None.
Proof.
  unfold PET.loop. apply bind_None.
  unfold PET.detectKeys, Engine.detectKeys, PET.DRIVE_COUNT, PET.SENSE_COUNT.
  cbn [for_loop]. apply bind_None.
  repeat (erewrite bind_Some;
          [| apply PET_scanKey_suppressed;
             [intros level; reflexivity | simpl; lia | reflexivity]];
          cbv beta).
  apply bind_None. apply PET_scanKey_undefined;
    [intros level; reflexivity | simpl; lia | reflexivity].
Qed.

(** C2, as the code has it.  On the PET driver (DEBOUNCE_DELAY = 2), for the
    key at drive 0 / sense 0 (keyId 0, KEY_1, Shift required): from a state
    with no key held, the setKey(0, 0) call that debounce admits installs
    KEY_1 in slot 1 and ORs Shift into the modifiers, and the composition
    step sends exactly one report, {mods: Shift, keys: [KEY_1,0,0,0,0,0]},
    retracting Shift afterwards; with key 0 held, the checkRelease(0) call
    that debounce admits clears the slot, and the composition step sends
    exactly one report, {mods: 0, keys: [0,0,0,0,0,0]}. *)
Theorem pet_key0_press_release :
  (forall s : state, no_key_held s -> admits 0 s ->
     exists s2 s3,
       PET.setKey 0 0 s = Some (true, s2) /\
       PET.sendUpdate s2 = Some (tt, s3) /\
       sent s3 = sent s ++ [(bit_or 0 MODIFIERKEY_SHIFT, [KEY_1; 0; 0; 0; 0; 0])] /\
       key0_held s3 /\ keyStateChange s3 = false) /\
  (forall s : state, key0_held s -> admits 0 s ->
     exists s2 s3,
       PET.checkRelease 0 s = Some (tt, s2) /\
       PET.sendUpdate s2 = Some (tt, s3) /\
       sent s3 = sent s ++ [(0, [0; 0; 0; 0; 0; 0])] /\
       no_key_held s3 /\ keyStateChange s3 = false).
Proof.
  split.
  - intros s (Hu & Hn & Hk & Hm & Hl & Hr) (s1 & Ha).
    unfold debounce in Ha.
    destruct (debounce_table 0 (debounceKeys s)) as [[[|] dk]|] eqn:Ed;
      try discriminate.
    unfold PET.setKey. rewrite setKey_eq, Ed, Hn, Hu. simpl.
    eexists. eexists. split; [reflexivity|].
    rewrite PET_sendUpdate_eq. simpl. split; [reflexivity|].
    unfold pet_composed, pet_report_modifiers, install, key0_held; simpl.
    rewrite ?Hl, ?Hr, ?Hm, ?Hk, ?Hu, ?Hn. simpl.
    rewrite ?orb_false_r, ?andb_false_r. simpl.
    repeat split; reflexivity.
  - intros s (Hu & Hn & Hk & Hm & Hl & Hr) (s1 & Ha).
    unfold debounce in Ha.
    destruct (debounce_table 0 (debounceKeys s)) as [[[|] dk]|] eqn:Ed;
      try discriminate.
    unfold PET.checkRelease. rewrite checkRelease_eq, Ed, Hu. simpl.
    eexists. eexists. split; [reflexivity|].
    rewrite PET_sendUpdate_eq. simpl. split; [reflexivity|].
    unfold pet_composed, pet_report_modifiers, release, no_key_held; simpl.
    rewrite ?Hl, ?Hr, ?Hm, ?Hk, ?Hu, ?Hn. simpl.
    rewrite ?orb_false_r, ?andb_false_r. simpl.
    repeat split; reflexivity.
Qed.

Lemma pet_key0_press_release_witness :
  (exists s2 s3,
     PET.setKey 0 0 press_ready = Some (true, s2) /\
     PET.sendUpdate s2 = Some (tt, s3) /\
     sent s3 = [(bit_or 0 MODIFIERKEY_SHIFT, [KEY_1; 0; 0; 0; 0; 0])]) /\
  (exists s2 s3,
     PET.checkRelease 0 release_ready = Some (tt, s2) /\
     PET.sendUpdate s2 = Some (tt, s3) /\
     sent s3 = [(bit_or 0 MODIFIERKEY_SHIFT, [KEY_1; 0; 0; 0; 0; 0]);
                (0, [0; 0; 0; 0; 0; 0])]).
Proof.
  destruct pet_key0_press_release as (Hpress & Hrelease). split.
  - destruct (Hpress press_ready) as (s2 & s3 & H1 & H2 & H3 & _).
    + vm_compute. repeat split; reflexivity.
    + vm_compute. eexists; reflexivity.
    + exists s2, s3. auto.
  - destruct (Hrelease release_ready) as (s2 & s3 & H1 & H2 & H3 & _).
    + vm_compute. repeat split; reflexivity.
    + vm_compute. eexists; reflexivity.
    + exists s2, s3. auto.
Defined.

(** C2 as stated fails.  From power-up with the sense line of key 0 low,
    the first scan cycle is undefined (the debounce call for key 6 has no
    return value); and taking the calls for key 0 alone, scan cycles 1
    and 2 are both suppressed: after two setKey(0, 0) calls, each followed
    by the composition step, no slot is occupied and no report was sent. *)
Lemma pet_key0_not_admitted_in_cycle_2 :
  PET.loop key0_low initial = None /\
  exists s,
    run_calls [CallSetKey 0 0; CallSendUpdate; CallSetKey 0 0; CallSendUpdate]
      initial = Some s /\
    sent s = [] /\ usbKeys s = [-1; -1; -1; -1; -1; -1] /\
    debounceKeys s = [(0, -2); (0, 0); (0, 0); (0, 0); (0, 0); (0, 0)].
Proof.
  split; [apply PET_first_cycle_undefined|].
  eexists. split; [vm_compute; reflexivity|]. repeat split; reflexivity.
Qed.

(** ** The pointer-up key of the CBM 64 driver *)

(** The block of case 60 has no break: key 60 runs its own block and then
    the block of case 69, with its own key id. *)
Lemma CBM64_parseSpecial_60 (level : bool) (s : state) :
  CBM64.parseSpecial 60 level s =
  ((if Bool.eqb level LOW
    then Serial_println "parseSpecial> pointer up" ;;
         CBM64.setKey 60 KEY_BACKSLASH ;; ret tt
    else CBM64.checkRelease 60) ;;
   (if Bool.eqb level LOW
    then Serial_println "parseSpecial> clr home" ;;
         l <- get lShift ;;
         r <- get rShift ;;
         (if l || r then CBM64.setKey 60 KEY_END else CBM64.setKey 60 KEY_HOME) ;;
         ret tt
    else CBM64.checkRelease 60) ;;
   ret true) s.
Proof.
  unfold CBM64.parseSpecial, bind at 1.
  change (switch CBM64.cases 60 level false s)
    with (then_ (CBM64.case_60 60 level false)
            (fun b => then_ (CBM64.case_69 60 level b)
                        (fun b' => ret (Next b'))) s).
  unfold then_, CBM64.case_60, CBM64.case_69, Serial_println.
  unfold_m. destruct level; simpl.
  - destruct (CBM64.checkRelease 60 s) as [[[] s1]|]; [|reflexivity].
    destruct (CBM64.checkRelease 60 s1) as [[[] s2]|]; reflexivity.
  - match goal with |- context [CBM64.setKey 60 KEY_BACKSLASH ?st] =>
      destruct (CBM64.setKey 60 KEY_BACKSLASH st) as [[r1 s1]|] end;
      [|reflexivity].
    simpl. destruct (lShift s1 || rShift s1);
      match goal with |- context [CBM64.setKey 60 ?c ?st] =>
        destruct (CBM64.setKey 60 c st) as [[r2 s2]|] end; reflexivity.
Qed.

(** The block of case 69 ends in break: key 69 runs its own block only. *)
Lemma cbm64_clr_home_alone (level : bool) (s : state) :
  CBM64.parseSpecial 69 level s =
  ((if Bool.eqb level LOW
    then Serial_println "parseSpecial> clr home" ;;
         l <- get lShift ;;
         r <- get rShift ;;
         (if l || r then CBM64.setKey 69 KEY_END else CBM64.setKey 69 KEY_HOME) ;;
         ret tt
    else CBM64.checkRelease 69) ;;
   ret true) s.
Proof.
  unfold CBM64.parseSpecial, bind at 1.
  change (switch CBM64.cases 69 level false s)
    with (then_ (CBM64.case_69 69 level false) (fun b' => ret (Next b')) s).
  unfold then_, CBM64.case_69, Serial_println.
  unfold_m. destruct level; simpl.
  - destruct (CBM64.checkRelease 69 s) as [[[] s1]|]; reflexivity.
  - destruct (lShift s || rShift s);
      match goal with |- context [CBM64.setKey 69 ?c ?st] =>
        destruct (CBM64.setKey 69 c st) as [[r2 s2]|] end; reflexivity.
Qed.

(** From power-up a pointer-up press steps the debounce countdown twice per
    call: the first call arms and counts down, the second call admits in
    its first setKey, which installs KEY_BACKSLASH, and its second setKey,
    for KEY_HOME, finds the entry idle and is suppressed. *)
Lemma cbm64_pointer_up_from_power_up :
  exists s1 s2,
    CBM64.parseSpecial 60 LOW initial = Some (true, s1) /\
    debounceKeys s1 = [(60, 1); (0, 0); (0, 0); (0, 0); (0, 0); (0, 0)] /\
    kbKeys s1 = [0; 0; 0; 0; 0; 0] /\
    CBM64.parseSpecial 60 LOW s1 = Some (true, s2) /\
    debounceKeys s2 = [(60, -1); (0, 0); (0, 0); (0, 0); (0, 0); (0, 0)] /\
    usbKeys s2 = [60; -1; -1; -1; -1; -1] /\
    kbKeys s2 = [KEY_BACKSLASH; 0; 0; 0; 0; 0].
Proof.
  eexists. eexists. split; [vm_compute; reflexivity|].
  split; [reflexivity|]. split; [reflexivity|].
  split; [vm_compute; reflexivity|]. repeat split; reflexivity.
Qed.

(** ** The alt lock of the VICE variant *)

Arguments Z.testbit : simpl never.

Lemma int16_mod (z : Z) : int16 z mod 65536 = z mod 65536.
Proof.
  unfold int16. rewrite (Z.mod_eq (z + 32768) 65536) by lia.
  replace (z + 32768 - 65536 * ((z + 32768) / 65536) - 32768)
    with (z + (- ((z + 32768) / 65536)) * 65536) by lia.
  apply Z_mod_plus_full.
Qed.

Lemma testbit_int16 (z n : Z) :
  0 <= n < 16 -> Z.testbit (int16 z) n = Z.testbit z n.
Proof.
  intros Hn.
  rewrite <- (Z.mod_pow2_bits_low (int16 z) 16 n) by lia.
  rewrite <- (Z.mod_pow2_bits_low z 16 n) by lia.
  change (2 ^ 16) with 65536. rewrite int16_mod. reflexivity.
Qed.

Lemma testbit_bit_or (a b n : Z) :
  0 <= n < 16 -> Z.testbit (bit_or a b) n = Z.testbit a n || Z.testbit b n.
Proof.
  intros Hn. unfold bit_or. rewrite testbit_int16 by lia. apply Z.lor_spec.
Qed.

Lemma testbit_bit_clear (a b n : Z) :
  0 <= n < 16 ->
  Z.testbit (bit_clear a b) n = Z.testbit a n && negb (Z.testbit b n).
Proof.
  intros Hn. unfold bit_clear. rewrite testbit_int16 by lia.
  rewrite Z.land_spec, Z.lnot_spec by lia. reflexivity.
Qed.

Lemma testbit_bit_xor (a b n : Z) :
  0 <= n < 16 -> Z.testbit (bit_xor a b) n = xorb (Z.testbit a n) (Z.testbit b n).
Proof.
  intros Hn. unfold bit_xor. rewrite testbit_int16 by lia. apply Z.lxor_spec.
Qed.

Ltac bits :=
  unfold LEFT_ALT_BIT, RIGHT_ALT_BIT in *;
  repeat first [ rewrite testbit_bit_or by lia
               | rewrite testbit_bit_clear by lia
               | rewrite testbit_bit_xor by lia ];
  repeat match goal with
         | |- context [Z.testbit ?c ?n] =>
           lazymatch c with
           | MODIFIERKEY_SHIFT => change (Z.testbit c n) with false
           | MODIFIERKEY_CTRL => change (Z.testbit c n) with false
           | MODIFIERKEY_LEFT_SHIFT => change (Z.testbit c n) with false
           | MODIFIERKEY_RIGHT_SHIFT => change (Z.testbit c n) with false
           | MODIFIERKEY_LEFT_ALT =>
             first [ change (Z.testbit c n) with false
                   | change (Z.testbit c n) with true ]
           | MODIFIERKEY_RIGHT_ALT =>
             first [ change (Z.testbit c n) with false
                   | change (Z.testbit c n) with true ]
           end
         end.

Lemma VICE_sendUpdate_eq (s : state) :
  VICE.sendUpdate s = Some (tt, if keyStateChange s then vice_composed s else s).
Proof.
  unfold VICE.sendUpdate, vice_composed, vice_report_modifiers,
    Keyboard_set_modifier, Keyboard_send_now, tone.
  unfold_m. destruct s as [? ? ? ls rs la ra ralt lalt ? ksc ? ? ? ? ? ? ?]; simpl.
  destruct ksc; [|reflexivity].
  destruct la, ra, ls, rs, lalt, ralt;
    lazy -[bit_or bit_clear bit_xor app]; reflexivity.
Qed.

(** Properties that read none of the variables written during the sweep of
    the VICE variant, or read the modifiers only through bits that Shift
    and Control do not touch. *)
Section VICEFrame.

Variable P : state -> Prop.
Hypothesis P_debounceKeys : forall s v, P s -> P (set_debounceKeys v s).
Hypothesis P_usbKeys : forall s v, P s -> P (set_usbKeys v s).
Hypothesis P_keysUsed : forall s v, P s -> P (set_keysUsed v s).
Hypothesis P_or_shift : forall s,
  P s -> P (set_modifiers (bit_or (modifiers s) MODIFIERKEY_SHIFT) s).
Hypothesis P_clear_shift : forall s,
  P s -> P (set_modifiers (bit_clear (modifiers s) MODIFIERKEY_SHIFT) s).
Hypothesis P_or_ctrl : forall s,
  P s -> P (set_modifiers (bit_or (modifiers s) MODIFIERKEY_CTRL) s).
Hypothesis P_clear_ctrl : forall s,
  P s -> P (set_modifiers (bit_clear (modifiers s) MODIFIERKEY_CTRL) s).
Hypothesis P_keyStateChange : forall s v, P s -> P (set_keyStateChange v s).
Hypothesis P_kbKeys : forall s v, P s -> P (set_kbKeys v s).
Hypothesis P_lShift : forall s v, P s -> P (set_lShift v s).
Hypothesis P_rShift : forall s v, P s -> P (set_rShift v s).
Hypothesis P_lArrow : forall s v, P s -> P (set_lArrow v s).
Hypothesis P_rArrow : forall s v, P s -> P (set_rArrow v s).
Hypothesis P_lAlt : forall s v, P s -> P (set_lAlt v s).
Hypothesis P_rAlt : forall s v, P s -> P (set_rAlt v s).

Lemma keeps_VICE_detectKeys (sense : Z -> Z -> bool) :
  keeps P (VICE.detectKeys sense).
Proof.
  apply keeps_detectKeys. intros i j _ _.
  set (k := Engine.getKeyId VICE.SENSE_COUNT i j).
  assert (Hd : keeps P (debounce k)) by (apply keeps_debounce_frame; auto).
  assert (Hs : forall c, keeps P (VICE.setKey k c))
    by (intros c; apply keeps_setKey; auto).
  assert (Hc : keeps P (VICE.checkRelease k))
    by (apply keeps_checkRelease; auto).
  apply keeps_scanKey with (keyId := k); auto.
  intros level. unfold Engine.parseSpecial.
  apply keeps_bind; [|intros [v|b]; apply keeps_ret].
  apply keeps_switch.
  - intros c Hin. simpl in Hin.
    repeat (destruct Hin as [<-|Hin]; [reflexivity|]). contradiction.
  - intros c b Hin Hlab. simpl in Hin.
    repeat (destruct Hin as [<-|Hin]; [simpl in Hlab |]); try contradiction;
      simpl.
    + apply keeps_VICE_case_64; auto.
    + apply keeps_VICE_case_69; auto.
    + apply keeps_case_control; auto.
    + apply keeps_case_7; auto.
    + apply keeps_case_14; auto.
Qed.

End VICEFrame.

(** The sweep leaves the two Alt bits of the modifiers and the lock flag as
    they are. *)
Lemma VICE_detectKeys_alt (sense : Z -> Z -> bool) (s s1 : state) :
  VICE.detectKeys sense s = Some (tt, s1) ->
  Z.testbit (modifiers s1) LEFT_ALT_BIT = Z.testbit (modifiers s) LEFT_ALT_BIT /\
  Z.testbit (modifiers s1) RIGHT_ALT_BIT = Z.testbit (modifiers s) RIGHT_ALT_BIT /\
  altLockActive s1 = altLockActive s.
Proof.
  intros H.
  apply (keeps_VICE_detectKeys
           (fun st =>
              Z.testbit (modifiers st) LEFT_ALT_BIT = Z.testbit (modifiers s) LEFT_ALT_BIT /\
              Z.testbit (modifiers st) RIGHT_ALT_BIT = Z.testbit (modifiers s) RIGHT_ALT_BIT /\
              altLockActive st = altLockActive s))
    with (sense := sense) (s := s) (a := tt); auto;
    try (intros ? ? HP; exact HP);
    intros st (H2 & H6 & Ha); cbn [modifiers altLockActive set_modifiers];
    bits; rewrite ?orb_false_r, ?andb_true_r; auto.
Qed.

Lemma VICE_parseSpecial_64 (level : bool) (s : state) :
  VICE.parseSpecial 64 level s =
  (r <- VICE.case_64 64 level false ;;
   match r with Returned v => ret v | Next b => ret b end) s.
Proof.
  unfold VICE.parseSpecial, Engine.parseSpecial, bind.
  change (switch VICE.cases 64 level false s)
    with (then_ (VICE.case_64 64 level false) (fun b => ret (Next b)) s).
  unfold then_, bind.
  destruct (VICE.case_64 64 level false s) as [[[v|b] s1]|]; reflexivity.
Qed.

Lemma VICE_parseSpecial_69 (level : bool) (s : state) :
  VICE.parseSpecial 69 level s =
  (r <- VICE.case_69 69 level false ;;
   match r with Returned v => ret v | Next b => ret b end) s.
Proof.
  unfold VICE.parseSpecial, Engine.parseSpecial, bind.
  change (switch VICE.cases 69 level false s)
    with (then_ (VICE.case_69 69 level false) (fun b => ret (Next b)) s).
  unfold then_, bind.
  destruct (VICE.case_69 69 level false s) as [[[v|b] s1]|]; reflexivity.
Qed.

Lemma PET_parseSpecial_64 (level : bool) (s : state) :
  PET.parseSpecial 64 level s =
  (r <- PET.case_64 64 level false ;;
   match r with Returned v => ret v | Next b => ret b end) s.
Proof.
  unfold PET.parseSpecial, Engine.parseSpecial, bind.
  change (switch PET.cases 64 level false s)
    with (then_ (PET.case_64 64 level false) (fun b => ret (Next b)) s).
  unfold then_, bind.
  destruct (PET.case_64 64 level false s) as [[[v|b] s1]|]; reflexivity.
Qed.

Lemma PET_parseSpecial_69 (level : bool) (s : state) :
  PET.parseSpecial 69 level s =
  (r <- PET.case_69 69 level false ;;
   match r with Returned v => ret v | Next b => ret b end) s.
Proof.
  unfold PET.parseSpecial, Engine.parseSpecial, bind.
  change (switch PET.cases 69 level false s)
    with (then_ (PET.case_69 69 level false) (fun b => ret (Next b)) s).
  unfold then_, bind.
  destruct (PET.case_69 69 level false s) as [[[v|b] s1]|]; reflexivity.
Qed.

(** The Shift latches, the change flag and the debounce table move in the
    VICE variant as they do in the PET driver. *)
Lemma VICE_shift_machine_64 (level : bool) (s : state) :
  shift_machine (VICE.parseSpecial 64 level s) =
  shift_machine (PET.parseSpecial 64 level s).
Proof.
  rewrite VICE_parseSpecial_64, PET_parseSpecial_64.
  unfold VICE.case_64, PET.case_64, then_, return_if_debounce, debounce.
  unfold_m.
  destruct level, (lShift s) eqn:El; simpl; rewrite ?El; simpl; try reflexivity;
    destruct (debounce_table 64 (debounceKeys s)) as [[[|] dk]|]; simpl;
    try reflexivity.
  destruct (rShift s) eqn:Er; unfold shift_machine; simpl; rewrite ?Er;
    reflexivity.
Qed.

Lemma VICE_shift_machine_69 (level : bool) (s : state) :
  shift_machine (VICE.parseSpecial 69 level s) =
  shift_machine (PET.parseSpecial 69 level s).
Proof.
  rewrite VICE_parseSpecial_69, PET_parseSpecial_69.
  unfold VICE.case_69, PET.case_69, then_, return_if_debounce, debounce.
  unfold_m.
  destruct level, (rShift s) eqn:El; simpl; rewrite ?El; simpl; try reflexivity;
    destruct (debounce_table 69 (debounceKeys s)) as [[[|] dk]|]; simpl;
    try reflexivity.
  destruct (lShift s) eqn:Er; unfold shift_machine; simpl; rewrite ?Er;
    reflexivity.
Qed.

(** Left shift admitted while right shift is held arms rAlt; right shift
    admitted while left shift is held arms lAlt. *)
Lemma VICE_left_after_right (s : state) :
  lShift s = false -> rShift s = true -> admits 64 s ->
  exists s1, VICE.parseSpecial 64 LOW s = Some (true, s1) /\
    lShift s1 = true /\ rShift s1 = true /\ rAlt s1 = true /\
    lAlt s1 = lAlt s /\ keyStateChange s1 = true /\
    modifiers s1 = modifiers s /\ tones s1 = tones s /\
    altLockActive s1 = altLockActive s.
Proof.
  intros Hl Hr (s0 & Ha).
  assert (Hs0 : exists dk, s0 = set_debounceKeys dk s).
  { unfold debounce in Ha.
    destruct (debounce_table 64 (debounceKeys s)) as [[d dk]|]; [|discriminate].
    inversion Ha; eauto. }
  destruct Hs0 as (dk & ->).
  rewrite VICE_parseSpecial_64.
  unfold VICE.case_64, then_, return_if_debounce. unfold_m.
  rewrite Hl. simpl. rewrite Ha. simpl. rewrite Hr. simpl.
  eexists. split; [reflexivity|]. simpl. auto 10.
Qed.

Lemma VICE_right_after_left (s : state) :
  rShift s = false -> lShift s = true -> admits 69 s ->
  exists s1, VICE.parseSpecial 69 LOW s = Some (true, s1) /\
    lShift s1 = true /\ rShift s1 = true /\ lAlt s1 = true /\
    rAlt s1 = rAlt s /\ keyStateChange s1 = true /\
    modifiers s1 = modifiers s /\ tones s1 = tones s /\
    altLockActive s1 = altLockActive s.
Proof.
  intros Hr Hl (s0 & Ha).
  assert (Hs0 : exists dk, s0 = set_debounceKeys dk s).
  { unfold debounce in Ha.
    destruct (debounce_table 69 (debounceKeys s)) as [[d dk]|]; [|discriminate].
    inversion Ha; eauto. }
  destruct Hs0 as (dk & ->).
  rewrite VICE_parseSpecial_69.
  unfold VICE.case_69, then_, return_if_debounce. unfold_m.
  rewrite Hr. simpl. rewrite Ha. simpl. rewrite Hl. simpl.
  eexists. split; [reflexivity|]. simpl. auto 10.
Qed.

(** The composition step and the Alt bits: the right Alt bit is in the
    report when rAlt is armed, with the 400 Hz tone, and is cleared after
    the report; the left Alt bit and the lock flag are toggled when lAlt is
    armed and kept otherwise, in the report and after it. *)
Lemma VICE_composed_alt (s : state) :
  let m := vice_report_modifiers s in
  let s' := vice_composed s in
  sent s' = sent s ++ [(m, kbKeys s)] /\
  Z.testbit m RIGHT_ALT_BIT = rAlt s || Z.testbit (modifiers s) RIGHT_ALT_BIT /\
  Z.testbit (modifiers s') RIGHT_ALT_BIT = false /\
  rAlt s' = false /\
  tones s' = (if rAlt s then tones s ++ [(VICE.speakerPin, 400, 50)] else tones s) /\
  Z.testbit m LEFT_ALT_BIT = xorb (lAlt s) (Z.testbit (modifiers s) LEFT_ALT_BIT) /\
  Z.testbit (modifiers s') LEFT_ALT_BIT =
    xorb (lAlt s) (Z.testbit (modifiers s) LEFT_ALT_BIT) /\
  altLockActive s' = xorb (lAlt s) (altLockActive s) /\
  lAlt s' = false.
Proof.
  unfold vice_composed, vice_report_modifiers; simpl.
  split; [reflexivity|].
  destruct (negb (lArrow s || rArrow s) && (lShift s || rShift s)),
    (rShift s), (lAlt s), (rAlt s); simpl; bits; simpl;
    repeat split;
    rewrite ?orb_false_r, ?andb_true_r, ?andb_false_r, ?xorb_false_r,
      ?xorb_false_l, ?xorb_true_r, ?xorb_true_l, ?orb_true_r; auto;
    destruct (Z.testbit (modifiers s) 2), (Z.testbit (modifiers s) 6),
      (altLockActive s); reflexivity.
Qed.

Lemma VICE_heartbeat_eq (now : Z) (s : state) :
  exists s', VICE.heartbeat now s = Some (tt, s') /\
    tones s' = (if altLockActive s &&
                   (VICE.interval <=? uint32 (now - previousMillis s))
                then tones s ++ [(VICE.speakerPin, 220, 32)]
                else tones s) /\
    altLockActive s' = altLockActive s /\ modifiers s' = modifiers s.
Proof.
  unfold VICE.heartbeat, tone. unfold_m.
  destruct (altLockActive s && (VICE.interval <=? uint32 (now - previousMillis s)));
    eexists; (split; [reflexivity|]); simpl; auto.
Qed.

(** ** debounce on an arbitrary table *)

Lemma find_index_S (n i : nat) (p : nat -> bool) :
  find_index (S n) i p = if p i then Some i else find_index n (S i) p.
Proof. reflexivity. Qed.

Lemma find_index_first (n i j : nat) (p : nat -> bool) :
  (i <= j < i + n)%nat -> p j = true ->
  (forall k, (i <= k < j)%nat -> p k = false) ->
  find_index n i p = Some j.
Proof.
  revert i; induction n as [|n IH]; intros i Hr Hj Hk; [lia|].
  rewrite find_index_S.
  destruct (Nat.eq_dec i j) as [->|Hne]; [rewrite Hj; reflexivity|].
  rewrite (Hk i) by lia. apply IH; auto; try lia.
  intros k Hk'. apply Hk. lia.
Qed.

Lemma find_index_none (n i : nat) (p : nat -> bool) :
  (forall k, (i <= k < i + n)%nat -> p k = false) -> find_index n i p = None.
Proof.
  revert i; induction n as [|n IH]; intros i Hk; [reflexivity|].
  rewrite find_index_S, (Hk i) by lia. apply IH. intros k Hk'. apply Hk. lia.
Qed.

Lemma tracked_at_find (keyId : Z) (dk : list (Z * Z)) (i : nat) :
  tracked_at keyId dk i <->
  find_index 6 0 (fun j => fst (nth j dk (0, 0)) =? keyId) = Some i.
Proof.
  split.
  - intros (Hi & Hk & Hf). apply find_index_first; [lia | apply Z.eqb_eq; auto |].
    intros k Hk'. apply Z.eqb_neq. apply Hf. lia.
  - intros H. apply find_index_Some in H. destruct H as (Hi & Hk & Hf).
    split; [lia|]. split; [apply Z.eqb_eq; auto|].
    intros j Hj. apply Z.eqb_neq. apply Hf. lia.
Qed.

Lemma untracked_find (keyId : Z) (dk : list (Z * Z)) :
  untracked keyId dk <->
  find_index 6 0 (fun j => fst (nth j dk (0, 0)) =? keyId) = None.
Proof.
  split.
  - intros H. apply find_index_none. intros k Hk. apply Z.eqb_neq. apply H. lia.
  - intros H i Hi. apply Z.eqb_neq.
    apply (find_index_None _ _ _ H i). lia.
Qed.

Lemma idle_at_find (dk : list (Z * Z)) (i : nat) :
  idle_at dk i <->
  find_index 6 0 (fun j => snd (nth j dk (0, 0)) =? 0) = Some i.
Proof.
  split.
  - intros (Hi & Hk & Hf). apply find_index_first; [lia | apply Z.eqb_eq; auto |].
    intros k Hk'. apply Z.eqb_neq. apply Hf. lia.
  - intros H. apply find_index_Some in H. destruct H as (Hi & Hk & Hf).
    split; [lia|]. split; [apply Z.eqb_eq; auto|].
    intros j Hj. apply Z.eqb_neq. apply Hf. lia.
Qed.

Lemma no_idle_find (dk : list (Z * Z)) :
  no_idle dk <->
  find_index 6 0 (fun j => snd (nth j dk (0, 0)) =? 0) = None.
Proof.
  split.
  - intros H. apply find_index_none. intros k Hk. apply Z.eqb_neq. apply H. lia.
  - intros H i Hi. apply Z.eqb_neq.
    apply (find_index_None _ _ _ H i). lia.
Qed.

(** The table as a search result: which of the two loops returns, where. *)
Lemma debounce_table_cases (keyId : Z) (dk : list (Z * Z)) :
  (exists i, tracked_at keyId dk i /\
     debounce_table keyId dk =
     Some (fst (countdown_step (snd (nth i dk (0, 0)))),
           upd i (keyId, snd (countdown_step (snd (nth i dk (0, 0))))) dk)) \/
  (untracked keyId dk /\ exists i, idle_at dk i /\
     debounce_table keyId dk =
     Some (true, upd i (int8 keyId, DEBOUNCE_DELAY) dk)) \/
  (untracked keyId dk /\ no_idle dk /\ debounce_table keyId dk = None).
Proof.
  unfold debounce_table. rewrite debounce_tracked_spec, debounce_new_spec.
  destruct (find_index 6 0 (fun j => fst (nth j dk (0, 0)) =? keyId))
    as [i|] eqn:Et.
  - left. exists i. apply tracked_at_find in Et. split; [exact Et|].
    destruct Et as (_ & Hk & _). cbv zeta. rewrite Hk. unfold countdown_step.
    destruct (snd (nth i dk (0, 0)) =? 1); reflexivity.
  - right. apply untracked_find in Et.
    destruct (find_index 6 0 (fun j => snd (nth j dk (0, 0)) =? 0))
      as [i|] eqn:Ei.
    + left. split; [exact Et|]. exists i. apply idle_at_find in Ei. auto.
    + right. apply no_idle_find in Ei. auto.
Qed.

(** X1.  debounce executes no return statement, and so yields no defined
    value, exactly when no entry of the table holds the key id and no
    entry has countdown 0. *)
Theorem debounce_undefined_iff (keyId : Z) (s : state) :
  debounce keyId s = None <->
  untracked keyId (debounceKeys s) /\ no_idle (debounceKeys s).
Proof.
  unfold debounce.
  destruct (debounce_table_cases keyId (debounceKeys s))
    as [(i & Ht & E) | [(Hu & i & Hi & E) | (Hu & Hn & E)]]; rewrite E.
  - split; [discriminate|]. intros (Hu & _). exfalso.
    destruct Ht as (Hi & Hk & _). exact (Hu i Hi Hk).
  - split; [discriminate|]. intros (_ & Hn). exfalso.
    destruct Hi as (Hi & Hc & _). exact (Hn i Hi Hc).
  - split; auto.
Qed.

(** X2.  debounce admits a call exactly when the first entry that holds the
    key id has countdown 1; the call sets that countdown to 0 and changes
    nothing else. *)
Theorem debounce_admits_iff (keyId : Z) (s s' : state) :
  debounce keyId s = Some (false, s') <->
  exists i, tracked_at keyId (debounceKeys s) i /\
            snd (nth i (debounceKeys s) (0, 0)) = 1 /\
            s' = set_debounceKeys (upd i (keyId, 0) (debounceKeys s)) s.
Proof.
  unfold debounce.
  destruct (debounce_table_cases keyId (debounceKeys s))
    as [(i & Ht & E) | [(Hu & i & Hi & E) | (Hu & Hn & E)]]; rewrite E.
  - unfold countdown_step.
    destruct (Z.eqb_spec (snd (nth i (debounceKeys s) (0, 0))) 1) as [Hc|Hc];
      simpl.
    + split.
      * intros H. inversion H; subst. exists i. auto.
      * intros (i' & Ht' & _ & ->).
        apply tracked_at_find in Ht, Ht'. rewrite Ht in Ht'.
        inversion Ht'; subst. reflexivity.
    + split; [discriminate|]. intros (i' & Ht' & Hc' & _). exfalso.
      apply tracked_at_find in Ht, Ht'. rewrite Ht in Ht'.
      inversion Ht'; subst. contradiction.
  - split; [discriminate|]. intros (i' & (Hi' & Hk & _) & _). exfalso.
    exact (Hu i' Hi' Hk).
  - split; [discriminate|]. intros (i' & (Hi' & Hk & _) & _). exfalso.
    exact (Hu i' Hi' Hk).
Qed.

Lemma upd_nth_id {A : Type} (i : nat) (d : A) (l : list A) :
  upd i (nth i l d) l = l.
Proof.
  revert i; induction l as [|h t IH]; intros [|i]; simpl; auto.
  rewrite IH. reflexivity.
Qed.

Lemma upd_upd {A : Type} (i : nat) (v w : A) (l : list A) :
  upd i w (upd i v l) = upd i w l.
Proof.
  revert i; induction l as [|h t IH]; intros [|i]; simpl; auto.
  rewrite IH. reflexivity.
Qed.

(** X3.  A defined debounce call changes the debounce table only: the table
    keeps its length, and an entry that holds another key id with a
    countdown other than 0 is left as it is, so the countdown of a key in
    progress is not disturbed by the calls for other keys. *)
Theorem debounce_leaves_other_countdowns (keyId : Z) (d : bool) (s s' : state)
  (H : debounce keyId s = Some (d, s')) :
  s' = set_debounceKeys (debounceKeys s') s /\
  length (debounceKeys s') = length (debounceKeys s) /\
  forall j, fst (nth j (debounceKeys s) (0, 0)) <> keyId ->
            snd (nth j (debounceKeys s) (0, 0)) <> 0 ->
            nth j (debounceKeys s') (0, 0) = nth j (debounceKeys s) (0, 0).
Proof.
  unfold debounce in H.
  destruct (debounce_table_cases keyId (debounceKeys s))
    as [(i & Ht & E) | [(Hu & i & Hi & E) | (Hu & Hn & E)]]; rewrite E in H;
    [| |discriminate]; inversion H; subst; simpl; clear H.
  - split; [reflexivity|]. split; [apply upd_length|].
    intros j Hk _. apply nth_upd_other. intros ->.
    destruct Ht as (_ & Hk' & _). contradiction.
  - split; [reflexivity|]. split; [apply upd_length|].
    intros j _ Hc. apply nth_upd_other. intros ->.
    destruct Hi as (_ & Hc' & _). contradiction.
Qed.

Lemma debounce_leaves_other_countdowns_witness :
  exists s', debounce 9 pressing5 = Some (true, s') /\
             nth 0 (debounceKeys s') (0, 0) = nth 0 (debounceKeys pressing5) (0, 0).
Proof.
  destruct (debounce 9 pressing5) as [[d s']|] eqn:E; [|vm_compute in E; discriminate].
  destruct (debounce_leaves_other_countdowns 9 d pressing5 s' E) as (_ & _ & Hj).
  assert (d = true) as -> by (vm_compute in E; inversion E; reflexivity).
  exists s'. split; [reflexivity|].
  apply Hj; vm_compute; discriminate.
Defined.

(** ** Consecutive debounce calls for one key *)

Lemma tracked_at_upd (keyId c : Z) (dk : list (Z * Z)) (i : nat) :
  tracked_at keyId dk i -> length dk = 6%nat ->
  tracked_at keyId (upd i (keyId, c) dk) i /\
  snd (nth i (upd i (keyId, c) dk) (0, 0)) = c.
Proof.
  intros (Hi & Hk & Hf) Hlen. unfold tracked_at.
  rewrite nth_upd_same by lia. split; [|reflexivity].
  split; [exact Hi|]. split; [reflexivity|].
  intros j Hj. rewrite nth_upd_other by lia. apply Hf. exact Hj.
Qed.

Lemma debounce_table_tracked (keyId : Z) (dk : list (Z * Z)) (i : nat) :
  tracked_at keyId dk i ->
  debounce_table keyId dk =
  Some (fst (countdown_step (snd (nth i dk (0, 0)))),
        upd i (keyId, snd (countdown_step (snd (nth i dk (0, 0))))) dk).
Proof.
  intros Ht.
  destruct (debounce_table_cases keyId dk)
    as [(i' & Ht' & E) | [(Hu & _) | (Hu & _)]].
  - apply tracked_at_find in Ht, Ht'. rewrite Ht in Ht'.
    inversion Ht'; subst. exact E.
  - exfalso. destruct Ht as (Hi & Hk & _). exact (Hu i Hi Hk).
  - exfalso. destruct Ht as (Hi & Hk & _). exact (Hu i Hi Hk).
Qed.

Lemma debounce_calls_tracked (n : nat) (keyId : Z) (dk : list (Z * Z)) (i : nat) :
  tracked_at keyId dk i -> length dk = 6%nat ->
  debounce_calls n keyId dk =
  Some (fst (countdown_steps n (snd (nth i dk (0, 0)))),
        upd i (keyId, snd (countdown_steps n (snd (nth i dk (0, 0))))) dk).
Proof.
  revert dk; induction n as [|n IH]; intros dk Ht Hlen.
  - simpl. destruct Ht as (_ & Hk & _).
    rewrite <- Hk at 1. rewrite <- surjective_pairing, upd_nth_id. reflexivity.
  - simpl. rewrite (debounce_table_tracked keyId dk i Ht).
    destruct (tracked_at_upd keyId
                (snd (countdown_step (snd (nth i dk (0, 0))))) dk i Ht Hlen)
      as (Ht1 & Hc1).
    rewrite (IH _ Ht1) by (rewrite upd_length; exact Hlen).
    rewrite Hc1, upd_upd.
    destruct (countdown_step (snd (nth i dk (0, 0)))) as [d c1]; simpl.
    destruct (countdown_steps n c1) as [ds c2]; reflexivity.
Qed.

(** X4.  A key whose entry is idle (countdown 0) is not re-armed: the next
    255 calls for it are suppressed while the [int8_t] countdown runs from
    0 down through -128 and round to 1, the 256th call is admitted, and the
    table is then as it was. *)
Theorem debounce_idle_key_readmitted_after_256_calls
  (keyId : Z) (dk : list (Z * Z)) (i : nat)
  (Ht : tracked_at keyId dk i) (Hc : snd (nth i dk (0, 0)) = 0)
  (Hlen : length dk = 6%nat) :
  debounce_calls 256 keyId dk = Some (repeat true 255 ++ [false], dk).
Proof.
  rewrite (debounce_calls_tracked 256 keyId dk i Ht Hlen), Hc.
  replace (countdown_steps 256 0) with (repeat true 255 ++ [false], 0)
    by (vm_compute; reflexivity).
  simpl fst. simpl snd.
  destruct Ht as (_ & Hk & _). rewrite <- Hc, <- Hk at 1.
  rewrite <- surjective_pairing, upd_nth_id. reflexivity.
Qed.

Lemma debounce_idle_key_readmitted_after_256_calls_witness :
  debounce_calls 256 5 (debounceKeys held5) =
  Some (repeat true 255 ++ [false], debounceKeys held5).
Proof.
  apply (debounce_idle_key_readmitted_after_256_calls 5 (debounceKeys held5) 0).
  - split; [lia|]. split; [reflexivity|]. intros j Hj. lia.
  - reflexivity.
  - reflexivity.
Defined.

(** X5.  A key id below 128 that no entry holds, on a table with an idle
    entry, is admitted by its third consecutive call: the first call takes
    the first idle entry and arms it at DEBOUNCE_DELAY, the second counts
    down to 1, the third admits and leaves the entry idle. *)
Theorem debounce_new_key_admitted_by_third_call
  (keyId : Z) (dk : list (Z * Z)) (i : nat)
  (Hk : 0 <= keyId <= 127) (Hu : untracked keyId dk) (Hi : idle_at dk i)
  (Hlen : length dk = 6%nat) :
  debounce_calls 3 keyId dk = Some ([true; true; false], upd i (keyId, 0) dk).
Proof.
  change (debounce_calls 3 keyId dk) with
    (match debounce_table keyId dk with
     | Some (d, dk1) =>
       match debounce_calls 2 keyId dk1 with
       | Some (ds, dk2) => Some (d :: ds, dk2)
       | None => None
       end
     | None => None
     end).
  destruct (debounce_table_cases keyId dk)
    as [(i' & (Hi' & Hk' & _) & _) | [(_ & i' & Hi2 & E) | (_ & Hn & _)]].
  - exfalso. exact (Hu i' Hi' Hk').
  - apply idle_at_find in Hi, Hi2. rewrite Hi in Hi2. inversion Hi2; subst i'.
    apply idle_at_find in Hi. destruct Hi as (Hi6 & _ & _).
    rewrite E, int8_small by lia.
    assert (Ht : tracked_at keyId (upd i (keyId, DEBOUNCE_DELAY) dk) i).
    { split; [exact Hi6|]. split; [rewrite nth_upd_same by lia; reflexivity|].
      intros j Hj. rewrite nth_upd_other by lia. apply Hu. lia. }
    rewrite (debounce_calls_tracked 2 keyId _ i Ht)
      by (rewrite upd_length; exact Hlen).
    rewrite nth_upd_same by lia. rewrite upd_upd. reflexivity.
  - exfalso. destruct Hi as (Hi6 & Hc & _). exact (Hn i Hi6 Hc).
Qed.

Lemma debounce_new_key_admitted_by_third_call_witness :
  debounce_calls 3 5 (debounceKeys initial) =
  Some ([true; true; false], upd 0 (5, 0) (debounceKeys initial)).
Proof.
  apply (debounce_new_key_admitted_by_third_call 5 (debounceKeys initial) 0).
  - lia.
  - intros i Hi. do 6 (destruct i as [|i]; [simpl; lia|]). lia.
  - split; [lia|]. split; [reflexivity|]. intros j Hj. lia.
  - reflexivity.
Defined.

(** ** setKey and checkRelease on the report buffer *)

Lemma state_eta (s : state) : set_debounceKeys (debounceKeys s) s = s.
Proof. destruct s; reflexivity. Qed.

Lemma not_held_find (keys : list Z) (keyId : Z) :
  length keys = 6%nat -> ~ In keyId keys ->
  find_index 6 0 (fun n => nth n keys 0 =? keyId) = None.
Proof.
  intros Hlen Hnot. apply find_index_none. intros k Hk.
  apply Z.eqb_neq. intros Hv. apply Hnot. rewrite <- Hv. apply nth_In. lia.
Qed.

Lemma first_free_find (keys : list Z) (slot : nat) :
  first_free keys slot <->
  find_index 6 0 (fun n => nth n keys 0 =? -1) = Some slot.
Proof.
  split.
  - intros (Hi & Hk & Hf). apply find_index_first; [lia | apply Z.eqb_eq; auto |].
    intros k Hk'. apply Z.eqb_neq. apply Hf. lia.
  - intros H. apply find_index_Some in H. destruct H as (Hi & Hk & Hf).
    split; [lia|]. split; [apply Z.eqb_eq; auto|].
    intros j Hj. apply Z.eqb_neq. apply Hf. lia.
Qed.

Lemma free_slot_found (keys : list Z) :
  length keys = 6%nat -> occupied keys < 6 ->
  exists slot, find_index 6 0 (fun n => nth n keys 0 =? -1) = Some slot.
Proof.
  intros Hlen Hocc.
  destruct (find_index 6 0 (fun n => nth n keys 0 =? -1)) as [slot|] eqn:E;
    [eauto|].
  exfalso. pose proof (find_index_None _ _ _ E) as Hall.
  assert (Hf : filter (fun k => negb (k =? -1)) keys = keys).
  { apply forallb_filter_id. apply forallb_forall. intros x Hin.
    apply (In_nth _ _ 0) in Hin. destruct Hin as (n & Hn & <-).
    rewrite (Hall n) by lia. reflexivity. }
  unfold occupied in Hocc. rewrite Hf, Hlen in Hocc. lia.
Qed.

Lemma PET_tables_length :
  length PET.KEY_CODES = 80%nat /\ length PET.KEY_CODES_SHIFT_NEEDED = 80%nat.
Proof. split; reflexivity. Qed.

Lemma PET_KEY_CODES_nonzero : Forall (fun c => c <> 0) PET.KEY_CODES.
Proof.
  unfold PET.KEY_CODES.
  repeat (apply Forall_cons; [vm_compute; discriminate|]). apply Forall_nil.
Qed.

Lemma PET_table_lookup (keyId : Z) :
  0 <= keyId < 80 ->
  nth_error PET.KEY_CODES (Z.to_nat keyId) =
    Some (nth (Z.to_nat keyId) PET.KEY_CODES 0) /\
  nth_error PET.KEY_CODES_SHIFT_NEEDED (Z.to_nat keyId) =
    Some (pet_shift_needed keyId).
Proof.
  intros Hk. destruct PET_tables_length as (H1 & H2).
  split; apply nth_error_nth'; lia.
Qed.

Lemma PET_table_lookup_inv {A : Type} (table : list A) (keyId : Z) (v : A) :
  length table = 80%nat -> 0 <= keyId ->
  nth_error table (Z.to_nat keyId) = Some v -> keyId < 80.
Proof.
  intros Hlen Hk H.
  assert (Hs : nth_error table (Z.to_nat keyId) <> None) by congruence.
  apply nth_error_Some in Hs. lia.
Qed.

(** The admitted setKey call for a key that is not held, with a free slot. *)
Lemma PET_setKey_fresh (s : state) (keyId keyCode : Z) :
  buffer_ok s -> 0 <= keyId < 80 -> ~ In keyId (usbKeys s) ->
  keysUsed s < 6 -> admits keyId s ->
  exists slot dk,
    first_free (usbKeys s) slot /\
    debounce_table keyId (debounceKeys s) = Some (false, dk) /\
    PET.setKey keyId keyCode s =
    Some (true, install slot keyId (pet_key_code keyId keyCode)
                  (pet_shift_needed keyId) (set_debounceKeys dk s)).
Proof.
  intros Hok Hk Hnot Hused (s1 & Ha).
  destruct Hok as (Ht & Hlen & Hu & Hd & Hkb).
  unfold debounce in Ha.
  destruct (debounce_table keyId (debounceKeys s)) as [[d dk]|] eqn:Ed;
    [|discriminate].
  assert (d = false) as -> by congruence.
  destruct (free_slot_found (usbKeys s) Hlen) as (slot & Hslot); [lia|].
  exists slot, dk. split; [apply first_free_find; exact Hslot|].
  split; [reflexivity|].
  unfold PET.setKey. rewrite setKey_eq, Ed.
  destruct (Z.eqb_spec (keysUsed s) 6); [lia|]. cbv zeta.
  rewrite (not_held_find _ _ Hlen Hnot), Hslot.
  destruct (Z.ltb_spec keyId 0); [lia|].
  destruct (PET_table_lookup keyId Hk) as (-> & ->).
  unfold pet_key_code. destruct (keyCode =? 0); reflexivity.
Qed.

(** The admitted checkRelease call for a key that is held. *)
Lemma PET_checkRelease_held (s : state) (keyId : Z) :
  buffer_ok s -> 0 <= keyId < 80 -> In keyId (usbKeys s) -> admits keyId s ->
  exists slot dk,
    (slot < 6)%nat /\ nth slot (usbKeys s) 0 = keyId /\
    debounce_table keyId (debounceKeys s) = Some (false, dk) /\
    PET.checkRelease keyId s =
    Some (tt, release slot (pet_shift_needed keyId) (set_debounceKeys dk s)).
Proof.
  intros Hok Hk Hin (s1 & Ha).
  destruct Hok as (Ht & Hlen & Hu & Hd & Hkb).
  unfold debounce in Ha.
  destruct (debounce_table keyId (debounceKeys s)) as [[d dk]|] eqn:Ed;
    [|discriminate].
  assert (d = false) as -> by congruence.
  destruct (held_slot_found _ _ Hlen Hin) as (slot & Hslot).
  pose proof (find_index_Some _ _ _ _ Hslot) as (Hi & Hv & _).
  apply Z.eqb_eq in Hv.
  exists slot, dk. split; [lia|]. split; [exact Hv|]. split; [reflexivity|].
  unfold PET.checkRelease. rewrite checkRelease_eq, Ed. cbv zeta.
  rewrite Hslot. destruct (Z.ltb_spec keyId 0); [lia|].
  destruct (PET_table_lookup keyId Hk) as (_ & ->). reflexivity.
Qed.

(** X6.  A setKey call of the PET driver that returns false has changed
    nothing but the debounce table: slots, counter, modifiers, change flag
    and pending key codes are as before. *)
Theorem pet_setKey_false_changes_debounce_only
  (keyId keyCode : Z) (s s' : state)
  (H : PET.setKey keyId keyCode s = Some (false, s')) :
  s' = set_debounceKeys (debounceKeys s') s.
Proof.
  unfold PET.setKey in H. rewrite setKey_eq in H.
  destruct (keysUsed s =? 6);
    [inversion H; subst; symmetry; apply state_eta|].
  destruct (debounce_table keyId (debounceKeys s)) as [[[|] dk]|];
    [inversion H; subst; reflexivity | | discriminate].
  cbv zeta in H.
  destruct (find_index 6 0 (fun n => nth n (usbKeys s) 0 =? keyId));
    [discriminate|].
  destruct (find_index 6 0 (fun n => nth n (usbKeys s) 0 =? -1));
    [|inversion H; subst; reflexivity].
  destruct (keyId <? 0); [discriminate|].
  destruct (nth_error PET.KEY_CODES_SHIFT_NEEDED (Z.to_nat keyId));
    [|discriminate].
  destruct (nth_error PET.KEY_CODES (Z.to_nat keyId)); discriminate.
Qed.

Lemma pet_setKey_false_changes_debounce_only_witness :
  exists s', PET.setKey 7 0 held5 = Some (false, s') /\
             s' = set_debounceKeys (debounceKeys s') held5.
Proof.
  destruct (PET.setKey 7 0 held5) as [[r s']|] eqn:E;
    [|vm_compute in E; discriminate].
  assert (r = false) as -> by (vm_compute in E; inversion E; reflexivity).
  exists s'. split; [reflexivity|].
  exact (pet_setKey_false_changes_debounce_only 7 0 held5 s' E).
Defined.

(** X7.  checkRelease for a key that occupies no slot changes nothing but
    the debounce table, whether debounce admits the call or not. *)
Theorem pet_checkRelease_not_held (keyId : Z) (s s' : state)
  (Hlen : length (usbKeys s) = 6%nat) (Hnot : ~ In keyId (usbKeys s))
  (H : PET.checkRelease keyId s = Some (tt, s')) :
  s' = set_debounceKeys (debounceKeys s') s.
Proof.
  unfold PET.checkRelease in H. rewrite checkRelease_eq in H.
  destruct (debounce_table keyId (debounceKeys s)) as [[[|] dk]|];
    [inversion H; subst; reflexivity | | discriminate].
  cbv zeta in H. rewrite (not_held_find _ _ Hlen Hnot) in H.
  inversion H; subst; reflexivity.
Qed.

Lemma pet_checkRelease_not_held_witness :
  exists s', PET.checkRelease 9 releasing5 = Some (tt, s') /\
             s' = set_debounceKeys (debounceKeys s') releasing5.
Proof.
  destruct (PET.checkRelease 9 releasing5) as [[[] s']|] eqn:E;
    [|vm_compute in E; discriminate].
  exists s'. split; [reflexivity|].
  apply (pet_checkRelease_not_held 9 releasing5 s'); [reflexivity | | exact E].
  vm_compute. intuition discriminate.
Defined.

(** X8.  In a reachable state of the PET driver, an admitted setKey call for
    a key of the matrix that is not held, with fewer than 6 keys held,
    returns true and takes the first free slot: the key id goes into that
    slot of usbKeys, the key code (the override when it is not 0, the
    KEY_CODES entry otherwise) into the same slot of the pending key codes,
    the counter goes up by one, the change flag is set, Shift is ORed into
    the modifiers when the key needs it, and every other slot is left as it
    is. *)
Theorem pet_setKey_takes_first_free_slot (s : state) (keyId keyCode : Z)
  (Hr : reachable s) (Hk : 0 <= keyId < 80)
  (Hnot : ~ In keyId (usbKeys s)) (Hused : keysUsed s < 6)
  (Ha : admits keyId s) :
  exists slot s',
    PET.setKey keyId keyCode s = Some (true, s') /\
    first_free (usbKeys s) slot /\
    usbKeys s' = upd slot keyId (usbKeys s) /\
    kbKeys s' = upd slot (pet_key_code keyId keyCode) (kbKeys s) /\
    keysUsed s' = keysUsed s + 1 /\
    keyStateChange s' = true /\
    modifiers s' = (if pet_shift_needed keyId
                    then bit_or (modifiers s) MODIFIERKEY_SHIFT
                    else modifiers s).
Proof.
  pose proof (reachable_buffer_ok s Hr) as Hok.
  destruct (PET_setKey_fresh s keyId keyCode Hok Hk Hnot Hused Ha)
    as (slot & dk & Hfree & _ & E).
  exists slot. eexists. split; [exact E|]. split; [exact Hfree|].
  unfold install; simpl. rewrite int8_small by lia.
  assert (Hu : uint8 (keysUsed s + 1) = keysUsed s + 1).
  { destruct Hok as (_ & Hlen & Hu & _).
    pose proof (occupied_bounds (usbKeys s)) as Hb. rewrite Hlen in Hb.
    unfold uint8. apply Z.mod_small. lia. }
  rewrite Hu. repeat split; reflexivity.
Qed.

Lemma pet_setKey_takes_first_free_slot_witness :
  exists s', PET.setKey 5 0 pressing5 = Some (true, s') /\
             usbKeys s' = [5; -1; -1; -1; -1; -1] /\
             kbKeys s' = [KEY_MINUS; 0; 0; 0; 0; 0].
Proof.
  destruct (pet_setKey_takes_first_free_slot pressing5 5 0 reachable_pressing5)
    as (slot & s' & E & Hfree & Hu & Hkb & _).
  - lia.
  - vm_compute. intuition discriminate.
  - vm_compute. reflexivity.
  - vm_compute. eexists. reflexivity.
  - exists s'. split; [exact E|].
    assert (slot = 0%nat) as ->.
    { destruct Hfree as (_ & _ & Hf). destruct slot as [|slot]; [reflexivity|].
      exfalso. apply (Hf 0%nat); [lia | reflexivity]. }
    rewrite Hu, Hkb. split; reflexivity.
Defined.

Lemma not_in_upd_free (keys : list Z) (slot : nat) (keyId : Z) :
  length keys = 6%nat -> distinct_slots keys -> (slot < 6)%nat ->
  nth slot keys 0 = keyId -> keyId <> -1 ->
  ~ In keyId (upd slot (-1) keys).
Proof.
  intros Hlen Hd Hslot Hv Hne Hin.
  apply (In_nth _ _ 0) in Hin. destruct Hin as (n & Hn & Hvn).
  rewrite upd_length in Hn.
  destruct (Nat.eq_dec slot n) as [->|Hsn].
  - rewrite nth_upd_same in Hvn by lia. congruence.
  - rewrite nth_upd_other in Hvn by exact Hsn.
    apply Hsn. apply Hd; try lia; congruence.
Qed.

(** X9.  In a reachable state of the PET driver, an admitted checkRelease
    call for a held key of the matrix frees the slot of the key: the slot
    of usbKeys goes back to -1 and its pending key code to 0, the counter
    goes down by one, the change flag is set, Shift is cleared from the
    modifiers when the key needs it, the other slots are left as they are,
    and the key is no longer held. *)
Theorem pet_checkRelease_frees_slot (s : state) (keyId : Z)
  (Hr : reachable s) (Hk : 0 <= keyId < 80)
  (Hin : In keyId (usbKeys s)) (Ha : admits keyId s) :
  exists slot s',
    PET.checkRelease keyId s = Some (tt, s') /\
    (slot < 6)%nat /\ nth slot (usbKeys s) 0 = keyId /\
    usbKeys s' = upd slot (-1) (usbKeys s) /\
    kbKeys s' = upd slot 0 (kbKeys s) /\
    keysUsed s' = keysUsed s - 1 /\
    keyStateChange s' = true /\
    modifiers s' = (if pet_shift_needed keyId
                    then bit_clear (modifiers s) MODIFIERKEY_SHIFT
                    else modifiers s) /\
    ~ In keyId (usbKeys s').
Proof.
  pose proof (reachable_buffer_ok s Hr) as Hok.
  destruct (PET_checkRelease_held s keyId Hok Hk Hin Ha)
    as (slot & dk & Hslot & Hv & _ & E).
  exists slot. eexists. split; [exact E|].
  split; [exact Hslot|]. split; [exact Hv|].
  unfold release; simpl.
  destruct Hok as (_ & Hlen & Hu & Hd & _).
  assert (Hu' : uint8 (keysUsed s - 1) = keysUsed s - 1).
  { pose proof (occupied_bounds (usbKeys s)) as Hb. rewrite Hlen in Hb.
    assert (0 < occupied (usbKeys s)).
    { unfold occupied.
      assert (Hf : In keyId (filter (fun k => negb (k =? -1)) (usbKeys s))).
      { apply filter_In. split; [exact Hin|].
        destruct (Z.eqb_spec keyId (-1)); [lia | reflexivity]. }
      destruct (filter (fun k => negb (k =? -1)) (usbKeys s));
        [contradiction | simpl; lia]. }
    unfold uint8. apply Z.mod_small. lia. }
  rewrite Hu'. repeat split; try reflexivity.
  apply not_in_upd_free; auto; lia.
Qed.

Lemma pet_checkRelease_frees_slot_witness :
  exists s', PET.checkRelease 5 releasing5 = Some (tt, s') /\
             usbKeys s' = [-1; -1; -1; -1; -1; -1] /\
             kbKeys s' = [0; 0; 0; 0; 0; 0] /\ keysUsed s' = 0.
Proof.
  destruct (pet_checkRelease_frees_slot releasing5 5 reachable_releasing5)
    as (slot & s' & E & Hslot & Hv & Hu & Hkb & Hused & _).
  - lia.
  - vm_compute. auto.
  - vm_compute. eexists. reflexivity.
  - exists s'. split; [exact E|].
    assert (slot = 0%nat) as ->.
    { destruct slot as [|slot]; [reflexivity|]. exfalso.
      do 5 (destruct slot as [|slot]; [vm_compute in Hv; discriminate|]). lia. }
    rewrite Hu, Hkb, Hused. repeat split; reflexivity.
Defined.

(** ** Slots and pending key codes go together *)

Lemma slots_ok_setKey (keyId keyCode : Z) :
  0 <= keyId <= 255 ->
  keeps (fun s => buffer_ok s /\ slots_ok s) (PET.setKey keyId keyCode).
Proof.
  intros Hk s r s' (Hok & Hsl) H.
  split; [eapply (buffer_ok_setKey PET.KEY_CODES PET.KEY_CODES_SHIFT_NEEDED);
          eauto|].
  destruct Hok as (Ht & Hlen & Hu & Hd & Hkb).
  unfold PET.setKey in H. rewrite setKey_eq in H.
  destruct (keysUsed s =? 6); [inversion H; subst; exact Hsl|].
  destruct (debounce_table keyId (debounceKeys s)) as [[[|] dk]|];
    [inversion H; subst; exact Hsl | | discriminate].
  cbv zeta in H.
  destruct (find_index 6 0 (fun n => nth n (usbKeys s) 0 =? keyId));
    [inversion H; subst; exact Hsl|].
  destruct (find_index 6 0 (fun n => nth n (usbKeys s) 0 =? -1))
    as [slot|] eqn:Ef; [|inversion H; subst; exact Hsl].
  apply find_index_Some in Ef. destruct Ef as (Hslot & _).
  destruct (Z.ltb_spec keyId 0); [discriminate|].
  destruct (nth_error PET.KEY_CODES_SHIFT_NEEDED (Z.to_nat keyId))
    as [need|]; [|discriminate].
  destruct (nth_error PET.KEY_CODES (Z.to_nat keyId)) as [code|] eqn:Ec;
    [|discriminate].
  assert (Hk80 : keyId < 80).
  { eapply PET_table_lookup_inv; [| |exact Ec]; [reflexivity | lia]. }
  assert (Hcode : code <> 0).
  { apply nth_error_In in Ec.
    exact (proj1 (Forall_forall _ _) PET_KEY_CODES_nonzero code Ec). }
  inversion H; subst. intros n Hn. unfold slot_ok, install; simpl.
  destruct (Nat.eq_dec slot n) as [->|Hne].
  - right. rewrite !nth_upd_same by lia. rewrite int8_small by lia.
    split; [lia|]. destruct (keyCode =? 0) eqn:E0; simpl; [exact Hcode|].
    apply Z.eqb_neq. exact E0.
  - rewrite !nth_upd_other by exact Hne. apply Hsl. exact Hn.
Qed.

Lemma slots_ok_checkRelease (keyId : Z) :
  0 <= keyId <= 255 ->
  keeps (fun s => buffer_ok s /\ slots_ok s) (PET.checkRelease keyId).
Proof.
  intros Hk s r s' (Hok & Hsl) H.
  split; [eapply (buffer_ok_checkRelease PET.KEY_CODES_SHIFT_NEEDED); eauto|].
  destruct Hok as (Ht & Hlen & Hu & Hd & Hkb).
  unfold PET.checkRelease in H. rewrite checkRelease_eq in H.
  destruct (debounce_table keyId (debounceKeys s)) as [[[|] dk]|];
    [inversion H; subst; exact Hsl | | discriminate].
  cbv zeta in H.
  destruct (find_index 6 0 (fun n => nth n (usbKeys s) 0 =? keyId))
    as [slot|] eqn:Ef; [|inversion H; subst; exact Hsl].
  apply find_index_Some in Ef. destruct Ef as (Hslot & _).
  destruct (keyId <? 0); [discriminate|].
  destruct (nth_error PET.KEY_CODES_SHIFT_NEEDED (Z.to_nat keyId))
    as [need|]; [|discriminate].
  inversion H; subst. intros n Hn. unfold slot_ok, release; simpl.
  destruct (Nat.eq_dec slot n) as [->|Hne].
  - left. rewrite !nth_upd_same by lia. auto.
  - rewrite !nth_upd_other by exact Hne. apply Hsl. exact Hn.
Qed.

Lemma slots_ok_debounce (keyId : Z) :
  keeps (fun s => buffer_ok s /\ slots_ok s) (debounce keyId).
Proof.
  intros s0 d s1 (Hb & Hs) Hd.
  split; [eapply buffer_ok_debounce; eauto|].
  unfold debounce in Hd.
  destruct (debounce_table keyId (debounceKeys s0)) as [[d' dk]|];
    [|discriminate].
  inversion Hd; subst. exact Hs.
Qed.

Lemma slots_ok_call (c : pet_call) (s s' : state) :
  call_ok c -> buffer_ok s /\ slots_ok s -> run_call c s = Some s' ->
  buffer_ok s' /\ slots_ok s'.
Proof.
  destruct c as [k|k code|k|k level|]; simpl; intros Hc Hok H;
    refine (keeps_exec (fun s => buffer_ok s /\ slots_ok s) _ s s' _ Hok H).
  - apply slots_ok_debounce.
  - apply slots_ok_setKey; lia.
  - apply slots_ok_checkRelease; lia.
  - apply keeps_PET_parseSpecial;
      try (intros; assumption); try (intros ? ? HP; exact HP);
      try (intros ? HP; exact HP).
    + apply slots_ok_debounce.
    + intros c. apply slots_ok_setKey; lia.
    + apply slots_ok_checkRelease; lia.
  - unfold PET.sendUpdate, Keyboard_set_modifier, Keyboard_send_now.
    keeps_straight.
Qed.

Lemma reachable_slots_ok (s : state) : reachable s -> slots_ok s.
Proof.
  intros Hr. cut (buffer_ok s /\ slots_ok s); [tauto|].
  induction Hr as [|s s' c Hr IH Hc Hrun].
  - split; [apply buffer_ok_initial|]. intros n Hn. left.
    do 6 (destruct n as [|n]; [split; reflexivity|]). lia.
  - eapply slots_ok_call; eauto.
Qed.

(** X10.  In every reachable state of the PET driver the pending key codes
    go with the slots: a free slot of usbKeys has pending key code 0, and
    an occupied slot holds a key id of the matrix (0 to 79) and has a
    pending key code other than 0. *)
Theorem pet_pending_codes_match_slots (s : state) (n : nat)
  (Hr : reachable s) (Hn : (n < 6)%nat) :
  (nth n (usbKeys s) 0 = -1 /\ nth n (kbKeys s) 0 = 0) \/
  (0 <= nth n (usbKeys s) 0 < 80 /\ nth n (kbKeys s) 0 <> 0).
Proof.
  exact (reachable_slots_ok s Hr n Hn).
Qed.

Lemma pet_pending_codes_match_slots_witness :
  (nth 0 (usbKeys held5) 0 = -1 /\ nth 0 (kbKeys held5) 0 = 0) \/
  (0 <= nth 0 (usbKeys held5) 0 < 80 /\ nth 0 (kbKeys held5) 0 <> 0).
Proof.
  apply (pet_pending_codes_match_slots held5 0 reachable_held5). lia.
Defined.

(** X11.  Press and release undo each other on the report buffer of the
    PET driver: when setKey has installed a key that was not held, an
    admitted checkRelease for it, whatever the debounce table has become in
    between, gives back the slots of usbKeys, the counter and the pending
    key codes of the state before the press. *)
Theorem pet_press_release_round_trip
  (s s1 : state) (keyId keyCode : Z) (dk : list (Z * Z))
  (Hr : reachable s) (Hk : 0 <= keyId < 80) (Hnot : ~ In keyId (usbKeys s))
  (Hset : PET.setKey keyId keyCode s = Some (true, s1))
  (Ha : admits keyId (set_debounceKeys dk s1)) :
  exists s2,
    PET.checkRelease keyId (set_debounceKeys dk s1) = Some (tt, s2) /\
    usbKeys s2 = usbKeys s /\ keysUsed s2 = keysUsed s /\
    kbKeys s2 = kbKeys s.
Proof.
  pose proof (reachable_buffer_ok s Hr) as Hok.
  pose proof (reachable_slots_ok s Hr) as Hsl.
  destruct Hok as (Ht & Hlen & Hu & Hd & Hkb).
  pose proof (occupied_bounds (usbKeys s)) as Hb. rewrite Hlen in Hb.
  (* the press *)
  unfold PET.setKey in Hset. rewrite setKey_eq in Hset.
  destruct (keysUsed s =? 6); [discriminate|].
  destruct (debounce_table keyId (debounceKeys s)) as [[[|] dk1]|];
    [discriminate | | discriminate].
  cbv zeta in Hset. rewrite (not_held_find _ _ Hlen Hnot) in Hset.
  destruct (find_index 6 0 (fun n => nth n (usbKeys s) 0 =? -1))
    as [slot|] eqn:Ef; [|discriminate].
  apply find_index_Some in Ef. destruct Ef as (Hslot & Hfree & _).
  apply Z.eqb_eq in Hfree.
  destruct (keyId <? 0); [discriminate|].
  destruct (nth_error PET.KEY_CODES_SHIFT_NEEDED (Z.to_nat keyId))
    as [need|]; [|discriminate].
  destruct (nth_error PET.KEY_CODES (Z.to_nat keyId)) as [code|];
    [|discriminate].
  inversion Hset; subst s1; clear Hset.
  (* the release *)
  destruct Ha as (s3 & Ha). unfold debounce in Ha. simpl in Ha.
  destruct (debounce_table keyId dk) as [[d dk2]|] eqn:Ed; [|discriminate].
  assert (d = false) as -> by congruence.
  assert (Hfound :
    find_index 6 0
      (fun n => nth n (upd slot (int8 keyId) (usbKeys s)) 0 =? keyId) = Some slot).
  { apply find_index_first; [lia | |].
    - rewrite nth_upd_same by lia. rewrite int8_small by lia. apply Z.eqb_refl.
    - intros k Hk'. rewrite nth_upd_other by lia. apply Z.eqb_neq.
      intros Hv. apply Hnot. rewrite <- Hv. apply nth_In. lia. }
  unfold PET.checkRelease. rewrite checkRelease_eq. simpl.
  rewrite Ed. cbv zeta. simpl. rewrite Hfound.
  destruct (Z.ltb_spec keyId 0); [lia|].
  destruct (PET_table_lookup keyId Hk) as (_ & ->).
  eexists. split; [reflexivity|]. unfold release; simpl.
  rewrite !upd_upd.
  assert (Hpend : nth slot (kbKeys s) 0 = 0).
  { destruct (Hsl slot) as [(_ & H0) | (Hocc & _)]; [lia | exact H0 | lia]. }
  rewrite <- Hfree at 1. rewrite <- Hpend at 2. rewrite !upd_nth_id.
  split; [reflexivity|]. split; [|reflexivity].
  unfold uint8. rewrite (Z.mod_small (keysUsed s + 1)) by lia.
  rewrite Z.add_simpl_r. apply Z.mod_small. lia.
Qed.

Lemma pet_press_release_round_trip_witness :
  exists s1 s2,
    PET.setKey 5 0 pressing5 = Some (true, s1) /\
    PET.checkRelease 5 (set_debounceKeys ((5, 1) :: repeat (0, 0) 5) s1) = Some (tt, s2) /\
    usbKeys s2 = usbKeys pressing5 /\ keysUsed s2 = keysUsed pressing5 /\
    kbKeys s2 = kbKeys pressing5.
Proof.
  destruct (PET.setKey 5 0 pressing5) as [[r s1]|] eqn:E;
    [|vm_compute in E; discriminate].
  assert (r = true) as -> by (vm_compute in E; inversion E; reflexivity).
  destruct (pet_press_release_round_trip pressing5 s1 5 0 ((5, 1) :: repeat (0, 0) 5)
              reachable_pressing5) as (s2 & H2);
    [lia | vm_compute; intuition discriminate | exact E | |].
  - vm_compute in E. inversion E; subst s1. vm_compute. eexists. reflexivity.
  - exists s1, s2. split; [reflexivity|]. exact H2.
Defined.

(** ** Which keys parseSpecial takes *)

Lemma yields_ret {A : Type} (Q : A -> Prop) (a : A) : Q a -> yields Q (ret a).
Proof. intros H s a' s' E. inversion E; subst; exact H. Qed.

Lemma yields_bind {A B : Type} (Q : B -> Prop) (m : M A) (f : A -> M B) :
  (forall a, yields Q (f a)) -> yields Q (bind m f).
Proof.
  intros H s b s' E. unfold bind in E.
  destruct (m s) as [[a s1]|]; [|discriminate]. exact (H a s1 b s' E).
Qed.

Lemma yields_if {A : Type} (Q : A -> Prop) (b : bool) (m1 m2 : M A) :
  yields Q m1 -> yields Q m2 -> yields Q (if b then m1 else m2).
Proof. destruct b; auto. Qed.

Lemma yields_then_passing (Q : ctl -> Prop) (m : M ctl) (k : bool -> M ctl) :
  yields passing m -> Q (Returned true) -> (forall b, yields Q (k b)) ->
  yields Q (then_ m k).
Proof.
  intros Hm Ht Hk s r s' E. unfold then_, bind in E.
  destruct (m s) as [[r1 s1]|] eqn:Em; [|discriminate].
  destruct (Hm s r1 s1 Em) as [->|(b & ->)].
  - inversion E; subst; exact Ht.
  - exact (Hk b s1 r s' E).
Qed.

Lemma yields_return_if_debounce (keyId : Z) (b : bool) :
  yields passing (return_if_debounce keyId b).
Proof.
  intros s r s' E. unfold return_if_debounce, bind in E.
  destruct (debounce keyId s) as [[[|] s1]|]; inversion E; subst.
  - left; reflexivity.
  - right; eexists; reflexivity.
Qed.

Lemma yields_then_break (m : M ctl) :
  yields taken m -> yields taken (then_ m (fun b => ret (Next b))).
Proof.
  intros Hm s r s' E. unfold then_, bind in E.
  destruct (m s) as [[r1 s1]|] eqn:Em; [|discriminate].
  pose proof (Hm s r1 s1 Em) as Ht.
  destruct r1; inversion E; subst; exact Ht.
Qed.

Ltac yields_ctl :=
  repeat (cbv beta; lazymatch goal with
  | |- yields _ (return_if_debounce _ _) => apply yields_return_if_debounce
  | |- yields _ (then_ _ (fun b => ret (Next b))) => apply yields_then_break
  | |- yields _ (then_ _ _) =>
    apply yields_then_passing; [ | solve [left; reflexivity] | intros ? ]
  | |- yields _ (bind _ _) => apply yields_bind; intros ?
  | |- yields _ (if _ then _ else _) => apply yields_if
  | |- yields _ (ret _) =>
    apply yields_ret;
    solve [ left; reflexivity | right; reflexivity
          | right; eexists; reflexivity ]
  end).

(** The result of parseSpecial when the blocks the switch runs are taken. *)
Lemma yields_result (m : M ctl) :
  yields taken m ->
  yields (fun r => r = true)
    (r <- m ;; match r with Returned v => ret v | Next b => ret b end).
Proof.
  intros Hm s r s' E. unfold bind in E.
  destruct (m s) as [[r1 s1]|] eqn:Em; [|discriminate].
  destruct (Hm s r1 s1 Em) as [->| ->]; inversion E; reflexivity.
Qed.

Lemma PET_parseSpecial_other (keyId : Z) (level : bool) (s : state) :
  ~ In keyId pet_special_keys ->
  PET.parseSpecial keyId level s = Some (false, s).
Proof.
  intros Hnot. unfold PET.parseSpecial, Engine.parseSpecial, PET.cases.
  unfold bind. cbn [switch label].
  repeat match goal with
  | |- context [?a =? keyId] =>
    destruct (Z.eqb_spec a keyId);
      [exfalso; apply Hnot; subst; simpl; tauto|]
  end.
  reflexivity.
Qed.

Lemma PET_parseSpecial_special (keyId : Z) (level : bool) :
  In keyId pet_special_keys ->
  yields (fun r => r = true) (PET.parseSpecial keyId level).
Proof.
  intros Hin. unfold pet_special_keys in Hin. simpl in Hin.
  unfold PET.parseSpecial, Engine.parseSpecial. apply yields_result.
  destruct Hin as [<-|[<-|[<-|[<-|[<-|[]]]]]];
    unfold PET.cases;
    cbn [switch label run_cases body has_break Z.eqb Pos.eqb];
    unfold PET.case_64, PET.case_69, Engine.case_control,
      Engine.case_7, Engine.case_14;
    yields_ctl.
Qed.

Lemma VICE_parseSpecial_other (keyId : Z) (level : bool) (s : state) :
  ~ In keyId vice_special_keys ->
  VICE.parseSpecial keyId level s = Some (false, s).
Proof.
  intros Hnot. unfold VICE.parseSpecial, Engine.parseSpecial, VICE.cases.
  unfold bind. cbn [switch label].
  repeat match goal with
  | |- context [?a =? keyId] =>
    destruct (Z.eqb_spec a keyId);
      [exfalso; apply Hnot; subst; simpl; tauto|]
  end.
  reflexivity.
Qed.

Lemma VICE_parseSpecial_special (keyId : Z) (level : bool) :
  In keyId vice_special_keys ->
  yields (fun r => r = true) (VICE.parseSpecial keyId level).
Proof.
  intros Hin. unfold vice_special_keys in Hin. simpl in Hin.
  unfold VICE.parseSpecial, Engine.parseSpecial. apply yields_result.
  destruct Hin as [<-|[<-|[<-|[<-|[<-|[]]]]]];
    unfold VICE.cases;
    cbn [switch label run_cases body has_break Z.eqb Pos.eqb];
    unfold VICE.case_64, VICE.case_69, Engine.case_control,
      Engine.case_7, Engine.case_14;
    yields_ctl.
Qed.

Lemma CBM64_parseSpecial_other (keyId : Z) (level : bool) (s : state) :
  ~ In keyId cbm64_special_keys ->
  CBM64.parseSpecial keyId level s = Some (false, s).
Proof.
  intros Hnot. unfold CBM64.parseSpecial, CBM64.cases.
  unfold bind. cbn [switch label].
  repeat match goal with
  | |- context [?a =? keyId] =>
    destruct (Z.eqb_spec a keyId);
      [exfalso; apply Hnot; subst; simpl; tauto|]
  end.
  reflexivity.
Qed.

Lemma CBM64_parseSpecial_special (keyId : Z) (level : bool) :
  In keyId cbm64_special_keys ->
  yields (fun r => r = true) (CBM64.parseSpecial keyId level).
Proof.
  intros Hin. unfold cbm64_special_keys in Hin. simpl in Hin.
  unfold CBM64.parseSpecial. apply yields_result.
  repeat (destruct Hin as [<-|Hin];
    [ unfold CBM64.cases;
      cbn [switch label run_cases body has_break Z.eqb Pos.eqb];
      unfold CBM64.case_6, CBM64.case_7, CBM64.case_28, CBM64.case_42,
        CBM64.case_18, CBM64.case_25, CBM64.case_27, CBM64.case_34,
        CBM64.case_45, CBM64.case_50, CBM64.case_60, CBM64.case_69,
        CBM64.case_80, CBM64.modifier_case;
      yields_ctl | ]).
  contradiction.
Qed.

(** X12.  parseSpecial of the PET driver and of its VICE variant takes
    exactly the keys of its case labels: for any other key id it returns
    false and leaves the state as it is, without a debounce call; for a
    case label (64, 69, 7, 14, and 72 in the PET driver, 76 in the VICE
    variant) every defined call returns true, also when debounce has
    suppressed it. *)
Theorem parseSpecial_takes_the_case_labels (keyId : Z) (level : bool)
  (s : state) :
  (~ In keyId pet_special_keys ->
   PET.parseSpecial keyId level s = Some (false, s)) /\
  (In keyId pet_special_keys -> forall r s',
   PET.parseSpecial keyId level s = Some (r, s') -> r = true) /\
  (~ In keyId vice_special_keys ->
   VICE.parseSpecial keyId level s = Some (false, s)) /\
  (In keyId vice_special_keys -> forall r s',
   VICE.parseSpecial keyId level s = Some (r, s') -> r = true).
Proof.
  split; [apply PET_parseSpecial_other|].
  split; [intros Hin r s' H;
          exact (PET_parseSpecial_special keyId level Hin s r s' H)|].
  split; [apply VICE_parseSpecial_other|].
  intros Hin r s' H. exact (VICE_parseSpecial_special keyId level Hin s r s' H).
Qed.

Lemma parseSpecial_takes_the_case_labels_witness :
  PET.parseSpecial 72 LOW initial = Some (true, set_debounceKeys
    [(72, 2); (0, 0); (0, 0); (0, 0); (0, 0); (0, 0)] initial) /\
  VICE.parseSpecial 72 LOW initial = Some (false, initial).
Proof.
  destruct (parseSpecial_takes_the_case_labels 72 LOW initial)
    as (_ & Hpet & Hvice & _).
  split; [|apply Hvice; vm_compute; intuition discriminate].
  destruct (PET.parseSpecial 72 LOW initial) as [[r s']|] eqn:E;
    [|vm_compute in E; discriminate].
  rewrite (Hpet ltac:(vm_compute; tauto) r s' eq_refl).
  vm_compute in E. inversion E; subst. reflexivity.
Defined.

(** X13.  parseSpecial of the CBM 64 driver takes exactly the keys of its
    thirteen case labels, key 60 of the block without [break] among them:
    for any other key id it returns false and leaves the state as it is;
    for a case label every defined call returns true. *)
Theorem cbm64_parseSpecial_takes_the_case_labels (keyId : Z) (level : bool)
  (s : state) :
  (~ In keyId cbm64_special_keys ->
   CBM64.parseSpecial keyId level s = Some (false, s)) /\
  (In keyId cbm64_special_keys -> forall r s',
   CBM64.parseSpecial keyId level s = Some (r, s') -> r = true).
Proof.
  split; [apply CBM64_parseSpecial_other|].
  intros Hin r s' H. exact (CBM64_parseSpecial_special keyId level Hin s r s' H).
Qed.

Lemma cbm64_parseSpecial_takes_the_case_labels_witness :
  CBM64.parseSpecial 0 LOW initial = Some (false, initial) /\
  option_map fst (CBM64.parseSpecial 60 LOW initial) = Some true.
Proof.
  destruct (cbm64_parseSpecial_takes_the_case_labels 0 LOW initial)
    as (H0 & _).
  destruct (cbm64_parseSpecial_takes_the_case_labels 60 LOW initial)
    as (_ & H60).
  split; [apply H0; vm_compute; intuition discriminate|].
  destruct (CBM64.parseSpecial 60 LOW initial) as [[r s']|] eqn:E;
    [|vm_compute in E; discriminate].
  rewrite (H60 ltac:(vm_compute; tauto) r s' eq_refl). reflexivity.
Defined.

(** X14.  The scan of one matrix position in the PET driver: a key that is
    no case label is handed to setKey with key code 0 when its sense line
    reads LOW and to checkRelease when it reads HIGH; a case label is
    handled by parseSpecial alone and never reaches that setKey or
    checkRelease call. *)
Theorem pet_scan_dispatches_on_the_reading (sense : Z -> Z -> bool)
  (i j : Z) (s : state) :
  let keyId := PET.getKeyId i j in
  (~ In keyId pet_special_keys ->
   Engine.scanKey PET.KEY_CODES PET.KEY_CODES_SHIFT_NEEDED PET.cases
     PET.SENSE_COUNT sense i j s =
   if sense i j then PET.checkRelease keyId s
   else exec_unit (PET.setKey keyId 0) s) /\
  (In keyId pet_special_keys ->
   Engine.scanKey PET.KEY_CODES PET.KEY_CODES_SHIFT_NEEDED PET.cases
     PET.SENSE_COUNT sense i j s =
   exec_unit (PET.parseSpecial keyId (sense i j)) s).
Proof.
  cbv zeta. unfold Engine.scanKey.
  fold PET.getKeyId. fold PET.parseSpecial. fold PET.setKey.
  fold PET.checkRelease. split.
  - intros Hnot. unfold bind at 1.
    rewrite (PET_parseSpecial_other _ (sense i j) s Hnot). simpl negb. cbv iota.
    destruct (sense i j); reflexivity.
  - intros Hin. unfold bind at 1. unfold exec_unit, bind.
    destruct (PET.parseSpecial (PET.getKeyId i j) (sense i j) s)
      as [[r s']|] eqn:E; [|reflexivity].
    rewrite (PET_parseSpecial_special _ _ Hin s r s' E). reflexivity.
Qed.

(** ** The control key and the Shift latches of the PET driver *)

Lemma PET_parseSpecial_72 (level : bool) (s : state) :
  PET.parseSpecial 72 level s =
  match debounce 72 s with
  | None => None
  | Some (true, s1) => Some (true, s1)
  | Some (false, s1) =>
    Some (true, set_keyStateChange true
                  (set_modifiers
                     (if level then bit_clear (modifiers s1) MODIFIERKEY_CTRL
                      else bit_or (modifiers s1) MODIFIERKEY_CTRL) s1))
  end.
Proof.
  unfold PET.parseSpecial, Engine.parseSpecial, PET.cases.
  cbn [switch label run_cases body has_break Z.eqb Pos.eqb].
  unfold Engine.case_control, then_, return_if_debounce. unfold_m.
  destruct level; simpl;
    destruct (debounce 72 s) as [[[|] s1]|]; reflexivity.
Qed.

Lemma testbit_CTRL (n : Z) :
  0 <= n < 8 -> Z.testbit MODIFIERKEY_CTRL n = (n =? 0).
Proof.
  intros Hn.
  assert (n = 0 \/ n = 1 \/ n = 2 \/ n = 3 \/ n = 4 \/ n = 5 \/ n = 6 \/ n = 7)
    as [->|[->|[->|[->|[->|[->|[->| ->]]]]]]] by lia; reflexivity.
Qed.

Lemma testbit_SHIFT (n : Z) :
  0 <= n < 8 -> Z.testbit MODIFIERKEY_SHIFT n = (n =? 1).
Proof.
  intros Hn.
  assert (n = 0 \/ n = 1 \/ n = 2 \/ n = 3 \/ n = 4 \/ n = 5 \/ n = 6 \/ n = 7)
    as [->|[->|[->|[->|[->|[->|[->| ->]]]]]]] by lia; reflexivity.
Qed.

(** X15.  The control key of the PET driver (key 72) is level triggered:
    every reading that debounce admits sets the change flag and makes the
    Control bit of the modifiers follow the reading (set when read LOW,
    cleared when read HIGH), whatever the bit was; the other bits of the
    modifier byte and the report buffer are left as they are.  A reading
    that debounce suppresses changes the debounce table only.  In both
    cases parseSpecial returns true. *)
Theorem pet_control_key_follows_the_reading (level : bool) (s : state) :
  (admits 72 s ->
   exists s', PET.parseSpecial 72 level s = Some (true, s') /\
     keyStateChange s' = true /\
     Z.testbit (modifiers s') CTRL_BIT = pressed level /\
     (forall n, 1 <= n < 8 ->
        Z.testbit (modifiers s') n = Z.testbit (modifiers s) n) /\
     usbKeys s' = usbKeys s /\ keysUsed s' = keysUsed s /\
     kbKeys s' = kbKeys s) /\
  (forall s1, debounce 72 s = Some (true, s1) ->
   PET.parseSpecial 72 level s = Some (true, s1)).
Proof.
  rewrite PET_parseSpecial_72. split.
  - intros (s1 & Ha). rewrite Ha. eexists. split; [reflexivity|].
    unfold debounce in Ha.
    destruct (debounce_table 72 (debounceKeys s)) as [[d dk]|];
      [|discriminate].
    inversion Ha; subst. cbn [keyStateChange modifiers usbKeys keysUsed kbKeys
      set_keyStateChange set_modifiers set_debounceKeys].
    split; [reflexivity|]. unfold CTRL_BIT, pressed, LOW. split; [|split].
    + destruct level; [rewrite testbit_bit_clear | rewrite testbit_bit_or];
        try lia; rewrite testbit_CTRL by lia; simpl;
        rewrite ?andb_false_r, ?orb_true_r; reflexivity.
    + intros n Hn.
      destruct level; [rewrite testbit_bit_clear | rewrite testbit_bit_or];
        try lia; rewrite testbit_CTRL by lia;
        destruct (Z.eqb_spec n 0); try lia; simpl;
        rewrite ?andb_true_r, ?orb_false_r; reflexivity.
    + auto.
  - intros s1 Hd. rewrite Hd. reflexivity.
Qed.

Lemma pet_control_key_follows_the_reading_witness :
  exists s s',
    PET.parseSpecial 72 LOW s = Some (true, s') /\
    Z.testbit (modifiers s') CTRL_BIT = true /\ keyStateChange s' = true.
Proof.
  exists (set_debounceKeys ((72, 1) :: repeat (0, 0) 5) initial).
  destruct (pet_control_key_follows_the_reading LOW
              (set_debounceKeys ((72, 1) :: repeat (0, 0) 5) initial))
    as (H & _).
  destruct H as (s' & E & Hc & Hb & _).
  - vm_compute. eexists. reflexivity.
  - exists s'. split; [exact E|]. split; [exact Hb | exact Hc].
Defined.

Lemma PET_case_64_eq (level : bool) (s : state) :
  PET.parseSpecial 64 level s =
  if Bool.eqb (pressed level) (lShift s) then Some (true, s) else
  match debounce 64 s with
  | None => None
  | Some (true, s1) => Some (true, s1)
  | Some (false, s1) =>
    Some (true, set_keyStateChange true (set_lShift (pressed level) s1))
  end.
Proof.
  rewrite PET_parseSpecial_64.
  unfold PET.case_64, then_, return_if_debounce, pressed, LOW, HIGH.
  unfold_m. unfold debounce.
  destruct level, (lShift s) eqn:El; simpl; rewrite ?El; simpl;
    try reflexivity;
    destruct (debounce_table 64 (debounceKeys s)) as [[[|] dk]|];
    simpl; reflexivity.
Qed.

Lemma PET_case_69_eq (level : bool) (s : state) :
  PET.parseSpecial 69 level s =
  if Bool.eqb (pressed level) (rShift s) then Some (true, s) else
  match debounce 69 s with
  | None => None
  | Some (true, s1) => Some (true, s1)
  | Some (false, s1) =>
    Some (true, set_keyStateChange true (set_rShift (pressed level) s1))
  end.
Proof.
  rewrite PET_parseSpecial_69.
  unfold PET.case_69, then_, return_if_debounce, pressed, LOW, HIGH.
  unfold_m. unfold debounce.
  destruct level, (rShift s) eqn:El; simpl; rewrite ?El; simpl;
    try reflexivity;
    destruct (debounce_table 69 (debounceKeys s)) as [[[|] dk]|];
    simpl; reflexivity.
Qed.

(** X16.  The Shift latches of the PET driver are edge triggered.  A
    reading of key 64 (69) that agrees with lShift (rShift) changes
    nothing and calls debounce not at all, so a Shift key held down costs
    no debounce entry and no report.  A reading that differs and that
    debounce admits flips the latch and sets the change flag; the
    modifiers and the report buffer are left as they are, Shift being put
    into the modifiers by the composition step only. *)
Theorem pet_shift_latch_is_edge_triggered (level : bool) (s : state) :
  (pressed level = lShift s -> PET.parseSpecial 64 level s = Some (true, s)) /\
  (pressed level = rShift s -> PET.parseSpecial 69 level s = Some (true, s)) /\
  (pressed level <> lShift s -> admits 64 s ->
   exists s', PET.parseSpecial 64 level s = Some (true, s') /\
     lShift s' = pressed level /\ rShift s' = rShift s /\
     keyStateChange s' = true /\ modifiers s' = modifiers s /\
     usbKeys s' = usbKeys s /\ kbKeys s' = kbKeys s) /\
  (pressed level <> rShift s -> admits 69 s ->
   exists s', PET.parseSpecial 69 level s = Some (true, s') /\
     rShift s' = pressed level /\ lShift s' = lShift s /\
     keyStateChange s' = true /\ modifiers s' = modifiers s /\
     usbKeys s' = usbKeys s /\ kbKeys s' = kbKeys s).
Proof.
  rewrite PET_case_64_eq, PET_case_69_eq.
  split; [intros ->; rewrite Bool.eqb_reflx; reflexivity|].
  split; [intros ->; rewrite Bool.eqb_reflx; reflexivity|].
  split.
  - intros Hne (s1 & Ha).
    destruct (Bool.eqb_spec (pressed level) (lShift s)); [contradiction|].
    rewrite Ha. eexists. split; [reflexivity|].
    unfold debounce in Ha.
    destruct (debounce_table 64 (debounceKeys s)) as [[d dk]|];
      [|discriminate].
    inversion Ha; subst. simpl. auto 10.
  - intros Hne (s1 & Ha).
    destruct (Bool.eqb_spec (pressed level) (rShift s)); [contradiction|].
    rewrite Ha. eexists. split; [reflexivity|].
    unfold debounce in Ha.
    destruct (debounce_table 69 (debounceKeys s)) as [[d dk]|];
      [|discriminate].
    inversion Ha; subst. simpl. auto 10.
Qed.

Lemma pet_shift_latch_is_edge_triggered_witness :
  (exists s', PET.parseSpecial 64 LOW shift_then_cursor = Some (true, s') /\
              s' = shift_then_cursor) /\
  (exists s s', PET.parseSpecial 69 LOW s = Some (true, s') /\
                rShift s = false /\ rShift s' = true).
Proof.
  split.
  - destruct (pet_shift_latch_is_edge_triggered LOW shift_then_cursor)
      as (H & _).
    exists shift_then_cursor. split; [apply H; reflexivity | reflexivity].
  - exists (set_debounceKeys ((69, 1) :: repeat (0, 0) 5) initial).
    destruct (pet_shift_latch_is_edge_triggered LOW
                (set_debounceKeys ((69, 1) :: repeat (0, 0) 5) initial))
      as (_ & _ & _ & H).
    destruct H as (s' & E & Hr & _).
    + vm_compute. discriminate.
    + vm_compute. eexists. reflexivity.
    + exists s'. split; [exact E|]. split; [reflexivity | exact Hr].
Defined.

(** ** The composition step and Shift *)

(** X17.  The composition step of the PET driver reports Shift once.  When
    the change flag is set, sendUpdate sends one report, made of the
    modifiers (with Shift ORed in by the deferred rule) and the six pending
    key codes, clears the change flag, and leaves the Shift bit of the
    modifiers cleared and the other bits of the modifier byte and the
    report buffer as they were.  So the report after that one, when no
    Shift latch is held, carries no Shift bit, also while a key that needs
    Shift is still held. *)
Theorem pet_shift_is_reported_once (s : state)
  (Hc : keyStateChange s = true) :
  exists s',
    PET.sendUpdate s = Some (tt, s') /\
    sent s' = sent s ++ [(pet_report_modifiers s, kbKeys s)] /\
    Z.testbit (modifiers s') SHIFT_BIT = false /\
    (forall n, 0 <= n < 8 -> n <> SHIFT_BIT ->
       Z.testbit (modifiers s') n = Z.testbit (modifiers s) n) /\
    keyStateChange s' = false /\
    usbKeys s' = usbKeys s /\ keysUsed s' = keysUsed s /\
    kbKeys s' = kbKeys s /\
    (lShift s = false -> rShift s = false ->
     exists m s2,
       PET.sendUpdate (set_keyStateChange true s') = Some (tt, s2) /\
       sent s2 = sent s' ++ [(m, kbKeys s)] /\
       Z.testbit m SHIFT_BIT = false).
Proof.
  exists (pet_composed s). rewrite PET_sendUpdate_eq, Hc.
  split; [reflexivity|]. split; [reflexivity|].
  assert (Hclr : Z.testbit (modifiers (pet_composed s)) SHIFT_BIT = false).
  { unfold pet_composed, SHIFT_BIT; simpl.
    rewrite testbit_bit_clear, testbit_SHIFT by lia. simpl.
    apply andb_false_r. }
  split; [exact Hclr|]. split.
  { intros n Hn Hne. unfold pet_composed, pet_report_modifiers, SHIFT_BIT in *.
    simpl.
    rewrite testbit_bit_clear, testbit_SHIFT by lia.
    destruct (Z.eqb_spec n 1); [contradiction|]. simpl. rewrite andb_true_r.
    destruct (negb (lArrow s || rArrow s) && (lShift s || rShift s));
      [|reflexivity].
    rewrite testbit_bit_or, testbit_SHIFT by lia.
    destruct (Z.eqb_spec n 1); [contradiction|]. apply orb_false_r. }
  split; [reflexivity|]. split; [reflexivity|]. split; [reflexivity|].
  split; [reflexivity|].
  intros Hl Hr. rewrite PET_sendUpdate_eq.
  exists (modifiers (pet_composed s)). eexists.
  split; [reflexivity|]. split; [|exact Hclr].
  cbn [keyStateChange set_keyStateChange].
  unfold pet_composed at 1. cbn [sent set_modifiers set_sent].
  unfold pet_report_modifiers at 1.
  cbn [lArrow rArrow lShift rShift modifiers kbKeys set_keyStateChange
       pet_composed set_modifiers set_sent set_kbModifier].
  rewrite Hl, Hr, andb_false_r. reflexivity.
Qed.

Lemma pet_shift_is_reported_once_witness :
  exists s s',
    In 0 (usbKeys s) /\ pet_shift_needed 0 = true /\
    Z.testbit (pet_report_modifiers s) SHIFT_BIT = true /\
    PET.sendUpdate s = Some (tt, s') /\
    In 0 (usbKeys s') /\ Z.testbit (modifiers s') SHIFT_BIT = false.
Proof.
  pose (s := install 0 0 KEY_1 true initial).
  destruct (pet_shift_is_reported_once s eq_refl)
    as (s' & E & _ & Hclr & _ & _ & Hu & _).
  exists s, s'. split; [simpl; auto|]. split; [reflexivity|].
  split; [reflexivity|]. split; [exact E|].
  split; [rewrite Hu; simpl; auto | exact Hclr].
Defined.

(** ** getKeyId and the tables *)

(** X18.  getKeyId of the PET driver and of its VICE variant numbers the
    10 x 8 matrix row by row without wrapping round in [uint8_t]: the id of
    drive line i and sense line j is 8 i + j, below 80, the two lines are
    recovered from it by division and remainder, and the id reads inside
    the KEY_CODES and KEY_CODES_SHIFT_NEEDED tables of both sketches. *)
Theorem pet_getKeyId_numbers_the_matrix (i j : Z)
  (Hi : 0 <= i < 10) (Hj : 0 <= j < 8) :
  let keyId := PET.getKeyId i j in
  VICE.getKeyId i j = keyId /\
  keyId = 8 * i + j /\ 0 <= keyId < 80 /\
  keyId / 8 = i /\ keyId mod 8 = j /\
  forall s : state,
    (exists code, index PET.KEY_CODES keyId s = Some (code, s)) /\
    (exists need, index PET.KEY_CODES_SHIFT_NEEDED keyId s = Some (need, s)) /\
    (exists code, index VICE.KEY_CODES keyId s = Some (code, s)) /\
    (exists need, index VICE.KEY_CODES_SHIFT_NEEDED keyId s = Some (need, s)).
Proof.
  cbv zeta.
  assert (E : PET.getKeyId i j = i * 8 + j) by (apply PET_getKeyId_small; lia).
  assert (E' : VICE.getKeyId i j = i * 8 + j) by (apply PET_getKeyId_small; lia).
  rewrite E'. rewrite !E.
  split; [reflexivity|]. split; [lia|]. split; [lia|].
  split; [rewrite Z.div_add_l, Z.div_small by lia; lia|].
  split; [rewrite Z.add_comm, Z.mod_add, Z.mod_small by lia; lia|].
  intros s. unfold index.
  destruct (Z.ltb_spec (i * 8 + j) 0); [lia|].
  assert (Hlt : (Z.to_nat (i * 8 + j) < 80)%nat) by lia.
  repeat split.
  - destruct (nth_error PET.KEY_CODES (Z.to_nat (i * 8 + j))) eqn:En;
      [eexists; reflexivity|]. apply nth_error_None in En. simpl in En. lia.
  - destruct (nth_error PET.KEY_CODES_SHIFT_NEEDED (Z.to_nat (i * 8 + j)))
      eqn:En; [eexists; reflexivity|]. apply nth_error_None in En. simpl in En. lia.
  - destruct (nth_error VICE.KEY_CODES (Z.to_nat (i * 8 + j))) eqn:En;
      [eexists; reflexivity|]. apply nth_error_None in En. simpl in En. lia.
  - destruct (nth_error VICE.KEY_CODES_SHIFT_NEEDED (Z.to_nat (i * 8 + j)))
      eqn:En; [eexists; reflexivity|]. apply nth_error_None in En. simpl in En. lia.
Qed.

Lemma pet_getKeyId_numbers_the_matrix_witness :
  PET.getKeyId 9 7 = 79 /\ 79 / 8 = 9 /\ 79 mod 8 = 7 /\
  index PET.KEY_CODES 79 initial = Some (KEY_EQUAL, initial).
Proof.
  destruct (pet_getKeyId_numbers_the_matrix 9 7) as (_ & H & _ & Hd & Hm & Ht);
    [lia | lia |].
  cbv zeta in *. rewrite H in Hd, Hm. split; [exact H|].
  split; [exact Hd|]. split; [exact Hm|]. reflexivity.
Defined.

(** X19.  getKeyId of the CBM 64 driver numbers the 9 x 9 matrix row by
    row: the id of drive line i and sense line j is 9 i + j, below 81, the
    two lines are recovered from it by division and remainder, and the id
    reads inside the KEY_CODES and KEY_CODES_SHIFT_NEEDED tables. *)
Theorem cbm64_getKeyId_numbers_the_matrix (i j : Z)
  (Hi : 0 <= i < 9) (Hj : 0 <= j < 9) :
  let keyId := CBM64.getKeyId i j in
  keyId = 9 * i + j /\ 0 <= keyId < 81 /\
  keyId / 9 = i /\ keyId mod 9 = j /\
  forall s : state,
    (exists code, index CBM64.KEY_CODES keyId s = Some (code, s)) /\
    (exists need, index CBM64.KEY_CODES_SHIFT_NEEDED keyId s = Some (need, s)).
Proof.
  cbv zeta.
  assert (E : CBM64.getKeyId i j = i * 9 + j).
  { unfold CBM64.getKeyId, CBM64.SENSE_COUNT, uint8.
    rewrite Z.mod_small; lia. }
  rewrite E. split; [lia|]. split; [lia|].
  split; [rewrite Z.div_add_l, Z.div_small by lia; lia|].
  split; [rewrite Z.add_comm, Z.mod_add, Z.mod_small by lia; lia|].
  intros s. unfold index.
  destruct (Z.ltb_spec (i * 9 + j) 0); [lia|].
  assert (Hlt : (Z.to_nat (i * 9 + j) < 81)%nat) by lia.
  split.
  - destruct (nth_error CBM64.KEY_CODES (Z.to_nat (i * 9 + j))) eqn:E';
      [eexists; reflexivity|]. apply nth_error_None in E'. simpl in E'. lia.
  - destruct (nth_error CBM64.KEY_CODES_SHIFT_NEEDED (Z.to_nat (i * 9 + j)))
      eqn:E'; [eexists; reflexivity|]. apply nth_error_None in E'. simpl in E'. lia.
Qed.

Lemma cbm64_getKeyId_numbers_the_matrix_witness :
  CBM64.getKeyId 8 8 = 80 /\
  index CBM64.KEY_CODES 80 initial = Some (KEY_0, initial).
Proof.
  destruct (cbm64_getKeyId_numbers_the_matrix 8 8) as (H & _); [lia | lia |].
  split; [exact H | reflexivity].
Defined.

(** ** The VICE variant: Shift requirement and heartbeat *)

Lemma VICE_shift_table_zero :
  Forall (fun need => need = false) VICE.KEY_CODES_SHIFT_NEEDED.
Proof.
  unfold VICE.KEY_CODES_SHIFT_NEEDED. simpl.
  repeat (apply Forall_cons; [reflexivity|]). apply Forall_nil.
Qed.

(** X20.  In the VICE variant no key requires Shift: the
    KEY_CODES_SHIFT_NEEDED table is all 0, so setKey and checkRelease never
    change the modifiers, whatever the key and the state. *)
Theorem vice_keys_never_change_modifiers (keyId keyCode : Z) (s : state) :
  (forall r s', VICE.setKey keyId keyCode s = Some (r, s') ->
                modifiers s' = modifiers s) /\
  (forall u s', VICE.checkRelease keyId s = Some (u, s') ->
                modifiers s' = modifiers s).
Proof.
  split.
  - intros r s' H. unfold VICE.setKey in H. rewrite setKey_eq in H.
    destruct (keysUsed s =? 6); [inversion H; subst; reflexivity|].
    destruct (debounce_table keyId (debounceKeys s)) as [[[|] dk]|];
      [inversion H; subst; reflexivity | | discriminate].
    cbv zeta in H.
    destruct (find_index 6 0 (fun n => nth n (usbKeys s) 0 =? keyId));
      [inversion H; subst; reflexivity|].
    destruct (find_index 6 0 (fun n => nth n (usbKeys s) 0 =? -1));
      [|inversion H; subst; reflexivity].
    destruct (keyId <? 0); [discriminate|].
    destruct (nth_error VICE.KEY_CODES_SHIFT_NEEDED (Z.to_nat keyId))
      as [need|] eqn:En; [|discriminate].
    destruct (nth_error VICE.KEY_CODES (Z.to_nat keyId)); [|discriminate].
    apply nth_error_In in En.
    rewrite (proj1 (Forall_forall _ _) VICE_shift_table_zero need En) in H.
    inversion H; subst. reflexivity.
  - intros u s' H. unfold VICE.checkRelease in H. rewrite checkRelease_eq in H.
    destruct (debounce_table keyId (debounceKeys s)) as [[[|] dk]|];
      [inversion H; subst; reflexivity | | discriminate].
    cbv zeta in H.
    destruct (find_index 6 0 (fun n => nth n (usbKeys s) 0 =? keyId));
      [|inversion H; subst; reflexivity].
    destruct (keyId <? 0); [discriminate|].
    destruct (nth_error VICE.KEY_CODES_SHIFT_NEEDED (Z.to_nat keyId))
      as [need|] eqn:En; [|discriminate].
    apply nth_error_In in En.
    rewrite (proj1 (Forall_forall _ _) VICE_shift_table_zero need En) in H.
    inversion H; subst. reflexivity.
Qed.

Lemma vice_keys_never_change_modifiers_witness :
  exists s s', VICE.setKey 0 0 s = Some (true, s') /\
               In 0 (usbKeys s') /\ modifiers s' = modifiers s.
Proof.
  pose (s := set_debounceKeys ((0, 1) :: repeat (0, 0) 5) initial).
  destruct (VICE.setKey 0 0 s) as [[r s']|] eqn:E;
    [|vm_compute in E; discriminate].
  destruct (vice_keys_never_change_modifiers 0 0 s) as (H & _).
  exists s, s'.
  assert (r = true /\ In 0 (usbKeys s')) as (-> & Hin)
    by (vm_compute in E; inversion E; subst; simpl; auto).
  split; [exact E|]. split; [exact Hin|]. exact (H true s' E).
Defined.

(** X21.  The alt-lock heartbeat of the VICE variant keeps its interval
    across the wrap of millis().  After a call at time t1 that played the
    220 Hz tone, a call at time t2 plays the tone again exactly when the
    lock is still active and at least 1250 ms have passed, counted modulo
    2^32; otherwise it changes nothing at all. *)
Theorem vice_heartbeat_keeps_its_interval (t1 t2 : Z) (s s1 : state)
  (H1 : VICE.heartbeat t1 s = Some (tt, s1))
  (Hbeep : tones s1 = tones s ++ [(VICE.speakerPin, 220, 32)]) :
  previousMillis s1 = t1 /\ altLockActive s1 = true /\
  VICE.heartbeat t2 s1 =
  Some (tt, if VICE.interval <=? uint32 (t2 - t1)
            then set_tones (tones s1 ++ [(VICE.speakerPin, 220, 32)])
                   (set_previousMillis t2 s1)
            else s1).
Proof.
  unfold VICE.heartbeat, tone in H1. unfold_m.
  destruct (altLockActive s) eqn:Ea; simpl in H1.
  - destruct (VICE.interval <=? uint32 (t1 - previousMillis s)).
    + inversion H1; subst; clear H1. simpl.
      split; [reflexivity|]. split; [exact Ea|].
      unfold VICE.heartbeat, tone. unfold_m. simpl. rewrite Ea. simpl.
      destruct (VICE.interval <=? uint32 (t2 - t1)); reflexivity.
    + inversion H1; subst. exfalso.
      apply (f_equal (@length _)) in Hbeep. rewrite length_app in Hbeep.
      simpl in Hbeep. lia.
  - inversion H1; subst. exfalso.
    apply (f_equal (@length _)) in Hbeep. rewrite length_app in Hbeep.
    simpl in Hbeep. lia.
Qed.

Lemma vice_heartbeat_keeps_its_interval_witness :
  exists s s1,
    VICE.heartbeat 4294967196 s = Some (tt, s1) /\
    VICE.heartbeat 50 s1 = Some (tt, s1) /\
    option_map (fun r => tones (snd r)) (VICE.heartbeat 1200 s1) =
      Some (tones s1 ++ [(VICE.speakerPin, 220, 32)]).
Proof.
  pose (s := set_altLockActive true initial).
  destruct (VICE.heartbeat 4294967196 s) as [[[] s1]|] eqn:E;
    [|vm_compute in E; discriminate].
  assert (Hb : tones s1 = tones s ++ [(VICE.speakerPin, 220, 32)])
    by (vm_compute in E; inversion E; reflexivity).
  exists s, s1. split; [exact E|]. split.
  - destruct (vice_heartbeat_keeps_its_interval 4294967196 50 s s1 E Hb)
      as (_ & _ & ->). reflexivity.
  - destruct (vice_heartbeat_keeps_its_interval 4294967196 1200 s s1 E Hb)
      as (_ & _ & ->). reflexivity.
Defined.

(** ** The CBM 64 driver: the Shift requirement of setKey *)

Lemma CBM64_shift_table_values :
  Forall (fun need => need = 0 \/ need = 1) CBM64.KEY_CODES_SHIFT_NEEDED.
Proof.
  unfold CBM64.KEY_CODES_SHIFT_NEEDED.
  repeat (apply Forall_cons; [auto|]). apply Forall_nil.
Qed.

Lemma CBM64_setKey_effect (keyId keyCode : Z) (s s' : state) (r : bool) :
  CBM64.setKey keyId keyCode s = Some (r, s') ->
  serial s' = serial s /\
  (modifiers s' = modifiers s \/
   modifiers s' = bit_or (modifiers s) MODIFIERKEY_SHIFT).
Proof.
  intros H. unfold CBM64.setKey, debounce, index in H. unfold_m.
  destruct (keysUsed s =? 6); [inversion H; subst; auto|].
  destruct (debounce_table keyId (debounceKeys s)) as [[[|] dk]|];
    [inversion H; subst; auto | | discriminate].
  simpl in H.
  destruct (find_index 6 0 (fun n => nth n (usbKeys s) 0 =? keyId));
    [inversion H; subst; auto|].
  destruct (find_index 6 0 (fun n => nth n (usbKeys s) 0 =? -1))
    as [slot|] eqn:Ef; [|inversion H; subst; auto].
  apply find_index_Some in Ef. destruct Ef as (Hslot & _).
  destruct (keyId <? 0); [discriminate|].
  destruct (nth_error CBM64.KEY_CODES_SHIFT_NEEDED (Z.to_nat keyId))
    as [need|] eqn:En; [|discriminate].
  apply nth_error_In in En.
  pose proof (proj1 (Forall_forall _ _) CBM64_shift_table_values need En)
    as [-> | ->]; simpl in H;
    (destruct (nth_error CBM64.KEY_CODES (Z.to_nat keyId)) as [code|];
       [|discriminate]);
    rewrite set_key_switch_eq in H by lia;
    inversion H; subst; simpl; auto.
Qed.

(** X22.  setKey of the CBM 64 driver never takes its "ignore shift"
    branch: no entry of KEY_CODES_SHIFT_NEEDED is -1, so the call prints
    nothing on the serial console and never clears Shift; the modifiers
    are left as they are or get Shift ORed in. *)
Theorem cbm64_setKey_never_ignores_shift (keyId keyCode : Z) (s s' : state)
  (r : bool) (H : CBM64.setKey keyId keyCode s = Some (r, s')) :
  serial s' = serial s /\
  (modifiers s' = modifiers s \/
   modifiers s' = bit_or (modifiers s) MODIFIERKEY_SHIFT).
Proof.
  exact (CBM64_setKey_effect keyId keyCode s s' r H).
Qed.

Lemma cbm64_setKey_never_ignores_shift_witness :
  exists s s', CBM64.setKey 6 0 s = Some (true, s') /\
               serial s' = serial s /\
               modifiers s' = bit_or (modifiers s) MODIFIERKEY_SHIFT.
Proof.
  pose (s := set_debounceKeys ((6, 1) :: repeat (0, 0) 5) initial).
  destruct (CBM64.setKey 6 0 s) as [[r s']|] eqn:E;
    [|vm_compute in E; discriminate].
  destruct (cbm64_setKey_never_ignores_shift 6 0 s s' r E) as (Hs & _).
  exists s, s'.
  assert (r = true /\ modifiers s' = bit_or (modifiers s) MODIFIERKEY_SHIFT)
    as (-> & Hm) by (vm_compute in E; inversion E; subst; split; reflexivity).
  split; [exact E|]. split; [exact Hs | exact Hm].
Defined.

(** ** The board: setup *)

Ltac unfold_io :=
  unfold io_bind, io_ret, lift, on_board, digitalWrite, pinMode, delay,
    Serial_begin, Board.digitalRead in *.

Lemma index_in_range {A : Type} (table : list A) (i : Z) (d : A) (s : state) :
  0 <= i < Z.of_nat (length table) ->
  index table i s = Some (nth (Z.to_nat i) table d, s).
Proof.
  intros Hi. unfold index. destruct (Z.ltb_spec i 0); [lia|].
  rewrite (nth_error_nth' table d) by lia. reflexivity.
Qed.

Ltac nth_upd :=
  repeat first
    [ rewrite nth_upd_same by (rewrite ?upd_length; lia)
    | rewrite nth_upd_other by lia ].

Lemma PET_setup_eq (b : board) (s : state) :
  PETBoard.setup (b, s) =
  Some (tt,
    (set_pin_modes
       (fold_left (fun l p => upd (Z.to_nat p) (Some INPUT_PULLUP) l)
          PETBoard.SENSE_PINS
          (fold_left (fun l p => upd (Z.to_nat p) (Some OUTPUT) l)
             PETBoard.DRIVE_PINS (pin_modes b)))
       (set_pin_levels
          (fold_left (fun l p => upd (Z.to_nat p) (Some HIGH) l)
             PETBoard.DRIVE_PINS (pin_levels b)) b), s)).
Proof. reflexivity. Qed.

Lemma PET_setup_configured (b : board) (s : state) :
  board_ok b ->
  exists b', PETBoard.setup (b, s) = Some (tt, (b', s)) /\
             configured PETBoard.DRIVE_PINS PETBoard.SENSE_PINS b b' /\
             board_ok b' /\ baud b' = baud b.
Proof.
  intros (Hm & Hl). unfold CORE_NUM_TOTAL_PINS in *.
  rewrite PET_setup_eq. eexists. split; [reflexivity|].
  unfold configured, board_ok, mode_of, level_of, CORE_NUM_TOTAL_PINS.
  cbn [pin_modes pin_levels waited baud set_pin_modes set_pin_levels
       fold_left PETBoard.DRIVE_PINS PETBoard.SENSE_PINS].
  split; [|split; [rewrite !upd_length; auto | reflexivity]].
  split; [|split; [|split; [|reflexivity]]].
  - intros p Hin. simpl in Hin.
    repeat (destruct Hin as [<-|Hin]; [simpl Z.to_nat; nth_upd; auto|]).
    contradiction.
  - intros p Hin. simpl in Hin.
    repeat (destruct Hin as [<-|Hin]; [simpl Z.to_nat; nth_upd; auto|]).
    contradiction.
  - intros p Hp Hd Hs. simpl in Hd, Hs. simpl Z.to_nat. nth_upd. auto.
Qed.

Lemma VICE_setup_pins :
  Board.setup_pins VICEBoard.DRIVE_PINS VICEBoard.SENSE_PINS
    VICE.DRIVE_COUNT VICE.SENSE_COUNT = PETBoard.setup.
Proof.
  unfold PETBoard.setup, VICEBoard.DRIVE_PINS, VICEBoard.SENSE_PINS,
    PETBoard.DRIVE_PINS, PETBoard.SENSE_PINS, VICE.DRIVE_COUNT,
    VICE.SENSE_COUNT, PET.DRIVE_COUNT, PET.SENSE_COUNT.
  reflexivity.
Qed.

(** X23.  setup of the PET driver and of its VICE variant, from a board
    with all its pins, always returns, and leaves the ten drive pins (9
    down to 0) as outputs written HIGH, the eight sense pins (17 down to
    10) as inputs with pull-up, and every other pin as it was, so that no
    drive line is selected when the first scan starts.  The PET driver
    leaves the globals and the serial port alone; the VICE variant opens
    the port at 9600 and prints its one line. *)
Theorem setup_configures_the_pins (b : board) (s : state)
  (Hb : board_ok b) :
  (exists b', PETBoard.setup (b, s) = Some (tt, (b', s)) /\
     configured PETBoard.DRIVE_PINS PETBoard.SENSE_PINS b b' /\
     lines_high PETBoard.DRIVE_PINS PET.DRIVE_COUNT b' /\
     board_ok b' /\ baud b' = baud b) /\
  (exists b',
     VICEBoard.setup (b, s) =
       Some (tt, (b', set_serial (serial s ++ ["Setup Complete"%string]) s)) /\
     configured VICEBoard.DRIVE_PINS VICEBoard.SENSE_PINS b b' /\
     lines_high VICEBoard.DRIVE_PINS VICE.DRIVE_COUNT b' /\
     board_ok b' /\ baud b' = Some 9600).
Proof.
  destruct (PET_setup_configured b s Hb) as (b' & E & Hc & Hok & Hbaud).
  assert (Hhigh : lines_high PETBoard.DRIVE_PINS PET.DRIVE_COUNT b').
  { intros i Hi. destruct Hc as (Hd & _).
    apply (Hd (nth i PETBoard.DRIVE_PINS 0)). apply nth_In. exact Hi. }
  split; [exists b'; auto|].
  exists (set_baud (Some 9600) b'). split.
  - unfold VICEBoard.setup.
    rewrite VICE_setup_pins.
    unfold io_bind at 1. rewrite E. reflexivity.
  - split; [exact Hc|]. split; [exact Hhigh|]. split; [exact Hok | reflexivity].
Qed.

Lemma setup_configures_the_pins_witness :
  exists b', PETBoard.setup (power_up_board, initial) = Some (tt, (b', initial)) /\
             level_of b' 9 = Some HIGH /\ mode_of b' 17 = Some INPUT_PULLUP /\
             mode_of b' 18 = None.
Proof.
  destruct (setup_configures_the_pins power_up_board initial) as (H & _).
  - split; reflexivity.
  - destruct H as (b' & E & (Hd & Hs & Ho & _) & _).
    exists b'. split; [exact E|].
    split; [apply (Hd 9); simpl; tauto|].
    split; [apply (Hs 17); simpl; tauto|].
    destruct (Ho 18) as (-> & _); [lia | simpl; lia | simpl; lia | reflexivity].
Defined.

Lemma CBM64_setup_eq (b : board) (s : state) :
  CBM64Board.setup (b, s) =
  Some (tt,
    (set_baud (Some 9600)
      (set_pin_modes
         (fold_left (fun l p => upd (Z.to_nat p) (Some INPUT_PULLUP) l)
            (firstn 9 CBM64Board.SENSE_PINS)
            (fold_left (fun l p => upd (Z.to_nat p) (Some OUTPUT) l)
               (firstn 9 CBM64Board.DRIVE_PINS) (pin_modes b)))
         (set_pin_levels
            (fold_left (fun l p => upd (Z.to_nat p) (Some HIGH) l)
               (firstn 9 CBM64Board.DRIVE_PINS) (pin_levels b)) b)),
     set_serial (serial s ++ ["Setup Complete"%string]) s)).
Proof. reflexivity. Qed.

(** X24.  setup of the CBM 64 driver, from a board with all its pins,
    always returns, and leaves the nine drive pins (10 to 17, and 9) as
    outputs written HIGH and the nine sense pins (38 to 45, and 18) as
    inputs with pull-up; the tenth entry of each pin array, which has no
    initialiser, is never used, so pin 0 and every other pin are as they
    were.  It opens the serial port at 9600 and prints its one line. *)
Theorem cbm64_setup_configures_the_pins (b : board) (s : state)
  (Hb : board_ok b) :
  exists b',
    CBM64Board.setup (b, s) =
      Some (tt, (b', set_serial (serial s ++ ["Setup Complete"%string]) s)) /\
    configured (firstn 9 CBM64Board.DRIVE_PINS)
               (firstn 9 CBM64Board.SENSE_PINS) b b' /\
    lines_high CBM64Board.DRIVE_PINS CBM64.DRIVE_COUNT b' /\
    mode_of b' 0 = mode_of b 0 /\ level_of b' 0 = level_of b 0 /\
    board_ok b' /\ baud b' = Some 9600.
Proof.
  destruct Hb as (Hm & Hl). unfold CORE_NUM_TOTAL_PINS in *.
  rewrite CBM64_setup_eq. eexists. split; [reflexivity|].
  assert (Hc : configured (firstn 9 CBM64Board.DRIVE_PINS)
                 (firstn 9 CBM64Board.SENSE_PINS) b
    (set_baud (Some 9600)
      (set_pin_modes
         (fold_left (fun l p => upd (Z.to_nat p) (Some INPUT_PULLUP) l)
            (firstn 9 CBM64Board.SENSE_PINS)
            (fold_left (fun l p => upd (Z.to_nat p) (Some OUTPUT) l)
               (firstn 9 CBM64Board.DRIVE_PINS) (pin_modes b)))
         (set_pin_levels
            (fold_left (fun l p => upd (Z.to_nat p) (Some HIGH) l)
               (firstn 9 CBM64Board.DRIVE_PINS) (pin_levels b)) b)))).
  { unfold configured, mode_of, level_of.
    cbn [pin_modes pin_levels waited baud set_pin_modes set_pin_levels
         set_baud fold_left firstn CBM64Board.DRIVE_PINS
         CBM64Board.SENSE_PINS].
    split; [|split; [|split; [|reflexivity]]].
    - intros p Hin. simpl in Hin.
      repeat (destruct Hin as [<-|Hin]; [simpl Z.to_nat; nth_upd; auto|]).
      contradiction.
    - intros p Hin. simpl in Hin.
      repeat (destruct Hin as [<-|Hin]; [simpl Z.to_nat; nth_upd; auto|]).
      contradiction.
    - intros p Hp Hd Hs. simpl in Hd, Hs. simpl Z.to_nat. nth_upd. auto. }
  split; [exact Hc|]. destruct Hc as (Hd & Hs & Ho & _).
  split.
  { intros i Hi. apply (Hd (nth i CBM64Board.DRIVE_PINS 0)).
    unfold CBM64.DRIVE_COUNT in Hi.
    do 9 (destruct i as [|i]; [simpl; tauto|]). lia. }
  destruct (Ho 0) as (H1 & H2); [lia | simpl; lia | simpl; lia |].
  split; [exact H1|]. split; [exact H2|].
  split; [|reflexivity].
  unfold board_ok, CORE_NUM_TOTAL_PINS.
  cbn [pin_modes pin_levels set_pin_modes set_pin_levels set_baud fold_left
       firstn CBM64Board.DRIVE_PINS CBM64Board.SENSE_PINS].
  rewrite !upd_length. auto.
Qed.

Lemma cbm64_setup_configures_the_pins_witness :
  exists b' s',
    CBM64Board.setup (power_up_board, initial) = Some (tt, (b', s')) /\
    level_of b' 9 = Some HIGH /\ mode_of b' 18 = Some INPUT_PULLUP /\
    mode_of b' 0 = None /\ serial s' = ["Setup Complete"%string].
Proof.
  destruct (cbm64_setup_configures_the_pins power_up_board initial)
    as (b' & E & (Hd & Hs & _) & _ & H0 & _).
  - split; reflexivity.
  - exists b'. eexists. split; [exact E|].
    split; [apply (Hd 9); simpl; tauto|].
    split; [apply (Hs 18); simpl; tauto|].
    split; [rewrite H0; reflexivity | reflexivity].
Defined.

(** ** The board: the scan *)

Lemma io_for_loop_lift (b : board) (n : nat) (i0 : Z)
  (bodyIO : Z -> IO unit) (bodyM : Z -> M unit) :
  (forall i s, i0 <= i < i0 + Z.of_nat n ->
               bodyIO i (b, s) = lift (bodyM i) (b, s)) ->
  forall s, io_for_loop n i0 bodyIO (b, s) = lift (for_loop n i0 bodyM) (b, s).
Proof.
  revert i0; induction n as [|n IH]; intros i0 Hbody s; [reflexivity|].
  cbn [io_for_loop for_loop]. unfold io_bind at 1.
  rewrite Hbody by lia. unfold lift at 1 2, bind. cbn [fst snd].
  destruct (bodyM i0 s) as [[[] s1]|]; [|reflexivity].
  rewrite IH by (intros; apply Hbody; lia). reflexivity.
Qed.

Lemma PET_board_scanKey (read : list (option bool) -> Z -> bool)
  (sense : Z -> Z -> bool) (b : board) (i j : Z) (s : state) :
  0 <= j < 8 ->
  sense i j = read (pin_levels b) (nth (Z.to_nat j) PETBoard.SENSE_PINS 0) ->
  Board.scanKey read PETBoard.SENSE_PINS PET.getKeyId PET.parseSpecial
    PET.setKey PET.checkRelease i j (b, s) =
  lift (Engine.scanKey PET.KEY_CODES PET.KEY_CODES_SHIFT_NEEDED PET.cases
          PET.SENSE_COUNT sense i j) (b, s).
Proof.
  intros Hj Hsense. unfold Board.scanKey, Engine.scanKey.
  fold PET.getKeyId. fold PET.parseSpecial. fold PET.setKey.
  fold PET.checkRelease. cbv zeta. rewrite Hsense.
  unfold io_bind at 1. unfold lift at 1. cbn [fst snd].
  rewrite (index_in_range PETBoard.SENSE_PINS j 0) by (simpl; lia).
  unfold_io. unfold bind, ret. cbn [fst snd].
  destruct (PET.parseSpecial (PET.getKeyId i j)
              (read (pin_levels b) (nth (Z.to_nat j) PETBoard.SENSE_PINS 0)) s)
    as [[[|] s1]|]; cbn [negb fst snd]; try reflexivity.
  rewrite (index_in_range PETBoard.SENSE_PINS j 0) by (simpl; lia).
  cbn [fst snd].
  destruct (read (pin_levels b) (nth (Z.to_nat j) PETBoard.SENSE_PINS 0));
    cbn [Bool.eqb LOW fst snd].
  - destruct (PET.checkRelease (PET.getKeyId i j) s1) as [[[] s2]|];
      reflexivity.
  - destruct (PET.setKey (PET.getKeyId i j) 0 s1) as [[r s2]|]; reflexivity.
Qed.

Lemma PET_board_drive_line (read : list (option bool) -> Z -> bool)
  (b : board) (i : Z) (s : state) :
  board_ok b -> lines_high PETBoard.DRIVE_PINS PET.DRIVE_COUNT b ->
  0 <= i < 10 ->
  (drive <- lift (index PETBoard.DRIVE_PINS i) ;;
   digitalWrite drive LOW ;;
   io_for_loop PET.SENSE_COUNT 0 (fun j =>
     Board.scanKey read PETBoard.SENSE_PINS PET.getKeyId PET.parseSpecial
       PET.setKey PET.checkRelease i j) ;;
   drive' <- lift (index PETBoard.DRIVE_PINS i) ;;
   digitalWrite drive' HIGH)%io (b, s) =
  lift (for_loop PET.SENSE_COUNT 0 (fun j =>
          Engine.scanKey PET.KEY_CODES PET.KEY_CODES_SHIFT_NEEDED PET.cases
            PET.SENSE_COUNT (matrix_reading read b) i j)) (b, s).
Proof.
  intros (Hm & Hl) Hhigh Hi.
  unfold io_bind at 1. unfold lift at 1. cbn [fst snd].
  rewrite (index_in_range PETBoard.DRIVE_PINS i 0) by (simpl; lia).
  unfold io_bind at 1. unfold digitalWrite at 1, on_board. cbn [fst snd].
  unfold io_bind at 1.
  rewrite (io_for_loop_lift _ PET.SENSE_COUNT 0 _
             (fun j => Engine.scanKey PET.KEY_CODES PET.KEY_CODES_SHIFT_NEEDED
                         PET.cases PET.SENSE_COUNT (matrix_reading read b) i j)).
  2: { intros j s0 Hj. apply PET_board_scanKey; [simpl in Hj; lia|].
       reflexivity. }
  unfold lift. cbn [fst snd].
  destruct (for_loop PET.SENSE_COUNT 0 _ s) as [[[] s1]|]; [|reflexivity].
  unfold io_bind. cbn [fst snd].
  rewrite (index_in_range PETBoard.DRIVE_PINS i 0) by (simpl; lia).
  unfold digitalWrite, on_board. cbn [fst snd].
  unfold set_pin_levels at 1. cbn [pin_modes pin_levels waited baud set_pin_levels].
  rewrite upd_upd.
  assert (Hn : (Z.to_nat i < PET.DRIVE_COUNT)%nat)
    by (unfold PET.DRIVE_COUNT; lia).
  rewrite <- (Hhigh (Z.to_nat i) Hn), upd_nth_id.
  destruct b; reflexivity.
Qed.

(** X25.  The scan of the PET driver on the board selects one drive line
    at a time.  From a board whose ten drive pins are all HIGH (as setup
    leaves them), detectKeys writes LOW to one drive pin, reads the eight
    sense pins while that pin alone is LOW, writes the pin HIGH again and
    goes on to the next: it is the scan over the readings
    [matrix_reading], defined or undefined as that scan is, and it leaves
    every pin of the board as it was; so is loop, the scan followed by the
    composition step. *)
Theorem pet_detectKeys_selects_one_drive_line
  (read : list (option bool) -> Z -> bool) (b : board) (s : state)
  (Hb : board_ok b)
  (Hhigh : lines_high PETBoard.DRIVE_PINS PET.DRIVE_COUNT b) :
  PETBoard.detectKeys read (b, s) =
    match PET.detectKeys (matrix_reading read b) s with
    | Some (u, s') => Some (u, (b, s'))
    | None => None
    end /\
  PETBoard.loop read (b, s) =
    match PET.loop (matrix_reading read b) s with
    | Some (u, s') => Some (u, (b, s'))
    | None => None
    end /\
  forall i i' : nat, (i < 10)%nat -> (i' < 10)%nat ->
    nth (Z.to_nat (nth i' PETBoard.DRIVE_PINS 0))
        (selected PETBoard.DRIVE_PINS (Z.of_nat i) b) None =
    Some (if Nat.eqb i' i then LOW else HIGH).
Proof.
  assert (E : PETBoard.detectKeys read (b, s) =
              lift (PET.detectKeys (matrix_reading read b)) (b, s)).
  { unfold PETBoard.detectKeys, Board.detectKeys, PET.detectKeys,
      Engine.detectKeys.
    apply (io_for_loop_lift b PET.DRIVE_COUNT 0 _
             (fun i => for_loop PET.SENSE_COUNT 0 (fun j =>
                Engine.scanKey PET.KEY_CODES PET.KEY_CODES_SHIFT_NEEDED
                  PET.cases PET.SENSE_COUNT (matrix_reading read b) i j))).
    intros i s0 Hi. apply PET_board_drive_line; auto; simpl in Hi; lia. }
  split; [exact E|]. split.
  - unfold PETBoard.loop, PET.loop, io_bind, bind. rewrite E.
    unfold lift. cbn [fst snd].
    destruct (PET.detectKeys (matrix_reading read b) s) as [[[] s1]|];
      [|reflexivity].
    cbn [fst snd]. destruct (PET.sendUpdate s1) as [[[] s2]|]; reflexivity.
  - intros i i' Hi Hi'. unfold selected. rewrite Nat2Z.id.
    destruct Hb as (_ & Hl). unfold CORE_NUM_TOTAL_PINS in Hl.
    destruct (Nat.eqb_spec i' i) as [->|Hne].
    + apply nth_upd_same. rewrite Hl.
      do 10 (destruct i as [|i]; [simpl; lia|]). lia.
    + rewrite nth_upd_other; [apply Hhigh; exact Hi'|].
      do 10 (destruct i as [|i];
             [do 10 (destruct i' as [|i']; [simpl; lia|]); lia|]).
      lia.
Qed.

Lemma board_after_setup_ok :
  board_ok board_after_setup /\
  lines_high PETBoard.DRIVE_PINS PET.DRIVE_COUNT board_after_setup.
Proof.
  split; [split; reflexivity|].
  intros i Hi. unfold PET.DRIVE_COUNT in Hi.
  do 10 (destruct i as [|i]; [reflexivity|]). lia.
Qed.

Lemma pet_detectKeys_selects_one_drive_line_witness :
  exists s', PETBoard.detectKeys read_all_low (board_after_setup, six_held) =
             Some (tt, (board_after_setup, s')).
Proof.
  destruct board_after_setup_ok as (Hb & Hhigh).
  assert (Hd : exists s',
             PET.detectKeys (matrix_reading read_all_low board_after_setup)
               six_held = Some (tt, s'))
    by (vm_compute; eexists; reflexivity).
  destruct Hd as (s' & Hd). exists s'.
  rewrite (proj1 (pet_detectKeys_selects_one_drive_line read_all_low
                    board_after_setup six_held Hb Hhigh)).
  rewrite Hd. reflexivity.
Defined.

(** ** The board: printKeyPosition *)

Lemma serial_app (s : state) (l1 l2 : list string) :
  set_serial (serial (set_serial (serial s ++ l1) s) ++ l2)
    (set_serial (serial s ++ l1) s) =
  set_serial (serial s ++ l1 ++ l2) s.
Proof. cbn [serial set_serial]. rewrite app_assoc. reflexivity. Qed.

Lemma serial_nil (s : state) : set_serial (serial s ++ []) s = s.
Proof. rewrite app_nil_r. destruct s; reflexivity. Qed.

Lemma PET_print_row (read : list (option bool) -> Z -> bool)
  (b : board) (i : Z) (f : nat -> list string) (n j0 : nat) (s : state) :
  (j0 + n <= 8)%nat ->
  (forall j, (j < 8)%nat ->
     f j = if Bool.eqb (read (pin_levels b)
                          (nth j PETBoard.SENSE_PINS 0)) LOW
           then [String.concat "" (PETBoard.key_line i (Z.of_nat j))]
           else []) ->
  io_for_loop n (Z.of_nat j0) (fun j =>
    pin <- lift (index PETBoard.SENSE_PINS j) ;;
    level <- Board.digitalRead read pin ;;
    if Bool.eqb level LOW
    then lift (Serial_print_line (PETBoard.key_line i j))
    else io_ret tt)%io (b, s) =
  Some (tt, (b, set_serial (serial s ++ flat_map f (seq j0 n)) s)).
Proof.
  intros Hn Hf. revert j0 s Hn; induction n as [|n IH]; intros j0 s Hn.
  - cbn [io_for_loop seq flat_map]. rewrite serial_nil. reflexivity.
  - cbn [io_for_loop seq flat_map]. unfold io_bind at 1.
    unfold io_bind at 1. unfold lift at 1. cbn [fst snd].
    rewrite (index_in_range PETBoard.SENSE_PINS (Z.of_nat j0) 0)
      by (simpl; lia).
    unfold io_bind at 1. unfold Board.digitalRead at 1. cbn [fst snd].
    rewrite Nat2Z.id. rewrite (Hf j0) by lia.
    replace (Z.of_nat j0 + 1) with (Z.of_nat (S j0)) by lia.
    destruct (Bool.eqb (read (pin_levels b) (nth j0 PETBoard.SENSE_PINS 0)) LOW).
    + unfold lift, Serial_print_line, Serial_println, modify. cbn [fst snd].
      rewrite IH by lia. rewrite serial_app. reflexivity.
    + unfold io_ret. rewrite IH by lia. reflexivity.
Qed.

Lemma board_restore (b : board) (levels : list (option bool)) (w : Z) :
  set_pin_levels (pin_levels b) (set_waited w (set_pin_levels levels b)) =
  set_waited w b.
Proof. reflexivity. Qed.

Lemma row_lines_waited (read : list (option bool) -> Z -> bool) (b : board)
  (w : Z) :
  row_lines read (set_waited w b) = row_lines read b.
Proof. reflexivity. Qed.

Lemma PET_print_sweep (read : list (option bool) -> Z -> bool)
  (n i0 : nat) (b : board) (s : state) :
  board_ok b -> lines_high PETBoard.DRIVE_PINS PET.DRIVE_COUNT b ->
  (i0 + n <= 10)%nat ->
  io_for_loop n (Z.of_nat i0) (fun i =>
    drive <- lift (index PETBoard.DRIVE_PINS i) ;;
    digitalWrite drive LOW ;;
    delay 10 ;;
    io_for_loop PET.SENSE_COUNT 0 (fun j =>
      pin <- lift (index PETBoard.SENSE_PINS j) ;;
      level <- Board.digitalRead read pin ;;
      if Bool.eqb level LOW
      then lift (Serial_print_line (PETBoard.key_line i j))
      else io_ret tt) ;;
    drive' <- lift (index PETBoard.DRIVE_PINS i) ;;
    digitalWrite drive' HIGH)%io (b, s) =
  Some (tt, (set_waited (waited b + 10 * Z.of_nat n) b,
             set_serial (serial s ++ flat_map (row_lines read b) (seq i0 n)) s)).
Proof.
  revert i0 b s; induction n as [|n IH]; intros i0 b s Hb Hhigh Hn.
  - cbn [io_for_loop seq flat_map]. rewrite serial_nil.
    replace (waited b + 10 * Z.of_nat 0) with (waited b) by lia.
    destruct b; reflexivity.
  - cbn [io_for_loop seq flat_map]. unfold io_bind at 1.
    unfold io_bind at 1. unfold lift at 1. cbn [fst snd].
    rewrite (index_in_range PETBoard.DRIVE_PINS (Z.of_nat i0) 0)
      by (simpl; lia).
    unfold io_bind at 1. unfold digitalWrite at 1, on_board. cbn [fst snd].
    unfold io_bind at 1. unfold delay at 1, on_board. cbn [fst snd].
    unfold io_bind at 1.
    rewrite (PET_print_row read _ (Z.of_nat i0)
               (fun j =>
                  if Bool.eqb (matrix_reading read b (Z.of_nat i0) (Z.of_nat j)) LOW
                  then [String.concat "" (PETBoard.key_line (Z.of_nat i0) (Z.of_nat j))]
                  else []) PET.SENSE_COUNT 0 s).
    2: { unfold PET.SENSE_COUNT; lia. }
    2: { intros j Hj. unfold matrix_reading, selected.
         rewrite !Nat2Z.id. reflexivity. }
    unfold io_bind at 1. unfold lift at 1. cbn [fst snd].
    rewrite (index_in_range PETBoard.DRIVE_PINS (Z.of_nat i0) 0)
      by (simpl; lia).
    unfold digitalWrite at 1, on_board. cbn [fst snd].
    cbn [pin_modes pin_levels waited baud set_pin_levels set_waited].
    rewrite upd_upd.
    assert (Hi : (Z.to_nat (Z.of_nat i0) < PET.DRIVE_COUNT)%nat)
      by (unfold PET.DRIVE_COUNT; lia).
    rewrite <- (Hhigh _ Hi), upd_nth_id.
    rewrite board_restore.
    replace (Z.of_nat i0 + 1) with (Z.of_nat (S i0)) by lia.
    rewrite IH; [| exact Hb | exact Hhigh | lia].
    rewrite serial_app, row_lines_waited.
    cbn [waited set_waited pin_modes pin_levels baud].
    replace (waited b + 10 + 10 * Z.of_nat n)
      with (waited b + 10 * Z.of_nat (S n)) by lia.
    reflexivity.
Qed.

(** X26.  printKeyPosition of the PET driver, from a board whose drive pins
    are all HIGH, always returns, and prints one console line for each key
    it reads LOW, drive line by drive line and sense line by sense line:
    the drive line counted from 1, the letter A to H of the sense line and
    the key id.  It selects one drive line at a time, waits 10 ms on each,
    100 ms in all, and leaves the pins, the globals other than the console
    and the Keyboard object as they were. *)
Theorem pet_printKeyPosition_lists_the_keys_read_low
  (read : list (option bool) -> Z -> bool) (b : board) (s : state)
  (Hb : board_ok b)
  (Hhigh : lines_high PETBoard.DRIVE_PINS PET.DRIVE_COUNT b) :
  PETBoard.printKeyPosition read (b, s) =
  Some (tt, (set_waited (waited b + 100) b,
             set_serial (serial s ++ key_lines read b) s)).
Proof.
  assert (Hn : (0 + PET.DRIVE_COUNT <= 10)%nat)
    by (unfold PET.DRIVE_COUNT; lia).
  exact (PET_print_sweep read PET.DRIVE_COUNT 0 b s Hb Hhigh Hn).
Qed.

Lemma pet_printKeyPosition_lists_the_keys_read_low_witness :
  option_map (fun r => serial (snd (snd r)))
    (PETBoard.printKeyPosition read_key0 (board_after_setup, initial)) =
  Some ["i: 1 ,k: A ,keyId: 0"%string].
Proof.
  destruct board_after_setup_ok as (Hb & Hhigh).
  rewrite (pet_printKeyPosition_lists_the_keys_read_low read_key0
             board_after_setup initial Hb Hhigh).
  reflexivity.
Defined.

(** ** The VICE variant: the two Shift bits of the report *)

Ltac closed_bits :=
  repeat first [ rewrite testbit_bit_or by lia
               | rewrite testbit_bit_clear by lia
               | rewrite testbit_bit_xor by lia ];
  repeat match goal with
  | |- context [Z.testbit ?c ?n] =>
    lazymatch c with
    | MODIFIERKEY_SHIFT => idtac
    | MODIFIERKEY_CTRL => idtac
    | MODIFIERKEY_LEFT_SHIFT => idtac
    | MODIFIERKEY_RIGHT_SHIFT => idtac
    | MODIFIERKEY_LEFT_ALT => idtac
    | MODIFIERKEY_RIGHT_ALT => idtac
    end;
    let v := eval vm_compute in (Z.testbit c n) in
    change (Z.testbit c n) with v
  end.

(** X27.  The report of the VICE variant tells the two Shift keys apart.
    When the change flag is set and no cursor flag is, the one report of
    the composition step carries the right Shift bit when the right Shift
    latch is held, also when both latches are, and the left Shift bit when
    the left latch is held alone; after the report both bits are cleared
    in the modifiers. *)
Theorem vice_report_tells_the_shift_keys_apart (s : state)
  (Hc : keyStateChange s = true)
  (Hla : lArrow s = false) (Hra : rArrow s = false) :
  exists m s',
    VICE.sendUpdate s = Some (tt, s') /\
    sent s' = sent s ++ [(m, kbKeys s)] /\
    Z.testbit m RIGHT_SHIFT_BIT =
      rShift s || Z.testbit (modifiers s) RIGHT_SHIFT_BIT /\
    Z.testbit m LEFT_SHIFT_BIT =
      (lShift s && negb (rShift s)) || Z.testbit (modifiers s) LEFT_SHIFT_BIT /\
    Z.testbit (modifiers s') RIGHT_SHIFT_BIT = false /\
    Z.testbit (modifiers s') LEFT_SHIFT_BIT = false.
Proof.
  exists (vice_report_modifiers s), (vice_composed s).
  rewrite VICE_sendUpdate_eq, Hc. split; [reflexivity|].
  split; [reflexivity|].
  unfold vice_composed, vice_report_modifiers, RIGHT_SHIFT_BIT, LEFT_SHIFT_BIT.
  cbn [modifiers set_modifiers set_sent set_kbModifier set_keyStateChange
       set_rAlt set_tones set_altLockActive set_lAlt].
  rewrite Hla, Hra. cbn [orb negb andb].
  destruct (lShift s), (rShift s), (lAlt s), (rAlt s); cbn [orb negb andb];
    closed_bits; cbn [orb negb andb xorb];
    rewrite ?orb_false_r, ?andb_true_r, ?andb_false_r, ?xorb_false_r,
      ?orb_true_r; repeat split; reflexivity.
Qed.

Lemma vice_report_tells_the_shift_keys_apart_witness :
  exists s m s',
    lShift s = true /\ rShift s = true /\
    VICE.sendUpdate s = Some (tt, s') /\
    sent s' = [(m, kbKeys s)] /\
    Z.testbit m RIGHT_SHIFT_BIT = true /\ Z.testbit m LEFT_SHIFT_BIT = false.
Proof.
  pose (s := set_keyStateChange true (set_rShift true (set_lShift true initial))).
  destruct (vice_report_tells_the_shift_keys_apart s)
    as (m & s' & E & Hs & Hr & Hl & _); try reflexivity.
  exists s, m, s'. repeat split; try reflexivity; auto.
Defined.

(** ** The CBM 64 driver: the colon key *)

Lemma CBM64_parseSpecial_50_pressed (s : state) :
  lShift s = false -> rShift s = false ->
  CBM64.parseSpecial 50 LOW s =
  match CBM64.setKey 50 KEY_SEMICOLON
          (set_modifiers (bit_or (modifiers s) MODIFIERKEY_SHIFT)
             (set_serial (serial s ++ ["parseSpecial> :"%string]) s)) with
  | Some (_, s') => Some (true, s')
  | None => None
  end.
Proof.
  intros Hl Hr. unfold CBM64.parseSpecial, CBM64.cases.
  cbn [switch label run_cases body has_break Z.eqb Pos.eqb].
  unfold CBM64.case_50, then_, Serial_println. unfold_m.
  cbn [Bool.eqb LOW lShift rShift set_serial]. rewrite Hl, Hr.
  cbn [orb modifiers set_serial].
  match goal with
  | |- context [CBM64.setKey 50 KEY_SEMICOLON ?st] =>
    destruct (CBM64.setKey 50 KEY_SEMICOLON st) as [[r s']|]
  end; reflexivity.
Qed.

(** X28.  The colon key of the CBM 64 driver (key 50) read LOW with no
    Shift latch held puts Shift into the modifiers before it calls setKey,
    and setKey never takes it out: after every defined call the Shift bit
    is set, also when debounce has suppressed the key or the report buffer
    is full and no slot was taken.  The call prints its one console line
    and returns true. *)
Theorem cbm64_colon_sets_shift_before_setKey (s s' : state) (r : bool)
  (Hl : lShift s = false) (Hr : rShift s = false)
  (H : CBM64.parseSpecial 50 LOW s = Some (r, s')) :
  r = true /\
  Z.testbit (modifiers s') SHIFT_BIT = true /\
  serial s' = serial s ++ ["parseSpecial> :"%string].
Proof.
  rewrite (CBM64_parseSpecial_50_pressed s Hl Hr) in H.
  match type of H with
  | context [CBM64.setKey 50 KEY_SEMICOLON ?st] =>
    destruct (CBM64.setKey 50 KEY_SEMICOLON st) as [[r1 s1]|] eqn:E;
      [|discriminate];
    destruct (CBM64_setKey_effect _ _ _ _ _ E) as (Hs & Hm)
  end.
  inversion H; subst. split; [reflexivity|].
  cbn [serial modifiers set_modifiers set_serial] in Hs, Hm.
  split; [|exact Hs]. unfold SHIFT_BIT.
  destruct Hm as [-> | ->]; closed_bits; rewrite ?orb_true_r; reflexivity.
Qed.

Lemma cbm64_colon_sets_shift_before_setKey_witness :
  exists s',
    CBM64.parseSpecial 50 LOW initial = Some (true, s') /\
    usbKeys s' = usbKeys initial /\ keyStateChange s' = false /\
    Z.testbit (modifiers s') SHIFT_BIT = true.
Proof.
  destruct (CBM64.parseSpecial 50 LOW initial) as [[r s']|] eqn:E;
    [|vm_compute in E; discriminate].
  destruct (cbm64_colon_sets_shift_before_setKey initial s' r eq_refl eq_refl E)
    as (-> & Hb & _).
  exists s'. split; [reflexivity|].
  split; [vm_compute in E; inversion E; reflexivity|].
  split; [vm_compute in E; inversion E; reflexivity | exact Hb].
Defined.

(** ** The functions of [Sketch] *)

(** At [debounce] the functions of [Sketch] are those of the sketches. *)
Lemma Sketch_PET_loop_debounce : Sketch.PET_loop debounce = PET.loop.
Proof. reflexivity. Qed.

Lemma Sketch_VICE_loop_debounce : Sketch.VICE_loop debounce = VICE.loop.
Proof. reflexivity. Qed.

Lemma Sketch_PET_parseSpecial_debounce :
  Sketch.PET_parseSpecial debounce = PET.parseSpecial.
Proof. reflexivity. Qed.

Lemma Sketch_VICE_parseSpecial_debounce :
  Sketch.VICE_parseSpecial debounce = VICE.parseSpecial.
Proof. reflexivity. Qed.

(** [debounce_or] is debounce wherever debounce returns, and has a value
    everywhere. *)
Lemma debounce_or_refines (fallback : Z -> state -> bool) (keyId : Z) :
  refines (debounce keyId) (debounce_or fallback keyId).
Proof.
  intros s r. unfold debounce, debounce_or.
  destruct (debounce_table keyId (debounceKeys s)) as [[d dk]|];
    [auto | discriminate].
Qed.

Lemma debounce_or_cases (fallback : Z -> state -> bool) (keyId : Z) (s : state) :
  exists d dk, debounce_or fallback keyId s = Some (d, set_debounceKeys dk s).
Proof.
  unfold debounce_or.
  destruct (debounce_table keyId (debounceKeys s)) as [[d dk]|].
  - exists d, dk. reflexivity.
  - exists (fallback keyId s), (debounceKeys s). destruct s; reflexivity.
Qed.

(** *** Computations with a result in every state *)

Lemma total_ret {A : Type} (a : A) : total (ret a).
Proof. intros s. exists a, s. reflexivity. Qed.

Lemma total_get {A : Type} (f : state -> A) : total (get f).
Proof. intros s. exists (f s), s. reflexivity. Qed.

Lemma total_modify (f : state -> state) : total (modify f).
Proof. intros s. exists tt, (f s). reflexivity. Qed.

Lemma total_bind {A B : Type} (m : M A) (f : A -> M B) :
  total m -> (forall a, total (f a)) -> total (bind m f).
Proof.
  intros Hm Hf s. destruct (Hm s) as (a & s1 & E).
  unfold bind. rewrite E. apply Hf.
Qed.

Lemma total_if {A : Type} (b : bool) (m1 m2 : M A) :
  total m1 -> total m2 -> total (if b then m1 else m2).
Proof. destruct b; auto. Qed.

Lemma total_then_ (m : M ctl) (k : bool -> M ctl) :
  total m -> (forall b, total (k b)) -> total (then_ m k).
Proof.
  intros Hm Hk. unfold then_. apply total_bind; auto.
  intros [v|b]; auto using total_ret.
Qed.

Lemma total_index {A : Type} (t : list A) (k : Z) :
  0 <= k < Z.of_nat (length t) -> total (index t k).
Proof.
  intros H. unfold index.
  destruct (Z.ltb_spec k 0); [lia|].
  destruct (nth_error t (Z.to_nat k)) eqn:E; [apply total_ret|].
  apply nth_error_None in E. lia.
Qed.

Lemma total_for_loop (n : nat) (i : Z) (body : Z -> M unit) :
  (forall j, i <= j < i + Z.of_nat n -> total (body j)) ->
  total (for_loop n i body).
Proof.
  revert i; induction n as [|n IH]; intros i H; simpl.
  - apply total_ret.
  - apply total_bind; [apply H; lia|]. intros _. apply IH. intros; apply H; lia.
Qed.

Lemma total_set_key_switch (n : nat) (c : Z) : total (set_key_switch n c).
Proof.
  unfold set_key_switch.
  do 7 (destruct n as [|n]; [first [apply total_ret | apply total_modify]|]).
  apply total_ret.
Qed.

Lemma total_run_cases (cs : list case_block) (keyId : Z) (level isSpecial : bool) :
  (forall c b, In c cs -> total (body c keyId level b)) ->
  total (run_cases cs keyId level isSpecial).
Proof.
  revert isSpecial; induction cs as [|c rest IH]; intros b H; simpl.
  - apply total_ret.
  - apply total_then_; [apply H; simpl; auto|].
    intros b'. apply total_if; [apply total_ret|]. apply IH.
    intros; apply H; simpl; auto.
Qed.

Lemma total_switch (cs : list case_block) (keyId : Z) (level isSpecial : bool) :
  (forall c b, In c cs -> total (body c keyId level b)) ->
  total (switch cs keyId level isSpecial).
Proof.
  induction cs as [|c rest IH]; intros H.
  - apply total_ret.
  - change (total (if label c =? keyId
                   then run_cases (c :: rest) keyId level isSpecial
                   else switch rest keyId level isSpecial)).
    apply total_if; [apply total_run_cases; auto|].
    apply IH. intros; apply H; simpl; auto.
Qed.

Lemma total_debounce_or (fallback : Z -> state -> bool) (keyId : Z) :
  total (debounce_or fallback keyId).
Proof.
  intros s. destruct (debounce_or_cases fallback keyId s) as (d & dk & E).
  eauto.
Qed.

Ltac total_go :=
  repeat lazymatch goal with
  | |- total (ret _) => apply total_ret
  | |- total (get _) => apply total_get
  | |- total (modify _) => apply total_modify
  | |- total (bind _ _) => apply total_bind; [|intros ?]
  | |- total (then_ _ _) => apply total_then_; [|intros ?]
  | |- total (match find_index ?a ?b ?c with Some _ => _ | None => _ end) =>
      destruct (find_index a b c)
  | |- total (if _ then _ else _) => apply total_if
  | |- total (set_key_switch _ _) => apply total_set_key_switch
  | |- total (let _ := _ in _) => cbv zeta
  end.

Section SketchTotal.

Variable D : Z -> M bool.
Hypothesis D_total : forall keyId, total (D keyId).

Lemma total_return_if_debounce (keyId : Z) (b : bool) :
  total (Sketch.return_if_debounce D keyId b).
Proof. unfold Sketch.return_if_debounce. total_go. apply D_total. Qed.

Lemma total_checkRelease (S : list bool) (keyId : Z) :
  0 <= keyId < Z.of_nat (length S) -> total (Sketch.checkRelease D S keyId).
Proof.
  intros H. unfold Sketch.checkRelease. total_go; try apply D_total.
  apply total_index; exact H.
Qed.

Lemma total_setKey (K : list Z) (S : list bool) (keyId keyCode : Z) :
  0 <= keyId < Z.of_nat (length K) -> 0 <= keyId < Z.of_nat (length S) ->
  total (Sketch.setKey D K S keyId keyCode).
Proof.
  intros HK HS. unfold Sketch.setKey. total_go; try apply D_total;
    apply total_index; assumption.
Qed.

Lemma total_case_control (keyId : Z) (level b : bool) :
  total (Sketch.case_control D keyId level b).
Proof.
  unfold Sketch.case_control. total_go; apply total_return_if_debounce.
Qed.

Lemma total_case_7 (K : list Z) (S : list bool) (keyId : Z) (level b : bool) :
  0 <= keyId < Z.of_nat (length K) -> 0 <= keyId < Z.of_nat (length S) ->
  total (Sketch.case_7 D K S keyId level b).
Proof.
  intros HK HS. unfold Sketch.case_7. total_go;
    first [apply total_setKey; assumption | apply total_checkRelease; assumption].
Qed.

Lemma total_case_14 (K : list Z) (S : list bool) (keyId : Z) (level b : bool) :
  0 <= keyId < Z.of_nat (length K) -> 0 <= keyId < Z.of_nat (length S) ->
  total (Sketch.case_14 D K S keyId level b).
Proof.
  intros HK HS. unfold Sketch.case_14. total_go;
    first [apply total_setKey; assumption | apply total_checkRelease; assumption].
Qed.

Lemma total_PET_parseSpecial (keyId : Z) (level : bool) :
  0 <= keyId < 80 -> total (Sketch.PET_parseSpecial D keyId level).
Proof.
  intros H. unfold Sketch.PET_parseSpecial, Sketch.parseSpecial.
  apply total_bind; [|intros [v|b]; apply total_ret].
  apply total_switch. intros c b Hin. simpl in Hin.
  repeat (destruct Hin as [<-|Hin]); try contradiction; simpl.
  - unfold Sketch.PET_case_64. total_go; apply total_return_if_debounce.
  - unfold Sketch.PET_case_69. total_go; apply total_return_if_debounce.
  - apply total_case_control.
  - apply total_case_7; simpl; lia.
  - apply total_case_14; simpl; lia.
Qed.

Lemma total_VICE_parseSpecial (keyId : Z) (level : bool) :
  0 <= keyId < 80 -> total (Sketch.VICE_parseSpecial D keyId level).
Proof.
  intros H. unfold Sketch.VICE_parseSpecial, Sketch.parseSpecial.
  apply total_bind; [|intros [v|b]; apply total_ret].
  apply total_switch. intros c b Hin. simpl in Hin.
  repeat (destruct Hin as [<-|Hin]); try contradiction; simpl.
  - unfold Sketch.VICE_case_64. total_go; apply total_return_if_debounce.
  - unfold Sketch.VICE_case_69. total_go; apply total_return_if_debounce.
  - apply total_case_control.
  - apply total_case_7; simpl; lia.
  - apply total_case_14; simpl; lia.
Qed.

End SketchTotal.

Lemma getKeyId_in_matrix (i j : Z) :
  0 <= i < 10 -> 0 <= j < 8 ->
  Engine.getKeyId 8 i j = i * 8 + j /\ 0 <= Engine.getKeyId 8 i j < 80.
Proof.
  intros Hi Hj. unfold Engine.getKeyId, uint8.
  rewrite Z.mod_small by lia. lia.
Qed.

Section SketchSweepTotal.

Variable D : Z -> M bool.
Hypothesis D_total : forall keyId, total (D keyId).

Lemma total_PET_scanKey (sense : Z -> Z -> bool) (i j : Z) :
  0 <= i < 10 -> 0 <= j < 8 -> total (Sketch.PET_scanKey D sense i j).
Proof.
  intros Hi Hj. destruct (getKeyId_in_matrix i j Hi Hj) as (_ & Hk).
  unfold Sketch.PET_scanKey, Sketch.scanKey. cbv zeta.
  change (Engine.getKeyId PET.SENSE_COUNT i j) with (Engine.getKeyId 8 i j).
  total_go.
  - apply (total_PET_parseSpecial D D_total); exact Hk.
  - apply total_setKey; auto; simpl; lia.
  - apply total_checkRelease; auto; simpl; lia.
Qed.

Lemma total_VICE_scanKey (sense : Z -> Z -> bool) (i j : Z) :
  0 <= i < 10 -> 0 <= j < 8 -> total (Sketch.VICE_scanKey D sense i j).
Proof.
  intros Hi Hj. destruct (getKeyId_in_matrix i j Hi Hj) as (_ & Hk).
  unfold Sketch.VICE_scanKey, Sketch.scanKey. cbv zeta.
  change (Engine.getKeyId VICE.SENSE_COUNT i j) with (Engine.getKeyId 8 i j).
  total_go.
  - apply (total_VICE_parseSpecial D D_total); exact Hk.
  - apply total_setKey; auto; simpl; lia.
  - apply total_checkRelease; auto; simpl; lia.
Qed.

Lemma total_PET_detectKeys (sense : Z -> Z -> bool) :
  total (Sketch.PET_detectKeys D sense).
Proof.
  unfold Sketch.PET_detectKeys, Sketch.detectKeys.
  apply total_for_loop. intros i Hi. apply total_for_loop. intros j Hj.
  apply total_PET_scanKey; unfold PET.DRIVE_COUNT, PET.SENSE_COUNT in *; lia.
Qed.

Lemma total_VICE_detectKeys (sense : Z -> Z -> bool) :
  total (Sketch.VICE_detectKeys D sense).
Proof.
  unfold Sketch.VICE_detectKeys, Sketch.detectKeys.
  apply total_for_loop. intros i Hi. apply total_for_loop. intros j Hj.
  apply total_VICE_scanKey; unfold VICE.DRIVE_COUNT, VICE.SENSE_COUNT in *; lia.
Qed.

End SketchSweepTotal.

(** *** Properties kept by the functions of [Sketch] *)

Ltac keeps_go :=
  repeat lazymatch goal with
  | |- keeps _ (ret _) => apply keeps_ret
  | |- keeps _ (get _) => apply keeps_get
  | |- keeps _ (modify _) => apply keeps_modify
  | |- keeps _ (bind _ _) => apply keeps_bind; [|intros ?]
  | |- keeps _ (then_ _ _) => apply keeps_then_; [|intros ?]
  | |- keeps _ (match find_index ?a ?b ?c with Some _ => _ | None => _ end) =>
      destruct (find_index a b c)
  | |- keeps _ (if _ then _ else _) => apply keeps_if
  | |- keeps _ (index _ _) => apply keeps_index
  | |- keeps _ (let _ := _ in _) => cbv zeta
  end.

Lemma keeps_debounce_or_frame (P : state -> Prop)
  (fallback : Z -> state -> bool) (keyId : Z) :
  (forall s v, P s -> P (set_debounceKeys v s)) ->
  keeps P (debounce_or fallback keyId).
Proof.
  intros Hf s r s' HP H.
  destruct (debounce_or_cases fallback keyId s) as (d & dk & E).
  rewrite E in H. inversion H; subst; auto.
Qed.

Section SketchFrame.

Variable P : state -> Prop.
Variable D : Z -> M bool.
Variable keyId : Z.
Hypothesis P_debounce : keeps P (D keyId).
Hypothesis P_usbKeys : forall s v, P s -> P (set_usbKeys v s).
Hypothesis P_keysUsed : forall s v, P s -> P (set_keysUsed v s).
Hypothesis P_or_shift : forall s,
  P s -> P (set_modifiers (bit_or (modifiers s) MODIFIERKEY_SHIFT) s).
Hypothesis P_clear_shift : forall s,
  P s -> P (set_modifiers (bit_clear (modifiers s) MODIFIERKEY_SHIFT) s).
Hypothesis P_keyStateChange : forall s, P s -> P (set_keyStateChange true s).
Hypothesis P_kbKeys : forall s v, P s -> P (set_kbKeys v s).

Lemma keeps_Sketch_checkRelease (S : list bool) :
  keeps P (Sketch.checkRelease D S keyId).
Proof.
  unfold Sketch.checkRelease. keeps_go; auto.
  apply keeps_set_key_switch; auto.
Qed.

Lemma keeps_Sketch_setKey (K : list Z) (S : list bool) (keyCode : Z) :
  keeps P (Sketch.setKey D K S keyId keyCode).
Proof.
  unfold Sketch.setKey. keeps_go; auto.
  apply keeps_set_key_switch; auto.
Qed.

End SketchFrame.

(** The case blocks and the scan of one key keep what debounce, setKey and
    checkRelease keep for the key, when the latch or the modifier bit the
    key writes is not read by the property. *)
Section SketchBlocks.

Variable P : state -> Prop.
Variable D : Z -> M bool.
Variable K : list Z.
Variable S : list bool.
Variable keyId : Z.
Hypothesis P_debounce : keeps P (D keyId).
Hypothesis P_setKey : forall c, keeps P (Sketch.setKey D K S keyId c).
Hypothesis P_checkRelease : keeps P (Sketch.checkRelease D S keyId).
Hypothesis P_keyStateChange : forall s, P s -> P (set_keyStateChange true s).

Lemma keeps_Sketch_return_if_debounce (b : bool) :
  keeps P (Sketch.return_if_debounce D keyId b).
Proof. unfold Sketch.return_if_debounce. keeps_go. exact P_debounce. Qed.

Lemma keeps_Sketch_case_control (level b : bool) :
  (forall s, P s -> P (set_modifiers (bit_or (modifiers s) MODIFIERKEY_CTRL) s)) ->
  (forall s, P s -> P (set_modifiers (bit_clear (modifiers s) MODIFIERKEY_CTRL) s)) ->
  keeps P (Sketch.case_control D keyId level b).
Proof.
  intros H1 H2. unfold Sketch.case_control. keeps_go; auto;
    apply keeps_Sketch_return_if_debounce.
Qed.

Lemma keeps_Sketch_case_7 (level b : bool) :
  (forall s v, P s -> P (set_rArrow v s)) ->
  keeps P (Sketch.case_7 D K S keyId level b).
Proof. intros H. unfold Sketch.case_7. keeps_go; auto. Qed.

Lemma keeps_Sketch_case_14 (level b : bool) :
  (forall s v, P s -> P (set_lArrow v s)) ->
  keeps P (Sketch.case_14 D K S keyId level b).
Proof. intros H. unfold Sketch.case_14. keeps_go; auto. Qed.

Lemma keeps_Sketch_PET_case_64 (level b : bool) :
  (forall s v, P s -> P (set_lShift v s)) ->
  keeps P (Sketch.PET_case_64 D keyId level b).
Proof.
  intros H. unfold Sketch.PET_case_64. keeps_go; auto;
    apply keeps_Sketch_return_if_debounce.
Qed.

Lemma keeps_Sketch_PET_case_69 (level b : bool) :
  (forall s v, P s -> P (set_rShift v s)) ->
  keeps P (Sketch.PET_case_69 D keyId level b).
Proof.
  intros H. unfold Sketch.PET_case_69. keeps_go; auto;
    apply keeps_Sketch_return_if_debounce.
Qed.

Lemma keeps_Sketch_VICE_case_64 (level b : bool) :
  (forall s v, P s -> P (set_lShift v s)) ->
  (forall s, P s -> P (set_rAlt true s)) ->
  keeps P (Sketch.VICE_case_64 D keyId level b).
Proof.
  intros H H'. unfold Sketch.VICE_case_64. keeps_go; auto;
    apply keeps_Sketch_return_if_debounce.
Qed.

Lemma keeps_Sketch_VICE_case_69 (level b : bool) :
  (forall s v, P s -> P (set_rShift v s)) ->
  (forall s, P s -> P (set_lAlt true s)) ->
  keeps P (Sketch.VICE_case_69 D keyId level b).
Proof.
  intros H H'. unfold Sketch.VICE_case_69. keeps_go; auto;
    apply keeps_Sketch_return_if_debounce.
Qed.

End SketchBlocks.

Lemma keeps_Sketch_scanKey (P : state -> Prop) (D : Z -> M bool)
  (K : list Z) (S : list bool) (cases : list case_block) (SC : nat)
  (sense : Z -> Z -> bool) (i j : Z) :
  keeps P (Sketch.setKey D K S (Engine.getKeyId SC i j) 0) ->
  keeps P (Sketch.checkRelease D S (Engine.getKeyId SC i j)) ->
  (forall level,
      keeps P (Sketch.parseSpecial cases (Engine.getKeyId SC i j) level)) ->
  keeps P (Sketch.scanKey D K S cases SC sense i j).
Proof.
  intros Hs Hc Hp. unfold Sketch.scanKey. cbv zeta. keeps_go; auto.
Qed.

(** What the scan of one key of the PET driver, or of the VICE variant,
    needs of a property: the key's own latch, flag or modifier bit is not
    read by it. *)
Section SketchScan.

Variable P : state -> Prop.
Variable D : Z -> M bool.
Variable keyId : Z.
Hypothesis P_debounce : keeps P (D keyId).
Hypothesis P_keyStateChange : forall s, P s -> P (set_keyStateChange true s).
Hypothesis P_lShift : keyId = 64 -> forall s v, P s -> P (set_lShift v s).
Hypothesis P_rShift : keyId = 69 -> forall s v, P s -> P (set_rShift v s).
Hypothesis P_rArrow : keyId = 7 -> forall s v, P s -> P (set_rArrow v s).
Hypothesis P_lArrow : keyId = 14 -> forall s v, P s -> P (set_lArrow v s).

Lemma keeps_Sketch_PET_parseSpecial (level : bool) :
  (forall c, keeps P (Sketch.PET_setKey D keyId c)) ->
  keeps P (Sketch.PET_checkRelease D keyId) ->
  (keyId = 72 -> forall s,
      P s -> P (set_modifiers (bit_or (modifiers s) MODIFIERKEY_CTRL) s)) ->
  (keyId = 72 -> forall s,
      P s -> P (set_modifiers (bit_clear (modifiers s) MODIFIERKEY_CTRL) s)) ->
  keeps P (Sketch.PET_parseSpecial D keyId level).
Proof.
  intros Hs Hc Hm Hm'.
  unfold Sketch.PET_parseSpecial, Sketch.parseSpecial.
  apply keeps_bind; [|intros [v|b]; apply keeps_ret].
  apply keeps_switch.
  - intros c Hin. simpl in Hin.
    repeat (destruct Hin as [<-|Hin]; [reflexivity|]). contradiction.
  - intros c b Hin Hlab. simpl in Hin.
    repeat (destruct Hin as [<-|Hin]; [simpl in Hlab |]); try contradiction;
      simpl.
    + apply keeps_Sketch_PET_case_64; auto.
    + apply keeps_Sketch_PET_case_69; auto.
    + apply keeps_Sketch_case_control; auto.
    + apply keeps_Sketch_case_7; auto.
    + apply keeps_Sketch_case_14; auto.
Qed.

Lemma keeps_Sketch_VICE_parseSpecial (level : bool) :
  (forall c, keeps P (Sketch.VICE_setKey D keyId c)) ->
  keeps P (Sketch.VICE_checkRelease D keyId) ->
  (keyId = 76 -> forall s,
      P s -> P (set_modifiers (bit_or (modifiers s) MODIFIERKEY_CTRL) s)) ->
  (keyId = 76 -> forall s,
      P s -> P (set_modifiers (bit_clear (modifiers s) MODIFIERKEY_CTRL) s)) ->
  (keyId = 64 -> forall s, P s -> P (set_rAlt true s)) ->
  (keyId = 69 -> forall s, P s -> P (set_lAlt true s)) ->
  keeps P (Sketch.VICE_parseSpecial D keyId level).
Proof.
  intros Hs Hc Hm Hm' Hra Hla.
  unfold Sketch.VICE_parseSpecial, Sketch.parseSpecial.
  apply keeps_bind; [|intros [v|b]; apply keeps_ret].
  apply keeps_switch.
  - intros c Hin. simpl in Hin.
    repeat (destruct Hin as [<-|Hin]; [reflexivity|]). contradiction.
  - intros c b Hin Hlab. simpl in Hin.
    repeat (destruct Hin as [<-|Hin]; [simpl in Hlab |]); try contradiction;
      simpl.
    + apply keeps_Sketch_VICE_case_64; auto.
    + apply keeps_Sketch_VICE_case_69; auto.
    + apply keeps_Sketch_case_control; auto.
    + apply keeps_Sketch_case_7; auto.
    + apply keeps_Sketch_case_14; auto.
Qed.

End SketchScan.

(** Properties that read none of the variables written by debounce, setKey
    and checkRelease: the scan of a key keeps them when the key's own
    latch, flag or modifier bit is not read either. *)
Section SketchSweepFrame.

Variable P : state -> Prop.
Variable fallback : Z -> state -> bool.
Hypothesis P_debounceKeys : forall s v, P s -> P (set_debounceKeys v s).
Hypothesis P_usbKeys : forall s v, P s -> P (set_usbKeys v s).
Hypothesis P_keysUsed : forall s v, P s -> P (set_keysUsed v s).
Hypothesis P_or_shift : forall s,
  P s -> P (set_modifiers (bit_or (modifiers s) MODIFIERKEY_SHIFT) s).
Hypothesis P_clear_shift : forall s,
  P s -> P (set_modifiers (bit_clear (modifiers s) MODIFIERKEY_SHIFT) s).
Hypothesis P_keyStateChange : forall s, P s -> P (set_keyStateChange true s).
Hypothesis P_kbKeys : forall s v, P s -> P (set_kbKeys v s).

Variable sense : Z -> Z -> bool.
Variable i j : Z.
Variable keyId : Z.
Hypothesis P_keyId : Engine.getKeyId 8 i j = keyId.
Hypothesis P_lShift : keyId = 64 -> forall s v, P s -> P (set_lShift v s).
Hypothesis P_rShift : keyId = 69 -> forall s v, P s -> P (set_rShift v s).
Hypothesis P_rArrow : keyId = 7 -> forall s v, P s -> P (set_rArrow v s).
Hypothesis P_lArrow : keyId = 14 -> forall s v, P s -> P (set_lArrow v s).

Lemma keeps_PET_scanKey_frame :
  (keyId = 72 -> forall s,
      P s -> P (set_modifiers (bit_or (modifiers s) MODIFIERKEY_CTRL) s)) ->
  (keyId = 72 -> forall s,
      P s -> P (set_modifiers (bit_clear (modifiers s) MODIFIERKEY_CTRL) s)) ->
  keeps P (Sketch.PET_scanKey (debounce_or fallback) sense i j).
Proof.
  intros Hm Hm'.
  assert (Hd : keeps P (debounce_or fallback keyId))
    by (apply keeps_debounce_or_frame; auto).
  assert (Hs : forall c, keeps P (Sketch.PET_setKey (debounce_or fallback) keyId c))
    by (intros c; apply keeps_Sketch_setKey; auto).
  assert (Hc : keeps P (Sketch.PET_checkRelease (debounce_or fallback) keyId))
    by (apply keeps_Sketch_checkRelease; auto).
  unfold Sketch.PET_scanKey.
  apply keeps_Sketch_scanKey;
    change (Engine.getKeyId PET.SENSE_COUNT i j) with (Engine.getKeyId 8 i j);
    rewrite P_keyId; [apply Hs | apply Hc | intros level].
  apply keeps_Sketch_PET_parseSpecial; auto.
Qed.

Lemma keeps_VICE_scanKey_frame :
  (keyId = 76 -> forall s,
      P s -> P (set_modifiers (bit_or (modifiers s) MODIFIERKEY_CTRL) s)) ->
  (keyId = 76 -> forall s,
      P s -> P (set_modifiers (bit_clear (modifiers s) MODIFIERKEY_CTRL) s)) ->
  (keyId = 64 -> forall s, P s -> P (set_rAlt true s)) ->
  (keyId = 69 -> forall s, P s -> P (set_lAlt true s)) ->
  keeps P (Sketch.VICE_scanKey (debounce_or fallback) sense i j).
Proof.
  intros Hm Hm' Hra Hla.
  assert (Hd : keeps P (debounce_or fallback keyId))
    by (apply keeps_debounce_or_frame; auto).
  assert (Hs : forall c, keeps P (Sketch.VICE_setKey (debounce_or fallback) keyId c))
    by (intros c; apply keeps_Sketch_setKey; auto).
  assert (Hc : keeps P (Sketch.VICE_checkRelease (debounce_or fallback) keyId))
    by (apply keeps_Sketch_checkRelease; auto).
  unfold Sketch.VICE_scanKey.
  apply keeps_Sketch_scanKey;
    change (Engine.getKeyId VICE.SENSE_COUNT i j) with (Engine.getKeyId 8 i j);
    rewrite P_keyId; [apply Hs | apply Hc | intros level].
  apply keeps_Sketch_VICE_parseSpecial; auto.
Qed.

End SketchSweepFrame.

(** *** The sweep about one key *)

Lemma for_loop_app (n m : nat) (i : Z) (body : Z -> M unit) (s : state) :
  for_loop (n + m) i body s =
  (for_loop n i body ;; for_loop m (i + Z.of_nat n) body) s.
Proof.
  revert i s; induction n as [|n IH]; intros i s.
  - simpl. unfold bind, ret. rewrite Z.add_0_r. reflexivity.
  - change (for_loop (S n + m) i body s)
      with ((body i ;; for_loop (n + m) (i + 1) body) s).
    change (for_loop (S n) i body)
      with (body i ;; for_loop n (i + 1) body).
    unfold bind.
    destruct (body i s) as [[[] s1]|]; [|reflexivity].
    rewrite IH. unfold bind.
    replace (i + 1 + Z.of_nat n) with (i + Z.of_nat (S n)) by lia.
    reflexivity.
Qed.

(** A loop about its iteration [k]. *)
Lemma for_loop_about (n k : nat) (body : Z -> M unit) (s : state) :
  (k < n)%nat ->
  for_loop n 0 body s =
  (for_loop k 0 body ;; body (Z.of_nat k) ;;
   for_loop (n - S k) (Z.of_nat k + 1) body) s.
Proof.
  intros H. replace n with (k + S (n - S k))%nat at 1 by lia.
  rewrite for_loop_app. unfold bind. simpl.
  destruct (for_loop k 0 body s) as [[[] s1]|]; reflexivity.
Qed.

Lemma sweep_about (scan : Z -> Z -> M unit) (DC SC i j : nat) (s : state) :
  (i < DC)%nat -> (j < SC)%nat ->
  for_loop DC 0 (fun i' => for_loop SC 0 (fun j' => scan i' j')) s =
  (scans_before scan SC i j ;;
   scan (Z.of_nat i) (Z.of_nat j) ;;
   scans_after scan DC SC i j) s.
Proof.
  intros Hi Hj. rewrite (for_loop_about DC i) by exact Hi.
  unfold scans_before, scans_after, bind.
  destruct (for_loop i 0 _ s) as [[[] s1]|]; [|reflexivity].
  rewrite (for_loop_about SC j) by exact Hj. unfold bind.
  destruct (for_loop j 0 _ s1) as [[[] s2]|]; [|reflexivity].
  destruct (scan (Z.of_nat i) (Z.of_nat j) s2) as [[[] s3]|]; [|reflexivity].
  destruct (for_loop (SC - S j) _ _ s3) as [[[] s4]|]; reflexivity.
Qed.

Lemma keeps_scans_before (P : state -> Prop) (scan : Z -> Z -> M unit)
  (SC i j : nat) :
  (forall i' j', 0 <= i' <= Z.of_nat i -> 0 <= j' < Z.of_nat SC ->
                 i' * Z.of_nat SC + j' < Z.of_nat i * Z.of_nat SC + Z.of_nat j ->
                 keeps P (scan i' j')) ->
  (j < SC)%nat ->
  keeps P (scans_before scan SC i j).
Proof.
  intros H Hj. unfold scans_before. apply keeps_bind; [|intros _].
  - apply keeps_for_loop. intros i' Hi'. apply keeps_for_loop. intros j' Hj'.
    apply H; nia.
  - apply keeps_for_loop. intros j' Hj'. apply H; nia.
Qed.

Lemma keeps_scans_after (P : state -> Prop) (scan : Z -> Z -> M unit)
  (DC SC i j : nat) :
  (forall i' j', Z.of_nat i <= i' < Z.of_nat DC -> 0 <= j' < Z.of_nat SC ->
                 Z.of_nat i * Z.of_nat SC + Z.of_nat j < i' * Z.of_nat SC + j' ->
                 keeps P (scan i' j')) ->
  (i < DC)%nat -> (j < SC)%nat ->
  keeps P (scans_after scan DC SC i j).
Proof.
  intros H Hi Hj. unfold scans_after. apply keeps_bind; [|intros _].
  - apply keeps_for_loop. intros j' Hj'. apply H; nia.
  - apply keeps_for_loop. intros i' Hi'. apply keeps_for_loop. intros j' Hj'.
    apply H; nia.
Qed.

Lemma total_scans_before (scan : Z -> Z -> M unit) (SC i j : nat) :
  (forall i' j', 0 <= i' <= Z.of_nat i -> 0 <= j' < Z.of_nat SC ->
                 total (scan i' j')) ->
  (j < SC)%nat ->
  total (scans_before scan SC i j).
Proof.
  intros H Hj. unfold scans_before. apply total_bind; [|intros _].
  - apply total_for_loop. intros i' Hi'. apply total_for_loop. intros j' Hj'.
    apply H; lia.
  - apply total_for_loop. intros j' Hj'. apply H; lia.
Qed.

Lemma total_scans_after (scan : Z -> Z -> M unit) (DC SC i j : nat) :
  (forall i' j', Z.of_nat i <= i' < Z.of_nat DC -> 0 <= j' < Z.of_nat SC ->
                 total (scan i' j')) ->
  (i < DC)%nat -> (j < SC)%nat ->
  total (scans_after scan DC SC i j).
Proof.
  intros H Hi Hj. unfold scans_after. apply total_bind; [|intros _].
  - apply total_for_loop. intros j' Hj'. apply H; lia.
  - apply total_for_loop. intros i' Hi'. apply total_for_loop. intros j' Hj'.
    apply H; lia.
Qed.

(** *** A cycle of the sketch as written is a cycle of [Sketch] *)

Lemma refines_refl {A : Type} (m : M A) : refines m m.
Proof. intros s r H; exact H. Qed.

Lemma refines_bind {A B : Type} (m m' : M A) (f f' : A -> M B) :
  refines m m' -> (forall a, refines (f a) (f' a)) ->
  refines (bind m f) (bind m' f').
Proof.
  intros Hm Hf s r H. unfold bind in *.
  destruct (m s) as [[a s1]|] eqn:E; [|discriminate].
  rewrite (Hm _ _ E). apply Hf; exact H.
Qed.

Lemma refines_if {A : Type} (b : bool) (m1 m1' m2 m2' : M A) :
  refines m1 m1' -> refines m2 m2' ->
  refines (if b then m1 else m2) (if b then m1' else m2').
Proof. destruct b; auto. Qed.

Lemma refines_then_ (m m' : M ctl) (k k' : bool -> M ctl) :
  refines m m' -> (forall b, refines (k b) (k' b)) ->
  refines (then_ m k) (then_ m' k').
Proof.
  intros Hm Hk. unfold then_. apply refines_bind; auto.
  intros [v|b]; auto using refines_refl.
Qed.

Lemma refines_for_loop (n : nat) (i : Z) (body body' : Z -> M unit) :
  (forall j, refines (body j) (body' j)) ->
  refines (for_loop n i body) (for_loop n i body').
Proof.
  intros H. revert i; induction n as [|n IH]; intros i; simpl.
  - apply refines_refl.
  - apply refines_bind; auto.
Qed.

(** Two lists of case blocks with the same labels and breaks. *)
Lemma refines_run_cases (cs cs' : list case_block) (keyId : Z)
  (level isSpecial : bool) :
  Forall2 (fun c c' => label c = label c' /\ has_break c = has_break c' /\
                       forall b, refines (body c keyId level b)
                                         (body c' keyId level b)) cs cs' ->
  refines (run_cases cs keyId level isSpecial)
          (run_cases cs' keyId level isSpecial).
Proof.
  intros H. revert isSpecial.
  induction H as [|c c' cs cs' (Hl & Hb & Hc) H IH]; intros b; simpl.
  - apply refines_refl.
  - apply refines_then_; [apply Hc|]. intros b'. rewrite Hb.
    apply refines_if; [apply refines_refl | apply IH].
Qed.

Lemma refines_switch (cs cs' : list case_block) (keyId : Z)
  (level isSpecial : bool) :
  Forall2 (fun c c' => label c = label c' /\ has_break c = has_break c' /\
                       forall b, refines (body c keyId level b)
                                         (body c' keyId level b)) cs cs' ->
  refines (switch cs keyId level isSpecial)
          (switch cs' keyId level isSpecial).
Proof.
  intros H.
  induction H as [|c c' cs cs' (Hl & Hb & Hc) H IH].
  - apply refines_refl.
  - change (refines
              (if label c =? keyId
               then run_cases (c :: cs) keyId level isSpecial
               else switch cs keyId level isSpecial)
              (if label c' =? keyId
               then run_cases (c' :: cs') keyId level isSpecial
               else switch cs' keyId level isSpecial)).
    rewrite <- Hl. apply refines_if; [|exact IH].
    apply refines_run_cases. constructor; auto.
Qed.

Ltac refines_go :=
  repeat lazymatch goal with
  | |- refines (bind _ _) (bind _ _) => apply refines_bind; [|intros ?]
  | |- refines (then_ _ _) (then_ _ _) => apply refines_then_; [|intros ?]
  | |- refines (match find_index ?a ?b ?c with Some _ => _ | None => _ end) _ =>
      destruct (find_index a b c)
  | |- refines (if _ then _ else _) (if _ then _ else _) => apply refines_if
  | |- refines (let _ := _ in _) _ => cbv zeta
  | |- refines (ret _) _ => apply refines_refl
  | |- refines (get _) _ => apply refines_refl
  | |- refines (modify _) _ => apply refines_refl
  | |- refines (index _ _) _ => apply refines_refl
  | |- refines (set_key_switch _ _) _ => apply refines_refl
  end.

Section SketchRefines.

Variable D D' : Z -> M bool.
Hypothesis D_refines : forall keyId, refines (D keyId) (D' keyId).

Lemma refines_return_if_debounce (keyId : Z) (b : bool) :
  refines (Sketch.return_if_debounce D keyId b)
          (Sketch.return_if_debounce D' keyId b).
Proof. unfold Sketch.return_if_debounce. refines_go. apply D_refines. Qed.

Lemma refines_checkRelease (S : list bool) (keyId : Z) :
  refines (Sketch.checkRelease D S keyId) (Sketch.checkRelease D' S keyId).
Proof. unfold Sketch.checkRelease. refines_go. apply D_refines. Qed.

Lemma refines_setKey (K : list Z) (S : list bool) (keyId keyCode : Z) :
  refines (Sketch.setKey D K S keyId keyCode)
          (Sketch.setKey D' K S keyId keyCode).
Proof. unfold Sketch.setKey. refines_go. apply D_refines. Qed.

Lemma refines_PET_cases (keyId : Z) (level : bool) :
  Forall2 (fun c c' => label c = label c' /\ has_break c = has_break c' /\
                       forall b, refines (body c keyId level b)
                                         (body c' keyId level b))
    (Sketch.PET_cases D) (Sketch.PET_cases D').
Proof.
  unfold Sketch.PET_cases.
  repeat (constructor; [split; [reflexivity|]; split; [reflexivity|]; intros b; simpl|]);
    [ unfold Sketch.PET_case_64 | unfold Sketch.PET_case_69
    | unfold Sketch.case_control | unfold Sketch.case_7 | unfold Sketch.case_14
    | constructor ];
    refines_go;
    first [ apply refines_return_if_debounce | apply refines_setKey
          | apply refines_checkRelease ].
Qed.

Lemma refines_VICE_cases (keyId : Z) (level : bool) :
  Forall2 (fun c c' => label c = label c' /\ has_break c = has_break c' /\
                       forall b, refines (body c keyId level b)
                                         (body c' keyId level b))
    (Sketch.VICE_cases D) (Sketch.VICE_cases D').
Proof.
  unfold Sketch.VICE_cases.
  repeat (constructor; [split; [reflexivity|]; split; [reflexivity|]; intros b; simpl|]);
    [ unfold Sketch.VICE_case_64 | unfold Sketch.VICE_case_69
    | unfold Sketch.case_control | unfold Sketch.case_7 | unfold Sketch.case_14
    | constructor ];
    refines_go;
    first [ apply refines_return_if_debounce | apply refines_setKey
          | apply refines_checkRelease ].
Qed.

Lemma refines_scanKey (K : list Z) (S : list bool) (cs cs' : list case_block)
  (SC : nat) (sense : Z -> Z -> bool) (i j : Z) :
  (forall keyId level,
      Forall2 (fun c c' => label c = label c' /\ has_break c = has_break c' /\
                           forall b, refines (body c keyId level b)
                                             (body c' keyId level b)) cs cs') ->
  refines (Sketch.scanKey D K S cs SC sense i j)
          (Sketch.scanKey D' K S cs' SC sense i j).
Proof.
  intros H. unfold Sketch.scanKey, Sketch.parseSpecial. cbv zeta.
  apply refines_bind.
  - apply refines_bind; [apply refines_switch; apply H|].
    intros [v|b]; apply refines_refl.
  - intros special. refines_go;
      first [apply refines_setKey | apply refines_checkRelease].
Qed.

Lemma refines_PET_loop (sense : Z -> Z -> bool) :
  refines (Sketch.PET_loop D sense) (Sketch.PET_loop D' sense).
Proof.
  unfold Sketch.PET_loop, Sketch.PET_detectKeys, Sketch.detectKeys.
  apply refines_bind; [|intros; apply refines_refl].
  apply refines_for_loop. intros i. apply refines_for_loop. intros j.
  apply refines_scanKey. apply refines_PET_cases.
Qed.

Lemma refines_VICE_loop (sense : Z -> Z -> bool) (now : Z) :
  refines (Sketch.VICE_loop D sense now) (Sketch.VICE_loop D' sense now).
Proof.
  unfold Sketch.VICE_loop, Sketch.VICE_detectKeys, Sketch.detectKeys.
  apply refines_bind; [|intros; apply refines_refl].
  apply refines_for_loop. intros i. apply refines_for_loop. intros j.
  apply refines_scanKey. apply refines_VICE_cases.
Qed.

End SketchRefines.

(** Whatever value a call of debounce that falls off its end hands back,
    a defined cycle of the sketch as written is that cycle. *)
Lemma PET_loop_refines (fallback : Z -> state -> bool) (sense : Z -> Z -> bool) :
  refines (PET.loop sense) (Sketch.PET_loop (debounce_or fallback) sense).
Proof.
  change (PET.loop sense) with (Sketch.PET_loop debounce sense).
  apply refines_PET_loop. apply debounce_or_refines.
Qed.

Lemma VICE_loop_refines (fallback : Z -> state -> bool)
  (sense : Z -> Z -> bool) (now : Z) :
  refines (VICE.loop sense now)
          (Sketch.VICE_loop (debounce_or fallback) sense now).
Proof.
  change (VICE.loop sense now) with (Sketch.VICE_loop debounce sense now).
  apply refines_VICE_loop. apply debounce_or_refines.
Qed.

(** ** The scan cycle, whatever debounce hands back at its end *)

Lemma total_PET_loop (fallback : Z -> state -> bool) (sense : Z -> Z -> bool)
  (s : state) :
  exists s1,
    Sketch.PET_detectKeys (debounce_or fallback) sense s = Some (tt, s1) /\
    Sketch.PET_loop (debounce_or fallback) sense s =
    Some (tt, if keyStateChange s1 then pet_composed s1 else s1).
Proof.
  destruct (total_PET_detectKeys _ (total_debounce_or fallback) sense s)
    as ([] & s1 & E).
  exists s1. split; [exact E|].
  unfold Sketch.PET_loop, bind. rewrite E. apply PET_sendUpdate_eq.
Qed.

Lemma total_VICE_loop (fallback : Z -> state -> bool) (sense : Z -> Z -> bool)
  (now : Z) (s : state) :
  exists s1 s2 s',
    Sketch.VICE_detectKeys (debounce_or fallback) sense s = Some (tt, s1) /\
    VICE.sendUpdate s1 = Some (tt, s2) /\
    VICE.heartbeat now s2 = Some (tt, s') /\
    Sketch.VICE_loop (debounce_or fallback) sense now s = Some (tt, s').
Proof.
  destruct (total_VICE_detectKeys _ (total_debounce_or fallback) sense s)
    as ([] & s1 & E).
  destruct (VICE_sendUpdate_sent s1) as (s2 & E2 & _).
  destruct (VICE_heartbeat_eq now s2) as (s' & E3 & _).
  exists s1, s2, s'. repeat split; auto.
  unfold Sketch.VICE_loop, bind. rewrite E, E2. exact E3.
Qed.

(** The sweep writes neither the reports nor, except with true, the change
    flag. *)
Lemma Sketch_PET_detectKeys_keeps (P : state -> Prop)
  (fallback : Z -> state -> bool) (sense : Z -> Z -> bool) :
  (forall i j, 0 <= i < 10 -> 0 <= j < 8 ->
               keeps P (Sketch.PET_scanKey (debounce_or fallback) sense i j)) ->
  keeps P (Sketch.PET_detectKeys (debounce_or fallback) sense).
Proof.
  intros H. unfold Sketch.PET_detectKeys, Sketch.detectKeys.
  apply keeps_for_loop. intros i Hi. apply keeps_for_loop. intros j Hj.
  apply H; unfold PET.DRIVE_COUNT, PET.SENSE_COUNT in *; lia.
Qed.

Lemma Sketch_VICE_detectKeys_keeps (P : state -> Prop)
  (fallback : Z -> state -> bool) (sense : Z -> Z -> bool) :
  (forall i j, 0 <= i < 10 -> 0 <= j < 8 ->
               keeps P (Sketch.VICE_scanKey (debounce_or fallback) sense i j)) ->
  keeps P (Sketch.VICE_detectKeys (debounce_or fallback) sense).
Proof.
  intros H. unfold Sketch.VICE_detectKeys, Sketch.detectKeys.
  apply keeps_for_loop. intros i Hi. apply keeps_for_loop. intros j Hj.
  apply H; unfold VICE.DRIVE_COUNT, VICE.SENSE_COUNT in *; lia.
Qed.

Lemma Sketch_PET_detectKeys_sent (fallback : Z -> state -> bool)
  (sense : Z -> Z -> bool) (s s1 : state) :
  Sketch.PET_detectKeys (debounce_or fallback) sense s = Some (tt, s1) ->
  sent s1 = sent s /\ (keyStateChange s = true -> keyStateChange s1 = true).
Proof.
  intros H. split; [|intros Hc].
  - apply (Sketch_PET_detectKeys_keeps (fun st => sent st = sent s) fallback sense)
      with (s := s) (a := tt); auto.
    intros i j _ _.
    apply keeps_PET_scanKey_frame with (keyId := Engine.getKeyId 8 i j);
      auto; intros; assumption.
  - apply (Sketch_PET_detectKeys_keeps (fun st => keyStateChange st = true)
             fallback sense) with (s := s) (a := tt); auto.
    intros i j _ _.
    apply keeps_PET_scanKey_frame with (keyId := Engine.getKeyId 8 i j);
      auto; intros; assumption.
Qed.

Lemma Sketch_VICE_detectKeys_sent (fallback : Z -> state -> bool)
  (sense : Z -> Z -> bool) (s s1 : state) :
  Sketch.VICE_detectKeys (debounce_or fallback) sense s = Some (tt, s1) ->
  sent s1 = sent s /\ (keyStateChange s = true -> keyStateChange s1 = true).
Proof.
  intros H. split; [|intros Hc].
  - apply (Sketch_VICE_detectKeys_keeps (fun st => sent st = sent s) fallback sense)
      with (s := s) (a := tt); auto.
    intros i j _ _.
    apply keeps_VICE_scanKey_frame with (keyId := Engine.getKeyId 8 i j);
      auto; intros; assumption.
  - apply (Sketch_VICE_detectKeys_keeps (fun st => keyStateChange st = true)
             fallback sense) with (s := s) (a := tt); auto.
    intros i j _ _.
    apply keeps_VICE_scanKey_frame with (keyId := Engine.getKeyId 8 i j);
      auto; intros; assumption.
Qed.

(** C5.  Every scan cycle of the PET driver and of the VICE variant has a
    result, whatever value a call of debounce that reaches the end of the
    function hands back.  The sweep transmits nothing and writes the
    change flag with true only; the cycle transmits exactly one report
    when keyStateChange is set at the end of the sweep and none otherwise,
    and leaves keyStateChange cleared, so that a report of a later cycle
    needs the flag to be set again during that cycle.  A cycle of the
    sketch as written, when all its debounce calls return, is such a
    cycle. *)
Theorem loop_sends_at_most_once_on_change :
  (forall (fallback : Z -> state -> bool) (sense : Z -> Z -> bool) (s : state),
      exists s1 s',
        Sketch.PET_detectKeys (debounce_or fallback) sense s = Some (tt, s1) /\
        Sketch.PET_loop (debounce_or fallback) sense s = Some (tt, s') /\
        sent s1 = sent s /\
        (keyStateChange s = true -> keyStateChange s1 = true) /\
        keyStateChange s' = false /\
        (if keyStateChange s1
         then exists r, sent s' = sent s ++ [r]
         else sent s' = sent s)) /\
  (forall (fallback : Z -> state -> bool) (sense : Z -> Z -> bool)
          (currentMillis : Z) (s : state),
      exists s1 s',
        Sketch.VICE_detectKeys (debounce_or fallback) sense s = Some (tt, s1) /\
        Sketch.VICE_loop (debounce_or fallback) sense currentMillis s =
        Some (tt, s') /\
        sent s1 = sent s /\
        (keyStateChange s = true -> keyStateChange s1 = true) /\
        keyStateChange s' = false /\
        (if keyStateChange s1
         then exists r, sent s' = sent s ++ [r]
         else sent s' = sent s)) /\
  (forall (fallback : Z -> state -> bool) (sense : Z -> Z -> bool)
          (s s' : state),
      PET.loop sense s = Some (tt, s') ->
      Sketch.PET_loop (debounce_or fallback) sense s = Some (tt, s')) /\
  (forall (fallback : Z -> state -> bool) (sense : Z -> Z -> bool)
          (currentMillis : Z) (s s' : state),
      VICE.loop sense currentMillis s = Some (tt, s') ->
      Sketch.VICE_loop (debounce_or fallback) sense currentMillis s =
      Some (tt, s')).
Proof.
  split; [|split; [|split]].
  - intros fallback sense s.
    destruct (total_PET_loop fallback sense s) as (s1 & Hd & Hl).
    destruct (Sketch_PET_detectKeys_sent _ _ _ _ Hd) as (Hs & Hc).
    exists s1. eexists. split; [exact Hd|]. split; [exact Hl|].
    split; [exact Hs|]. split; [exact Hc|].
    destruct (keyStateChange s1) eqn:E.
    + split; [reflexivity|]. rewrite <- Hs. eexists; reflexivity.
    + split; [exact E | exact Hs].
  - intros fallback sense now s.
    destruct (total_VICE_loop fallback sense now s)
      as (s1 & s2 & s' & Hd & H2 & H3 & Hl).
    destruct (Sketch_VICE_detectKeys_sent _ _ _ _ Hd) as (Hs & Hc).
    destruct (VICE_sendUpdate_sent s1) as (s2' & H2' & Hc2 & Hsent).
    rewrite H2 in H2'. inversion H2'; subst s2'. clear H2'.
    exists s1, s'. split; [exact Hd|]. split; [exact Hl|].
    split; [exact Hs|]. split; [exact Hc|].
    apply VICE_heartbeat_sent in H3. destruct H3 as (H5 & H6).
    split; [congruence|]. rewrite H5, <- Hs. exact Hsent.
  - intros fallback sense s s'. apply PET_loop_refines.
  - intros fallback sense now s s'. apply VICE_loop_refines.
Qed.

Lemma loop_sends_at_most_once_on_change_witness :
  (exists s', Sketch.PET_loop (debounce_or suppressing) all_high initial =
              Some (tt, s') /\ sent s' = []) /\
  (exists s', Sketch.PET_loop (debounce_or suppressing) key0_low press_ready =
              Some (tt, s') /\ sent s' = [(bit_or 0 MODIFIERKEY_SHIFT, [KEY_1; 0; 0; 0; 0; 0])]) /\
  (exists s', Sketch.VICE_loop (debounce_or suppressing) all_high 0 initial =
              Some (tt, s') /\ sent s' = []) /\
  (exists s', Sketch.VICE_loop (debounce_or admitting) key6_low 0 initial =
              Some (tt, s') /\ sent s' = [(0, [KEY_HOME; 0; 0; 0; 0; 0])]).
Proof.
  destruct loop_sends_at_most_once_on_change as (HP & HV & _ & _).
  split; [|split; [|split]].
  - destruct (HP suppressing all_high initial) as (s1 & s' & Hd & Hl & _).
    exists s'. split; [exact Hl|].
    vm_compute in Hl. inversion Hl. reflexivity.
  - destruct (HP suppressing key0_low press_ready) as (s1 & s' & Hd & Hl & _).
    exists s'. split; [exact Hl|].
    vm_compute in Hl. inversion Hl. reflexivity.
  - destruct (HV suppressing all_high 0 initial) as (s1 & s' & Hd & Hl & _).
    exists s'. split; [exact Hl|].
    vm_compute in Hl. inversion Hl. reflexivity.
  - destruct (HV admitting key6_low 0 initial) as (s1 & s' & Hd & Hl & _).
    exists s'. split; [exact Hl|].
    vm_compute in Hl. inversion Hl. reflexivity.
Defined.

(** ** setKey and checkRelease of [Sketch] without the monad *)

Lemma Sketch_setKey_eq (D : Z -> M bool) (K : list Z) (S : list bool)
  (keyId keyCode : Z) (s : state) :
  Sketch.setKey D K S keyId keyCode s =
  if keysUsed s =? 6 then Some (false, s) else
  match D keyId s with
  | None => None
  | Some (true, s1) => Some (false, s1)
  | Some (false, s1) =>
    match find_index 6 0 (fun n => nth n (usbKeys s1) 0 =? keyId) with
    | Some _ => Some (true, s1)
    | None =>
      match find_index 6 0 (fun n => nth n (usbKeys s1) 0 =? -1) with
      | None => Some (false, s1)
      | Some slot =>
        if keyId <? 0 then None else
        match nth_error S (Z.to_nat keyId), nth_error K (Z.to_nat keyId) with
        | Some need, Some code =>
          Some (true, install slot keyId
                        (if negb (keyCode =? 0) then keyCode else code) need s1)
        | _, _ => None
        end
      end
    end
  end.
Proof.
  unfold Sketch.setKey, index. unfold_m.
  destruct (keysUsed s =? 6); auto.
  destruct (D keyId s) as [[[|] s1]|]; auto.
  destruct (find_index 6 0 (fun n => nth n (usbKeys s1) 0 =? keyId)); auto.
  destruct (find_index 6 0 (fun n => nth n (usbKeys s1) 0 =? -1)) as [slot|] eqn:E; auto.
  apply find_index_Some in E. destruct E as (Hslot & _).
  destruct (keyId <? 0); auto.
  destruct (nth_error S (Z.to_nat keyId)) as [need|]; auto.
  destruct (nth_error K (Z.to_nat keyId)) as [code|];
    [|destruct need; reflexivity].
  destruct need; cbv beta; rewrite set_key_switch_eq by lia; reflexivity.
Qed.

Lemma Sketch_checkRelease_eq (D : Z -> M bool) (S : list bool) (keyId : Z)
  (s : state) :
  Sketch.checkRelease D S keyId s =
  match D keyId s with
  | None => None
  | Some (true, s1) => Some (tt, s1)
  | Some (false, s1) =>
    match find_index 6 0 (fun n => nth n (usbKeys s1) 0 =? keyId) with
    | None => Some (tt, s1)
    | Some slot =>
      if keyId <? 0 then None else
      match nth_error S (Z.to_nat keyId) with
      | Some need => Some (tt, release slot need s1)
      | None => None
      end
    end
  end.
Proof.
  unfold Sketch.checkRelease, index. unfold_m.
  destruct (D keyId s) as [[[|] s1]|]; auto.
  destruct (find_index 6 0 (fun n => nth n (usbKeys s1) 0 =? keyId)) as [slot|] eqn:E; auto.
  apply find_index_Some in E. destruct E as (Hslot & _).
  destruct (keyId <? 0); auto.
  destruct (nth_error S (Z.to_nat keyId)) as [need|]; auto.
  destruct need; cbv beta; rewrite set_key_switch_eq by lia; reflexivity.
Qed.

(** Properties of the report buffer: kept by setKey and checkRelease for a
    key when kept by the allocation of a free slot and by the release of a
    slot that holds the key. *)
Section SketchBuffer.

Variable P : state -> Prop.
Variable fallback : Z -> state -> bool.
Variable keyId : Z.
Hypothesis P_debounceKeys : forall s v, P s -> P (set_debounceKeys v s).
Hypothesis P_install : forall s slot code need,
  P s -> nth slot (usbKeys s) 0 = -1 -> P (install slot keyId code need s).
Hypothesis P_release : forall s slot need,
  P s -> nth slot (usbKeys s) 0 = keyId -> P (release slot need s).

Lemma keeps_setKey_buffer (K : list Z) (S : list bool) (keyCode : Z) :
  keeps P (Sketch.setKey (debounce_or fallback) K S keyId keyCode).
Proof.
  intros s r s' HP H. rewrite Sketch_setKey_eq in H.
  destruct (keysUsed s =? 6); [inversion H; subst; auto|].
  destruct (debounce_or_cases fallback keyId s) as (d & dk & E).
  rewrite E in H. pose proof (P_debounceKeys s dk HP) as HP1.
  destruct d; [inversion H; subst; auto|].
  destruct (find_index 6 0 (fun n => nth n (usbKeys (set_debounceKeys dk s)) 0 =? keyId));
    [inversion H; subst; auto|].
  destruct (find_index 6 0 (fun n => nth n (usbKeys (set_debounceKeys dk s)) 0 =? -1))
    as [slot|] eqn:Ef; [|inversion H; subst; auto].
  apply find_index_Some in Ef. destruct Ef as (_ & Hf & _). apply Z.eqb_eq in Hf.
  destruct (keyId <? 0); [discriminate|].
  destruct (nth_error S (Z.to_nat keyId)); [|discriminate].
  destruct (nth_error K (Z.to_nat keyId)); [|discriminate].
  inversion H; subst. apply P_install; auto.
Qed.

Lemma keeps_checkRelease_buffer (S : list bool) :
  keeps P (Sketch.checkRelease (debounce_or fallback) S keyId).
Proof.
  intros s r s' HP H. rewrite Sketch_checkRelease_eq in H.
  destruct (debounce_or_cases fallback keyId s) as (d & dk & E).
  rewrite E in H. pose proof (P_debounceKeys s dk HP) as HP1.
  destruct d; [inversion H; subst; auto|].
  destruct (find_index 6 0 (fun n => nth n (usbKeys (set_debounceKeys dk s)) 0 =? keyId))
    as [slot|] eqn:Ef; [|inversion H; subst; auto].
  apply find_index_Some in Ef. destruct Ef as (_ & Hf & _). apply Z.eqb_eq in Hf.
  destruct (keyId <? 0); [discriminate|].
  destruct (nth_error S (Z.to_nat keyId)); [|discriminate].
  inversion H; subst. apply P_release; auto.
Qed.

Variable sense : Z -> Z -> bool.
Variable i j : Z.
Hypothesis P_keyId : Engine.getKeyId 8 i j = keyId.
Hypothesis P_keyStateChange : forall s, P s -> P (set_keyStateChange true s).
Hypothesis P_lShift : keyId = 64 -> forall s v, P s -> P (set_lShift v s).
Hypothesis P_rShift : keyId = 69 -> forall s v, P s -> P (set_rShift v s).
Hypothesis P_rArrow : keyId = 7 -> forall s v, P s -> P (set_rArrow v s).
Hypothesis P_lArrow : keyId = 14 -> forall s v, P s -> P (set_lArrow v s).
Hypothesis P_or_ctrl : keyId = 72 -> forall s,
  P s -> P (set_modifiers (bit_or (modifiers s) MODIFIERKEY_CTRL) s).
Hypothesis P_clear_ctrl : keyId = 72 -> forall s,
  P s -> P (set_modifiers (bit_clear (modifiers s) MODIFIERKEY_CTRL) s).

Lemma keeps_PET_scanKey_buffer :
  keeps P (Sketch.PET_scanKey (debounce_or fallback) sense i j).
Proof.
  assert (Hd : keeps P (debounce_or fallback keyId))
    by (apply keeps_debounce_or_frame; auto).
  unfold Sketch.PET_scanKey.
  apply keeps_Sketch_scanKey;
    change (Engine.getKeyId PET.SENSE_COUNT i j) with (Engine.getKeyId 8 i j);
    rewrite P_keyId;
    [apply keeps_setKey_buffer | apply keeps_checkRelease_buffer | intros level].
  apply keeps_Sketch_PET_parseSpecial; auto.
  - intros c. apply keeps_setKey_buffer.
  - apply keeps_checkRelease_buffer.
Qed.

End SketchBuffer.

(** ** A cursor key in a scan cycle *)

Lemma cursor_key_position (vertical : bool) :
  Engine.getKeyId 8 (Z.of_nat (cursor_drive vertical))
    (Z.of_nat (cursor_sense vertical)) = cursor_key vertical /\
  (cursor_drive vertical < 10)%nat /\ (cursor_sense vertical < 8)%nat /\
  Z.of_nat (cursor_drive vertical) * 8 + Z.of_nat (cursor_sense vertical) =
  cursor_key vertical.
Proof. destruct vertical; repeat split; simpl; lia. Qed.

(** A cursor key read pressed: the switch runs the cursor block alone, the
    key code handed to setKey depends on the Shift latches, and the flag is
    set whatever setKey answers. *)
Lemma Sketch_PET_parseSpecial_cursor (D : Z -> M bool) (vertical : bool)
  (s : state) :
  Sketch.PET_parseSpecial D (cursor_key vertical) LOW s =
  (Sketch.PET_setKey D (cursor_key vertical)
     (cursor_code vertical (lShift s || rShift s)) ;;
   modify (set_cursor_flag vertical true) ;; ret true) s.
Proof.
  unfold Sketch.PET_parseSpecial, Sketch.parseSpecial, bind at 1.
  destruct vertical.
  - change (switch (Sketch.PET_cases D) (cursor_key true) LOW false s)
      with (then_ (Sketch.case_14 D PET.KEY_CODES PET.KEY_CODES_SHIFT_NEEDED
                     14 LOW false) (fun b => ret (Next b)) s).
    unfold then_, Sketch.case_14, Sketch.PET_setKey, cursor_code, cursor_key,
      set_cursor_flag.
    unfold_m. simpl.
    destruct (lShift s || rShift s);
      match goal with |- context [Sketch.setKey D ?K ?S ?k ?c s] =>
        destruct (Sketch.setKey D K S k c s) as [[r s1]|] end; reflexivity.
  - change (switch (Sketch.PET_cases D) (cursor_key false) LOW false s)
      with (then_ (Sketch.case_7 D PET.KEY_CODES PET.KEY_CODES_SHIFT_NEEDED
                     7 LOW false) (fun b => ret (Next b)) s).
    unfold then_, Sketch.case_7, Sketch.PET_setKey, cursor_code, cursor_key,
      set_cursor_flag.
    unfold_m. simpl.
    destruct (lShift s || rShift s);
      match goal with |- context [Sketch.setKey D ?K ?S ?k ?c s] =>
        destruct (Sketch.setKey D K S k c s) as [[r s1]|] end; reflexivity.
Qed.

(** The scan of a cursor key that is read pressed is that call of setKey
    followed by the write of the flag. *)
Lemma Sketch_PET_scanKey_cursor (D : Z -> M bool) (sense : Z -> Z -> bool)
  (vertical : bool) (s : state) :
  sense (Z.of_nat (cursor_drive vertical)) (Z.of_nat (cursor_sense vertical)) = LOW ->
  Sketch.PET_scanKey D sense (Z.of_nat (cursor_drive vertical))
    (Z.of_nat (cursor_sense vertical)) s =
  (Sketch.PET_setKey D (cursor_key vertical)
     (cursor_code vertical (lShift s || rShift s)) ;;
   modify (set_cursor_flag vertical true)) s.
Proof.
  intros Hl. unfold Sketch.PET_scanKey, Sketch.scanKey. cbv zeta.
  rewrite Hl.
  change (Engine.getKeyId PET.SENSE_COUNT (Z.of_nat (cursor_drive vertical))
            (Z.of_nat (cursor_sense vertical)))
    with (Engine.getKeyId 8 (Z.of_nat (cursor_drive vertical))
            (Z.of_nat (cursor_sense vertical))).
  rewrite (proj1 (cursor_key_position vertical)).
  change (Sketch.parseSpecial (Sketch.PET_cases D) (cursor_key vertical) LOW)
    with (Sketch.PET_parseSpecial D (cursor_key vertical) LOW).
  unfold bind at 1. rewrite Sketch_PET_parseSpecial_cursor. unfold_m.
  destruct (Sketch.PET_setKey D (cursor_key vertical) _ s) as [[r s1]|];
    reflexivity.
Qed.

(** When setKey allocates a slot for a key that was not held, the slot
    holds the key and its pending key code is the one asked for. *)
Lemma Sketch_PET_setKey_allocates (fallback : Z -> state -> bool)
  (keyId code : Z) (s st : state) :
  length (usbKeys s) = 6%nat -> length (kbKeys s) = 6%nat ->
  -128 <= keyId <= 127 -> code <> 0 -> ~ In keyId (usbKeys s) ->
  Sketch.PET_setKey (debounce_or fallback) keyId code s = Some (true, st) ->
  exists slot, (slot < 6)%nat /\
    nth slot (usbKeys st) 0 = keyId /\ nth slot (kbKeys st) 0 = code /\
    keyStateChange st = true.
Proof.
  intros Hu Hk Hr Hcode Hnot H.
  unfold Sketch.PET_setKey in H. rewrite Sketch_setKey_eq in H.
  destruct (keysUsed s =? 6); [discriminate|].
  destruct (debounce_or_cases fallback keyId s) as (d & dk & E).
  rewrite E in H. destruct d; [discriminate|].
  change (usbKeys (set_debounceKeys dk s)) with (usbKeys s) in H.
  rewrite (not_held_find _ _ Hu Hnot) in H.
  destruct (find_index 6 0 (fun n => nth n (usbKeys s) 0 =? -1)) as [slot|] eqn:Ef;
    [|discriminate].
  apply find_index_Some in Ef. destruct Ef as (Hslot & _).
  destruct (keyId <? 0); [discriminate|].
  destruct (nth_error PET.KEY_CODES_SHIFT_NEEDED (Z.to_nat keyId)); [|discriminate].
  destruct (nth_error PET.KEY_CODES (Z.to_nat keyId)); [|discriminate].
  inversion H; subst. exists slot. unfold install; simpl.
  destruct (Z.eqb_spec code 0); [contradiction|]. simpl.
  rewrite !nth_upd_same by lia. rewrite int8_small by lia.
  repeat split; auto; lia.
Qed.

(** Allocation and release for another key leave a slot that holds a key
    as it is. *)
Lemma install_other_slot (s : state) (slot slot' : nat) (k keyId code : Z)
  (need : bool) :
  k <> -1 -> nth slot (usbKeys s) 0 = k -> nth slot' (usbKeys s) 0 = -1 ->
  nth slot (usbKeys (install slot' keyId code need s)) 0 = k /\
  nth slot (kbKeys (install slot' keyId code need s)) 0 = nth slot (kbKeys s) 0.
Proof.
  intros Hk Hs Hf. assert (slot' <> slot) by congruence.
  unfold install; simpl. rewrite !nth_upd_other by auto. auto.
Qed.

Lemma release_other_slot (s : state) (slot slot' : nat) (k keyId : Z)
  (need : bool) :
  k <> keyId -> nth slot (usbKeys s) 0 = k -> nth slot' (usbKeys s) 0 = keyId ->
  nth slot (usbKeys (release slot' need s)) 0 = k /\
  nth slot (kbKeys (release slot' need s)) 0 = nth slot (kbKeys s) 0.
Proof.
  intros Hk Hs Hf. assert (slot' <> slot) by congruence.
  unfold release; simpl. rewrite !nth_upd_other by auto. auto.
Qed.

Lemma cursor_code_nonzero (vertical shifted : bool) :
  cursor_code vertical shifted <> 0.
Proof. destruct vertical, shifted; discriminate. Qed.

(** C7, as the code has it.  Whatever value a call of debounce that falls
    off its end hands back, in a scan cycle of the PET driver in which a
    cursor key is read pressed:
    (a) the Shift latches are, when the key is scanned (state [s0]), as
    they were at the start of the cycle, and parseSpecial hands setKey
    the key code chosen by them: with a latch held, the reversed override
    code (KEY_LEFT, KEY_UP);
    (b) the cursor flag is set at the end of the sweep, so the deferred
    rule does not OR Shift into the modifiers of that cycle's report;
    (c) when that call of setKey allocates a slot for the key, which was
    not held, the cycle sends one report, with the modifiers as the sweep
    left them and with that key code in a key slot. *)
Theorem pet_cursor_key_with_shift (fallback : Z -> state -> bool)
  (sense : Z -> Z -> bool) (vertical : bool) (s : state)
  (Hcursor : sense (Z.of_nat (cursor_drive vertical))
                   (Z.of_nat (cursor_sense vertical)) = LOW)
  (Harrays : length (usbKeys s) = 6%nat /\ length (kbKeys s) = 6%nat) :
  exists s0 s1 s',
    scans_before (Sketch.PET_scanKey (debounce_or fallback) sense) 8
      (cursor_drive vertical) (cursor_sense vertical) s = Some (tt, s0) /\
    Sketch.PET_detectKeys (debounce_or fallback) sense s = Some (tt, s1) /\
    Sketch.PET_loop (debounce_or fallback) sense s = Some (tt, s') /\
    lShift s0 = lShift s /\ rShift s0 = rShift s /\
    Sketch.PET_parseSpecial (debounce_or fallback) (cursor_key vertical) LOW s0 =
      (Sketch.PET_setKey (debounce_or fallback) (cursor_key vertical)
         (cursor_code vertical (lShift s || rShift s)) ;;
       modify (set_cursor_flag vertical true) ;; ret true) s0 /\
    cursor_flag vertical s1 = true /\
    pet_report_modifiers s1 = modifiers s1 /\
    s' = (if keyStateChange s1 then pet_composed s1 else s1) /\
    forall st,
      Sketch.PET_setKey (debounce_or fallback) (cursor_key vertical)
        (cursor_code vertical (lShift s || rShift s)) s0 = Some (true, st) ->
      ~ In (cursor_key vertical) (usbKeys s0) ->
      sent s' = sent s ++ [(modifiers s1, kbKeys s1)] /\
      In (cursor_code vertical (lShift s || rShift s)) (kbKeys s1).
Proof.
  destruct Harrays as (Hu & Hk).
  destruct (cursor_key_position vertical) as (Hid & Hi & Hj & Hpos).
  set (i := cursor_drive vertical) in *. set (j := cursor_sense vertical) in *.
  set (k := cursor_key vertical) in *.
  set (D := debounce_or fallback).
  set (scan := Sketch.PET_scanKey D sense).
  assert (Htot : forall i' j', 0 <= i' < 10 -> 0 <= j' < 8 -> total (scan i' j'))
    by (intros; apply total_PET_scanKey; auto; intros; apply total_debounce_or).
  destruct (total_scans_before scan 8 i j) with (s := s) as ([] & s0 & E0);
    [intros; apply Htot; lia | exact Hj |].
  destruct (Htot (Z.of_nat i) (Z.of_nat j)) with (s := s0) as ([] & s0' & Es);
    [lia | lia |].
  destruct (total_scans_after scan 10 8 i j) with (s := s0') as ([] & s1 & E1);
    [intros; apply Htot; lia | exact Hi | exact Hj |].
  assert (Ed : Sketch.PET_detectKeys D sense s = Some (tt, s1)).
  { change (Sketch.PET_detectKeys D sense s)
      with (for_loop 10 0 (fun i' => for_loop 8 0 (fun j' => scan i' j')) s).
    rewrite (sweep_about scan 10 8 i j s Hi Hj). unfold bind.
    rewrite E0, Es. exact E1. }
  assert (El : Sketch.PET_loop D sense s =
               Some (tt, if keyStateChange s1 then pet_composed s1 else s1)).
  { unfold Sketch.PET_loop, bind. rewrite Ed. apply PET_sendUpdate_eq. }
  (* the sweep before the key *)
  assert (H0 : lShift s0 = lShift s /\ rShift s0 = rShift s /\
               length (usbKeys s0) = 6%nat /\ length (kbKeys s0) = 6%nat).
  { apply (keeps_scans_before
             (fun st => lShift st = lShift s /\ rShift st = rShift s /\
                        length (usbKeys st) = 6%nat /\ length (kbKeys st) = 6%nat)
             scan 8 i j) with (s := s) (a := tt); auto.
    intros i' j' Hi' Hj' Hlt.
    destruct (getKeyId_in_matrix i' j') as (Hk' & _); [lia | lia |].
    assert (Hsmall : i' * 8 + j' < 64)
      by (subst i j k; destruct vertical; simpl in *; lia).
    apply keeps_PET_scanKey_buffer with (keyId := i' * 8 + j'); auto;
      try (intros; lia); try (intros; assumption).
    - intros st slot code need (Ha & Hb & Hc & Hd) _.
      unfold install; simpl. rewrite !upd_length. auto.
    - intros st slot need (Ha & Hb & Hc & Hd) _.
      unfold release; simpl. rewrite !upd_length. auto. }
  destruct H0 as (HlS & HrS & Hu0 & Hk0).
  (* the key *)
  unfold scan, i, j in Es.
  rewrite Sketch_PET_scanKey_cursor in Es by exact Hcursor.
  rewrite HlS, HrS in Es. fold D k in Es. unfold bind in Es.
  destruct (Sketch.PET_setKey D k (cursor_code vertical (lShift s || rShift s)) s0)
    as [[r st]|] eqn:Eset; [|discriminate].
  unfold modify in Es. inversion Es as [Es']. clear Es.
  (* the sweep after the key *)
  assert (Hf : cursor_flag vertical s1 = true).
  { apply (keeps_scans_after (fun st => cursor_flag vertical st = true)
             scan 10 8 i j) with (s := s0') (a := tt); auto.
    - intros i' j' Hi' Hj' Hgt.
      destruct (getKeyId_in_matrix i' j') as (Hk' & _); [lia | lia |].
      apply keeps_PET_scanKey_frame with (keyId := i' * 8 + j'); auto;
        try (intros; assumption);
        subst i j k; destruct vertical; simpl in *; intros; try lia; assumption.
    - rewrite <- Es'. destruct vertical; reflexivity. }
  assert (Hm : pet_report_modifiers s1 = modifiers s1).
  { unfold pet_report_modifiers. unfold cursor_flag in Hf.
    destruct vertical; rewrite Hf; [|rewrite orb_true_r]; reflexivity. }
  exists s0, s1. eexists.
  split; [exact E0|]. split; [exact Ed|]. split; [exact El|].
  split; [exact HlS|]. split; [exact HrS|].
  split; [unfold k, D; rewrite Sketch_PET_parseSpecial_cursor, HlS, HrS; reflexivity|].
  split; [exact Hf|]. split; [exact Hm|]. split; [reflexivity|].
  intros st' Hset Hnot.
  assert (Heq : Some (r, st) = Some (true, st')) by (rewrite <- Eset; exact Hset).
  inversion Heq; subst r st'. clear Heq Hset.
  destruct (Sketch_PET_setKey_allocates fallback k
              (cursor_code vertical (lShift s || rShift s)) s0 st)
    as (slot & Hslot & Hsu & Hsk & Hsc); auto.
  { subst k; destruct vertical; simpl; lia. }
  { apply cursor_code_nonzero. }
  assert (H1 : nth slot (usbKeys s1) 0 = k /\
               nth slot (kbKeys s1) 0 = cursor_code vertical (lShift s || rShift s) /\
               keyStateChange s1 = true).
  { apply (keeps_scans_after
             (fun st => nth slot (usbKeys st) 0 = k /\
                        nth slot (kbKeys st) 0 =
                          cursor_code vertical (lShift s || rShift s) /\
                        keyStateChange st = true)
             scan 10 8 i j) with (s := s0') (a := tt); auto.
    - intros i' j' Hi' Hj' Hgt.
      destruct (getKeyId_in_matrix i' j') as (Hk' & _); [lia | lia |].
      assert (Hne : k <> i' * 8 + j') by lia.
      assert (Hk1 : k <> -1) by (subst k; destruct vertical; simpl; lia).
      apply keeps_PET_scanKey_buffer with (keyId := i' * 8 + j'); auto;
        try (intros; assumption).
      + intros st0 slot' code need (Ha & Hb & Hc) Hfree.
        destruct (install_other_slot st0 slot slot' k (i' * 8 + j') code need)
          as (Hx & Hy); auto.
        rewrite Hx, Hy. auto.
      + intros st0 slot' need (Ha & Hb & Hc) Hheld.
        destruct (release_other_slot st0 slot slot' k (i' * 8 + j') need)
          as (Hx & Hy); auto.
        rewrite Hx, Hy. auto.
      + intros st0 (Ha & Hb & Hc). auto.
    - rewrite <- Es'. destruct vertical; simpl; auto. }
  destruct H1 as (H1u & H1k & H1c).
  rewrite H1c. split.
  - unfold pet_composed. simpl. rewrite Hm.
    rewrite (proj1 (Sketch_PET_detectKeys_sent _ _ _ _ Ed)). reflexivity.
  - rewrite <- H1k.
    destruct (nth_in_or_default slot (kbKeys s1) 0) as [Hin|Hd]; [exact Hin|].
    exfalso. rewrite H1k in Hd. revert Hd. apply cursor_code_nonzero.
Qed.

Lemma pet_cursor_key_with_shift_witness :
  lShift shift_then_cursor = true /\
  cursor_and_left_shift_low 0 7 = LOW /\
  exists s1 s',
    Sketch.PET_loop (debounce_or suppressing) cursor_and_left_shift_low
      shift_then_cursor = Some (tt, s') /\
    pet_report_modifiers s1 = modifiers s1 /\
    sent s' = sent shift_then_cursor ++ [(modifiers s1, kbKeys s1)] /\
    In KEY_LEFT (kbKeys s1) /\
    sent s' = [(0, [KEY_LEFT; 0; 0; 0; 0; 0])].
Proof.
  split; [reflexivity|]. split; [reflexivity|].
  destruct (pet_cursor_key_with_shift suppressing cursor_and_left_shift_low
              false shift_then_cursor eq_refl (conj eq_refl eq_refl))
    as (s0 & s1 & s' & E0 & Ed & El & _ & _ & _ & _ & Hm & _ & Hc).
  assert (Es : exists st,
             Sketch.PET_setKey (debounce_or suppressing) (cursor_key false)
               (cursor_code false (lShift shift_then_cursor || rShift shift_then_cursor))
               s0 = Some (true, st)).
  { vm_compute in E0. inversion E0. vm_compute. eexists; reflexivity. }
  destruct Es as (st & Es).
  destruct (Hc st Es) as (Hsent & Hin).
  { vm_compute in E0. inversion E0. vm_compute. intuition discriminate. }
  exists s1, s'. split; [exact El|]. split; [exact Hm|].
  split; [exact Hsent|]. split; [exact Hin|].
  vm_compute in El. inversion El. reflexivity.
Defined.

(** C7 as stated fails.  Keys 1 to 5 and the horizontal cursor key are held
    (the cursor key installed as KEY_RIGHT), left shift is latched, and the
    cycle that latches right shift reads the cursor key pressed: setKey is
    asked for KEY_LEFT and rejects the call, and the report composed at the
    end of the cycle carries KEY_RIGHT and neither KEY_LEFT nor KEY_UP. *)
Lemma pet_cursor_key_with_shift_not_reversed :
  lShift shifted_cursor = true /\ all_low 0 7 = LOW /\
  exists s' r, PET.loop all_low shifted_cursor = Some (tt, s') /\
    sent s' = sent shifted_cursor ++ [r] /\
    In KEY_RIGHT (snd r) /\ ~ In KEY_LEFT (snd r) /\ ~ In KEY_UP (snd r).
Proof.
  split; [reflexivity|]. split; [reflexivity|].
  destruct (PET.loop all_low shifted_cursor) as [[[] s']|] eqn:E;
    [|vm_compute in E; discriminate].
  exists s'. vm_compute in E. inversion E; subst; clear E.
  eexists. split; [reflexivity|]. split; [vm_compute; reflexivity|].
  vm_compute. intuition discriminate.
Qed.

(** ** The alt lock in a scan cycle *)

(** The switch of the VICE variant on key 64 and on key 69 runs the Shift
    block alone. *)
Lemma Sketch_VICE_parseSpecial_64 (D : Z -> M bool) (level : bool) (s : state) :
  Sketch.VICE_parseSpecial D 64 level s =
  (r <- Sketch.VICE_case_64 D 64 level false ;;
   match r with Returned v => ret v | Next b => ret b end) s.
Proof.
  unfold Sketch.VICE_parseSpecial, Sketch.parseSpecial, bind.
  change (switch (Sketch.VICE_cases D) 64 level false s)
    with (then_ (Sketch.VICE_case_64 D 64 level false) (fun b => ret (Next b)) s).
  unfold then_, bind.
  destruct (Sketch.VICE_case_64 D 64 level false s) as [[[v|b] s1]|]; reflexivity.
Qed.

Lemma Sketch_VICE_parseSpecial_69 (D : Z -> M bool) (level : bool) (s : state) :
  Sketch.VICE_parseSpecial D 69 level s =
  (r <- Sketch.VICE_case_69 D 69 level false ;;
   match r with Returned v => ret v | Next b => ret b end) s.
Proof.
  unfold Sketch.VICE_parseSpecial, Sketch.parseSpecial, bind.
  change (switch (Sketch.VICE_cases D) 69 level false s)
    with (then_ (Sketch.VICE_case_69 D 69 level false) (fun b => ret (Next b)) s).
  unfold then_, bind.
  destruct (Sketch.VICE_case_69 D 69 level false s) as [[[v|b] s1]|]; reflexivity.
Qed.

(** What a call for right shift does to lAlt, and a call for left shift to
    rAlt: nothing, unless the call latches the key while the other latch
    is held. *)
Lemma Sketch_VICE_right_shift_call (fallback : Z -> state -> bool)
  (level : bool) (s s' : state) (r : bool) :
  Sketch.VICE_parseSpecial (debounce_or fallback) 69 level s = Some (r, s') ->
  r = true /\ lShift s' = lShift s /\ rAlt s' = rAlt s /\
  (keyStateChange s = true -> keyStateChange s' = true) /\
  (lAlt s' = lAlt s \/
   (level = LOW /\ rShift s = false /\ lShift s = true /\
    rShift s' = true /\ lAlt s' = true /\ keyStateChange s' = true)).
Proof.
  rewrite Sketch_VICE_parseSpecial_69.
  unfold Sketch.VICE_case_69, then_, Sketch.return_if_debounce. unfold_m.
  destruct (debounce_or_cases fallback 69 s) as (d & dk & E).
  destruct level, (rShift s) eqn:Er; simpl; rewrite ?Er; simpl;
    rewrite ?E; simpl; try destruct d; simpl;
    try destruct (lShift s) eqn:El; simpl;
    intros H; inversion H; subst; simpl; rewrite ?Er, ?El;
    repeat split; auto; try (left; reflexivity);
    try (right; repeat split; reflexivity).
Qed.

Lemma Sketch_VICE_left_shift_call (fallback : Z -> state -> bool)
  (level : bool) (s s' : state) (r : bool) :
  Sketch.VICE_parseSpecial (debounce_or fallback) 64 level s = Some (r, s') ->
  r = true /\ rShift s' = rShift s /\ lAlt s' = lAlt s /\
  (keyStateChange s = true -> keyStateChange s' = true) /\
  (rAlt s' = rAlt s \/
   (level = LOW /\ lShift s = false /\ rShift s = true /\
    lShift s' = true /\ rAlt s' = true /\ keyStateChange s' = true)).
Proof.
  rewrite Sketch_VICE_parseSpecial_64.
  unfold Sketch.VICE_case_64, then_, Sketch.return_if_debounce. unfold_m.
  destruct (debounce_or_cases fallback 64 s) as (d & dk & E).
  destruct level, (lShift s) eqn:El; simpl; rewrite ?El; simpl;
    rewrite ?E; simpl; try destruct d; simpl;
    try destruct (rShift s) eqn:Er; simpl;
    intros H; inversion H; subst; simpl; rewrite ?Er, ?El;
    repeat split; auto; try (left; reflexivity);
    try (right; repeat split; reflexivity).
Qed.

(** setKey, checkRelease and the scan of a key other than the two Shift
    keys write neither lAlt nor rAlt. *)
Lemma Sketch_VICE_scanKey_alt (fallback : Z -> state -> bool)
  (sense : Z -> Z -> bool) (P : state -> Prop) (i j : Z) :
  0 <= i < 10 -> 0 <= j < 8 -> i * 8 + j <> 64 -> i * 8 + j <> 69 ->
  (forall s v, P s -> P (set_debounceKeys v s)) ->
  (forall s v, P s -> P (set_usbKeys v s)) ->
  (forall s v, P s -> P (set_keysUsed v s)) ->
  (forall s, P s -> P (set_modifiers (bit_or (modifiers s) MODIFIERKEY_SHIFT) s)) ->
  (forall s, P s -> P (set_modifiers (bit_clear (modifiers s) MODIFIERKEY_SHIFT) s)) ->
  (forall s, P s -> P (set_modifiers (bit_or (modifiers s) MODIFIERKEY_CTRL) s)) ->
  (forall s, P s -> P (set_modifiers (bit_clear (modifiers s) MODIFIERKEY_CTRL) s)) ->
  (forall s, P s -> P (set_keyStateChange true s)) ->
  (forall s v, P s -> P (set_kbKeys v s)) ->
  (forall s v, P s -> P (set_lArrow v s)) ->
  (forall s v, P s -> P (set_rArrow v s)) ->
  keeps P (Sketch.VICE_scanKey (debounce_or fallback) sense i j).
Proof.
  intros Hi Hj H64 H69 H1 H2 H3 H4 H5 H6 H7 H8 H9 H10 H11.
  destruct (getKeyId_in_matrix i j Hi Hj) as (Hk & _).
  apply keeps_VICE_scanKey_frame with (keyId := i * 8 + j); auto;
    intros; lia.
Qed.

(** The scan of right shift and of left shift. *)
Lemma Sketch_VICE_scanKey_right_shift (fallback : Z -> state -> bool)
  (sense : Z -> Z -> bool) (s s' : state) :
  Sketch.VICE_scanKey (debounce_or fallback) sense 8 5 s = Some (tt, s') ->
  lShift s' = lShift s /\ rAlt s' = rAlt s /\
  (keyStateChange s = true -> keyStateChange s' = true) /\
  (lAlt s' = lAlt s \/
   (sense 8 5 = LOW /\ rShift s = false /\ lShift s = true /\
    rShift s' = true /\ lAlt s' = true /\ keyStateChange s' = true)).
Proof.
  unfold Sketch.VICE_scanKey, Sketch.scanKey. cbv zeta.
  change (Engine.getKeyId VICE.SENSE_COUNT 8 5) with 69.
  change (Sketch.parseSpecial (Sketch.VICE_cases (debounce_or fallback)) 69)
    with (Sketch.VICE_parseSpecial (debounce_or fallback) 69).
  unfold bind at 1.
  destruct (Sketch.VICE_parseSpecial (debounce_or fallback) 69 (sense 8 5) s)
    as [[r sm]|] eqn:E; [|discriminate].
  apply Sketch_VICE_right_shift_call in E.
  destruct E as (-> & Hl & Hr & Hc & Hd). simpl. unfold ret.
  intros H; inversion H; subst. intuition.
Qed.

Lemma Sketch_VICE_scanKey_left_shift (fallback : Z -> state -> bool)
  (sense : Z -> Z -> bool) (s s' : state) :
  Sketch.VICE_scanKey (debounce_or fallback) sense 8 0 s = Some (tt, s') ->
  rShift s' = rShift s /\ lAlt s' = lAlt s /\
  (keyStateChange s = true -> keyStateChange s' = true) /\
  (rAlt s' = rAlt s \/
   (sense 8 0 = LOW /\ lShift s = false /\ rShift s = true /\
    lShift s' = true /\ rAlt s' = true /\ keyStateChange s' = true)).
Proof.
  unfold Sketch.VICE_scanKey, Sketch.scanKey. cbv zeta.
  change (Engine.getKeyId VICE.SENSE_COUNT 8 0) with 64.
  change (Sketch.parseSpecial (Sketch.VICE_cases (debounce_or fallback)) 64)
    with (Sketch.VICE_parseSpecial (debounce_or fallback) 64).
  unfold bind at 1.
  destruct (Sketch.VICE_parseSpecial (debounce_or fallback) 64 (sense 8 0) s)
    as [[r sm]|] eqn:E; [|discriminate].
  apply Sketch_VICE_left_shift_call in E.
  destruct E as (-> & Hl & Hr & Hc & Hd). simpl. unfold ret.
  intros H; inversion H; subst. intuition.
Qed.

(** A sweep about a key, as the three states it goes through. *)
Lemma Sketch_VICE_sweep_about (fallback : Z -> state -> bool)
  (sense : Z -> Z -> bool) (i j : nat) (s s1 : state) :
  (i < 10)%nat -> (j < 8)%nat ->
  Sketch.VICE_detectKeys (debounce_or fallback) sense s = Some (tt, s1) ->
  exists s0 s0',
    scans_before (Sketch.VICE_scanKey (debounce_or fallback) sense) 8 i j s =
      Some (tt, s0) /\
    Sketch.VICE_scanKey (debounce_or fallback) sense (Z.of_nat i) (Z.of_nat j) s0 =
      Some (tt, s0') /\
    scans_after (Sketch.VICE_scanKey (debounce_or fallback) sense) 10 8 i j s0' =
      Some (tt, s1).
Proof.
  intros Hi Hj H.
  change (Sketch.VICE_detectKeys (debounce_or fallback) sense s)
    with (for_loop 10 0 (fun i' => for_loop 8 0 (fun j' =>
            Sketch.VICE_scanKey (debounce_or fallback) sense i' j')) s) in H.
  rewrite (sweep_about _ 10 8 i j s Hi Hj) in H. unfold bind in H.
  destruct (scans_before _ 8 i j s) as [[[] s0]|] eqn:E0; [|discriminate].
  destruct (Sketch.VICE_scanKey _ sense (Z.of_nat i) (Z.of_nat j) s0)
    as [[[] s0']|] eqn:Es; [|discriminate].
  exists s0, s0'. auto.
Qed.

(** lAlt is armed in a sweep only by right shift after left shift, and
    rAlt only by left shift after right shift. *)
Lemma Sketch_VICE_detectKeys_lAlt (fallback : Z -> state -> bool)
  (sense : Z -> Z -> bool) (s s1 : state) :
  Sketch.VICE_detectKeys (debounce_or fallback) sense s = Some (tt, s1) ->
  lAlt s1 = lAlt s \/
  (right_after_left sense s s1 /\ lAlt s1 = true /\ keyStateChange s1 = true).
Proof.
  intros H.
  destruct (Sketch_VICE_sweep_about fallback sense 8 5 s s1) as (s0 & s0' & E0 & Es & E1);
    [lia | lia | exact H |].
  assert (H0 : lAlt s0 = lAlt s /\ rShift s0 = rShift s).
  { apply (keeps_scans_before (fun st => lAlt st = lAlt s /\ rShift st = rShift s)
             (Sketch.VICE_scanKey (debounce_or fallback) sense) 8 8 5)
      with (s := s) (a := tt); auto; try lia.
    intros i' j' Hi' Hj' Hlt.
    destruct (getKeyId_in_matrix i' j') as (Hk & _); [lia | lia |].
    apply keeps_VICE_scanKey_frame with (keyId := i' * 8 + j'); auto;
      try (intros; assumption); intros; lia. }
  destruct H0 as (Ha0 & Hr0).
  change (Z.of_nat 8) with 8 in Es. change (Z.of_nat 5) with 5 in Es.
  apply Sketch_VICE_scanKey_right_shift in Es.
  destruct Es as (Hl & _ & _ & Hd).
  assert (H1 : lAlt s1 = lAlt s0' /\ lShift s1 = lShift s0' /\
               rShift s1 = rShift s0' /\
               (keyStateChange s0' = true -> keyStateChange s1 = true)).
  { apply (keeps_scans_after
             (fun st => lAlt st = lAlt s0' /\ lShift st = lShift s0' /\
                        rShift st = rShift s0' /\
                        (keyStateChange s0' = true -> keyStateChange st = true))
             (Sketch.VICE_scanKey (debounce_or fallback) sense) 10 8 8 5)
      with (s := s0') (a := tt); auto; try lia.
    intros i' j' Hi' Hj' Hgt.
    apply Sketch_VICE_scanKey_alt; try lia; try (intros; assumption).
    intros st (Ha & Hb & Hc & Hk). simpl. auto. }
  destruct H1 as (Ha1 & Hl1 & Hr1 & Hc1).
  destruct Hd as [Hd|(Hs & Hr & Hll & Hr' & Ha' & Hc')].
  - left. congruence.
  - right. unfold right_after_left. repeat split; auto; congruence.
Qed.

Lemma Sketch_VICE_detectKeys_rAlt (fallback : Z -> state -> bool)
  (sense : Z -> Z -> bool) (s s1 : state) :
  Sketch.VICE_detectKeys (debounce_or fallback) sense s = Some (tt, s1) ->
  rAlt s1 = rAlt s \/
  (left_after_right sense s s1 /\ rAlt s1 = true /\ keyStateChange s1 = true).
Proof.
  intros H.
  destruct (Sketch_VICE_sweep_about fallback sense 8 0 s s1) as (s0 & s0' & E0 & Es & E1);
    [lia | lia | exact H |].
  assert (H0 : rAlt s0 = rAlt s /\ lShift s0 = lShift s /\ rShift s0 = rShift s).
  { apply (keeps_scans_before
             (fun st => rAlt st = rAlt s /\ lShift st = lShift s /\
                        rShift st = rShift s)
             (Sketch.VICE_scanKey (debounce_or fallback) sense) 8 8 0)
      with (s := s) (a := tt); auto; try lia.
    intros i' j' Hi' Hj' Hlt.
    apply Sketch_VICE_scanKey_alt; try lia; intros; assumption. }
  destruct H0 as (Ha0 & Hl0 & Hr0).
  change (Z.of_nat 8) with 8 in Es. change (Z.of_nat 0) with 0 in Es.
  apply Sketch_VICE_scanKey_left_shift in Es.
  destruct Es as (Hr & _ & _ & Hd).
  assert (H1 : rAlt s1 = rAlt s0' /\ lShift s1 = lShift s0' /\
               (keyStateChange s0' = true -> keyStateChange s1 = true)).
  { apply (keeps_scans_after
             (fun st => rAlt st = rAlt s0' /\ lShift st = lShift s0' /\
                        (keyStateChange s0' = true -> keyStateChange st = true))
             (Sketch.VICE_scanKey (debounce_or fallback) sense) 10 8 8 0)
      with (s := s0') (a := tt); auto; try lia.
    intros i' j' Hi' Hj' Hgt.
    destruct (getKeyId_in_matrix i' j') as (Hk & _); [lia | lia |].
    apply keeps_VICE_scanKey_frame with (keyId := i' * 8 + j'); auto;
      try (intros; assumption); try (intros; lia).
    intros st (Ha & Hb & Hk'). simpl. auto. }
  destruct H1 as (Ha1 & Hl1 & Hc1).
  destruct Hd as [Hd|(Hs & Hl & Hrr & Hl' & Ha' & Hc')].
  - left. congruence.
  - right. unfold left_after_right. repeat split; auto; congruence.
Qed.

(** The sweep leaves the two Alt bits of the modifiers and the lock flag as
    they are. *)
Lemma Sketch_VICE_detectKeys_alt (fallback : Z -> state -> bool)
  (sense : Z -> Z -> bool) (s s1 : state) :
  Sketch.VICE_detectKeys (debounce_or fallback) sense s = Some (tt, s1) ->
  Z.testbit (modifiers s1) LEFT_ALT_BIT = Z.testbit (modifiers s) LEFT_ALT_BIT /\
  Z.testbit (modifiers s1) RIGHT_ALT_BIT = Z.testbit (modifiers s) RIGHT_ALT_BIT /\
  altLockActive s1 = altLockActive s.
Proof.
  intros H.
  apply (Sketch_VICE_detectKeys_keeps
           (fun st =>
              Z.testbit (modifiers st) LEFT_ALT_BIT = Z.testbit (modifiers s) LEFT_ALT_BIT /\
              Z.testbit (modifiers st) RIGHT_ALT_BIT = Z.testbit (modifiers s) RIGHT_ALT_BIT /\
              altLockActive st = altLockActive s) fallback sense)
    with (s := s) (a := tt); auto.
  intros i j _ _.
  apply keeps_VICE_scanKey_frame with (keyId := Engine.getKeyId 8 i j); auto;
    try (intros ? ? HP; exact HP); try (intros ? HP; exact HP);
    try (intros _ ? ? HP; exact HP); try (intros _ ? HP; exact HP);
    try intros _; intros st (H2 & H6 & Ha); cbn [modifiers altLockActive set_modifiers];
    bits; rewrite ?orb_false_r, ?andb_true_r; auto.
Qed.

(** A call of parseSpecial arms lAlt only for right shift read pressed with
    the left latch held and the right one not, and rAlt only for left
    shift read pressed with the right latch held and the left one not. *)
Lemma Sketch_VICE_parseSpecial_alt (fallback : Z -> state -> bool)
  (keyId : Z) (level : bool) (s s' : state) (r : bool) :
  Sketch.VICE_parseSpecial (debounce_or fallback) keyId level s = Some (r, s') ->
  (lAlt s' = lAlt s \/
   (keyId = 69 /\ level = LOW /\ rShift s = false /\ lShift s = true /\
    rShift s' = true /\ lAlt s' = true)) /\
  (rAlt s' = rAlt s \/
   (keyId = 64 /\ level = LOW /\ lShift s = false /\ rShift s = true /\
    lShift s' = true /\ rAlt s' = true)).
Proof.
  intros H.
  destruct (Z.eq_dec keyId 69) as [->|H69].
  { apply Sketch_VICE_right_shift_call in H.
    destruct H as (_ & Hl & Hr & _ & Hd). split; [|left; exact Hr].
    destruct Hd as [Hd|Hd]; [left; exact Hd | right; intuition]. }
  destruct (Z.eq_dec keyId 64) as [->|H64].
  { apply Sketch_VICE_left_shift_call in H.
    destruct H as (_ & Hr & Hl & _ & Hd). split; [left; exact Hl|].
    destruct Hd as [Hd|Hd]; [left; exact Hd | right; intuition]. }
  assert (Hk : lAlt s' = lAlt s /\ rAlt s' = rAlt s).
  { revert H.
    apply (keeps_Sketch_VICE_parseSpecial
             (fun st => lAlt st = lAlt s /\ rAlt st = rAlt s)
             (debounce_or fallback) keyId); auto;
      try (intros; assumption); try (intros; contradiction).
    - apply keeps_debounce_or_frame; intros; assumption.
    - intros c. apply keeps_Sketch_setKey; try (intros; assumption).
      apply keeps_debounce_or_frame; intros; assumption.
    - apply keeps_Sketch_checkRelease; try (intros; assumption).
      apply keeps_debounce_or_frame; intros; assumption. }
  destruct Hk; auto.
Qed.

Lemma Sketch_VICE_setKey_alt (fallback : Z -> state -> bool)
  (keyId keyCode : Z) (s s' : state) (r : bool) :
  Sketch.VICE_setKey (debounce_or fallback) keyId keyCode s = Some (r, s') ->
  lAlt s' = lAlt s /\ rAlt s' = rAlt s.
Proof.
  apply (keeps_Sketch_setKey (fun st => lAlt st = lAlt s /\ rAlt st = rAlt s)
           (debounce_or fallback) keyId); auto; try (intros; assumption).
  apply keeps_debounce_or_frame; intros; assumption.
Qed.

Lemma Sketch_VICE_checkRelease_alt (fallback : Z -> state -> bool)
  (keyId : Z) (s s' : state) (u : unit) :
  Sketch.VICE_checkRelease (debounce_or fallback) keyId s = Some (u, s') ->
  lAlt s' = lAlt s /\ rAlt s' = rAlt s.
Proof.
  apply (keeps_Sketch_checkRelease (fun st => lAlt st = lAlt s /\ rAlt st = rAlt s)
           (debounce_or fallback) keyId); auto; try (intros; assumption).
  apply keeps_debounce_or_frame; intros; assumption.
Qed.

(** The sweep plays no tone. *)
Lemma Sketch_VICE_detectKeys_tones (fallback : Z -> state -> bool)
  (sense : Z -> Z -> bool) (s s1 : state) :
  Sketch.VICE_detectKeys (debounce_or fallback) sense s = Some (tt, s1) ->
  tones s1 = tones s.
Proof.
  intros H.
  apply (Sketch_VICE_detectKeys_keeps (fun st => tones st = tones s) fallback sense)
    with (s := s) (a := tt); auto.
  intros i j _ _.
  apply keeps_VICE_scanKey_frame with (keyId := Engine.getKeyId 8 i j);
    auto; intros; assumption.
Qed.

Lemma VICE_heartbeat_state (now : Z) (s : state) :
  VICE.heartbeat now s =
  Some (tt, if altLockActive s &&
               (VICE.interval <=? uint32 (now - previousMillis s))
            then set_tones (tones s ++ [(VICE.speakerPin, 220, 32)])
                   (set_previousMillis now s)
            else s).
Proof.
  unfold VICE.heartbeat, tone. unfold_m.
  destruct (altLockActive s && (VICE.interval <=? uint32 (now - previousMillis s)));
    reflexivity.
Qed.

Lemma VICE_heartbeat_frame (now : Z) (s s' : state) :
  VICE.heartbeat now s = Some (tt, s') ->
  lAlt s' = lAlt s /\ rAlt s' = rAlt s /\
  keyStateChange s' = keyStateChange s /\ modifiers s' = modifiers s /\
  altLockActive s' = altLockActive s /\ sent s' = sent s.
Proof.
  rewrite VICE_heartbeat_state. intros H. inversion H.
  destruct (altLockActive s && (VICE.interval <=? uint32 (now - previousMillis s)));
    simpl; auto 10.
Qed.

(** A cycle of the VICE variant from a state in which nothing is armed. *)
Lemma Sketch_VICE_cycle_alt (fallback : Z -> state -> bool)
  (sense : Z -> Z -> bool) (now : Z) (s s1 s2 s' : state) :
  Sketch.VICE_detectKeys (debounce_or fallback) sense s = Some (tt, s1) ->
  VICE.sendUpdate s1 = Some (tt, s2) ->
  VICE.heartbeat now s2 = Some (tt, s') ->
  alt_quiet s ->
  alt_quiet s' /\
  (lAlt s1 = true -> right_after_left sense s s1) /\
  (rAlt s1 = true -> left_after_right sense s s1) /\
  altLockActive s' = xorb (lAlt s1) (altLockActive s) /\
  Z.testbit (modifiers s') LEFT_ALT_BIT =
    xorb (lAlt s1) (Z.testbit (modifiers s) LEFT_ALT_BIT) /\
  tones s2 = (if rAlt s1 then tones s ++ [(VICE.speakerPin, 400, 50)]
              else tones s) /\
  (if keyStateChange s1
   then exists m, sent s' = sent s ++ [(m, kbKeys s1)] /\
          Z.testbit m RIGHT_ALT_BIT = rAlt s1 /\
          Z.testbit m LEFT_ALT_BIT =
            xorb (lAlt s1) (Z.testbit (modifiers s) LEFT_ALT_BIT)
   else sent s' = sent s /\ lAlt s1 = false /\ rAlt s1 = false).
Proof.
  intros Hd Hu Hh (Ql & Qr & Qc & Qb).
  destruct (Sketch_VICE_detectKeys_alt _ _ _ _ Hd) as (B2 & B6 & Ba).
  pose proof (Sketch_VICE_detectKeys_tones _ _ _ _ Hd) as Ht.
  pose proof (proj1 (Sketch_VICE_detectKeys_sent _ _ _ _ Hd)) as Hs.
  destruct (VICE_heartbeat_frame _ _ _ Hh) as (F1 & F2 & F3 & F4 & F5 & F6).
  assert (Hl : lAlt s1 = true ->
               right_after_left sense s s1 /\ keyStateChange s1 = true).
  { destruct (Sketch_VICE_detectKeys_lAlt _ _ _ _ Hd) as [Hl|(Hl & _ & Hc)];
      [congruence | auto]. }
  assert (Hr : rAlt s1 = true ->
               left_after_right sense s s1 /\ keyStateChange s1 = true).
  { destruct (Sketch_VICE_detectKeys_rAlt _ _ _ _ Hd) as [Hr|(Hr & _ & Hc)];
      [congruence | auto]. }
  split; [|split; [intros E; apply Hl, E | split; [intros E; apply Hr, E|]]].
  - unfold alt_quiet. rewrite F1, F2, F3, F4.
    rewrite VICE_sendUpdate_eq in Hu. inversion Hu as [Hu']. clear Hu.
    destruct (keyStateChange s1) eqn:Ec.
    + destruct (VICE_composed_alt s1) as (_ & _ & C3 & C4 & _ & _ & _ & _ & C9).
      cbv zeta in *. repeat split; auto.
    + destruct (lAlt s1) eqn:El; [destruct (Hl eq_refl); discriminate|].
      destruct (rAlt s1) eqn:Er; [destruct (Hr eq_refl); discriminate|].
      repeat split; auto. congruence.
  - rewrite F5, F4, F6. rewrite <- Ba, <- B2, <- Ht, <- Hs.
    rewrite VICE_sendUpdate_eq in Hu. inversion Hu as [Hu']. clear Hu.
    destruct (keyStateChange s1) eqn:Ec.
    + destruct (VICE_composed_alt s1)
        as (C1 & C2 & _ & _ & C5 & C6 & C7 & C8 & _).
      cbv zeta in *. repeat split; auto.
      exists (vice_report_modifiers s1). repeat split; auto.
      rewrite C2, B6, Qb. apply orb_false_r.
    + destruct (lAlt s1) eqn:El; [destruct (Hl eq_refl); discriminate|].
      destruct (rAlt s1) eqn:Er; [destruct (Hr eq_refl); discriminate|].
      repeat split; auto.
Qed.

Lemma VICE_parseSpecial_refines (fallback : Z -> state -> bool)
  (keyId : Z) (level : bool) :
  refines (VICE.parseSpecial keyId level)
          (Sketch.VICE_parseSpecial (debounce_or fallback) keyId level).
Proof.
  change (VICE.parseSpecial keyId level)
    with (Sketch.VICE_parseSpecial debounce keyId level).
  unfold Sketch.VICE_parseSpecial, Sketch.parseSpecial.
  apply refines_bind; [|intros [v|b]; apply refines_refl].
  apply refines_switch. apply refines_VICE_cases. apply debounce_or_refines.
Qed.

(** C6, as the code has it.  In the VICE variant:
    (1) left shift admitted while right shift is already held arms rAlt,
    (2) right shift admitted while left shift is already held arms lAlt;
    (3) the composition step puts the right Alt bit into the one report it
    sends when rAlt is armed, plays the 400 Hz tone, disarms rAlt and
    clears the bit after the report, and it toggles (XOR) the left Alt bit
    and the lock flag when lAlt is armed and keeps them otherwise, in the
    report and after it;
    (4) the sweep leaves both Alt bits and the lock flag as they are;
    (5) the heartbeat plays the 220 Hz tone when the lock flag is set and
    the interval has passed;
    (6) on keys 64 and 69 the Shift latches, the change flag and the
    debounce table move as in the PET driver;
    (7) nothing else arms: a call of parseSpecial, for any key and level
    and whatever debounce hands back, leaves lAlt as it is unless it is
    the call for right shift read pressed with the left latch held and the
    right one not, and rAlt unless it is the call for left shift read
    pressed with the right latch held and the left one not; setKey and
    checkRelease leave both as they are;
    (8) every scan cycle has a result, its sweep leaves the Alt bits, the
    lock flag and the tones as they are, and arms lAlt only by right shift
    after left shift and rAlt only by left shift after right shift; from
    a state with nothing armed (as at power-up) the cycle ends with
    nothing armed, the lock flag and the left Alt bit are toggled exactly
    when lAlt was armed in the sweep, so they persist until right shift is
    latched again with left shift held, and the right Alt bit is in the
    report exactly when rAlt was armed in the sweep, with the 400 Hz
    tone. *)
Theorem vice_alt_lock :
  (forall s : state, lShift s = false -> rShift s = true -> admits 64 s ->
     exists s1, VICE.parseSpecial 64 LOW s = Some (true, s1) /\
       lShift s1 = true /\ rAlt s1 = true /\ lAlt s1 = lAlt s /\
       keyStateChange s1 = true) /\
  (forall s : state, rShift s = false -> lShift s = true -> admits 69 s ->
     exists s1, VICE.parseSpecial 69 LOW s = Some (true, s1) /\
       rShift s1 = true /\ lAlt s1 = true /\ rAlt s1 = rAlt s /\
       keyStateChange s1 = true) /\
  (forall s : state, keyStateChange s = true ->
     exists s' m, VICE.sendUpdate s = Some (tt, s') /\
       sent s' = sent s ++ [(m, kbKeys s)] /\
       Z.testbit m RIGHT_ALT_BIT = rAlt s || Z.testbit (modifiers s) RIGHT_ALT_BIT /\
       Z.testbit (modifiers s') RIGHT_ALT_BIT = false /\
       rAlt s' = false /\
       tones s' = (if rAlt s then tones s ++ [(VICE.speakerPin, 400, 50)]
                   else tones s) /\
       Z.testbit m LEFT_ALT_BIT = xorb (lAlt s) (Z.testbit (modifiers s) LEFT_ALT_BIT) /\
       Z.testbit (modifiers s') LEFT_ALT_BIT =
         xorb (lAlt s) (Z.testbit (modifiers s) LEFT_ALT_BIT) /\
       altLockActive s' = xorb (lAlt s) (altLockActive s) /\
       lAlt s' = false) /\
  (forall (sense : Z -> Z -> bool) (s s1 : state),
     VICE.detectKeys sense s = Some (tt, s1) ->
     Z.testbit (modifiers s1) LEFT_ALT_BIT = Z.testbit (modifiers s) LEFT_ALT_BIT /\
     Z.testbit (modifiers s1) RIGHT_ALT_BIT = Z.testbit (modifiers s) RIGHT_ALT_BIT /\
     altLockActive s1 = altLockActive s) /\
  (forall (currentMillis : Z) (s : state),
     exists s', VICE.heartbeat currentMillis s = Some (tt, s') /\
       tones s' = (if altLockActive s &&
                      (VICE.interval <=? uint32 (currentMillis - previousMillis s))
                   then tones s ++ [(VICE.speakerPin, 220, 32)]
                   else tones s) /\
       altLockActive s' = altLockActive s /\ modifiers s' = modifiers s) /\
  (forall (level : bool) (s : state),
     shift_machine (VICE.parseSpecial 64 level s) =
       shift_machine (PET.parseSpecial 64 level s) /\
     shift_machine (VICE.parseSpecial 69 level s) =
       shift_machine (PET.parseSpecial 69 level s)) /\
  (forall (fallback : Z -> state -> bool) (keyId keyCode : Z) (level : bool)
          (s s' : state) (r : bool) (u : unit),
     (VICE.parseSpecial keyId level s = Some (r, s') \/
      Sketch.VICE_parseSpecial (debounce_or fallback) keyId level s = Some (r, s') ->
      (lAlt s' = lAlt s \/
       (keyId = 69 /\ level = LOW /\ rShift s = false /\ lShift s = true /\
        rShift s' = true /\ lAlt s' = true)) /\
      (rAlt s' = rAlt s \/
       (keyId = 64 /\ level = LOW /\ lShift s = false /\ rShift s = true /\
        lShift s' = true /\ rAlt s' = true))) /\
     (Sketch.VICE_setKey (debounce_or fallback) keyId keyCode s = Some (r, s') ->
      lAlt s' = lAlt s /\ rAlt s' = rAlt s) /\
     (Sketch.VICE_checkRelease (debounce_or fallback) keyId s = Some (u, s') ->
      lAlt s' = lAlt s /\ rAlt s' = rAlt s)) /\
  alt_quiet initial /\
  (forall (fallback : Z -> state -> bool) (sense : Z -> Z -> bool)
          (currentMillis : Z) (s : state),
     exists s1 s2 s',
       Sketch.VICE_detectKeys (debounce_or fallback) sense s = Some (tt, s1) /\
       VICE.sendUpdate s1 = Some (tt, s2) /\
       VICE.heartbeat currentMillis s2 = Some (tt, s') /\
       Sketch.VICE_loop (debounce_or fallback) sense currentMillis s =
         Some (tt, s') /\
       Z.testbit (modifiers s1) LEFT_ALT_BIT = Z.testbit (modifiers s) LEFT_ALT_BIT /\
       Z.testbit (modifiers s1) RIGHT_ALT_BIT = Z.testbit (modifiers s) RIGHT_ALT_BIT /\
       altLockActive s1 = altLockActive s /\
       tones s1 = tones s /\
       (lAlt s1 = lAlt s \/
        (right_after_left sense s s1 /\ lAlt s1 = true /\ keyStateChange s1 = true)) /\
       (rAlt s1 = rAlt s \/
        (left_after_right sense s s1 /\ rAlt s1 = true /\ keyStateChange s1 = true)) /\
       (alt_quiet s ->
        alt_quiet s' /\
        (lAlt s1 = true -> right_after_left sense s s1) /\
        (rAlt s1 = true -> left_after_right sense s s1) /\
        altLockActive s' = xorb (lAlt s1) (altLockActive s) /\
        Z.testbit (modifiers s') LEFT_ALT_BIT =
          xorb (lAlt s1) (Z.testbit (modifiers s) LEFT_ALT_BIT) /\
        tones s2 = (if rAlt s1 then tones s ++ [(VICE.speakerPin, 400, 50)]
                    else tones s) /\
        (if keyStateChange s1
         then exists m, sent s' = sent s ++ [(m, kbKeys s1)] /\
                Z.testbit m RIGHT_ALT_BIT = rAlt s1 /\
                Z.testbit m LEFT_ALT_BIT =
                  xorb (lAlt s1) (Z.testbit (modifiers s) LEFT_ALT_BIT)
         else sent s' = sent s /\ lAlt s1 = false /\ rAlt s1 = false))).
Proof.
  split; [|split; [|split; [|split; [|split; [|split; [|split; [|split]]]]]]].
  - intros s Hl Hr Ha.
    destruct (VICE_left_after_right s Hl Hr Ha)
      as (s1 & H1 & H2 & _ & H3 & H4 & H5 & _).
    exists s1. auto.
  - intros s Hr Hl Ha.
    destruct (VICE_right_after_left s Hr Hl Ha)
      as (s1 & H1 & _ & H2 & H3 & H4 & H5 & _).
    exists s1. auto.
  - intros s Hc. exists (vice_composed s), (vice_report_modifiers s).
    rewrite VICE_sendUpdate_eq, Hc. split; [reflexivity|].
    apply VICE_composed_alt.
  - apply VICE_detectKeys_alt.
  - apply VICE_heartbeat_eq.
  - intros level s. split;
      [apply VICE_shift_machine_64 | apply VICE_shift_machine_69].
  - intros fallback keyId keyCode level s s' r u. split; [|split].
    + intros [H|H]; [apply (VICE_parseSpecial_refines fallback) in H|];
        apply (Sketch_VICE_parseSpecial_alt _ _ _ _ _ _ H).
    + apply Sketch_VICE_setKey_alt.
    + apply Sketch_VICE_checkRelease_alt.
  - repeat split.
  - intros fallback sense now s.
    destruct (total_VICE_loop fallback sense now s)
      as (s1 & s2 & s' & Hd & Hu & Hh & Hl).
    exists s1, s2, s'. split; [exact Hd|]. split; [exact Hu|].
    split; [exact Hh|]. split; [exact Hl|].
    destruct (Sketch_VICE_detectKeys_alt _ _ _ _ Hd) as (B2 & B6 & Ba).
    split; [exact B2|]. split; [exact B6|]. split; [exact Ba|].
    split; [apply (Sketch_VICE_detectKeys_tones _ _ _ _ Hd)|].
    split; [apply (Sketch_VICE_detectKeys_lAlt _ _ _ _ Hd)|].
    split; [apply (Sketch_VICE_detectKeys_rAlt _ _ _ _ Hd)|].
    apply (Sketch_VICE_cycle_alt fallback sense now s s1 s2 s' Hd Hu Hh).
Qed.

Lemma vice_alt_lock_witness :
  (exists s1 s2, VICE.parseSpecial 64 LOW right_held_left_due = Some (true, s1) /\
     rAlt s1 = true /\ VICE.sendUpdate s1 = Some (tt, s2) /\
     tones s2 = [(VICE.speakerPin, 400, 50)] /\
     Z.testbit (modifiers s2) RIGHT_ALT_BIT = false) /\
  (exists s1 s2, VICE.parseSpecial 69 LOW left_held_right_due = Some (true, s1) /\
     lAlt s1 = true /\ VICE.sendUpdate s1 = Some (tt, s2) /\
     Z.testbit (modifiers s2) LEFT_ALT_BIT = true /\ altLockActive s2 = true) /\
  (exists s1, VICE.detectKeys all_low vice_six_held = Some (tt, s1) /\
     altLockActive s1 = altLockActive vice_six_held) /\
  (alt_quiet vice_left_shift_held /\ lShift vice_left_shift_held = true /\
   exists s1 s',
     Sketch.VICE_detectKeys (debounce_or admitting) both_shifts_low
       vice_left_shift_held = Some (tt, s1) /\
     Sketch.VICE_loop (debounce_or admitting) both_shifts_low 0
       vice_left_shift_held = Some (tt, s') /\
     lAlt s1 = true /\
     right_after_left both_shifts_low vice_left_shift_held s1 /\
     altLockActive s' = true /\
     Z.testbit (modifiers s') LEFT_ALT_BIT = true /\
     alt_quiet s').
Proof.
  destruct vice_alt_lock
    as (Harm_r & Harm_l & Hcomp & Hsweep & _ & _ & _ & _ & Hcycle).
  split; [|split; [|split]].
  - destruct (Harm_r right_held_left_due) as (s1 & H1 & _ & H2 & _ & H3);
      [reflexivity | reflexivity | vm_compute; eexists; reflexivity |].
    destruct (Hcomp s1 H3) as (s2 & m & H4 & _ & _ & H5 & _ & H6 & _).
    exists s1, s2. repeat split; auto.
    rewrite H6, H2.
    vm_compute in H1. inversion H1; reflexivity.
  - destruct (Harm_l left_held_right_due) as (s1 & H1 & _ & H2 & _ & H3);
      [reflexivity | reflexivity | vm_compute; eexists; reflexivity |].
    destruct (Hcomp s1 H3) as (s2 & m & H4 & _ & _ & _ & _ & _ & _ & H5 & H6 & _).
    exists s1, s2. repeat split; auto.
    + rewrite H5, H2. vm_compute in H1. inversion H1; reflexivity.
    + rewrite H6, H2. vm_compute in H1. inversion H1; reflexivity.
  - destruct (VICE.detectKeys all_low vice_six_held) as [[[] s1]|] eqn:E;
      [|vm_compute in E; discriminate].
    destruct (Hsweep all_low vice_six_held s1 E) as (_ & _ & H).
    exists s1. auto.
  - assert (Q : alt_quiet vice_left_shift_held)
      by (unfold alt_quiet; repeat split; vm_compute; reflexivity).
    split; [exact Q|]. split; [vm_compute; reflexivity|].
    destruct (Hcycle admitting both_shifts_low 0 vice_left_shift_held)
      as (s1 & s2 & s' & Hd & _ & _ & Hl & _ & _ & _ & _ & _ & _ & Hq).
    destruct (Hq Q) as (Q' & Hla & _ & Hlock & Hbit & _).
    assert (Ha : lAlt s1 = true)
      by (vm_compute in Hd; inversion Hd; reflexivity).
    exists s1, s'. split; [exact Hd|]. split; [exact Hl|].
    split; [exact Ha|]. split; [exact (Hla Ha)|].
    rewrite Hlock, Hbit, Ha. split; [vm_compute; reflexivity|].
    split; [vm_compute; reflexivity | exact Q'].
Defined.

(** C6 as stated fails: the two combinations are exchanged.  With left
    shift held, the admitted press of right shift arms lAlt, not rAlt: the
    report is sent without any tone, the left Alt bit stays in the
    modifiers after the report and the lock flag is set.  With right shift
    held, the admitted press of left shift plays the 400 Hz tone, and
    leaves no Alt bit and no lock behind. *)
Lemma vice_right_shift_after_left_latches :
  (lShift left_held_right_due = true /\ rShift left_held_right_due = false /\
   exists s1 s2,
     VICE.parseSpecial 69 LOW left_held_right_due = Some (true, s1) /\
     rShift s1 = true /\ rAlt s1 = false /\ lAlt s1 = true /\
     VICE.sendUpdate s1 = Some (tt, s2) /\
     tones s2 = [] /\
     Z.testbit (modifiers s2) LEFT_ALT_BIT = true /\
     altLockActive s2 = true) /\
  (rShift right_held_left_due = true /\ lShift right_held_left_due = false /\
   exists s1 s2,
     VICE.parseSpecial 64 LOW right_held_left_due = Some (true, s1) /\
     lShift s1 = true /\ rAlt s1 = true /\ lAlt s1 = false /\
     VICE.sendUpdate s1 = Some (tt, s2) /\
     tones s2 = [(VICE.speakerPin, 400, 50)] /\
     modifiers s2 = 0 /\
     altLockActive s2 = false).
Proof.
  split; (split; [reflexivity|]); (split; [reflexivity|]);
    eexists; eexists; (split; [vm_compute; reflexivity|]);
    (split; [reflexivity|]); (split; [reflexivity|]); (split; [reflexivity|]);
    (split; [vm_compute; reflexivity|]); repeat split; reflexivity.
Qed.

(** ** The pointer-up key of the CBM 64 driver, call by call *)

(** setKey and checkRelease of the CBM 64 driver on key 60, without the
    monad: the key needs no Shift, and a key code other than 0 is the one
    handed to the Keyboard object. *)
Lemma CBM64_setKey_60 (keyCode : Z) (s : state) :
  keyCode <> 0 ->
  CBM64.setKey 60 keyCode s =
  if keysUsed s =? 6 then Some (false, s) else
  match debounce_table 60 (debounceKeys s) with
  | None => None
  | Some (true, dk) => Some (false, set_debounceKeys dk s)
  | Some (false, dk) =>
    let s1 := set_debounceKeys dk s in
    match find_index 6 0 (fun n => nth n (usbKeys s) 0 =? 60) with
    | Some _ => Some (true, s1)
    | None =>
      match find_index 6 0 (fun n => nth n (usbKeys s) 0 =? -1) with
      | None => Some (false, s1)
      | Some slot => Some (true, install slot 60 keyCode false s1)
      end
    end
  end.
Proof.
  intros Hc. unfold CBM64.setKey, debounce, index. unfold_m.
  destruct (keysUsed s =? 6); auto.
  destruct (debounce_table 60 (debounceKeys s)) as [[[|] dk]|]; auto.
  simpl.
  destruct (find_index 6 0 (fun n => nth n (usbKeys s) 0 =? 60)); auto.
  destruct (find_index 6 0 (fun n => nth n (usbKeys s) 0 =? -1)) as [slot|] eqn:E; auto.
  apply find_index_Some in E. destruct E as (Hslot & _).
  destruct (Z.eqb_spec keyCode 0); [contradiction|]. simpl.
  rewrite set_key_switch_eq by lia. reflexivity.
Qed.

Lemma CBM64_checkRelease_60 (s : state) :
  CBM64.checkRelease 60 s =
  match debounce_table 60 (debounceKeys s) with
  | None => None
  | Some (true, dk) => Some (tt, set_debounceKeys dk s)
  | Some (false, dk) =>
    let s1 := set_debounceKeys dk s in
    match find_index 6 0 (fun n => nth n (usbKeys s) 0 =? 60) with
    | None => Some (tt, s1)
    | Some slot => Some (tt, release slot false s1)
    end
  end.
Proof.
  unfold CBM64.checkRelease, debounce, index. unfold_m.
  destruct (debounce_table 60 (debounceKeys s)) as [[[|] dk]|]; auto.
  simpl.
  destruct (find_index 6 0 (fun n => nth n (usbKeys s) 0 =? 60)) as [slot|] eqn:E; auto.
  apply find_index_Some in E. destruct E as (Hslot & _).
  simpl. rewrite set_key_switch_eq by lia. reflexivity.
Qed.

(** Two consecutive calls of debounce for a key that an entry tracks:
    their results by the countdown of the entry. *)
Lemma debounce_table_twice (keyId : Z) (dk : list (Z * Z)) (i : nat) :
  length dk = 6%nat -> tracked_at keyId dk i ->
  let c := snd (nth i dk (0, 0)) in
  let dk1 := upd i (keyId, snd (countdown_step c)) dk in
  debounce_table keyId dk = Some (fst (countdown_step c), dk1) /\
  debounce_table keyId dk1 =
    Some (fst (countdown_step (snd (countdown_step c))),
          upd i (keyId, snd (countdown_step (snd (countdown_step c)))) dk).
Proof.
  intros Hlen Ht. cbv zeta. split; [apply debounce_table_tracked; exact Ht|].
  destruct (tracked_at_upd keyId
              (snd (countdown_step (snd (nth i dk (0, 0))))) dk i Ht Hlen)
    as (Ht1 & Hc1).
  rewrite (debounce_table_tracked _ _ _ Ht1), Hc1, upd_upd. reflexivity.
Qed.

(** A pointer-up press as its two calls of setKey, and a release as its
    two calls of checkRelease. *)
Lemma CBM64_pointer_up_calls (s : state) :
  CBM64.parseSpecial 60 LOW s =
  match CBM64.setKey 60 KEY_BACKSLASH
          (set_serial (serial s ++ ["parseSpecial> pointer up"%string]) s) with
  | None => None
  | Some (_, s1) =>
    match CBM64.setKey 60 (if lShift s1 || rShift s1 then KEY_END else KEY_HOME)
            (set_serial (serial s1 ++ ["parseSpecial> clr home"%string]) s1) with
    | None => None
    | Some (_, s2) => Some (true, s2)
    end
  end /\
  CBM64.parseSpecial 60 HIGH s =
  match CBM64.checkRelease 60 s with
  | None => None
  | Some (_, s1) =>
    match CBM64.checkRelease 60 s1 with
    | None => None
    | Some (_, s2) => Some (true, s2)
    end
  end.
Proof.
  split.
  - unfold CBM64.parseSpecial, bind at 1.
    change (switch CBM64.cases 60 LOW false s)
      with (then_ (CBM64.case_60 60 LOW false)
              (fun b => then_ (CBM64.case_69 60 LOW b)
                          (fun b' => ret (Next b'))) s).
    unfold then_, CBM64.case_60, CBM64.case_69, Serial_println.
    unfold_m. simpl.
    match goal with |- context [CBM64.setKey 60 KEY_BACKSLASH ?st] =>
      destruct (CBM64.setKey 60 KEY_BACKSLASH st) as [[r1 s1]|] end;
      [|reflexivity].
    simpl. destruct (lShift s1 || rShift s1);
      match goal with |- context [CBM64.setKey 60 ?c ?st] =>
        destruct (CBM64.setKey 60 c st) as [[r2 s2]|] end; reflexivity.
  - unfold CBM64.parseSpecial, bind at 1.
    change (switch CBM64.cases 60 HIGH false s)
      with (then_ (CBM64.case_60 60 HIGH false)
              (fun b => then_ (CBM64.case_69 60 HIGH b)
                          (fun b' => ret (Next b'))) s).
    unfold then_, CBM64.case_60, CBM64.case_69.
    unfold_m. simpl.
    destruct (CBM64.checkRelease 60 s) as [[[] s1]|]; [|reflexivity].
    destruct (CBM64.checkRelease 60 s1) as [[[] s2]|]; reflexivity.
Qed.

Lemma countdown_step_twice (c : Z) :
  -128 <= c <= 127 ->
  fst (countdown_step c) = negb (c =? 1) /\
  fst (countdown_step (snd (countdown_step c))) = negb (c =? 2).
Proof.
  intros Hc. unfold countdown_step.
  destruct (Z.eqb_spec c 1) as [->|H1]; [split; reflexivity|].
  simpl. split; [reflexivity|].
  destruct (Z.eq_dec c (-128)) as [->|Hm]; [reflexivity|].
  rewrite int8_small by lia.
  destruct (Z.eqb_spec c 2) as [->|H2]; [reflexivity|].
  destruct (Z.eqb_spec (c - 1) 1); [lia | reflexivity].
Qed.

Lemma key_codes_nonzero :
  KEY_BACKSLASH <> 0 /\ KEY_END <> 0 /\ KEY_HOME <> 0.
Proof. repeat split; discriminate. Qed.

(** A pointer-up press with an entry of the debounce table tracking key
    60, the key not held and a slot free: the key is installed with
    KEY_BACKSLASH when the countdown is 1, with KEY_END or KEY_HOME when
    it is 2, and not at all otherwise. *)
Lemma CBM64_pointer_up_press (s : state) (i slot : nat) (c : Z) :
  length (debounceKeys s) = 6%nat -> length (usbKeys s) = 6%nat ->
  tracked_at 60 (debounceKeys s) i ->
  snd (nth i (debounceKeys s) (0, 0)) = c -> -128 <= c <= 127 ->
  keysUsed s <> 6 -> ~ In 60 (usbKeys s) -> first_free (usbKeys s) slot ->
  exists s', CBM64.parseSpecial 60 LOW s = Some (true, s') /\
    usbKeys s' = (if (c =? 1) || (c =? 2) then upd slot 60 (usbKeys s)
                  else usbKeys s) /\
    kbKeys s' =
      (if c =? 1 then upd slot KEY_BACKSLASH (kbKeys s)
       else if c =? 2
            then upd slot (if lShift s || rShift s then KEY_END else KEY_HOME)
                   (kbKeys s)
            else kbKeys s).
Proof.
  intros Hdk Hu Ht Hc Hr Hused Hnot Hfree.
  destruct (debounce_table_twice 60 (debounceKeys s) i Hdk Ht) as (D1 & D2).
  rewrite Hc in D1, D2.
  destruct (countdown_step_twice c Hr) as (F1 & F2). rewrite F1 in D1. rewrite F2 in D2.
  destruct key_codes_nonzero as (N1 & N2 & N3).
  apply first_free_find in Hfree.
  pose proof (not_held_find _ _ Hu Hnot) as Hheld.
  rewrite (proj1 (CBM64_pointer_up_calls s)).
  rewrite CBM64_setKey_60 by exact N1.
  cbn [keysUsed set_serial debounceKeys usbKeys].
  destruct (Z.eqb_spec (keysUsed s) 6) as [|_]; [contradiction|].
  rewrite D1. destruct (Z.eqb_spec c 1) as [->|H1]; simpl negb; cbv iota.
  - (* admitted at once *)
    cbv zeta. rewrite Hheld, Hfree.
    match goal with
    | |- context [CBM64.setKey 60 ?code ?st] =>
      rewrite (CBM64_setKey_60 code st)
        by (destruct (lShift _ || rShift _); assumption)
    end.
    cbn [keysUsed set_serial install set_kbKeys set_keyStateChange
         set_modifiers set_keysUsed set_usbKeys set_debounceKeys debounceKeys].
    destruct (uint8 (keysUsed s + 1) =? 6).
    + eexists. split; [reflexivity|]. simpl. auto.
    + rewrite D2. simpl negb. cbv iota.
      eexists. split; [reflexivity|]. simpl. auto.
  - (* suppressed first *)
    match goal with
    | |- context [CBM64.setKey 60 ?code ?st] =>
      rewrite (CBM64_setKey_60 code st)
        by (destruct (lShift _ || rShift _); assumption)
    end.
    cbn [keysUsed set_serial set_debounceKeys debounceKeys usbKeys lShift rShift].
    destruct (Z.eqb_spec (keysUsed s) 6) as [|_]; [contradiction|].
    rewrite D2. destruct (Z.eqb_spec c 2) as [->|H2]; simpl negb; cbv iota.
    + cbv zeta. cbn [usbKeys set_serial set_debounceKeys].
      rewrite Hheld, Hfree.
      eexists. split; [reflexivity|]. simpl. auto.
    + eexists. split; [reflexivity|]. simpl. auto.
Qed.

Lemma held_at_find (keys : list Z) (keyId : Z) (slot : nat) :
  held_at keys keyId slot <->
  find_index 6 0 (fun n => nth n keys 0 =? keyId) = Some slot.
Proof.
  split.
  - intros (Hi & Hk & Hf). apply find_index_first; [lia | apply Z.eqb_eq; auto |].
    intros k Hk'. apply Z.eqb_neq. apply Hf. lia.
  - intros H. apply find_index_Some in H. destruct H as (Hi & Hk & Hf).
    split; [lia|]. split; [apply Z.eqb_eq; auto|].
    intros j Hj. apply Z.eqb_neq. apply Hf. lia.
Qed.

(** A pointer-up release with an entry tracking key 60 and the key held:
    the slot is freed when the countdown is 1 or 2, and not otherwise. *)
Lemma CBM64_pointer_up_release (s : state) (i slot : nat) (c : Z) :
  length (debounceKeys s) = 6%nat ->
  tracked_at 60 (debounceKeys s) i ->
  snd (nth i (debounceKeys s) (0, 0)) = c -> -128 <= c <= 127 ->
  held_at (usbKeys s) 60 slot ->
  exists s', CBM64.parseSpecial 60 HIGH s = Some (true, s') /\
    usbKeys s' = (if (c =? 1) || (c =? 2) then upd slot (-1) (usbKeys s)
                  else usbKeys s) /\
    kbKeys s' = (if (c =? 1) || (c =? 2) then upd slot 0 (kbKeys s)
                 else kbKeys s).
Proof.
  intros Hdk Ht Hc Hr Hheld.
  destruct (debounce_table_twice 60 (debounceKeys s) i Hdk Ht) as (D1 & D2).
  rewrite Hc in D1, D2.
  destruct (countdown_step_twice c Hr) as (F1 & F2). rewrite F1 in D1. rewrite F2 in D2.
  apply held_at_find in Hheld.
  rewrite (proj2 (CBM64_pointer_up_calls s)).
  rewrite CBM64_checkRelease_60, D1.
  destruct (Z.eqb_spec c 1) as [->|H1]; simpl negb; cbv iota.
  - cbv zeta. rewrite Hheld. rewrite CBM64_checkRelease_60.
    cbn [release set_kbKeys set_keyStateChange set_modifiers set_keysUsed
         set_usbKeys set_debounceKeys debounceKeys].
    rewrite D2. simpl negb. cbv iota.
    eexists. split; [reflexivity|]. simpl. auto.
  - rewrite CBM64_checkRelease_60.
    cbn [set_debounceKeys debounceKeys usbKeys].
    rewrite D2. destruct (Z.eqb_spec c 2) as [->|H2]; simpl negb; cbv iota.
    + cbv zeta. rewrite Hheld.
      eexists. split; [reflexivity|]. simpl. auto.
    + eexists. split; [reflexivity|]. simpl. auto.
Qed.

(** A pointer-up press with no entry tracking key 60 and an entry idle:
    the first call of debounce arms the entry, the second counts it down
    to 1, and nothing is installed. *)
Lemma CBM64_pointer_up_untracked (s : state) (i : nat) :
  length (debounceKeys s) = 6%nat ->
  untracked 60 (debounceKeys s) -> idle_at (debounceKeys s) i ->
  keysUsed s <> 6 ->
  exists s', CBM64.parseSpecial 60 LOW s = Some (true, s') /\
    usbKeys s' = usbKeys s /\ kbKeys s' = kbKeys s /\
    debounceKeys s' = upd i (60, 1) (debounceKeys s).
Proof.
  intros Hdk Hu Hi Hused.
  destruct key_codes_nonzero as (N1 & N2 & N3).
  assert (D1 : debounce_table 60 (debounceKeys s) =
               Some (true, upd i (60, 2) (debounceKeys s))).
  { apply debounce_arms_untracked;
      [apply untracked_find; exact Hu | apply idle_at_find; exact Hi]. }
  assert (Ht : tracked_at 60 (upd i (60, 2) (debounceKeys s)) i).
  { destruct Hi as (Hlt & _). split; [exact Hlt|].
    rewrite nth_upd_same by lia. split; [reflexivity|].
    intros j Hj. rewrite nth_upd_other by lia. apply Hu. lia. }
  assert (D2 : debounce_table 60 (upd i (60, 2) (debounceKeys s)) =
               Some (true, upd i (60, 1) (debounceKeys s))).
  { rewrite (debounce_table_tracked _ _ _ Ht).
    destruct Hi as (Hlt & _).
    rewrite nth_upd_same by lia. rewrite upd_upd. reflexivity. }
  rewrite (proj1 (CBM64_pointer_up_calls s)).
  rewrite CBM64_setKey_60 by exact N1.
  cbn [keysUsed set_serial debounceKeys usbKeys].
  destruct (Z.eqb_spec (keysUsed s) 6) as [|_]; [contradiction|].
  rewrite D1.
  match goal with
  | |- context [CBM64.setKey 60 ?code ?st] =>
    rewrite (CBM64_setKey_60 code st)
      by (destruct (lShift _ || rShift _); assumption)
  end.
  cbn [keysUsed set_serial set_debounceKeys debounceKeys usbKeys lShift rShift].
  destruct (Z.eqb_spec (keysUsed s) 6) as [|_]; [contradiction|].
  rewrite D2. eexists. split; [reflexivity|]. simpl. auto.
Qed.

(** A pointer-up press with the report buffer full: both calls of setKey
    return at the 6-key limit. *)
Lemma CBM64_pointer_up_full (s : state) :
  keysUsed s = 6 ->
  exists s', CBM64.parseSpecial 60 LOW s = Some (true, s') /\
    usbKeys s' = usbKeys s /\ kbKeys s' = kbKeys s /\
    debounceKeys s' = debounceKeys s.
Proof.
  intros Hused. destruct key_codes_nonzero as (N1 & N2 & N3).
  rewrite (proj1 (CBM64_pointer_up_calls s)).
  rewrite CBM64_setKey_60 by exact N1.
  cbn [keysUsed set_serial]. rewrite Hused. simpl.
  match goal with
  | |- context [CBM64.setKey 60 ?code ?st] =>
    rewrite (CBM64_setKey_60 code st)
      by (destruct (lShift _ || rShift _); assumption)
  end.
  cbn [keysUsed set_serial]. rewrite Hused. simpl.
  eexists. split; [reflexivity|]. simpl. auto.
Qed.

(** setKey for a key that is already held writes neither usbKeys nor the
    pending key codes. *)
Lemma CBM64_setKey_60_held (keyCode : Z) (s s' : state) (r : bool) :
  keyCode <> 0 -> length (usbKeys s) = 6%nat -> In 60 (usbKeys s) ->
  CBM64.setKey 60 keyCode s = Some (r, s') ->
  usbKeys s' = usbKeys s /\ kbKeys s' = kbKeys s /\ lShift s' = lShift s /\
  rShift s' = rShift s /\ serial s' = serial s.
Proof.
  intros Hc Hlen Hin H. rewrite CBM64_setKey_60 in H by exact Hc.
  destruct (held_slot_found _ _ Hlen Hin) as (slot & Hs).
  destruct (keysUsed s =? 6); [inversion H; subst; auto 10|].
  destruct (debounce_table 60 (debounceKeys s)) as [[[|] dk]|];
    [inversion H; subst; auto 10 | | discriminate].
  cbv zeta in H. rewrite Hs in H. inversion H; subst; auto 10.
Qed.

(** A pointer-up press with the key already held: neither call of setKey
    writes the report buffer. *)
Lemma CBM64_pointer_up_held_press (s s' : state) (r : bool) :
  length (usbKeys s) = 6%nat -> In 60 (usbKeys s) ->
  CBM64.parseSpecial 60 LOW s = Some (r, s') ->
  usbKeys s' = usbKeys s /\ kbKeys s' = kbKeys s.
Proof.
  intros Hlen Hin H. destruct key_codes_nonzero as (N1 & N2 & N3).
  rewrite (proj1 (CBM64_pointer_up_calls s)) in H.
  destruct (CBM64.setKey 60 KEY_BACKSLASH _) as [[r1 s1]|] eqn:E1;
    [|discriminate].
  apply CBM64_setKey_60_held in E1; auto.
  destruct E1 as (U1 & K1 & _).
  cbn [usbKeys kbKeys set_serial] in U1, K1.
  destruct (CBM64.setKey 60 _ _) as [[r2 s2]|] eqn:E2; [|discriminate].
  apply CBM64_setKey_60_held in E2;
    [ | destruct (lShift s1 || rShift s1); assumption
      | cbn [usbKeys set_serial]; congruence
      | cbn [usbKeys set_serial]; congruence ].
  destruct E2 as (U2 & K2 & _).
  cbn [usbKeys kbKeys set_serial] in U2, K2.
  inversion H; subst. split; congruence.
Qed.

(** C9, as the code has it.  In the CBM 64 driver the block of case 60 has
    no break: (1) a call of parseSpecial with keyId 60 runs the statements
    of case 60 and then, in the same call and with the same keyId, those
    of case 69: a press calls setKey(60, KEY_BACKSLASH) and then
    setKey(60, KEY_END) or setKey(60, KEY_HOME) by the Shift latches, a
    release calls checkRelease(60) twice.  Each of the two calls passes
    the debounce gate on its own, so the countdown of the key is stepped
    twice per call: (2) a press, with an entry tracking the key, the key
    not held and a slot free, installs the key with KEY_BACKSLASH when the
    countdown is 1 (the second call installs nothing), with KEY_END or
    KEY_HOME when the countdown is 2 (the first call is suppressed, the
    second admitted), and does not install it otherwise; (3) a release of
    the held key frees its slot when the countdown is 1 or 2; (4) with no
    entry tracking the key and an entry idle, (5) with the report buffer
    full, and (6) with the key already held, a press writes neither
    usbKeys nor the pending key codes. *)
Theorem cbm64_pointer_up_falls_through :
  (forall (level : bool) (s : state),
     CBM64.parseSpecial 60 level s =
     ((if Bool.eqb level LOW
       then Serial_println "parseSpecial> pointer up" ;;
            CBM64.setKey 60 KEY_BACKSLASH ;; ret tt
       else CBM64.checkRelease 60) ;;
      (if Bool.eqb level LOW
       then Serial_println "parseSpecial> clr home" ;;
            l <- get lShift ;;
            r <- get rShift ;;
            (if l || r then CBM64.setKey 60 KEY_END else CBM64.setKey 60 KEY_HOME) ;;
            ret tt
       else CBM64.checkRelease 60) ;;
      ret true) s) /\
  (forall (s : state) (i slot : nat) (c : Z),
     length (debounceKeys s) = 6%nat -> length (usbKeys s) = 6%nat ->
     tracked_at 60 (debounceKeys s) i ->
     snd (nth i (debounceKeys s) (0, 0)) = c -> -128 <= c <= 127 ->
     keysUsed s <> 6 -> ~ In 60 (usbKeys s) -> first_free (usbKeys s) slot ->
     exists s', CBM64.parseSpecial 60 LOW s = Some (true, s') /\
       usbKeys s' = (if (c =? 1) || (c =? 2) then upd slot 60 (usbKeys s)
                     else usbKeys s) /\
       kbKeys s' =
         (if c =? 1 then upd slot KEY_BACKSLASH (kbKeys s)
          else if c =? 2
               then upd slot (if lShift s || rShift s then KEY_END else KEY_HOME)
                      (kbKeys s)
               else kbKeys s)) /\
  (forall (s : state) (i slot : nat) (c : Z),
     length (debounceKeys s) = 6%nat ->
     tracked_at 60 (debounceKeys s) i ->
     snd (nth i (debounceKeys s) (0, 0)) = c -> -128 <= c <= 127 ->
     held_at (usbKeys s) 60 slot ->
     exists s', CBM64.parseSpecial 60 HIGH s = Some (true, s') /\
       usbKeys s' = (if (c =? 1) || (c =? 2) then upd slot (-1) (usbKeys s)
                     else usbKeys s) /\
       kbKeys s' = (if (c =? 1) || (c =? 2) then upd slot 0 (kbKeys s)
                    else kbKeys s)) /\
  (forall (s : state) (i : nat),
     length (debounceKeys s) = 6%nat ->
     untracked 60 (debounceKeys s) -> idle_at (debounceKeys s) i ->
     keysUsed s <> 6 ->
     exists s', CBM64.parseSpecial 60 LOW s = Some (true, s') /\
       usbKeys s' = usbKeys s /\ kbKeys s' = kbKeys s /\
       debounceKeys s' = upd i (60, 1) (debounceKeys s)) /\
  (forall s : state,
     keysUsed s = 6 ->
     exists s', CBM64.parseSpecial 60 LOW s = Some (true, s') /\
       usbKeys s' = usbKeys s /\ kbKeys s' = kbKeys s /\
       debounceKeys s' = debounceKeys s) /\
  (forall (s s' : state) (r : bool),
     length (usbKeys s) = 6%nat -> In 60 (usbKeys s) ->
     CBM64.parseSpecial 60 LOW s = Some (r, s') ->
     usbKeys s' = usbKeys s /\ kbKeys s' = kbKeys s).
Proof.
  split; [|split; [|split; [|split; [|split]]]].
  - apply CBM64_parseSpecial_60.
  - apply CBM64_pointer_up_press.
  - apply CBM64_pointer_up_release.
  - apply CBM64_pointer_up_untracked.
  - apply CBM64_pointer_up_full.
  - apply CBM64_pointer_up_held_press.
Qed.

Lemma cbm64_pointer_up_falls_through_witness :
  (exists s1 s2,
     CBM64.parseSpecial 60 LOW initial = Some (true, s1) /\
     kbKeys s1 = [0; 0; 0; 0; 0; 0] /\
     CBM64.parseSpecial 60 LOW s1 = Some (true, s2) /\
     usbKeys s2 = [60; -1; -1; -1; -1; -1] /\
     kbKeys s2 = [KEY_BACKSLASH; 0; 0; 0; 0; 0]) /\
  (exists s',
     CBM64.parseSpecial 60 LOW cbm64_pointer_up_armed = Some (true, s') /\
     usbKeys s' = [60; -1; -1; -1; -1; -1] /\
     kbKeys s' = [KEY_HOME; 0; 0; 0; 0; 0]) /\
  (exists s',
     CBM64.parseSpecial 60 HIGH cbm64_pointer_up_held = Some (true, s') /\
     usbKeys s' = [-1; -1; -1; -1; -1; -1] /\
     kbKeys s' = [0; 0; 0; 0; 0; 0]).
Proof.
  destruct cbm64_pointer_up_falls_through
    as (_ & Hpress & Hrelease & Hnew & _ & _).
  split; [|split].
  - destruct (Hnew initial 0%nat) as (s1 & E1 & _ & K1 & _);
      [ reflexivity
      | apply untracked_find; reflexivity
      | apply idle_at_find; reflexivity
      | discriminate |].
    exists s1.
    assert (Es : s1 = set_debounceKeys [(60, 1); (0, 0); (0, 0); (0, 0); (0, 0); (0, 0)]
                        (set_serial ["parseSpecial> pointer up"%string;
                                     "parseSpecial> clr home"%string] initial))
      by (vm_compute in E1; inversion E1; reflexivity).
    destruct (Hpress s1 0%nat 0%nat 1) as (s2 & E2 & U2 & K2);
      try (rewrite Es; reflexivity);
      [ rewrite Es; apply tracked_at_find; reflexivity
      | lia
      | rewrite Es; discriminate
      | rewrite Es; simpl; intuition discriminate
      | rewrite Es; apply first_free_find; reflexivity |].
    exists s2. split; [exact E1|]. split; [exact K1|]. split; [exact E2|].
    rewrite U2, K2, Es. split; reflexivity.
  - destruct (Hpress cbm64_pointer_up_armed 0%nat 0%nat 2) as (s' & E & U & K);
      try reflexivity;
      [ apply tracked_at_find; reflexivity
      | lia
      | discriminate
      | simpl; intuition discriminate
      | apply first_free_find; reflexivity |].
    exists s'. split; [exact E|]. rewrite U, K. split; reflexivity.
  - destruct (Hrelease cbm64_pointer_up_held 1%nat 0%nat 1) as (s' & E & U & K);
      try reflexivity;
      [ apply tracked_at_find; reflexivity
      | lia
      | apply held_at_find; reflexivity |].
    exists s'. split; [exact E|]. rewrite U, K. split; reflexivity.
Defined.

(** C9 as stated fails: a pointer-up press does not install KEY_END or
    KEY_HOME beside KEY_BACKSLASH.  From power-up, with no Shift latch held,
    the first call for the pressed key installs nothing and the second
    installs the key with KEY_BACKSLASH alone: the setKey call of the
    clr-home block stepped the countdown and was suppressed. *)
Lemma cbm64_pointer_up_press_without_home :
  lShift initial || rShift initial = false /\
  exists s1 s2,
    CBM64.parseSpecial 60 LOW initial = Some (true, s1) /\
    kbKeys s1 = [0; 0; 0; 0; 0; 0] /\
    CBM64.parseSpecial 60 LOW s1 = Some (true, s2) /\
    usbKeys s2 = [60; -1; -1; -1; -1; -1] /\
    kbKeys s2 = [KEY_BACKSLASH; 0; 0; 0; 0; 0] /\
    ~ In KEY_HOME (kbKeys s1) /\ ~ In KEY_END (kbKeys s1) /\
    ~ In KEY_HOME (kbKeys s2) /\ ~ In KEY_END (kbKeys s2).
Proof.
  split; [reflexivity|].
  eexists. eexists. split; [vm_compute; reflexivity|].
  split; [reflexivity|]. split; [vm_compute; reflexivity|].
  split; [reflexivity|]. split; [reflexivity|].
  repeat split; vm_compute; intuition discriminate.
Qed.
